(* ===== verification/_CoqProject ===== *)
-Q . S2P
Prelude.v
Arith256.v
Uint256.v
Serialize.v
Transaction.v
Script.v
Interpreter.v
ScriptRules.v
ScriptSafety.v
HashBlock.v
Sha256.v
Sha1.v
Ripemd160.v
Standard.v
Merkle.v
Compact.v
Coins.v
Undo.v
Compressor.v
Chain.v
ActiveChain.v
VersionBits.v
Params.v
MerkleBlock.v
TxCheck.v
SigHash.v
Pow.v
Kernel.v
BlockStorage.v
HeaderCheck.v
ChainSelect.v
BestChain.v
ReceiveBlock.v
BlockCheck.v
StakePolicy.v
StakeTarget.v
StakeWallet.v
DoubleSign.v
AcceptBlock.v
MnList.v
Service.v
