(* ===== verification/Prelude.v ===== *)
(** * DeFCoN Core: a verification of its consensus and staking code

    DeFCoN Core is a C++ node for a proof-of-stake chain with masternodes. This
    library translates parts of it, file by file, into executable definitions
    and proves them correct. Definitions keep the names of the source.

    ** The parts of the program and the files that model them

    Numbers and bytes
    - [Arith256], [Compact]: src/src/arith_uint256.{h,cpp}. The 256-bit integer
      is the array of eight 32-bit limbs of the source; [val] reads it as a
      number. [SetCompact] and [GetCompact] are the 32-bit encoding of targets.
    - [Uint256]: src/src/uint256.h, src/src/crypto/common.h.
    - [Serialize]: src/src/serialize.h. A stream is a list of bytes; the class
      [Codec] is the pair [Serialize]/[Unserialize] with its round trip as law.
    - [Transaction]: src/src/primitives/transaction.{h,cpp}.

    Hashes
    - [HashBlock]: the buffering that CSHA256, CSHA1 and CRIPEMD160 share, over the
      class [BlockHash]; [Sha256], [Sha1], [Ripemd160]: src/src/crypto/sha256.{h,cpp},
      sha1.cpp and ripemd160.cpp, with the hashes of src/src/hash.h.
    - [Merkle]: src/src/consensus/merkle.cpp; [MerkleBlock]: src/src/merkleblock.{h,cpp}.

    Scripts
    - [Script]: src/src/script/script.{h,cpp}; opcodes, script numbers, parsing.
    - [Interpreter]: src/src/script/interpreter.{h,cpp}; every opcode,
      [EvalScript], [VerifyScript]. The classes [Crypto] and [SignatureChecker]
      are what the machine asks of the hashes, the curves and the transaction.
    - [ScriptRules], [ScriptSafety]: theorems about the machine.
    - [SigHash]: the serializer of the signed transaction and the checker for an
      input, which discharges the laws the machine asks for.
    - [Standard]: src/src/script/standard.{h,cpp}; standard scripts and addresses.

    The coin set
    - [Coins]: src/src/coins.{h,cpp}, [CCoinsViewDB] of src/src/txdb.cpp. The
      class [CoinsView] is the virtual interface, [CoinsViewLaws] its contract.
    - [Undo]: [UpdateCoins], [ApplyTxInUndo] and the coin loops of [ConnectBlock]
      and [DisconnectBlock] in src/src/validation.cpp, src/src/undo.h.
    - [Compressor]: src/src/compressor.{h,cpp}, the forms on disk.

    The chain
    - [Chain], [ActiveChain]: src/src/chain.{h,cpp}. The block index is a map from
      hashes to entries, and a pointer to an entry is its hash.
    - [BlockStorage]: [AddToBlockIndex] of src/src/node/blockstorage.cpp.
    - [Params]: src/src/consensus/params.h and the main network's values.
    - [TxCheck]: src/src/consensus/tx_check.cpp and tx_verify.cpp.
    - [Pow]: src/src/pow.cpp.
    - [VersionBits]: src/src/versionbits.{h,cpp}; the class [ThresholdChecker] is the
      virtual interface of a deployment.
    - [HeaderCheck], [BlockCheck]: the rules of headers and blocks in
      src/src/validation.cpp, from [CheckBlockHeader] to [ProcessNewBlockHeaders]
      and from [CheckBlock] to [ContextualCheckBlock], with [CheckBlockSignature] of
      src/src/node/miner.cpp.
    - [ChainSelect]: the choice of the active chain in src/src/validation.cpp, from
      [FindMostWorkChain] to [ActivateBestChain]. The class [BlockConnector] stands
      for the rules of [ConnectBlock] and [DisconnectBlock] and the world they read,
      coins and locks included; nothing is asked of it. What [ConnectBlock] writes to
      the entry of a block is modelled, and the answers are kept in a log.
      [BestChain], [ReceiveBlock]: what the choice and [ReceivedBlockTransactions]
      preserve.
    - [AcceptBlock]: [AcceptBlock] and [ProcessNewBlock], and the node as a whole.

    Staking
    - [Kernel]: src/src/pos/kernel.{h,cpp}.
    - [StakePolicy], [StakeTarget], [StakeWallet]: src/src/pos/stake.{h,cpp}; the
      shape of a coinstake, the target size in IEEE doubles, and the wallet's
      side from the selection of coins to the signed coinstake.
    - [DoubleSign]: src/src/pos/doublesign.{h,cpp}.

    Masternodes
    - [MnList]: src/src/evo/deterministicmns.{h,cpp}, src/src/evo/dmnstate.h.
    - [Service]: src/src/evo/pose_service.{h,cpp}, pose_service_sentinels.{h,cpp}.

    They build on each other as the code does: a block header is checked
    ([HeaderCheck]) and enters the index ([BlockStorage]), the block follows
    ([BlockCheck], [Merkle]), its data is linked and the best chain activated
    ([AcceptBlock], [ChainSelect]), its target comes from the chain before it ([Pow]), its
    stake from a coin of the coin set ([Kernel], [Coins]), its transactions are
    checked against the coins they spend ([TxCheck], [Interpreter], [SigHash]) and
    change the coin set ([Undo]); the wallet searches for a stake that the
    consensus rules accept ([StakeWallet]); epochs of reports move the state of
    the masternodes ([Service], [MnList]).

    ** How the code is modelled

    Integers are [Z]; casts and overflowing operations are the reductions [u8] to
    [i64] of this file. Fallible code returns [option]; code with assertions or
    exceptions returns [outcome] ([Ret] or [Abort]); the script machine returns
    [eval], which separates script errors from failed assertions. Mutable objects
    are records that operations take and return. Signatures, key stores, the
    clock and the database are arguments or classes, with what is asked of them as
    named hypotheses; so are the hashes in the files that only use them.
    Every property with hypotheses has a witness.

    ** What the theorems show

    - Arithmetic: each operator on limbs computes the operation on numbers modulo
      2^256; the compact encoding is exact and rounds down.
    - Formats: integers, transactions, script numbers, coins and undo records
      read back; the places where the format is not injective are stated.
    - Hashes: each hash computes the function its authors define, however the data
      is cut; the double hash with folded constants is the plain one; a Merkle root
      without a report of mutation binds its leaves, given that the transformations
      that hash several blocks at once hash each of them; partial trees prove what
      they say and read back.
    - Chain: skip pointers agree with the walk along predecessors; every index
      reachable by adding headers is well formed; the next target is the
      formula with its product modulo 2^256, and with the numbers of the networks it is
      that of unbounded integers, although the product does overflow after slow
      proof-of-work blocks; the cache of a deployment never changes its state, which
      only moves forward.
    - Validation: every entry of a reachable block index satisfies the rules of
      headers, and [CheckBlock] accepts exactly the blocks that satisfy the rules of
      blocks, never failing an assertion. Whatever headers and blocks arrive, and
      whatever connecting blocks answers, the active chain consists of blocks that
      were connected, no block is marked without a reason, and the handlers return;
      the active chain is the best of the complete chains as long as no connected
      block was refused later, as a ChainLock or an InstantSend lock that arrives can
      make it, and nothing failed. This needs that work accumulates in the index, that
      the genesis block is not refused and that the index holds fewer than 2^32
      transactions.
    - Scripts: flags only ever restrict; no script fails an assertion or exceeds
      the limits; the condition stack refines a stack of booleans; CHECKMULTISIG
      succeeds exactly when the signatures match keys in order; a payment to a
      script hash is spent exactly by revealing the script; the bytes that are
      signed are those of the masked transaction, and those of a transaction that can
      be serialized commit to all of it and to the code without separators; the
      lock-time opcodes imply the rules of the chain; [Solver] recognises exactly
      the standard scripts, and addresses and scripts translate back and forth.
    - Coins: a stack of caches over a database refines one map; a write that
      crashes can be resumed; disconnecting a block undoes connecting it.
    - Staking: the kernel test is the stated inequality; what the wallet finds the
      validation accepts; a coinstake conserves value, respects the policy, and
      combines only outputs of the wallet that are spendable and mature.
    - Masternodes: the list and its indexes agree in every reachable state; a
      service commitment moves each masternode as the specification says; the
      aggregation counts each sentinel once; the selection is the reference one.

    ** Fuel and bounds

    A loop that is not structural takes fuel computed from its data: the length of
    the script (each operation takes a byte), the height of the entry for the walk
    along the chain, the ten bytes of a variable-length integer, the 256 bits of a
    division, the square of the number of blocks for the choice of a chain (each
    turn marks a block as failed or improves the tip). Each is shown to be enough where
    a theorem says what the loop returns; running out is [Abort] or [Crash], which the theorems exclude.

    ** Not modelled

    The network, the memory pool, the rest of validation (the assembly of
    [ConnectBlock] with its assertions, [CheckBlockIndex], special transactions, indexes, notifications, pruning, and the
    changes of a chain that an operator or a ChainLock forces), quorums, governance,
    coinjoin, the database behind the masternode list, RPC and the graphical interface are threads, locks and
    I/O around the parts above. Elliptic curve and BLS operations are libraries.

    ** This file

    Shared notation, machine integers, automation and list lemmas. *)

From Stdlib Require Import ZArith Lia.
From stdpp Require Import base list numbers option sets sorting.

#[global] Open Scope Z_scope.

(** ** Machine integers

    A w-bit unsigned integer is a [Z] in [0, 2^w); a cast or an overflowing
    unsigned operation is written out as a reduction. *)

Declare Scope machine_scope.
Delimit Scope machine_scope with mach.

Definition u8 (z : Z) : Z := z mod 2^8.
Definition u32 (z : Z) : Z := z mod 2^32.
Definition u64 (z : Z) : Z := z mod 2^64.
(** Two's complement reading of a 16-, 32- and 64-bit pattern. *)
Definition u16 (z : Z) : Z := z mod 2^16.
Definition i16 (z : Z) : Z := (z + 2^15) mod 2^16 - 2^15.
Definition i32 (z : Z) : Z := (z + 2^31) mod 2^32 - 2^31.
Definition i64 (z : Z) : Z := (z + 2^63) mod 2^64 - 2^63.

Definition INT_MAX : Z := 2^31 - 1.
Definition INT64_MAX : Z := 2^63 - 1.

Definition is_u32 (z : Z) : Prop := 0 <= z < 2^32.
Definition is_u64 (z : Z) : Prop := 0 <= z < 2^64.
Definition is_i64 (z : Z) : Prop := - 2^63 <= z < 2^63.
Definition is_u16 (z : Z) : Prop := 0 <= z < 2^16.
Definition is_i32 (z : Z) : Prop := - 2^31 <= z < 2^31.

(** ** Automation *)

Create HintDb word.
Create HintDb dsl.

(** Case analysis on the boolean comparisons of the goal and context. *)
Ltac bool_cases :=
  repeat match goal with
  | |- context [Z.leb ?a ?b] => destruct (Z.leb_spec a b)
  | |- context [Z.ltb ?a ?b] => destruct (Z.ltb_spec a b)
  | |- context [Z.eqb ?a ?b] => destruct (Z.eqb_spec a b)
  | |- context [Z.geb ?a ?b] => rewrite (Z.geb_leb a b)
  | |- context [Z.gtb ?a ?b] => rewrite (Z.gtb_ltb a b)
  end.

(** Turn boolean comparisons in the hypotheses into propositions. *)
Ltac bool_hyps :=
  repeat match goal with
  | H : (_ && _)%bool = true |- _ => apply andb_true_iff in H as [? ?]
  | H : (_ && _)%bool = false |- _ => apply andb_false_iff in H
  | H : (_ || _)%bool = true |- _ => apply orb_true_iff in H
  | H : (_ || _)%bool = false |- _ => apply orb_false_iff in H as [? ?]
  | H : negb _ = true |- _ => apply negb_true_iff in H
  | H : negb _ = false |- _ => apply negb_false_iff in H
  | H : (_ <=? _) = true |- _ => apply Z.leb_le in H
  | H : (_ <=? _) = false |- _ => apply Z.leb_gt in H
  | H : (_ <? _) = true |- _ => apply Z.ltb_lt in H
  | H : (_ <? _) = false |- _ => apply Z.ltb_ge in H
  | H : (_ =? _) = true |- _ => apply Z.eqb_eq in H
  | H : (_ =? _) = false |- _ => apply Z.eqb_neq in H
  | H : (_ >=? _) = true |- _ => rewrite Z.geb_leb in H
  | H : (_ >=? _) = false |- _ => rewrite Z.geb_leb in H
  | H : (_ >? _) = true |- _ => rewrite Z.gtb_ltb in H
  | H : (_ >? _) = false |- _ => rewrite Z.gtb_ltb in H
  end.

(** Bounds of a modulus in the context, for [lia] and [nia]. *)
Ltac mod_bound a m :=
  let H := fresh "Hmod" in
  assert (H : 0 <= a mod m < m) by (apply Z.mod_pos_bound; lia).

(** ** Counted loops

    [for_to n body s] runs [for (int i = 0; i < n; i++) body(i)] on state [s]. *)
Fixpoint for_to {S : Type} (n : nat) (body : nat -> S -> S) (s : S) : S :=
  match n with
  | O => s
  | Datatypes.S m => body m (for_to m body s)
  end.

(** The loop rule: an invariant indexed by the iteration counter. *)
Lemma for_to_inv {S : Type} (P : nat -> S -> Prop) n body (s : S) :
  P 0%nat s ->
  (forall i s', (i < n)%nat -> P i s' -> P (Datatypes.S i) (body i s')) ->
  P n (for_to n body s).
Proof.
  intros H0 Hstep. induction n as [|n IH]; [done|].
  simpl. apply Hstep; [lia|]. apply IH. intros i s' Hi. apply Hstep. lia.
Qed.

(** ** Bits and words *)

Lemma land_ones_u32 n : Z.land n 0xffffffff = n mod 2^32.
Proof. change 0xffffffff with (Z.ones 32). now apply Z.land_ones. Qed.

Lemma shiftr_32 n : Z.shiftr n 32 = n / 2^32.
Proof. now apply Z.shiftr_div_pow2. Qed.

(** Numbers with no common bit: their [and] is zero, their [or] the sum. *)
Lemma land_disjoint lo hi s : 0 <= s -> 0 <= lo < 2^s -> Z.land lo (hi * 2^s) = 0.
Proof.
  intros Hs Hlo. rewrite <- Z.shiftl_mul_pow2 by done.
  apply Z.bits_inj'. intros n Hn. rewrite Z.land_spec, Z.bits_0.
  destruct (Z.ltb_spec n s).
  - rewrite Z.shiftl_spec_low by done. apply andb_false_r.
  - rewrite <- (Z.mod_small lo (2^s)) by done.
    rewrite Z.mod_pow2_bits_high by lia. done.
Qed.

Lemma lor_disjoint_add lo hi s :
  0 <= s -> 0 <= lo < 2^s -> Z.lor lo (hi * 2^s) = lo + hi * 2^s.
Proof. intros Hs Hlo. rewrite <- Z.add_lor_land, land_disjoint by done. lia. Qed.

Lemma lor_lt_pow2 a b k : 0 < k -> 0 <= a < 2^k -> 0 <= b < 2^k -> 0 <= Z.lor a b < 2^k.
Proof.
  intros Hk Ha Hb. assert (0 <= Z.lor a b) by (apply Z.lor_nonneg; lia). split; [done|]. destruct (Z.eq_dec (Z.lor a b) 0) as [->|]; [lia|].
  assert (forall x, 0 <= x < 2^k -> Z.log2 x < k) as Hlog by (intros x Hx; destruct (Z.eq_dec x 0) as [->|]; [by change (Z.log2 0) with 0|apply Z.log2_lt_pow2; lia]).
  apply Z.log2_lt_pow2; [lia|]. rewrite Z.log2_lor by lia. apply Z.max_lub_lt; by apply Hlog.
Qed.

Lemma u32_range z : is_u32 (u32 z).
Proof. unfold is_u32, u32. apply Z.mod_pos_bound. lia. Qed.

Lemma u32_id z : is_u32 z -> u32 z = z.
Proof. unfold is_u32, u32. intros. now apply Z.mod_small. Qed.

Lemma u32_add_l x y : u32 (u32 x + y) = u32 (x + y).
Proof. unfold u32. by rewrite Zplus_mod_idemp_l. Qed.

Lemma u32_add_r x y : u32 (x + u32 y) = u32 (x + y).
Proof. unfold u32. by rewrite Zplus_mod_idemp_r. Qed.

Lemma u64_id z : is_u64 z -> u64 z = z.
Proof. unfold is_u64, u64. intros. now apply Z.mod_small. Qed.

#[export] Hint Resolve u32_range : word.

(** The remainder is determined by any decomposition with a small part. *)
Lemma mod_unique_decomp v c m x :
  0 <= v < m -> v + c * m = x -> v = x mod m.
Proof. intros Hv <-. rewrite Z.mod_add by lia. symmetry. now apply Z.mod_small. Qed.

(** ** Outcomes

    [Abort] is an execution the source ends with a failed [assert], a null
    dereference or an uncaught exception. *)
Inductive outcome (A : Type) : Type :=
| Ret (a : A)
| Abort.
Arguments Ret {A} a.
Arguments Abort {A}.

#[export] Instance outcome_ret : MRet outcome := fun A a => Ret a.
#[export] Instance outcome_bind : MBind outcome := fun A B f m =>
  match m with Ret a => f a | Abort => Abort end.

(** Reading through a pointer that may be null. *)
Definition deref {A : Type} (o : option A) : outcome A :=
  match o with Some a => Ret a | None => Abort end.

(** Peel off the dereference or branch at the head of an outcome. *)
Ltac outcome_step :=
  match goal with
  | H : ?o = Some _ |- context [deref ?o] => rewrite H; cbn [deref mbind outcome_bind]
  end.

Lemma land_le_r a b : 0 <= b -> Z.land a b <= b.
Proof.
  intros Hb. pose proof (Z.add_lor_land (Z.ldiff b a) (Z.land b a)) as H.
  assert (0 <= Z.ldiff b a) by (apply Z.ldiff_nonneg; lia).
  rewrite Z.lor_ldiff_and, (Z.land_comm b a) in H.
  replace (Z.land (Z.ldiff b a) (Z.land a b)) with 0 in H; [lia|].
  symmetry. apply Z.bits_inj'. intros n _.
  rewrite !Z.land_spec, Z.ldiff_spec, Z.bits_0.
  destruct (Z.testbit a n), (Z.testbit b n); done.
Qed.

(** ** Verdicts of validation functions *)

Inductive verdict (E : Type) : Type :=
| Accept
| Reject (e : E).
Arguments Accept {E}.
Arguments Reject {E} e.

(** Run the checks in order; the first that fails decides. *)
Definition verdict_then {E} (v w : verdict E) : verdict E :=
  match v with Accept => w | Reject e => Reject e end.

Definition check {E} (bad : bool) (e : E) (k : verdict E) : verdict E :=
  if bad then Reject e else k.

Lemma check_accept {E} bad (e : E) k : check bad e k = Accept <-> bad = false /\ k = Accept.
Proof. unfold check. destruct bad; split; [done|by intros []|done|by intros []]. Qed.

(** Sum of a function over a list *)
Definition sum_of {A} (f : A -> Z) (l : list A) : Z := foldr (fun x a => f x + a) 0 l.

Lemma sum_of_nil {A} (f : A -> Z) : sum_of f [] = 0.
Proof. done. Qed.

Lemma sum_of_cons {A} (f : A -> Z) x l : sum_of f (x :: l) = f x + sum_of f l.
Proof. done. Qed.

Lemma sum_of_app {A} (f : A -> Z) l k : sum_of f (l ++ k) = sum_of f l + sum_of f k.
Proof. induction l; cbn [app]; rewrite ?sum_of_nil, ?sum_of_cons; lia. Qed.

Lemma sum_of_nonneg {A} (f : A -> Z) l : Forall (fun x => 0 <= f x) l -> 0 <= sum_of f l.
Proof. induction 1; rewrite ?sum_of_nil, ?sum_of_cons; lia. Qed.

Lemma sum_of_perm {A} (f : A -> Z) l l' : l ≡ₚ l' -> sum_of f l = sum_of f l'.
Proof. induction 1; rewrite ?sum_of_cons in *; lia. Qed.

(** Filtering keeps distinct keys distinct. *)
Lemma NoDup_map_filter {A B} (g : A -> B) f l : NoDup (map g l) -> NoDup (map g (List.filter f l)).
Proof.
  induction l as [|x l IH]; [done|]. cbn [map List.filter]. intros Hx. inversion_clear Hx as [|? ? Hn Hnd].
  destruct (f x); [|by apply IH]. cbn [map]. constructor; [|by apply IH].
  intros (y & Hy & Hin)%list_elem_of_fmap. apply Hn. rewrite Hy. apply list_elem_of_fmap. exists y. split; [done|].
  apply list_elem_of_In, filter_In in Hin as [Hin _]. by apply list_elem_of_In.
Qed.

Lemma filter_map {A B} (g : A -> B) f l : List.filter f (map g l) = map g (List.filter (fun x => f (g x)) l).
Proof. induction l as [|x l IH]; [done|]. cbn [map List.filter]. destruct (f (g x)); cbn [map]; by rewrite IH. Qed.

Lemma NoDup_take {A} n (l : list A) : NoDup l -> NoDup (take n l).
Proof. rewrite <- (take_drop n l) at 1. by intros (? & _)%NoDup_app. Qed.

Lemma elem_of_take_1 {A} n (l : list A) x : x ∈ take n l -> x ∈ l.
Proof. rewrite <- (take_drop n l) at 2. rewrite elem_of_app. by left. Qed.

(** ** Sorting

    [std::sort] by a comparison; on elements that the comparison orders totally
    every correct sort gives this result. *)
Fixpoint insert_sorted {A} (lt : A -> A -> bool) (x : A) (l : list A) : list A :=
  match l with
  | [] => [x]
  | y :: l' => if lt x y then x :: l else y :: insert_sorted lt x l'
  end.

Definition sort_by {A} (lt : A -> A -> bool) (l : list A) : list A := foldr (insert_sorted lt) [] l.

Lemma insert_sorted_perm {A} (lt : A -> A -> bool) x l : insert_sorted lt x l ≡ₚ x :: l.
Proof.
  induction l as [|y l IH]; [done|]. cbn [insert_sorted]. destruct (lt x y); [done|].
  rewrite IH. apply Permutation_swap.
Qed.

Lemma sort_by_perm {A} (lt : A -> A -> bool) l : sort_by lt l ≡ₚ l.
Proof. induction l as [|x l IH]; [done|]. cbn [sort_by foldr]. rewrite insert_sorted_perm. by f_equiv. Qed.

(** A comparison that agrees with an integer key on the elements *)
Definition keyed {A} (lt : A -> A -> bool) (key : A -> Z) (l : list A) : Prop :=
  forall x y, x ∈ l -> y ∈ l -> lt x y = (key x <? key y).

Lemma keyed_perm {A} (lt : A -> A -> bool) key l l' : l ≡ₚ l' -> keyed lt key l -> keyed lt key l'.
Proof. intros Hp Hk x y Hx Hy. apply Hk; by rewrite Hp. Qed.

Lemma StronglySorted_perm_cons {A} (R : A -> A -> Prop) x l l' :
  l' ≡ₚ l -> StronglySorted R l' -> Forall (R x) l -> StronglySorted R (x :: l').
Proof. intros Hp Hs Hf. constructor; [done|]. by rewrite Hp. Qed.

Lemma insert_sorted_sorted {A} (lt : A -> A -> bool) key x l : keyed lt key (x :: l) ->
  StronglySorted (fun a b => key a <= key b) l -> StronglySorted (fun a b => key a <= key b) (insert_sorted lt x l).
Proof.
  induction l as [|y l IH]; intros Hk Hs; [by repeat constructor|].
  inversion_clear Hs as [|? ? Hl Hf]. cbn [insert_sorted].
  rewrite (Hk x y) by set_solver. destruct (Z.ltb_spec (key x) (key y)).
  - constructor; [by constructor|]. constructor; [lia|]. eapply Forall_impl; [exact Hf|]. cbn. lia.
  - constructor; [apply IH; [intros a b Ha Hb; apply Hk; set_solver|done]|].
    rewrite insert_sorted_perm. constructor; [lia|done].
Qed.

Lemma sort_by_sorted {A} (lt : A -> A -> bool) key l : keyed lt key l ->
  StronglySorted (fun a b => key a <= key b) (sort_by lt l).
Proof.
  induction l as [|x l IH]; intros Hk; [constructor|]. cbn [sort_by foldr].
  apply insert_sorted_sorted.
  - eapply keyed_perm; [|exact Hk]. f_equiv. symmetry. apply sort_by_perm.
  - apply IH. intros a b Ha Hb. apply Hk; set_solver.
Qed.

Lemma StronglySorted_List_filter {A} (R : A -> A -> Prop) f l :
  StronglySorted R l -> StronglySorted R (List.filter f l).
Proof.
  induction 1 as [|x l Hs IH Hf]; [constructor|]. cbn [List.filter]. destruct (f x); [|done].
  constructor; [done|]. rewrite List.Forall_forall in *. intros y [Hy _]%filter_In. auto.
Qed.

Lemma StronglySorted_split {A} (R : A -> A -> Prop) n l x y :
  StronglySorted R l -> x ∈ take n l -> y ∈ drop n l -> R x y.
Proof.
  intros Hs. revert n. induction Hs as [|z l Hs IH Hf]; intros [|n] Hx Hy; cbn [take drop] in *; try by apply not_elem_of_nil in Hx.
  apply elem_of_cons in Hx as [->|Hx]; [|by eapply IH].
  rewrite List.Forall_forall in Hf. apply Hf, list_elem_of_In. rewrite <- (take_drop n l). apply elem_of_app. by right.
Qed.

Lemma existsb_Forall {A} (f : A -> bool) l : existsb f l = false <-> Forall (fun x => f x = false) l.
Proof.
  induction l as [|x l IH]; simpl; [split; [constructor|done]|].
  rewrite orb_false_iff, Forall_cons, IH. done.
Qed.
