(* ===== verification/Arith256.v ===== *)
(** * Arith256: the 256-bit unsigned integer (src/src/arith_uint256.{h,cpp})

    [base_uint<256>] is an array of WIDTH = 8 limbs of 32 bits, least
    significant first.  The operators below are the loops of the source on that
    array; [val] reads the array as a number, and each operator is shown to
    compute the matching operation on numbers modulo 2^256. *)

From Stdlib Require Import ZArith Lia.
From stdpp Require Import base list numbers option.
From S2P Require Import Prelude.

(** ** Definitions *)

Definition WIDTH : nat := 8.
Definition BITS : Z := 256.

(** [pn[i]] *)
Definition limb (a : list Z) (i : nat) : Z := nth i a 0.

(** [base_uint()] *)
Definition bu_zero : list Z := replicate WIDTH 0.

(** [base_uint(uint64_t b)] and [operator=(uint64_t b)] *)
Definition bu_of_u64 (b : Z) : list Z :=
  u32 b :: u32 (Z.shiftr b 32) :: replicate (WIDTH - 2) 0.

(** [operator~] *)
Definition bu_not (a : list Z) : list Z :=
  map (fun x => u32 (Z.lnot x)) a.

(** [operator++]: [while (i < WIDTH && ++pn[i] == 0) i++] *)
Fixpoint bu_incr (a : list Z) : list Z :=
  match a with
  | [] => []
  | x :: r => let x' := u32 (x + 1) in
              if x' =? 0 then x' :: bu_incr r else x' :: r
  end.

(** [operator--]: [while (i < WIDTH && --pn[i] == UINT32_MAX) i++] *)
Fixpoint bu_decr (a : list Z) : list Z :=
  match a with
  | [] => []
  | x :: r => let x' := u32 (x - 1) in
              if x' =? 2^32 - 1 then x' :: bu_decr r else x' :: r
  end.

(** [operator-()], unary *)
Definition bu_neg (a : list Z) : list Z := bu_incr (bu_not a).

(** [operator^=], [operator&=] and [operator|=] *)
Definition bu_xor (a b : list Z) : list Z := zip_with Z.lxor a b.
Definition bu_and (a b : list Z) : list Z := zip_with Z.land a b.
Definition bu_or (a b : list Z) : list Z := zip_with Z.lor a b.

(** [operator+=(const base_uint&)] *)
Definition bu_add (a b : list Z) : list Z :=
  fst (for_to WIDTH (fun i '(pn, carry) =>
         let n := u64 (carry + limb pn i + limb b i) in
         (<[i := Z.land n 0xffffffff]> pn, Z.shiftr n 32)) (a, 0)).

(** [operator-=(const base_uint&)] *)
Definition bu_sub (a b : list Z) : list Z := bu_add a (bu_neg b).

(** [operator+=(uint64_t)] and [operator-=(uint64_t)] *)
Definition bu_add64 (a : list Z) (b64 : Z) : list Z := bu_add a (bu_of_u64 b64).
Definition bu_sub64 (a : list Z) (b64 : Z) : list Z := bu_add a (bu_neg (bu_of_u64 b64)).

(** [operator<<=(unsigned int shift)] *)
Definition bu_shl (a : list Z) (shift : nat) : list Z :=
  let k := (shift / 32)%nat in
  let s := Z.of_nat (shift mod 32) in
  for_to WIDTH (fun i pn =>
    let pn := if ((i + k + 1 <? WIDTH)%nat && negb (s =? 0))%bool
              then <[(i + k + 1)%nat := Z.lor (limb pn (i + k + 1)) (Z.shiftr (limb a i) (32 - s))]> pn
              else pn in
    if (i + k <? WIDTH)%nat
    then <[(i + k)%nat := Z.lor (limb pn (i + k)) (u32 (Z.shiftl (limb a i) s))]> pn
    else pn) bu_zero.

(** [operator>>=(unsigned int shift)] *)
Definition bu_shr (a : list Z) (shift : nat) : list Z :=
  let k := (shift / 32)%nat in
  let s := Z.of_nat (shift mod 32) in
  for_to WIDTH (fun i pn =>
    let pn := if ((k + 1 <=? i)%nat && negb (s =? 0))%bool
              then <[(i - k - 1)%nat := Z.lor (limb pn (i - k - 1)) (u32 (Z.shiftl (limb a i) (32 - s)))]> pn
              else pn in
    if (k <=? i)%nat
    then <[(i - k)%nat := Z.lor (limb pn (i - k)) (Z.shiftr (limb a i) s)]> pn
    else pn) bu_zero.

(** [operator*=(uint32_t b32)] *)
Definition bu_mul32 (a : list Z) (b32 : Z) : list Z :=
  fst (for_to WIDTH (fun i '(pn, carry) =>
         let n := u64 (carry + b32 * limb pn i) in
         (<[i := Z.land n 0xffffffff]> pn, Z.shiftr n 32)) (a, 0)).

(** [operator*=(const base_uint&)]: the row [j] of the schoolbook product,
    cut at WIDTH, and the whole product. *)
Definition bu_mul_row (pj : Z) (b : list Z) (j : nat) (a : list Z) : list Z :=
  fst (for_to (WIDTH - j) (fun i '(a, carry) =>
         let n := u64 (carry + limb a (i + j) + pj * limb b i) in
         (<[(i + j)%nat := Z.land n 0xffffffff]> a, Z.shiftr n 32)) (a, 0)).
Definition bu_mul (pn b : list Z) : list Z :=
  for_to WIDTH (fun j a => bu_mul_row (limb pn j) b j a) bu_zero.

(** [CompareTo]: the limbs from the most significant down *)
Fixpoint bu_compare_from (i : nat) (a b : list Z) : Z :=
  match i with
  | O => 0
  | S k => if limb a k <? limb b k then -1
           else if limb a k >? limb b k then 1
           else bu_compare_from k a b
  end.
Definition bu_CompareTo (a b : list Z) : Z := bu_compare_from WIDTH a b.

Definition bu_eq (a b : list Z) : bool := bool_decide (a = b).
Definition bu_gt (a b : list Z) : bool := bu_CompareTo a b >? 0.
Definition bu_lt (a b : list Z) : bool := bu_CompareTo a b <? 0.
Definition bu_ge (a b : list Z) : bool := bu_CompareTo a b >=? 0.
Definition bu_le (a b : list Z) : bool := bu_CompareTo a b <=? 0.

(** [EqualTo(uint64_t b)] *)
Definition bu_EqualTo (a : list Z) (b : Z) : bool :=
  if existsb (fun i => negb (limb a i =? 0)) (rev (seq 2 (WIDTH - 2))) then false
  else if negb (limb a 1 =? Z.shiftr b 32) then false
  else if negb (limb a 0 =? Z.land b 0xffffffff) then false
  else true.

(** [GetLow64] *)
Definition bu_GetLow64 (a : list Z) : Z :=
  Z.lor (limb a 0) (u64 (Z.shiftl (limb a 1) 32)).

(** [bits]: the inner loop over the bits of the first non-zero limb, from bit
    31 down to bit 1, and the outer loop over the limbs. *)
Fixpoint bu_bits_limb (nbits : nat) (x : Z) (pos : nat) : Z :=
  match nbits with
  | O => 32 * Z.of_nat pos + 1
  | S k => if negb (Z.land x (Z.shiftl 1 (Z.of_nat nbits)) =? 0)
           then 32 * Z.of_nat pos + Z.of_nat nbits + 1
           else bu_bits_limb k x pos
  end.
Fixpoint bu_bits_from (n : nat) (a : list Z) : Z :=
  match n with
  | O => 0
  | S pos => if negb (limb a pos =? 0) then bu_bits_limb 31 (limb a pos) pos
             else bu_bits_from pos a
  end.
Definition bu_bits (a : list Z) : Z := bu_bits_from WIDTH a.

(** [operator/=]: the loop [while (shift >= 0)] runs [n = shift + 1] times. *)
Fixpoint bu_div_loop (n : nat) (num div q : list Z) : list Z * list Z :=
  match n with
  | O => (q, num)
  | S shift =>
      let '(num, q) :=
        if bu_ge num div
        then (bu_sub num div,
              <[(shift / 32)%nat := Z.lor (limb q (shift / 32)) (Z.shiftl 1 (Z.of_nat (shift mod 32)))]> q)
        else (num, q) in
      bu_div_loop shift num (bu_shr div 1) q
  end.

(** [None] is the exception [uint_error("Division by zero")]. *)
Definition bu_div (a b : list Z) : option (list Z) :=
  let num_bits := bu_bits a in
  let div_bits := bu_bits b in
  if div_bits =? 0 then None
  else if div_bits >? num_bits then Some bu_zero
  else let shift := Z.to_nat (num_bits - div_bits) in
       Some (fst (bu_div_loop (S shift) a (bu_shl b shift) bu_zero)).

(** ** The number an array stands for *)

Fixpoint val (l : list Z) : Z :=
  match l with
  | [] => 0
  | x :: r => x + 2^32 * val r
  end.

(** A well-formed array: WIDTH limbs, each a [uint32_t]. *)
Definition bu_wf (l : list Z) : Prop := length l = WIDTH /\ Forall is_u32 l.

(** The weight of limb [i]. *)
Definition Wt (i : nat) : Z := 2^(32 * Z.of_nat i).

Lemma Wt_S i : Wt (S i) = 2^32 * Wt i.
Proof. unfold Wt. rewrite <- Z.pow_add_r by lia. f_equal. lia. Qed.

Lemma Wt_add i j : Wt (i + j) = Wt i * Wt j.
Proof. unfold Wt. rewrite <- Z.pow_add_r by lia. f_equal. lia. Qed.

Lemma Wt_pos i : 0 < Wt i.
Proof. unfold Wt. lia. Qed.

Lemma Wt_0 : Wt 0 = 1.
Proof. done. Qed.

Lemma Wt_WIDTH : Wt WIDTH = 2^256.
Proof. done. Qed.

#[export] Hint Resolve Wt_pos : word.

Lemma limb_lookup l i : (i < length l)%nat -> l !! i = Some (limb l i).
Proof.
  intros Hi. destruct (lookup_lt_is_Some_2 l i Hi) as [x Hx].
  unfold limb. now rewrite (nth_lookup_Some _ _ _ _ Hx).
Qed.

Lemma limb_ge l i : (length l <= i)%nat -> limb l i = 0.
Proof. apply nth_overflow. Qed.

Lemma limb_range l i : Forall is_u32 l -> is_u32 (limb l i).
Proof.
  intros Hl. destruct (decide (i < length l)%nat) as [Hi|Hi].
  - apply limb_lookup in Hi. by apply (Forall_lookup_1 _ _ _ _ Hl Hi).
  - rewrite limb_ge by lia. unfold is_u32. lia.
Qed.

Lemma limb_insert l i j v :
  (i < length l)%nat -> limb (<[i:=v]> l) j = if decide (i = j) then v else limb l j.
Proof.
  intros Hi. unfold limb. rewrite !nth_lookup. case_decide as E.
  - subst. now rewrite list_lookup_insert_eq.
  - now rewrite list_lookup_insert_ne.
Qed.

Lemma limb_nil i : limb [] i = 0.
Proof. by destruct i. Qed.

Lemma limb_zero i : limb bu_zero i = 0.
Proof. do 8 (destruct i as [|i]; [done|]). by destruct i. Qed.

Lemma limb_ext a b : length a = length b ->
  (forall i, (i < length a)%nat -> limb a i = limb b i) -> a = b.
Proof. intros Hl H. apply (nth_ext a b 0 0 Hl). exact H. Qed.

#[export] Hint Resolve limb_range : word.

Lemma val_nonneg l : Forall is_u32 l -> 0 <= val l.
Proof. unfold is_u32. induction 1; simpl; lia. Qed.

Lemma val_bound l : Forall is_u32 l -> 0 <= val l < Wt (length l).
Proof.
  induction 1 as [|x l Hx Hl IH]; [done|].
  simpl length. rewrite Wt_S. simpl val. unfold is_u32 in Hx. nia.
Qed.

Lemma val_bound_256 l : bu_wf l -> 0 <= val l < 2^256.
Proof. intros [Hl HF]. apply val_bound in HF. now rewrite Hl in HF. Qed.

Lemma val_insert l i v :
  (i < length l)%nat -> val (<[i:=v]> l) = val l + (v - limb l i) * Wt i.
Proof.
  revert i. induction l as [|x l IH]; intros i Hi; simpl in Hi; [lia|].
  destruct i as [|i].
  - simpl. rewrite Wt_0. unfold limb. simpl. lia.
  - simpl. rewrite IH, Wt_S by lia. change (limb (x :: l) (S i)) with (limb l i). lia.
Qed.

Lemma val_take_S l i :
  (i < length l)%nat -> val (take (S i) l) = val (take i l) + limb l i * Wt i.
Proof.
  revert i. induction l as [|x l IH]; intros i Hi; simpl in Hi; [lia|].
  destruct i as [|i].
  - rewrite Wt_0. unfold limb. simpl. destruct l; simpl; lia.
  - change (take (S (S i)) (x :: l)) with (x :: take (S i) l).
    change (take (S i) (x :: l)) with (x :: take i l).
    change (limb (x :: l) (S i)) with (limb l i).
    simpl val. rewrite IH, Wt_S by lia. lia.
Qed.

Lemma val_take_all l n : (length l <= n)%nat -> val (take n l) = val l.
Proof. intros. now rewrite take_ge. Qed.

Lemma val_split l i : val l = val (take i l) + val (drop i l) * Wt i.
Proof.
  revert i. induction l as [|x l IH]; intros [|i]; rewrite ?Wt_0; try (simpl; lia).
  rewrite Wt_S. simpl. rewrite (IH i) at 1. lia.
Qed.

Lemma val_take_bound l i : Forall is_u32 l -> 0 <= val (take i l) < Wt i.
Proof.
  intros Hl. assert (HF : Forall is_u32 (take i l)) by now apply Forall_take.
  pose proof (val_bound _ HF) as [? ?]. split; [done|].
  eapply Z.lt_le_trans; [done|]. unfold Wt.
  apply Z.pow_le_mono_r; [lia|]. rewrite length_take. lia.
Qed.

Lemma val_drop_nonneg l i : Forall is_u32 l -> 0 <= val (drop i l).
Proof. intros. now apply val_nonneg, Forall_drop. Qed.

Lemma val_zero : val bu_zero = 0.
Proof. done. Qed.

Lemma bu_zero_wf : bu_wf bu_zero.
Proof. split; [done|]. unfold bu_zero. repeat constructor; unfold is_u32; lia. Qed.

Lemma insert_wf l i v : bu_wf l -> is_u32 v -> bu_wf (<[i:=v]> l).
Proof.
  intros [Hl HF] Hv. split; [now rewrite length_insert|]. now apply Forall_insert.
Qed.

Lemma wf_length l : bu_wf l -> length l = WIDTH.
Proof. by intros []. Qed.
Lemma wf_limb l i : bu_wf l -> is_u32 (limb l i).
Proof. intros []. auto with word. Qed.

#[export] Hint Resolve bu_zero_wf insert_wf wf_length wf_limb : word.

(** Two arrays with the same value are the same array. *)
Lemma val_inj a b : bu_wf a -> bu_wf b -> val a = val b -> a = b.
Proof.
  intros [La Fa] [Lb Fb]. rewrite <- Lb in La. clear Lb. revert b La Fb.
  induction Fa as [|x a Hx Ha IH]; intros [|y b] La Fb Hv; try done.
  inversion Fb as [|? ? Hy Hb]; subst. simpl in Hv. unfold is_u32 in *.
  assert (x = y /\ val a = val b) as [-> E].
  { pose proof (val_nonneg _ Ha). pose proof (val_nonneg _ Hb). lia. }
  f_equal. apply IH; auto.
Qed.

(** ** Addition, subtraction and the constructors *)

Lemma bu_of_u64_wf b : bu_wf (bu_of_u64 b).
Proof.
  split; [done|]. unfold bu_of_u64.
  do 2 (constructor; [auto with word|]). apply Forall_replicate. unfold is_u32. lia.
Qed.

Lemma val_of_u64 b : is_u64 b -> val (bu_of_u64 b) = b.
Proof.
  intros Hb. unfold is_u64 in Hb. unfold bu_of_u64. simpl val.
  unfold u32. rewrite shiftr_32.
  rewrite (Z.mod_small (b / 2^32)) by (split; [apply Z.div_pos|apply Z.div_lt_upper_bound]; lia).
  pose proof (Z.div_mod b (2^32)). lia.
Qed.

(** One limb step shared by the carry loops: writing the low half of [n] and
    carrying the high half keeps [val + carry * weight] up to [n]. *)
Lemma carry_step p i n :
  bu_wf p -> (i < WIDTH)%nat ->
  val (<[i := Z.land n 0xffffffff]> p) + Z.shiftr n 32 * Wt (S i)
  = val p + (n - limb p i) * Wt i.
Proof.
  intros Hp Hi. rewrite val_insert by (rewrite wf_length; done).
  rewrite land_ones_u32, shiftr_32, Wt_S.
  pose proof (Z.div_mod n (2^32)). nia.
Qed.

Lemma land_u32_range n : is_u32 (Z.land n 0xffffffff).
Proof. rewrite land_ones_u32. apply u32_range. Qed.
#[export] Hint Resolve land_u32_range bu_of_u64_wf : word.

Lemma shiftr_bound n c : 0 <= n < c * 2^32 -> 0 <= Z.shiftr n 32 < c.
Proof.
  intros. rewrite shiftr_32. split; [apply Z.div_pos|apply Z.div_lt_upper_bound]; lia.
Qed.

Lemma bu_add_spec a b :
  bu_wf a -> bu_wf b -> bu_wf (bu_add a b) /\ val (bu_add a b) = (val a + val b) mod 2^256.
Proof.
  intros Ha Hb. unfold bu_add.
  set (body := fun (i : nat) '(pn, carry) => _).
  pose (P := fun i '(p, c) => bu_wf p /\ 0 <= c < 2 /\
               val p + c * Wt i = val a + val (take i b)).
  assert (H : P WIDTH (for_to WIDTH body (a, 0))).
  { apply for_to_inv.
    - repeat split; try apply Ha; lia.
    - intros i [p c] Hi (Hp & Hc & Hv). unfold body, P.
      pose proof (wf_limb p i Hp) as Hpi. pose proof (wf_limb b i Hb) as Hbi.
      unfold is_u32 in *.
      rewrite u64_id by (unfold is_u64; lia).
      split; [auto with word|]. split; [apply shiftr_bound; lia|].
      rewrite carry_step by done. rewrite val_take_S by (rewrite wf_length; done).
      nia. }
  destruct (for_to WIDTH body (a, 0)) as [p c]. destruct H as (Hp & _ & Hv).
  split; [done|]. rewrite Wt_WIDTH in Hv.
  rewrite (val_take_all b) in Hv by (rewrite wf_length; done).
  apply (mod_unique_decomp _ c); [now apply val_bound_256|]. simpl. lia.
Qed.

Lemma bu_not_spec a :
  bu_wf a -> bu_wf (bu_not a) /\ val (bu_not a) = 2^256 - 1 - val a.
Proof.
  intros [Ha HF]. rewrite <- Wt_WIDTH, <- Ha. unfold bu_wf. rewrite <- Ha. clear Ha.
  unfold bu_not. induction HF as [|x l Hx Hl [[IHl IHF] IH]]; [done|].
  assert (E : u32 (Z.lnot x) = 2^32 - 1 - x).
  { unfold u32, is_u32 in *. rewrite Z.lnot_eq_pred_opp.
    symmetry. apply (Z.mod_unique _ _ (-1)); lia. }
  split_and!.
  - simpl. now rewrite IHl.
  - constructor; [|done]. rewrite E. unfold is_u32 in *. lia.
  - simpl map. simpl length. simpl val. rewrite E, IH, Wt_S. lia.
Qed.

Lemma bu_incr_gen l :
  Forall is_u32 l -> length (bu_incr l) = length l /\ Forall is_u32 (bu_incr l) /\
  val (bu_incr l) = (val l + 1) mod Wt (length l).
Proof.
  induction 1 as [|x l Hx Hl (IHl & IHF & IHv)]; [done|].
  simpl bu_incr. pose proof (val_bound _ Hl) as Hb. unfold is_u32 in Hx.
  simpl length. rewrite Wt_S.
  destruct (Z.eqb_spec (u32 (x + 1)) 0) as [E|E].
  - assert (x = 2^32 - 1) as ->.
    { unfold u32 in E. destruct (decide (x = 2^32 - 1)); [done|].
      rewrite Z.mod_small in E; lia. }
    split_and!; [simpl; lia| constructor; auto with word|].
    simpl val. rewrite IHv. replace (u32 (2^32 - 1 + 1)) with 0 by done.
    replace (2^32 - 1 + 2^32 * val l + 1) with (2^32 * (val l + 1)) by lia.
    rewrite Z.mul_mod_distr_l by (try lia; pose proof (Wt_pos (length l)); lia). lia.
  - assert (x + 1 < 2^32).
    { destruct (decide (x = 2^32 - 1)) as [->|]; [by contradict E|lia]. }
    rewrite u32_id by (unfold is_u32; lia).
    split_and!; [done| constructor; auto; unfold is_u32; lia|].
    simpl val. rewrite Z.mod_small by nia. lia.
Qed.

Lemma bu_incr_spec a :
  bu_wf a -> bu_wf (bu_incr a) /\ val (bu_incr a) = (val a + 1) mod 2^256.
Proof.
  intros [Hl HF]. destruct (bu_incr_gen _ HF) as (H1 & H2 & H3).
  split; [split; [congruence|done]|]. now rewrite H3, Hl.
Qed.

Lemma bu_neg_spec a :
  bu_wf a -> bu_wf (bu_neg a) /\ val (bu_neg a) = (- val a) mod 2^256.
Proof.
  intros Ha. destruct (bu_not_spec a Ha) as [Hn Ev].
  destruct (bu_incr_spec _ Hn) as [Hi Ei]. split; [done|].
  unfold bu_neg. rewrite Ei, Ev.
  replace (2^256 - 1 - val a + 1) with (- val a + 1 * 2^256) by lia.
  now rewrite Z.mod_add.
Qed.

Lemma bu_sub_spec a b :
  bu_wf a -> bu_wf b -> bu_wf (bu_sub a b) /\ val (bu_sub a b) = (val a - val b) mod 2^256.
Proof.
  intros Ha Hb. destruct (bu_neg_spec b Hb) as [Hn En].
  destruct (bu_add_spec a (bu_neg b) Ha Hn) as [Hs Es]. split; [done|].
  unfold bu_sub. rewrite Es, En, Zplus_mod_idemp_r. f_equal.
Qed.

Lemma bu_decr_gen l :
  Forall is_u32 l -> length (bu_decr l) = length l /\ Forall is_u32 (bu_decr l) /\
  val (bu_decr l) = (val l - 1) mod Wt (length l).
Proof.
  induction 1 as [|x l Hx Hl (IHl & IHF & IHv)]; [done|].
  simpl bu_decr. pose proof (val_bound _ Hl) as Hb. unfold is_u32 in Hx.
  simpl length. rewrite Wt_S.
  destruct (Z.eqb_spec (u32 (x - 1)) (2^32 - 1)) as [E|E].
  - assert (x = 0) as ->.
    { unfold u32 in E. destruct (decide (x = 0)); [done|].
      rewrite Z.mod_small in E; lia. }
    split_and!; [simpl; lia| constructor; auto with word|].
    simpl val. rewrite IHv. change (u32 (0 - 1)) with (2^32 - 1).
    pose proof (Wt_pos (length l)). pose proof (Z.div_mod (val l - 1) (Wt (length l))).
    pose proof (Z.mod_pos_bound (val l - 1) (Wt (length l)) (Wt_pos _)).
    apply (Z.mod_unique_pos _ _ ((val l - 1) / Wt (length l))); nia.
  - assert (0 < x).
    { destruct (decide (x = 0)) as [->|]; [by contradict E|lia]. }
    rewrite u32_id by (unfold is_u32; lia).
    split_and!; [done| constructor; auto; unfold is_u32; lia|].
    simpl val. rewrite Z.mod_small by nia. lia.
Qed.

Lemma bu_decr_spec a :
  bu_wf a -> bu_wf (bu_decr a) /\ val (bu_decr a) = (val a - 1) mod 2^256.
Proof.
  intros [Hl HF]. destruct (bu_decr_gen _ HF) as (H1 & H2 & H3).
  split; [split; [congruence|done]|]. now rewrite H3, Hl.
Qed.

(** ** Multiplication *)

Lemma bu_mul32_spec a b :
  bu_wf a -> is_u32 b -> bu_wf (bu_mul32 a b) /\ val (bu_mul32 a b) = (val a * b) mod 2^256.
Proof.
  intros Ha Hb. unfold bu_mul32. unfold is_u32 in Hb.
  set (body := fun (i : nat) '(pn, carry) => _).
  pose (P := fun i '(p, c) => bu_wf p /\ 0 <= c < 2^32 /\
               (forall k, (i <= k)%nat -> limb p k = limb a k) /\
               val p + c * Wt i = val a + (b - 1) * val (take i a)).
  assert (H : P WIDTH (for_to WIDTH body (a, 0))).
  { apply for_to_inv.
    - repeat split; try apply Ha; try lia. rewrite take_0. simpl. lia.
    - intros i [p c] Hi (Hp & Hc & Hk & Hv). unfold body, P.
      pose proof (wf_limb a i Ha) as Hai. unfold is_u32 in Hai.
      rewrite (Hk i) by lia.
      rewrite u64_id by (unfold is_u64; nia).
      split; [auto with word|]. split; [apply shiftr_bound; nia|]. split.
      + intros k Hk'. rewrite limb_insert by (rewrite wf_length; done).
        case_decide; [lia|]. apply Hk. lia.
      + rewrite carry_step, (Hk i) by (try done; lia).
        rewrite val_take_S by (rewrite wf_length; done). nia. }
  destruct (for_to WIDTH body (a, 0)) as [p c]. destruct H as (Hp & _ & _ & Hv).
  split; [done|]. rewrite Wt_WIDTH in Hv.
  rewrite (val_take_all a) in Hv by (rewrite wf_length; done).
  apply (mod_unique_decomp _ c); [now apply val_bound_256|]. simpl. lia.
Qed.

Lemma bu_mul_row_spec pj b j a :
  bu_wf a -> bu_wf b -> is_u32 pj -> (j < WIDTH)%nat ->
  bu_wf (bu_mul_row pj b j a) /\
  val (bu_mul_row pj b j a) = (val a + pj * Wt j * val b) mod 2^256.
Proof.
  intros Ha Hb Hpj Hj. unfold bu_mul_row. unfold is_u32 in Hpj.
  set (body := fun (i : nat) '(a, carry) => _).
  pose (P := fun i '(p, c) => bu_wf p /\ 0 <= c < 2^32 /\
               val p + c * Wt (i + j) = val a + pj * Wt j * val (take i b)).
  assert (H : P (WIDTH - j)%nat (for_to (WIDTH - j) body (a, 0))).
  { apply for_to_inv.
    - repeat split; try apply Ha; try lia. rewrite take_0. simpl. lia.
    - intros i [p c] Hi (Hp & Hc & Hv). unfold body, P.
      pose proof (wf_limb p (i + j) Hp) as Hpi. pose proof (wf_limb b i Hb) as Hbi.
      unfold is_u32 in *.
      rewrite u64_id by (unfold is_u64; nia).
      split; [auto with word|]. split; [apply shiftr_bound; nia|].
      change (S i + j)%nat with (S (i + j)). rewrite carry_step by (try done; lia).
      rewrite val_take_S by (rewrite wf_length by done; lia).
      rewrite Wt_add in *. nia. }
  destruct (for_to (WIDTH - j) body (a, 0)) as [p c]. destruct H as (Hp & _ & Hv).
  split; [done|]. simpl.
  replace (WIDTH - j + j)%nat with WIDTH in Hv by lia. rewrite Wt_WIDTH in Hv.
  rewrite (val_split b (WIDTH - j)).
  apply (mod_unique_decomp _ (c + pj * val (drop (WIDTH - j) b))); [now apply val_bound_256|].
  assert (HW : Wt j * Wt (WIDTH - j) = 2^256).
  { rewrite <- Wt_add. replace (j + (WIDTH - j))%nat with WIDTH by lia. apply Wt_WIDTH. }
  rewrite <- HW in *. lia.
Qed.

Lemma bu_mul_spec a b :
  bu_wf a -> bu_wf b -> bu_wf (bu_mul a b) /\ val (bu_mul a b) = (val a * val b) mod 2^256.
Proof.
  intros Ha Hb. unfold bu_mul.
  assert (H : bu_wf (for_to WIDTH (fun j r => bu_mul_row (limb a j) b j r) bu_zero) /\
              val (for_to WIDTH (fun j r => bu_mul_row (limb a j) b j r) bu_zero)
              = (val (take WIDTH a) * val b) mod 2^256).
  { apply (for_to_inv (fun j r => bu_wf r /\ val r = (val (take j a) * val b) mod 2^256)).
    - split; [auto with word|]. by rewrite take_0.
    - intros j r Hj [Hr Hv].
      destruct (bu_mul_row_spec (limb a j) b j r) as [Hw Ev]; auto with word.
      split; [done|]. rewrite Ev, Hv, Zplus_mod_idemp_l. f_equal.
      rewrite val_take_S by (rewrite wf_length; done). lia. }
  rewrite (val_take_all a) in H by (rewrite wf_length; done). done.
Qed.

(** ** Comparison, equality and the low word *)

Lemma bu_compare_from_spec n a b :
  bu_wf a -> bu_wf b -> (n <= WIDTH)%nat ->
  bu_compare_from n a b = Z.sgn (val (take n a) - val (take n b)).
Proof.
  intros Ha Hb. induction n as [|n IH]; intros Hn; [by rewrite !take_0|].
  simpl bu_compare_from. rewrite !val_take_S by (rewrite wf_length; auto).
  pose proof (val_take_bound a n (proj2 Ha)). pose proof (val_take_bound b n (proj2 Hb)).
  rewrite Z.gtb_ltb.
  destruct (Z.ltb_spec (limb a n) (limb b n)); [|destruct (Z.ltb_spec (limb b n) (limb a n))].
  - symmetry. apply Z.sgn_neg_iff. nia.
  - symmetry. apply Z.sgn_pos_iff. nia.
  - rewrite IH by lia. replace (limb a n) with (limb b n) by lia. f_equal. lia.
Qed.

Lemma bu_CompareTo_spec a b :
  bu_wf a -> bu_wf b -> bu_CompareTo a b = Z.sgn (val a - val b).
Proof.
  intros Ha Hb. unfold bu_CompareTo. rewrite bu_compare_from_spec by auto.
  now rewrite !val_take_all by (rewrite wf_length; auto).
Qed.

Lemma bu_gt_spec a b : bu_wf a -> bu_wf b -> bu_gt a b = (val a >? val b).
Proof. intros Ha Hb. unfold bu_gt. rewrite bu_CompareTo_spec, !Z.gtb_ltb by done. bool_cases; lia. Qed.
Lemma bu_ge_spec a b : bu_wf a -> bu_wf b -> bu_ge a b = (val a >=? val b).
Proof. intros Ha Hb. unfold bu_ge. rewrite bu_CompareTo_spec, !Z.geb_leb by done. bool_cases; lia. Qed.
Lemma bu_lt_spec a b : bu_wf a -> bu_wf b -> bu_lt a b = (val a <? val b).
Proof. intros Ha Hb. unfold bu_lt. rewrite bu_CompareTo_spec by done. bool_cases; lia. Qed.
Lemma bu_le_spec a b : bu_wf a -> bu_wf b -> bu_le a b = (val a <=? val b).
Proof. intros Ha Hb. unfold bu_le. rewrite bu_CompareTo_spec by done. bool_cases; lia. Qed.
Lemma bu_eq_spec a b : bu_wf a -> bu_wf b -> bu_eq a b = (val a =? val b).
Proof.
  intros Ha Hb. unfold bu_eq. case_bool_decide as E.
  - subst. symmetry. apply Z.eqb_refl.
  - symmetry. apply Z.eqb_neq. contradict E. now apply val_inj.
Qed.

(** Every limb is a window of 32 bits of the value. *)
Lemma limb_val l i : Forall is_u32 l -> limb l i = (val l / Wt i) mod 2^32.
Proof.
  intros HF. destruct (decide (i < length l)%nat) as [Hi|Hi].
  - rewrite (val_split l i), Z.div_add by (pose proof (Wt_pos i); lia).
    rewrite Z.div_small by now apply val_take_bound.
    rewrite (drop_S _ (limb l i)) by now apply limb_lookup.
    simpl val. rewrite Z.add_0_l, Z.mul_comm, Z.mod_add by lia. symmetry.
    apply Z.mod_small. by apply limb_range.
  - assert (Wt (length l) <= Wt i) by (apply Z.pow_le_mono_r; lia).
    pose proof (val_bound _ HF). rewrite limb_ge, Z.div_small by lia. done.
Qed.

Lemma bu_GetLow64_spec a : bu_wf a -> bu_GetLow64 a = val a mod 2^64.
Proof.
  intros Ha. unfold bu_GetLow64, u64. pose proof (wf_limb a 0 Ha). pose proof (wf_limb a 1 Ha).
  unfold is_u32 in *. rewrite Z.shiftl_mul_pow2 by lia.
  rewrite Z.mod_small by lia. rewrite lor_disjoint_add by lia.
  symmetry. rewrite (val_split a 2).
  do 2 rewrite val_take_S by (rewrite wf_length by done; unfold WIDTH; lia). rewrite take_0.
  symmetry. apply (mod_unique_decomp _ (val (drop 2 a))); [lia|].
  rewrite Wt_0. change (Wt 1) with (2^32). change (Wt 2) with (2^64). simpl val. lia.
Qed.

Lemma bu_EqualTo_spec a b : bu_wf a -> is_u64 b -> bu_EqualTo a b = (val a =? b).
Proof.
  intros Ha Hb. transitivity (bu_eq a (bu_of_u64 b)).
  2:{ rewrite bu_eq_spec, val_of_u64 by auto with word. done. }
  destruct Ha as [Hl HF]. unfold WIDTH in Hl.
  do 8 (destruct a as [|? a]; [done|]). destruct a; [|done]. clear Hl HF.
  unfold is_u64 in Hb. unfold bu_EqualTo, bu_eq, bu_of_u64, limb, u32. simpl.
  rewrite land_ones_u32, shiftr_32.
  rewrite (Z.mod_small (b / 2^32)) by (split; [apply Z.div_pos|apply Z.div_lt_upper_bound]; lia).
  case_bool_decide as E.
  - injection E as -> -> -> -> -> -> -> ->. simpl. by rewrite !Z.eqb_refl.
  - repeat (match goal with |- context [?x =? ?y] => destruct (Z.eqb_spec x y); simpl; [|done] end).
    subst. done.
Qed.

(** ** Bit length *)

Lemma land_pow2_testbit x n : 0 <= n -> (Z.land x (Z.shiftl 1 n) =? 0) = negb (Z.testbit x n).
Proof.
  intros Hn. rewrite Z.shiftl_1_l.
  destruct (Z.testbit x n) eqn:E; simpl.
  - apply Z.eqb_neq. intros H. apply (f_equal (fun y => Z.testbit y n)) in H.
    rewrite Z.land_spec, E, Z.pow2_bits_true, Z.bits_0 in H by done. done.
  - apply Z.eqb_eq. apply Z.bits_inj'. intros m Hm.
    rewrite Z.land_spec, Z.bits_0, Z.pow2_bits_eqb by done.
    destruct (Z.eqb_spec n m); subst; rewrite ?E; auto using andb_false_r.
Qed.

Lemma bu_bits_limb_spec nbits x pos :
  0 < x < 2^(Z.of_nat nbits + 1) ->
  bu_bits_limb nbits x pos = 32 * Z.of_nat pos + Z.log2 x + 1.
Proof.
  induction nbits as [|k IH]; intros Hx.
  - simpl in *. assert (x = 1) as -> by lia. simpl. lia.
  - cbn [bu_bits_limb]. rewrite land_pow2_testbit by lia. rewrite negb_involutive.
    destruct (Z.testbit x (Z.of_nat (S k))) eqn:E.
    + assert (2^Z.of_nat (S k) <= x).
      { destruct (Z.le_gt_cases (2^Z.of_nat (S k)) x) as [|Hlt]; [done|].
        rewrite (Z.bits_above_log2 x) in E; [done|lia|]. apply Z.log2_lt_pow2; lia. }
      rewrite (Z.log2_unique x (Z.of_nat (S k))); [lia|lia|].
      replace (Z.succ (Z.of_nat (S k))) with (Z.of_nat (S k) + 1) by lia. lia.
    + apply IH. split; [lia|]. replace (Z.of_nat k + 1) with (Z.of_nat (S k)) by lia.
      assert (H : x / 2^Z.of_nat (S k) = 0).
      { rewrite <- (Z.mod_small (x / 2^Z.of_nat (S k)) 2).
        - rewrite <- Z.testbit_spec' by lia. now rewrite E.
        - split; [apply Z.div_pos; lia|]. apply Z.div_lt_upper_bound; [lia|].
          rewrite Z.pow_add_r in Hx by lia. lia. }
      apply Z.div_small_iff in H; lia.
Qed.

(** The value of [bits()]: the position of the highest set bit plus one. *)
Definition bit_length (v : Z) : Z := if v =? 0 then 0 else Z.log2 v + 1.

Lemma bu_bits_from_spec n a :
  bu_wf a -> (n <= WIDTH)%nat -> bu_bits_from n a = bit_length (val (take n a)).
Proof.
  intros Ha. induction n as [|n IH]; intros Hn; [by rewrite take_0|].
  cbn [bu_bits_from]. rewrite val_take_S by (rewrite wf_length; auto).
  pose proof (val_take_bound a n (proj2 Ha)). pose proof (wf_limb a n Ha) as Hx.
  unfold is_u32 in Hx.
  destruct (Z.eqb_spec (limb a n) 0) as [E|E]; simpl negb; cbv iota.
  - rewrite IH, E by lia. f_equal. lia.
  - rewrite bu_bits_limb_spec by (simpl; lia). unfold bit_length.
    pose proof (Wt_pos n).
    destruct (Z.eqb_spec (val (take n a) + limb a n * Wt n) 0); [nia|].
    symmetry. f_equal. apply Z.log2_unique; [pose proof (Z.log2_nonneg (limb a n)); lia|].
    pose proof (Z.log2_spec (limb a n)) as [H1 H2]; [lia|].
    replace (Z.succ (32 * Z.of_nat n + Z.log2 (limb a n)))
      with (32 * Z.of_nat n + Z.succ (Z.log2 (limb a n))) by lia.
    pose proof (Z.log2_nonneg (limb a n)).
    rewrite !Z.pow_add_r by lia. fold (Wt n). nia.
Qed.

Lemma bu_bits_spec a : bu_wf a -> bu_bits a = bit_length (val a).
Proof.
  intros Ha. unfold bu_bits. rewrite bu_bits_from_spec by auto.
  now rewrite val_take_all by (rewrite wf_length; auto).
Qed.

Lemma bit_length_bounds v : 0 < v -> 0 < bit_length v /\ 2^(bit_length v - 1) <= v < 2^bit_length v.
Proof.
  intros Hv. unfold bit_length. destruct (Z.eqb_spec v 0); [lia|].
  pose proof (Z.log2_nonneg v). pose proof (Z.log2_spec v Hv).
  replace (Z.log2 v + 1 - 1) with (Z.log2 v) by lia. rewrite Z.add_1_r. lia.
Qed.

Lemma bit_length_le v n : 0 <= v < 2^n -> 0 <= n -> bit_length v <= n.
Proof.
  intros Hv Hn. unfold bit_length. destruct (Z.eqb_spec v 0); [lia|].
  assert (Z.log2 v < n) by (apply Z.log2_lt_pow2; lia). lia.
Qed.

(** ** Shifts *)

Lemma shl_limb_parts x s : 0 <= s < 32 -> is_u32 x ->
  u32 (Z.shiftl x s) = (x mod 2^(32 - s)) * 2^s /\
  x * 2^s = (x mod 2^(32 - s)) * 2^s + (x / 2^(32 - s)) * 2^32.
Proof.
  intros Hs Hx. assert (E : 2^32 = 2^(32 - s) * 2^s) by (rewrite <- Z.pow_add_r by lia; f_equal; lia).
  split.
  - unfold u32. rewrite Z.shiftl_mul_pow2, E by lia. rewrite Z.mul_mod_distr_r by lia. done.
  - rewrite E. pose proof (Z.div_mod x (2^(32 - s))). nia.
Qed.

(** A bound on the value bounds every limb. *)
Lemma limb_lt l m c : Forall is_u32 l -> val l < c * Wt m -> limb l m < c.
Proof.
  intros HF Hlt. rewrite limb_val by done. pose proof (Wt_pos m). pose proof (val_nonneg _ HF).
  assert (val l / Wt m < c) by (apply Z.div_lt_upper_bound; lia).
  assert (0 <= val l / Wt m) by (apply Z.div_pos; lia).
  pose proof (Z.mod_le (val l / Wt m) (2^32)). lia.
Qed.

Lemma u32_lor a b : is_u32 a -> is_u32 b -> is_u32 (Z.lor a b).
Proof. by apply lor_lt_pow2. Qed.

Lemma u32_shiftr x n : is_u32 x -> 0 <= n -> is_u32 (Z.shiftr x n).
Proof.
  unfold is_u32. intros Hx Hn. rewrite Z.shiftr_div_pow2 by done. split; [apply Z.div_pos; lia|].
  apply Z.div_lt_upper_bound; nia.
Qed.
#[export] Hint Resolve u32_lor u32_shiftr : word.

(** The two writes of one iteration of [<<=], in the range [i + k < WIDTH]. *)
Lemma bu_shl_step a pn i k s :
  bu_wf a -> bu_wf pn -> (i + k < WIDTH)%nat -> 0 <= s < 32 ->
  val pn = val (take i a) * (Wt k * 2^s) ->
  let pn1 := if ((i + k + 1 <? WIDTH)%nat && negb (s =? 0))%bool
             then <[(i + k + 1)%nat := Z.lor (limb pn (i + k + 1)) (Z.shiftr (limb a i) (32 - s))]> pn
             else pn in
  let pn2 := <[(i + k)%nat := Z.lor (limb pn1 (i + k)) (u32 (Z.shiftl (limb a i) s))]> pn1 in
  bu_wf pn2 /\ exists lost, val pn2 + lost * 2^256 = val (take (S i) a) * (Wt k * 2^s).
Proof.
  intros Ha Hp Hi Hs Hv pn1 pn2.
  pose proof (wf_limb a i Ha) as Hx. pose proof (val_take_bound a i (proj2 Ha)) as Ht.
  destruct (shl_limb_parts _ _ Hs Hx) as [Elow Esum].
  set (hi := limb a i / 2^(32 - s)) in *. set (lo := limb a i mod 2^(32 - s)) in *.
  pose proof (Wt_add i k) as EW. pose proof (Wt_pos k). pose proof (Wt_pos i).
  assert (Hv' : val pn < 2^s * Wt (i + k)) by nia.
  assert (Hx0 : limb pn (i + k) < 2^s) by (apply limb_lt; [apply Hp|done]).
  assert (Hx1 : limb pn (i + k + 1) = 0).
  { assert (limb pn (i + k + 1) < 1).
    { apply limb_lt; [apply Hp|]. rewrite Nat.add_1_r, Wt_S. assert (2^s <= 2^32) by (apply Z.pow_le_mono_r; lia). nia. }
    pose proof (wf_limb pn (i + k + 1) Hp). unfold is_u32 in *. lia. }
  assert (H1 : bu_wf pn1 /\ limb pn1 (i + k) = limb pn (i + k) /\
               exists lost, val pn1 + lost * 2^256 = val pn + hi * Wt (i + k + 1)).
  { unfold pn1. destruct (Nat.ltb_spec (i + k + 1) WIDTH) as [Hlt|Hge]; simpl andb.
    - destruct (Z.eqb_spec s 0) as [->|Hs0]; simpl negb; cbv iota.
      + split_and!; [done..|]. exists 0. replace hi with 0; [lia|].
        symmetry. apply Z.div_small. exact Hx.
      + split; [apply insert_wf; [done|]; apply u32_lor; [auto with word|apply u32_shiftr; [done|lia]]|].
        split; [rewrite limb_insert by (rewrite wf_length by done; done); case_decide; [lia|done]|].
        exists 0. rewrite val_insert, Hx1, Z.lor_0_l by (rewrite wf_length by done; done).
        rewrite Z.shiftr_div_pow2 by lia. fold hi. lia.
    - split_and!; [done..|]. exists hi. f_equal.
      replace (i + k + 1)%nat with WIDTH by lia. by rewrite Wt_WIDTH. }
  destruct H1 as (Hp1 & E1 & lost & Ev1). split; [unfold pn2; auto with word|].
  exists lost. unfold pn2. rewrite val_insert by (rewrite wf_length by done; done).
  rewrite E1, Elow, lor_disjoint_add by (pose proof (wf_limb pn (i + k) Hp); unfold is_u32 in *; lia).
  rewrite val_take_S by (rewrite wf_length by done; lia).
  rewrite Nat.add_1_r, Wt_S in Ev1. rewrite EW in *. nia.
Qed.

Lemma bu_shl_spec a sh :
  bu_wf a -> bu_wf (bu_shl a sh) /\ val (bu_shl a sh) = (val a * 2^Z.of_nat sh) mod 2^256.
Proof.
  intros Ha. unfold bu_shl. set (k := (sh / 32)%nat). set (s := Z.of_nat (sh mod 32)).
  assert (Hs : 0 <= s < 32) by (pose proof (Nat.mod_upper_bound sh 32); lia).
  assert (Esh : 2^Z.of_nat sh = Wt k * 2^s).
  { unfold Wt, k, s. rewrite <- Z.pow_add_r by lia. f_equal. pose proof (Nat.div_mod_eq sh 32). lia. }
  set (body := fun (i : nat) (pn : list Z) => _).
  enough (H : bu_wf (for_to WIDTH body bu_zero) /\
              val (for_to WIDTH body bu_zero) = (val (take WIDTH a) * (Wt k * 2^s)) mod 2^256).
  { rewrite (val_take_all a) in H by (rewrite wf_length; done). by rewrite Esh. }
  apply (for_to_inv (fun i pn => bu_wf pn /\ val pn = (val (take i a) * (Wt k * 2^s)) mod 2^256)).
  - split; [auto with word|]. by rewrite take_0.
  - intros i pn Hi [Hp Hv]. unfold body.
    pose proof (Wt_add i k) as EW. pose proof (Wt_pos k). pose proof (Wt_pos i).
    pose proof (val_take_bound a i (proj2 Ha)).
    destruct (Nat.ltb_spec (i + k) WIDTH) as [Hlt|Hge].
    + destruct (bu_shl_step a pn i k s) as [Hw [lost El]]; try done.
      { rewrite Hv. apply Z.mod_small.
        assert (Wt (S (i + k)) <= Wt WIDTH) by (apply Z.pow_le_mono_r; lia).
        rewrite Wt_S, Wt_WIDTH in *. assert (2^s <= 2^32) by (apply Z.pow_le_mono_r; lia). nia. }
      split; [done|]. apply (mod_unique_decomp _ lost); [now apply val_bound_256|done].
    + rewrite (proj2 (Nat.ltb_ge (i + k + 1) WIDTH)) by lia. simpl andb. cbv iota.
      split; [done|]. rewrite Hv, val_take_S by (rewrite wf_length; done).
      replace ((val (take i a) + limb a i * Wt i) * (Wt k * 2^s))
        with (val (take i a) * (Wt k * 2^s) + (limb a i * 2^s * Wt (i + k - WIDTH)) * 2^256).
      * now rewrite Z.mod_add.
      * rewrite <- Wt_WIDTH, <- !Z.mul_assoc, <- Wt_add.
        replace (i + k - WIDTH + WIDTH)%nat with (i + k)%nat by lia. rewrite EW. lia.
Qed.

(** The two writes of one iteration of [>>=], in the range [k <= i]. *)
Lemma bu_shr_step a pn i k s :
  bu_wf a -> bu_wf pn -> (k <= i < WIDTH)%nat -> 0 <= s < 32 ->
  val pn = val (take i a) / (Wt k * 2^s) ->
  let pn1 := if ((k + 1 <=? i)%nat && negb (s =? 0))%bool
             then <[(i - k - 1)%nat := Z.lor (limb pn (i - k - 1)) (u32 (Z.shiftl (limb a i) (32 - s)))]> pn
             else pn in
  let pn2 := <[(i - k)%nat := Z.lor (limb pn1 (i - k)) (Z.shiftr (limb a i) s)]> pn1 in
  bu_wf pn2 /\ val pn2 = val (take (S i) a) / (Wt k * 2^s).
Proof.
  intros Ha Hp Hi Hs Hv pn1 pn2.
  pose proof (wf_limb a i Ha) as Hx. pose proof (val_take_bound a i (proj2 Ha)) as Ht.
  set (hi := limb a i / 2^s). set (lo := limb a i mod 2^s).
  pose proof (Wt_pos k). pose proof (Wt_pos i).
  assert (Ex : limb a i = hi * 2^s + lo) by (pose proof (Z.div_mod (limb a i) (2^s)); nia).
  assert (E32 : 2^32 = 2^(32 - s) * 2^s) by (rewrite <- Z.pow_add_r by lia; f_equal; lia).
  assert (Ei : Wt i = Wt (i - k) * Wt k) by (rewrite <- Wt_add; f_equal; lia).
  assert (Htop : limb pn (i - k) = 0).
  { pose proof (wf_limb pn (i - k) Hp). unfold is_u32 in *.
    enough (limb pn (i - k) < 1) by lia. apply limb_lt; [apply Hp|].
    rewrite Hv, Z.mul_1_l. apply Z.div_lt_upper_bound; nia. }
  assert (H1 : bu_wf pn1 /\ limb pn1 (i - k) = 0 /\
               val pn1 + hi * Wt (i - k) = val (take (S i) a) / (Wt k * 2^s)).
  { rewrite val_take_S by (rewrite wf_length by done; lia). unfold pn1.
    destruct (Nat.leb_spec (k + 1) i) as [Hlt|Hge]; simpl andb.
    - assert (E1 : Wt (i - k) = 2^32 * Wt (i - k - 1)).
      { rewrite <- Wt_S. f_equal. lia. }
      pose proof (Wt_pos (i - k - 1)).
      replace (val (take i a) + limb a i * Wt i)
        with (val (take i a) + (hi * Wt (i - k) + lo * 2^(32 - s) * Wt (i - k - 1)) * (Wt k * 2^s))
        by (rewrite Ex, Ei, E1, E32; ring).
      rewrite Z.div_add, <- Hv by nia.
      destruct (Z.eqb_spec s 0) as [->|Hs0]; simpl negb; cbv iota.
      + split_and!; [done..|]. replace lo with 0; [lia|]. symmetry. apply Z.mod_1_r.
      + destruct (shl_limb_parts (limb a i) (32 - s)) as [Elow _]; [lia|done|].
        replace (32 - (32 - s)) with s in Elow by lia. fold lo in Elow.
        assert (limb pn (i - k - 1) < 2^(32 - s)).
        { apply limb_lt; [apply Hp|]. rewrite Hv. apply Z.div_lt_upper_bound; [nia|].
          replace (Wt k * 2^s * (2^(32 - s) * Wt (i - k - 1))) with (Wt i) by (rewrite Ei, E1, E32; ring).
          lia. }
        pose proof (wf_limb pn (i - k - 1) Hp) as Hpl. unfold is_u32 in Hpl.
        split; [apply insert_wf; auto with word|].
        split; [rewrite limb_insert by (rewrite wf_length by done; lia); case_decide; [lia|done]|].
        rewrite val_insert by (rewrite wf_length by done; lia).
        rewrite Elow, lor_disjoint_add by lia. lia.
    - split_and!; [done..|]. assert (i = k) as -> by lia.
      rewrite Hv, <- !Z.div_div by lia. rewrite (Z.div_small (val (take k a))) by lia.
      rewrite Z.div_add, (Z.div_small (val (take k a))) by lia.
      replace (k - k)%nat with 0%nat by lia. rewrite Wt_0, Z.div_0_l, !Z.add_0_l by lia. fold hi. lia. }
  destruct H1 as (Hp1 & E1 & Ev1). split.
  - unfold pn2. apply insert_wf; [done|]. apply u32_lor; [auto with word|]. now apply u32_shiftr.
  - unfold pn2. rewrite val_insert by (rewrite wf_length by done; lia).
    rewrite E1, Z.lor_0_l, Z.shiftr_div_pow2 by lia. fold hi. lia.
Qed.

Lemma bu_shr_spec a sh :
  bu_wf a -> bu_wf (bu_shr a sh) /\ val (bu_shr a sh) = val a / 2^Z.of_nat sh.
Proof.
  intros Ha. unfold bu_shr. set (k := (sh / 32)%nat). set (s := Z.of_nat (sh mod 32)).
  assert (Hs : 0 <= s < 32) by (pose proof (Nat.mod_upper_bound sh 32); lia).
  assert (Esh : 2^Z.of_nat sh = Wt k * 2^s).
  { unfold Wt, k, s. rewrite <- Z.pow_add_r by lia. f_equal. pose proof (Nat.div_mod_eq sh 32). lia. }
  set (body := fun (i : nat) (pn : list Z) => _).
  enough (H : bu_wf (for_to WIDTH body bu_zero) /\
              val (for_to WIDTH body bu_zero) = val (take WIDTH a) / (Wt k * 2^s)).
  { rewrite (val_take_all a) in H by (rewrite wf_length; done). by rewrite Esh. }
  apply (for_to_inv (fun i pn => bu_wf pn /\ val pn = val (take i a) / (Wt k * 2^s))).
  - split; [auto with word|]. by rewrite take_0.
  - intros i pn Hi [Hp Hv]. unfold body.
    destruct (Nat.leb_spec k i) as [Hle|Hgt].
    + by apply bu_shr_step.
    + rewrite (proj2 (Nat.leb_gt (k + 1) i)) by lia. simpl andb. cbv iota.
      split; [done|]. rewrite Hv. pose proof (Wt_pos k).
      assert (Wt (S i) <= Wt k) by (apply Z.pow_le_mono_r; lia).
      pose proof (val_take_bound a i (proj2 Ha)). pose proof (val_take_bound a (S i) (proj2 Ha)).
      rewrite Wt_S in *. rewrite !Z.div_small by nia. done.
Qed.

(** ** Division *)

Lemma set_bit_spec q shift :
  bu_wf q -> (shift < 256)%nat -> (2^(Z.of_nat shift + 1) | val q) ->
  let q' := <[(shift / 32)%nat := Z.lor (limb q (shift / 32)) (Z.shiftl 1 (Z.of_nat (shift mod 32)))]> q in
  bu_wf q' /\ val q' = val q + 2^Z.of_nat shift.
Proof.
  intros Hq Hs [m Hm] q'. set (k := (shift / 32)%nat) in *. set (t := Z.of_nat (shift mod 32)) in *.
  assert (Ht : 0 <= t < 32) by (pose proof (Nat.mod_upper_bound shift 32); lia).
  assert (Hk : (k < WIDTH)%nat) by (unfold k, WIDTH; apply Nat.Div0.div_lt_upper_bound; lia).
  assert (Es : Z.of_nat shift = 32 * Z.of_nat k + t) by (pose proof (Nat.div_mod_eq shift 32); lia).
  assert (El : exists h, limb q k = h * 2^(t + 1)).
  { exists (m mod 2^(32 - (t + 1))). rewrite limb_val by apply Hq. rewrite Hm, Es.
    replace (32 * Z.of_nat k + t + 1) with (t + 1 + 32 * Z.of_nat k) by lia.
    rewrite Z.pow_add_r, Z.mul_assoc by lia. fold (Wt k).
    rewrite Z.div_mul by (pose proof (Wt_pos k); lia).
    replace (2^32) with (2^(32 - (t + 1)) * 2^(t + 1)) by (rewrite <- Z.pow_add_r by lia; f_equal; lia).
    now rewrite Z.mul_mod_distr_r by lia. }
  destruct El as [h Eh].
  assert (Ev : Z.lor (limb q k) (Z.shiftl 1 t) = limb q k + 2^t).
  { rewrite Eh, Z.shiftl_1_l, Z.lor_comm, lor_disjoint_add; [lia|lia|].
    split; [lia|]. apply Z.pow_lt_mono_r; lia. }
  split.
  - apply insert_wf; [done|]. apply u32_lor; [auto with word|]. rewrite Z.shiftl_1_l.
    unfold is_u32. split; [lia|]. apply Z.pow_lt_mono_r; lia.
  - unfold q'. rewrite val_insert, Ev by (rewrite wf_length by done; done).
    rewrite Es, Z.pow_add_r by lia. unfold Wt. lia.
Qed.

(** The loop invariant of the restoring division. *)
Lemma bu_div_loop_spec n num div q D :
  bu_wf num -> bu_wf div -> bu_wf q -> 0 < D -> (n <= 256)%nat ->
  ((0 < n)%nat -> val div = D * 2^(Z.of_nat n - 1)) ->
  val num < D * 2^Z.of_nat n -> (2^Z.of_nat n | val q) ->
  let '(q', num') := bu_div_loop n num div q in
  bu_wf q' /\ bu_wf num' /\ val q' = val q + val num / D /\ val num' = val num mod D.
Proof.
  intros Hnum Hdiv Hq HD. revert num div q Hnum Hdiv Hq.
  induction n as [|s IH]; intros num div q Hnum Hdiv Hq Hn Ed Hlt Hdvd.
  - simpl. rewrite Z.mul_1_r in Hlt. pose proof (val_bound_256 _ Hnum).
    rewrite Z.div_small, Z.mod_small by lia. split_and!; [done|done|lia|done].
  - specialize (Ed ltac:(lia)). replace (Z.of_nat (S s) - 1) with (Z.of_nat s) in Ed by lia.
    cbn [bu_div_loop]. rewrite bu_ge_spec, Z.geb_leb by done.
    pose proof (val_bound_256 _ Hnum). destruct (bu_shr_spec div 1 Hdiv) as [Hsh Esh].
    assert (Hds : (0 < s)%nat -> val (bu_shr div 1) = D * 2^(Z.of_nat s - 1)).
    { intros. rewrite Esh, Ed. replace (Z.of_nat s) with (Z.of_nat s - 1 + 1) at 1 by lia.
      rewrite Z.pow_add_r, Z.mul_assoc by lia. apply Z.div_mul. done. }
    replace (Z.of_nat (S s)) with (Z.of_nat s + 1) in * by lia.
    assert (Hd' : (2^Z.of_nat s | val q)).
    { etransitivity; [|exact Hdvd]. rewrite Z.pow_add_r by lia. apply Z.divide_factor_l. }
    destruct (Z.leb_spec (val div) (val num)) as [Hge|Hlt'].
    + destruct (bu_sub_spec num div Hnum Hdiv) as [Hsub Esub].
      rewrite Z.mod_small in Esub by (rewrite Ed in *; nia).
      destruct (set_bit_spec q s Hq ltac:(lia) Hdvd) as [Hq' Eq'].
      specialize (IH (bu_sub num div) (bu_shr div 1) _ Hsub Hsh Hq' ltac:(lia) Hds).
      destruct (bu_div_loop s _ _ _) as [q' num'].
      rewrite Z.pow_add_r in Hlt by lia.
      destruct IH as (A & B & C & E).
      { rewrite Esub, Ed. lia. }
      { rewrite Eq'. apply Z.divide_add_r; [done|apply Z.divide_refl]. }
      split_and!; [done|done| |].
      * rewrite C, Eq', Esub, Ed. replace (val num) with (val num - D * 2^Z.of_nat s + 2^Z.of_nat s * D) at 2 by lia.
        rewrite Z.div_add by lia. lia.
      * rewrite E, Esub, Ed. replace (val num - D * 2^Z.of_nat s) with (val num + (- 2^Z.of_nat s) * D) by lia.
        now rewrite Z.mod_add by lia.
    + specialize (IH num (bu_shr div 1) q Hnum Hsh Hq ltac:(lia) Hds).
      destruct (bu_div_loop s _ _ _) as [q' num']. apply IH; [|done]. rewrite Ed in Hlt'. lia.
Qed.

Lemma bu_div_spec a b :
  bu_wf a -> bu_wf b -> val b <> 0 ->
  exists q, bu_div a b = Some q /\ bu_wf q /\ val q = val a / val b.
Proof.
  intros Ha Hb Hnz. pose proof (val_bound_256 _ Ha). pose proof (val_bound_256 _ Hb).
  unfold bu_div. rewrite !bu_bits_spec by done.
  destruct (bit_length_bounds (val b)) as [Hpos [Hlo Hhi]]; [lia|].
  pose proof (bit_length_le (val b) 256 ltac:(lia) ltac:(lia)).
  pose proof (bit_length_le (val a) 256 ltac:(lia) ltac:(lia)) as Hba.
  destruct (Z.eqb_spec (bit_length (val b)) 0); [lia|].
  rewrite Z.gtb_ltb. destruct (Z.ltb_spec (bit_length (val a)) (bit_length (val b))) as [Hlt|Hge].
  { eexists. split; [done|]. split; [auto with word|]. rewrite val_zero, Z.div_small; [done|].
    split; [lia|]. destruct (Z.eq_dec (val a) 0) as [E|E]; [lia|].
    destruct (bit_length_bounds (val a)) as [? [? Hh]]; [lia|].
    assert (2^bit_length (val a) <= 2^(bit_length (val b) - 1)) by (apply Z.pow_le_mono_r; lia). lia. }
  assert (Hapos : 0 < val a).
  { destruct (Z.eq_dec (val a) 0) as [E|]; [|lia]. rewrite E in Hge. unfold bit_length at 2 in Hge.
    simpl in Hge. lia. }
  destruct (bit_length_bounds (val a) Hapos) as [Hpa [Hla Hha]].
  set (sh := bit_length (val a) - bit_length (val b)) in *.
  assert (E1 : 2^bit_length (val a) = 2^bit_length (val b) * 2^sh).
  { rewrite <- Z.pow_add_r by lia. f_equal. lia. }
  assert (E2 : 2^bit_length (val b) = 2 * 2^(bit_length (val b) - 1)).
  { rewrite <- Z.pow_succ_r by lia. f_equal. lia. }
  assert (2^bit_length (val a) <= 2^256) by (apply Z.pow_le_mono_r; lia).
  destruct (bu_shl_spec b (Z.to_nat sh) Hb) as [Hw Ew].
  rewrite Z2Nat.id, Z.mod_small in Ew by nia.
  pose proof (bu_div_loop_spec (S (Z.to_nat sh)) a (bu_shl b (Z.to_nat sh)) bu_zero (val b)) as Hloop.
  destruct (bu_div_loop _ _ _ _) as [q r]. eexists. split; [done|].
  destruct Hloop as (Hq & _ & Eq & _); [done|done|auto with word|lia|lia| | | |].
  - intros _. rewrite Ew. do 2 f_equal. lia.
  - replace (Z.of_nat (S (Z.to_nat sh))) with (Z.succ sh) by lia. rewrite Z.pow_succ_r by lia. nia.
  - rewrite val_zero. apply Z.divide_0_r.
  - split; [done|]. simpl. rewrite Eq, val_zero. lia.
Qed.

Lemma bu_div_zero a b : bu_wf a -> bu_wf b -> bu_div a b = None <-> val b = 0.
Proof.
  intros Ha Hb. split.
  - intros E. destruct (Z.eq_dec (val b) 0) as [|Hnz]; [done|].
    destruct (bu_div_spec a b Ha Hb Hnz) as (q & Hq & _). congruence.
  - intros E. unfold bu_div. rewrite !bu_bits_spec, E by done. done.
Qed.

(** ** Properties *)

(** The limb-wise carry chains of [+=], [-=], unary minus, [*=] by a
    256-bit and by a 32-bit number, [++] and [--] compute exactly in the integers
    modulo 2^256, and keep every limb within 32 bits. *)
Theorem arith_ring_ops (a b : list Z) (c : Z) :
  bu_wf a -> bu_wf b -> is_u32 c ->
  (bu_wf (bu_add a b) /\ val (bu_add a b) = (val a + val b) mod 2^256) /\
  (bu_wf (bu_sub a b) /\ val (bu_sub a b) = (val a - val b) mod 2^256) /\
  (bu_wf (bu_neg a) /\ val (bu_neg a) = (- val a) mod 2^256) /\
  (bu_wf (bu_mul a b) /\ val (bu_mul a b) = (val a * val b) mod 2^256) /\
  (bu_wf (bu_mul32 a c) /\ val (bu_mul32 a c) = (val a * c) mod 2^256) /\
  (bu_wf (bu_incr a) /\ val (bu_incr a) = (val a + 1) mod 2^256) /\
  (bu_wf (bu_decr a) /\ val (bu_decr a) = (val a - 1) mod 2^256).
Proof.
  intros Ha Hb Hc. split; [now apply bu_add_spec|]. split; [now apply bu_sub_spec|].
  split; [now apply bu_neg_spec|]. split; [now apply bu_mul_spec|].
  split; [now apply bu_mul32_spec|]. split; [now apply bu_incr_spec|now apply bu_decr_spec].
Qed.

Lemma arith_ring_ops_witness :
  val (bu_mul (bu_of_u64 (2^64 - 1)) (bu_not bu_zero)) = (- (2^64 - 1)) mod 2^256.
Proof.
  assert (Hn : bu_wf (bu_not bu_zero)) by (apply bu_not_spec, bu_zero_wf).
  destruct (arith_ring_ops (bu_of_u64 (2^64 - 1)) (bu_not bu_zero) 7 (bu_of_u64_wf _) Hn
    ltac:(unfold is_u32; lia)) as (_ & _ & _ & [_ H] & _).
  rewrite H. vm_compute. reflexivity.
Defined.

(** The shift-and-subtract division loop returns the floor of the quotient
    for every dividend and every non-zero divisor, and raises the division
    error exactly for a zero divisor. *)
Theorem arith_division (a b : list Z) :
  bu_wf a -> bu_wf b ->
  (val b <> 0 -> exists q, bu_div a b = Some q /\ bu_wf q /\ val q = val a / val b) /\
  (bu_div a b = None <-> val b = 0).
Proof. intros Ha Hb. split; [intros; now apply bu_div_spec|now apply bu_div_zero]. Qed.

Lemma arith_division_witness :
  exists q, bu_div (bu_not bu_zero) (bu_of_u64 1000000007) = Some q /\ val q = (2^256 - 1) / 1000000007.
Proof.
  assert (Hn : bu_wf (bu_not bu_zero)) by (apply bu_not_spec, bu_zero_wf).
  destruct (arith_division (bu_not bu_zero) (bu_of_u64 1000000007) Hn (bu_of_u64_wf _)) as [H _].
  destruct H as (q & Hq & _ & Hv); [vm_compute; discriminate|].
  exists q. split; [exact Hq|]. rewrite Hv. vm_compute. reflexivity.
Defined.

(** [<<=] multiplies by the power of two modulo 2^256, [>>=] divides by it
    rounding down, for every shift amount, those beyond the width included;
    [bits()] is the position of the highest set bit plus one, and the
    comparison operators order the numbers. *)
Theorem arith_shift_compare (a b : list Z) (shift : nat) :
  bu_wf a -> bu_wf b ->
  (bu_wf (bu_shl a shift) /\ val (bu_shl a shift) = (val a * 2^Z.of_nat shift) mod 2^256) /\
  (bu_wf (bu_shr a shift) /\ val (bu_shr a shift) = val a / 2^Z.of_nat shift) /\
  (0 < val a -> 2^(bu_bits a - 1) <= val a < 2^bu_bits a) /\
  bu_lt a b = (val a <? val b) /\ bu_eq a b = (val a =? val b) /\ bu_ge a b = (val a >=? val b).
Proof.
  intros Ha Hb. split; [now apply bu_shl_spec|]. split; [now apply bu_shr_spec|].
  split; [intros; rewrite bu_bits_spec by done; now apply bit_length_bounds|].
  split; [now apply bu_lt_spec|]. split; [now apply bu_eq_spec|now apply bu_ge_spec].
Qed.

Lemma arith_shift_compare_witness :
  val (bu_shr (bu_not bu_zero) 28) = (2^256 - 1) / 2^28.
Proof.
  assert (Hn : bu_wf (bu_not bu_zero)) by (apply bu_not_spec, bu_zero_wf).
  destruct (arith_shift_compare (bu_not bu_zero) bu_zero 28 Hn bu_zero_wf) as (_ & [_ H] & _).
  rewrite H. vm_compute. reflexivity.
Defined.
