(* ===== verification/Uint256.v ===== *)
(** * Uint256: byte blobs and little-endian words
      (src/src/uint256.{h,cpp}, src/src/crypto/common.h, src/src/arith_uint256.cpp)

    A [uint256] is an array of 32 bytes; the stream operators write integers
    little-endian.  The conversions to and from [arith_uint256] are shown to be
    inverse to each other and to read the bytes as a little-endian number. *)

From Stdlib Require Import ZArith Lia.
From stdpp Require Import base list numbers option countable.
From S2P Require Import Prelude Arith256.

(** ** Definitions *)

Definition uint256 : Type := list Z.
#[export] Instance uint256_eq_dec : EqDecision uint256 := _.
#[export] Instance uint256_countable : Countable uint256 := _.
#[export] Instance uint256_inhabited : Inhabited uint256 := populate [].

Definition is_byte (z : Z) : Prop := 0 <= z < 2^8.
Definition blob_wf (b : uint256) : Prop := length b = 32%nat /\ Forall is_byte b.

(** The default constructor [uint256()] *)
Definition uint256_zero : uint256 := replicate 32 0.

(** [base_blob::IsNull] *)
Definition IsNull (b : uint256) : bool := forallb (fun v => v =? 0) b.

(** [base_blob::Compare], [memcmp] on the bytes: the first difference decides. *)
Fixpoint blob_Compare (a b : uint256) : Z :=
  match a, b with
  | x :: a', y :: b' => if x <? y then -1 else if y <? x then 1 else blob_Compare a' b'
  | _, _ => 0
  end.
(** [operator<] *)
Definition blob_lt (a b : uint256) : bool := blob_Compare a b <? 0.

(** [WriteLE32] and [ReadLE32] *)
Definition WriteLE32 (x : Z) : list Z :=
  [u8 x; u8 (Z.shiftr x 8); u8 (Z.shiftr x 16); u8 (Z.shiftr x 24)].
Definition ReadLE32 (b : list Z) : Z :=
  Z.lor (limb b 0) (Z.lor (Z.shiftl (limb b 1) 8)
    (Z.lor (Z.shiftl (limb b 2) 16) (Z.shiftl (limb b 3) 24))).

(** [ArithToUint256]: [WriteLE32(b.begin() + x*4, a.pn[x])] for each limb *)
Definition ArithToUint256 (a : list Z) : uint256 :=
  concat (map (fun x => WriteLE32 (limb a x)) (seq 0 WIDTH)).

(** [UintToArith256]: [b.pn[x] = ReadLE32(a.begin() + x*4)] for each limb *)
Definition UintToArith256 (a : uint256) : list Z :=
  map (fun x => ReadLE32 (drop (x * 4) a)) (seq 0 WIDTH).

(** The bytes as a little-endian number. *)
Fixpoint le_val (b : list Z) : Z :=
  match b with
  | [] => 0
  | x :: r => x + 2^8 * le_val r
  end.

(** ** Lemmas *)

Lemma le_val_bound b : Forall is_byte b -> 0 <= le_val b < 2^(8 * Z.of_nat (length b)).
Proof.
  unfold is_byte. induction 1 as [|x b Hx Hb IH]; [done|].
  simpl le_val. simpl length. replace (8 * Z.of_nat (S (length b))) with (8 + 8 * Z.of_nat (length b)) by lia.
  rewrite Z.pow_add_r by lia. nia.
Qed.

Lemma u8_range x : is_byte (u8 x).
Proof. apply Z.mod_pos_bound. lia. Qed.
#[export] Hint Resolve u8_range : word.

Lemma WriteLE32_wf x : Forall is_byte (WriteLE32 x).
Proof. unfold WriteLE32. repeat (constructor; [auto with word|]). constructor. Qed.

Lemma WriteLE32_val x : is_u32 x -> le_val (WriteLE32 x) = x.
Proof.
  unfold is_u32. intros Hx. unfold WriteLE32, u8. simpl le_val.
  rewrite !Z.shiftr_div_pow2 by lia.
  change (2^16) with (2^8 * 2^8). change (2^24) with (2^8 * (2^8 * 2^8)).
  rewrite <- !Z.div_div by lia.
  pose proof (Z.div_mod x (2^8)). pose proof (Z.div_mod (x / 2^8) (2^8)).
  pose proof (Z.div_mod (x / 2^8 / 2^8) (2^8)).
  rewrite (Z.mod_small (x / 2^8 / 2^8 / 2^8)).
  - lia.
  - rewrite !Z.div_div by lia. split; [apply Z.div_pos; lia|apply Z.div_lt_upper_bound; lia].
Qed.

Lemma ReadLE32_val a b c d r :
  is_byte a -> is_byte b -> is_byte c -> is_byte d ->
  ReadLE32 (a :: b :: c :: d :: r) = le_val [a; b; c; d].
Proof.
  unfold is_byte. intros Ha Hb Hc Hd. unfold ReadLE32, limb. simpl nth. simpl le_val.
  assert (E : forall x y n m, 0 <= n -> 0 <= m -> 0 <= x < 2^n ->
              Z.lor (Z.shiftl x m) (Z.shiftl y (m + n)) = Z.shiftl (x + y * 2^n) m).
  { intros x y n m Hn Hm Hx. rewrite (Z.add_comm m n), <- Z.shiftl_shiftl, <- Z.shiftl_lor by done.
    f_equal. rewrite Z.shiftl_mul_pow2 by done. now apply lor_disjoint_add. }
  pose proof (E c d 8 16 ltac:(lia) ltac:(lia) Hc) as E1. change (16 + 8) with 24 in E1. rewrite E1.
  pose proof (E b (c + d * 2^8) 8 8 ltac:(lia) ltac:(lia) Hb) as E2. change (8 + 8) with 16 in E2. rewrite E2.
  rewrite Z.shiftl_mul_pow2, lor_disjoint_add by lia. lia.
Qed.

Lemma le_val_inj a b :
  length a = length b -> Forall is_byte a -> Forall is_byte b -> le_val a = le_val b -> a = b.
Proof.
  intros Hl Ha. revert b Hl. induction Ha as [|x a Hx Ha IH]; intros [|y b] Hl Hb E; try done.
  inversion Hb as [|? ? Hy Hb']; subst. simpl in E. unfold is_byte in Hx, Hy.
  pose proof (le_val_bound _ Ha). pose proof (le_val_bound _ Hb').
  assert (x = y /\ le_val a = le_val b) as [-> E'] by lia.
  f_equal. apply IH; auto.
Qed.

Lemma ArithToUint256_wf a : blob_wf (ArithToUint256 a).
Proof.
  split; [done|]. unfold ArithToUint256. simpl concat.
  repeat (constructor; [auto with word|]). constructor.
Qed.

Lemma UintToArith256_spec b :
  blob_wf b -> bu_wf (UintToArith256 b) /\ val (UintToArith256 b) = le_val b.
Proof.
  intros [Hl Hb].
  do 32 (destruct b as [|? b]; [done|]). destruct b; [|done]. clear Hl.
  repeat match goal with H : Forall _ (_ :: _) |- _ => inversion H; subst; clear H end.
  unfold UintToArith256. simpl map. rewrite !ReadLE32_val by done.
  assert (Hr : forall x y z w, is_byte x -> is_byte y -> is_byte z -> is_byte w -> is_u32 (le_val [x; y; z; w])).
  { unfold is_byte, is_u32. intros. simpl. lia. }
  split; [split; [done|]; repeat (constructor; [by apply Hr|]); constructor|].
  cbn [val le_val]. lia.
Qed.

Lemma ArithToUint256_val a : bu_wf a -> le_val (ArithToUint256 a) = val a.
Proof.
  intros [Hl HF]. unfold WIDTH in Hl.
  do 8 (destruct a as [|? a]; [done|]). destruct a; [|done]. clear Hl.
  repeat match goal with H : Forall _ (_ :: _) |- _ => inversion H; subst; clear H end.
  assert (Happ : forall x l, is_u32 x -> le_val (WriteLE32 x ++ l) = x + 2^32 * le_val l).
  { intros x l Hx. rewrite <- (WriteLE32_val x Hx) at 2. unfold WriteLE32. simpl. lia. }
  unfold ArithToUint256. simpl seq. simpl map. cbn [concat]. unfold limb. cbn [nth].
  rewrite !Happ by done. cbn [val le_val]. lia.
Qed.

Lemma ArithToUint256_inv a : bu_wf a -> UintToArith256 (ArithToUint256 a) = a.
Proof.
  intros Ha. destruct (UintToArith256_spec _ (ArithToUint256_wf a)) as [Hw Hv].
  apply val_inj; [done|done|]. rewrite Hv. now apply ArithToUint256_val.
Qed.

Lemma UintToArith256_inv b : blob_wf b -> ArithToUint256 (UintToArith256 b) = b.
Proof.
  intros Hb. destruct (UintToArith256_spec _ Hb) as [Hw Hv].
  destruct (ArithToUint256_wf (UintToArith256 b)) as [Hl HF]. destruct Hb as [Hlb HFb].
  apply le_val_inj; [congruence|done|done|]. rewrite ArithToUint256_val, Hv; done.
Qed.

(** [Compare] is a total order on blobs of one length. *)
Lemma blob_Compare_refl a : blob_Compare a a = 0.
Proof. induction a; simpl; [done|]. by rewrite Z.ltb_irrefl. Qed.

Lemma blob_Compare_eq a b : length a = length b -> blob_Compare a b = 0 -> a = b.
Proof.
  revert b. induction a as [|x a IH]; intros [|y b] Hl; simpl; try done.
  destruct (Z.ltb_spec x y); [done|]. destruct (Z.ltb_spec y x); [done|].
  intros. f_equal; [lia|]. apply IH; auto.
Qed.

Lemma blob_Compare_antisym a b : blob_Compare b a = - blob_Compare a b.
Proof.
  revert b. induction a as [|x a IH]; intros [|y b]; simpl; try done.
  destruct (Z.ltb_spec x y), (Z.ltb_spec y x); try lia. apply IH.
Qed.

(** ** Properties *)

(** The conversions between the 32-byte little-endian blob and the eight
    limbs are inverse to each other and keep the number. *)
Theorem uint256_conversions (a : list Z) (u : uint256) :
  bu_wf a -> blob_wf u ->
  blob_wf (ArithToUint256 a) /\ le_val (ArithToUint256 a) = val a /\
  UintToArith256 (ArithToUint256 a) = a /\
  bu_wf (UintToArith256 u) /\ val (UintToArith256 u) = le_val u /\
  ArithToUint256 (UintToArith256 u) = u.
Proof.
  intros Ha Hu. destruct (UintToArith256_spec u Hu).
  split; [apply ArithToUint256_wf|]. split; [now apply ArithToUint256_val|].
  split; [now apply ArithToUint256_inv|]. split; [done|]. split; [done|now apply UintToArith256_inv].
Qed.

Lemma uint256_conversions_witness :
  UintToArith256 (ArithToUint256 (bu_of_u64 0x0123456789abcdef)) = bu_of_u64 0x0123456789abcdef.
Proof.
  apply (uint256_conversions (bu_of_u64 0x0123456789abcdef) uint256_zero (bu_of_u64_wf _)).
  split; [reflexivity|]. apply Forall_replicate. unfold is_byte. lia.
Defined.

(** The number a blob spells with its first byte the most significant: the
    order of [operator<], which is that of [memcmp] *)
Fixpoint be_val (b : list Z) : Z :=
  match b with [] => 0 | x :: b' => x * 256 ^ Z.of_nat (length b') + be_val b' end.

Lemma be_val_bounds b : Forall is_byte b -> 0 <= be_val b < 256 ^ Z.of_nat (length b).
Proof.
  induction 1 as [|x b Hx Hb IH]; [cbn; lia|]. cbn [be_val length]. unfold is_byte in Hx.
  rewrite Nat2Z.inj_succ, Z.pow_succ_r by lia. nia.
Qed.

Lemma blob_Compare_be a b : length a = length b -> Forall is_byte a -> Forall is_byte b ->
  blob_Compare a b = Z.sgn (be_val a - be_val b).
Proof.
  revert b. induction a as [|x a IH]; intros [|y b] Hl Ha Hb; try done.
  inversion_clear Ha as [|? ? Hx Ha']. inversion_clear Hb as [|? ? Hy Hb']. cbn [length] in Hl.
  cbn [blob_Compare be_val]. pose proof (be_val_bounds a Ha') as Ba. pose proof (be_val_bounds b Hb') as Bb.
  assert (length b = length a) as E by lia. rewrite E in Bb. rewrite E.
  destruct (Z.ltb_spec x y); [symmetry; apply Z.sgn_neg; nia|].
  destruct (Z.ltb_spec y x); [symmetry; apply Z.sgn_pos; nia|].
  rewrite IH by (lia || done). f_equal. assert (x = y) as -> by lia. lia.
Qed.

Lemma blob_lt_be a b : blob_wf a -> blob_wf b -> blob_lt a b = (be_val a <? be_val b).
Proof.
  intros [La Fa] [Lb Fb]. unfold blob_lt. rewrite blob_Compare_be by (congruence || done).
  destruct (Z.ltb_spec (be_val a) (be_val b)); destruct (Z.ltb_spec (Z.sgn (be_val a - be_val b)) 0); lia.
Qed.

Lemma be_val_inj a b : blob_wf a -> blob_wf b -> be_val a = be_val b -> a = b.
Proof.
  intros [La Fa] [Lb Fb] E. apply blob_Compare_eq; [congruence|].
  rewrite blob_Compare_be by (congruence || done). lia.
Qed.

Lemma be_val_lt a : blob_wf a -> 0 <= be_val a < 2^256.
Proof. intros [La Fa]. pose proof (be_val_bounds a Fa) as H. rewrite La in H. exact H. Qed.
