(* ===== verification/Serialize.v ===== *)
(** * Serialize: the wire format of integers, vectors and bit sets
      (src/src/serialize.h)

    A stream is the list of the bytes still to be read.  Writing appends
    bytes; reading takes them from the front and yields [None] where the source
    throws [std::ios_base::failure].  The class [Codec] is the interface
    [Serialize]/[Unserialize] that composite types build on. *)

From Stdlib Require Import ZArith Lia.
From stdpp Require Import base list numbers option.
From S2P Require Import Prelude Arith256 Uint256.

Definition stream : Type := list Z.

(** ** Fixed-width integers *)

(** [s.read] of [n] bytes *)
Definition read_bytes (n : nat) (s : stream) : option (list Z * stream) :=
  if (length s <? n)%nat then None else Some (take n s, drop n s).

(** The [n] low bytes of an unsigned number, least significant first. *)
Fixpoint le_bytes (n : nat) (z : Z) : list Z :=
  match n with
  | O => []
  | S n => z mod 2^8 :: le_bytes n (z / 2^8)
  end.

(** [ser_writedata8], [16], [32], [64] and the matching readers *)
Definition ser_writedata8 (obj : Z) : list Z := le_bytes 1 obj.
Definition ser_writedata16 (obj : Z) : list Z := le_bytes 2 obj.
Definition ser_writedata32 (obj : Z) : list Z := le_bytes 4 obj.
Definition ser_writedata64 (obj : Z) : list Z := le_bytes 8 obj.

Definition ser_readdata (n : nat) (s : stream) : option (Z * stream) :=
  '(b, s) ← read_bytes n s; Some (le_val b, s).
Definition ser_readdata8 : stream -> option (Z * stream) := ser_readdata 1.
Definition ser_readdata16 : stream -> option (Z * stream) := ser_readdata 2.
Definition ser_readdata32 : stream -> option (Z * stream) := ser_readdata 4.
Definition ser_readdata64 : stream -> option (Z * stream) := ser_readdata 8.

(** ** Compact size *)

Definition MAX_SIZE : Z := 0x02000000.

(** [GetSizeOfCompactSize] *)
Definition GetSizeOfCompactSize (nSize : Z) : Z :=
  if nSize <? 253 then 1
  else if nSize <=? 2^16 - 1 then 1 + 2
  else if nSize <=? 2^32 - 1 then 1 + 4
  else 1 + 8.

(** [WriteCompactSize] *)
Definition WriteCompactSize (nSize : Z) : list Z :=
  if nSize <? 253 then ser_writedata8 nSize
  else if nSize <=? 2^16 - 1 then ser_writedata8 253 ++ ser_writedata16 nSize
  else if nSize <=? 2^32 - 1 then ser_writedata8 254 ++ ser_writedata32 nSize
  else ser_writedata8 255 ++ ser_writedata64 nSize.

(** [ReadCompactSize] *)
Definition ReadCompactSize (range_check : bool) (s : stream) : option (Z * stream) :=
  '(chSize, s) ← ser_readdata8 s;
  '(nSizeRet, s) ←
    (if chSize <? 253 then Some (chSize, s)
     else if chSize =? 253 then
       '(n, s) ← ser_readdata16 s; if n <? 253 then None else Some (n, s)
     else if chSize =? 254 then
       '(n, s) ← ser_readdata32 s; if n <? 0x10000 then None else Some (n, s)
     else
       '(n, s) ← ser_readdata64 s; if n <? 0x100000000 then None else Some (n, s));
  if (range_check && (nSizeRet >? MAX_SIZE))%bool then None else Some (nSizeRet, s).

(** ** Variable-length integers *)

(** [WriteVarInt]: the digits [tmp[len]], [tmp[len+1]], ...; ten digits hold
    64 bits. *)
Fixpoint varint_digits (fuel : nat) (n : Z) (first : bool) : list Z :=
  let digit := Z.lor (Z.land n 0x7f) (if first then 0 else 0x80) in
  match fuel with
  | O => [digit]
  | S fuel => if n <=? 0x7f then [digit]
              else digit :: varint_digits fuel (Z.shiftr n 7 - 1) false
  end.

Definition WriteVarInt (n : Z) : list Z := rev (varint_digits 10 n true).

(** [GetSizeOfVarInt] *)
Fixpoint GetSizeOfVarInt_loop (fuel : nat) (n : Z) : Z :=
  match fuel with
  | O => 1
  | S fuel => if n <=? 0x7f then 1 else 1 + GetSizeOfVarInt_loop fuel (Z.shiftr n 7 - 1)
  end.
Definition GetSizeOfVarInt (n : Z) : Z := GetSizeOfVarInt_loop 10 n.

(** [ReadVarInt] into an integer type with the largest value [max] *)
Fixpoint ReadVarInt_loop (max n : Z) (s : stream) : option (Z * stream) :=
  match s with
  | [] => None
  | chData :: s =>
      if n >? Z.shiftr max 7 then None
      else
        let n := Z.lor (Z.shiftl n 7) (Z.land chData 0x7f) in
        if negb (Z.land chData 0x80 =? 0) then
          if n =? max then None else ReadVarInt_loop max (n + 1) s
        else Some (n, s)
  end.
Definition ReadVarInt (max : Z) (s : stream) : option (Z * stream) := ReadVarInt_loop max 0 s.

(** ** Bit sets *)

Definition b2z (b : bool) : Z := if b then 1 else 0.

(** [GetSizeOfFixedBitSet] *)
Definition GetSizeOfFixedBitSet (size : nat) : nat := ((size + 7) / 8)%nat.

(** [WriteFixedBitSet] *)
Definition WriteFixedBitSet (vec : list bool) (size : nat) : list Z :=
  let ms := Nat.min size (length vec) in
  for_to ms (fun p vBytes =>
      <[(p / 8)%nat := Z.lor (limb vBytes (p / 8)) (Z.shiftl (b2z (nth p vec false)) (Z.of_nat (p mod 8)))]> vBytes)
    (replicate (GetSizeOfFixedBitSet size) 0).

(** [ReadFixedBitSet]; a stream knows its size, so the declared length is
    refused before anything is allocated. *)
Definition ReadFixedBitSet (size : nat) (s : stream) : option (list bool * stream) :=
  let nbytes := ((size + 7) / 8)%nat in
  if (length s <? nbytes)%nat then None
  else
    '(vBytes, s) ← read_bytes nbytes s;
    let vec := map (fun p => negb (Z.land (limb vBytes (p / 8)) (Z.shiftl 1 (Z.of_nat (p mod 8))) =? 0)) (seq 0 size) in
    if negb (length vBytes * 8 =? size)%nat then
      let rem := Z.of_nat (length vBytes * 8 - size) in
      let m := u8 (Z.lnot (Z.shiftr 0xff rem)) in
      if negb (Z.land (limb vBytes (length vBytes - 1)) m =? 0) then None else Some (vec, s)
    else Some (vec, s).

(** [WriteFixedVarIntsBitSet]: offsets between set bits, ended by 0 *)
Fixpoint varints_offsets (vec : list bool) (i : nat) (last : option nat) : list Z :=
  match vec with
  | [] => []
  | b :: vec =>
      if b then WriteVarInt (u32 (match last with Some l => Z.of_nat (i - l) | None => Z.of_nat (i + 1) end))
                ++ varints_offsets vec (S i) (Some i)
      else varints_offsets vec (S i) last
  end.
Definition WriteFixedVarIntsBitSet (vec : list bool) : list Z := varints_offsets vec 0 None ++ WriteVarInt 0.

(** [ReadFixedVarIntsBitSet]; each offset takes a byte at least. *)
Fixpoint ReadFixedVarIntsBitSet_loop (fuel : nat) (size : nat) (vec : list bool) (last : option nat) (s : stream)
    : option (list bool * stream) :=
  match fuel with
  | O => None
  | S fuel =>
      '(offset, s) ← ReadVarInt (2^32 - 1) s;
      if offset =? 0 then Some (vec, s)
      else
        let idx := match last with
                   | Some l => (l + Z.to_nat offset)%nat
                   | None => (Z.to_nat offset - 1)%nat
                   end in
        if (size <=? idx)%nat then None
        else if match last with Some l => (idx <=? l)%nat | None => false end then None
        else ReadFixedVarIntsBitSet_loop fuel size (<[idx := true]> vec) (Some idx) s
  end.
Definition ReadFixedVarIntsBitSet (size : nat) (s : stream) : option (list bool * stream) :=
  ReadFixedVarIntsBitSet_loop (S (length s)) size (replicate size false) None s.

(** [WriteAutoBitSet]: the smaller of the two forms, after a byte that names it *)
Definition WriteAutoBitSet (vec : list bool) (size : nat) : option (list Z) :=
  if negb (length vec =? size)%nat then None
  else
    let size1 := length (WriteFixedBitSet vec size) in
    let size2 := length (WriteFixedVarIntsBitSet vec) in
    if negb (size1 =? GetSizeOfFixedBitSet size)%nat then None
    else if (size1 <? size2)%nat then Some (ser_writedata8 0 ++ WriteFixedBitSet vec (length vec))
    else Some (ser_writedata8 1 ++ WriteFixedVarIntsBitSet vec).

(** [ReadAutoBitSet] *)
Definition ReadAutoBitSet (size : nat) (s : stream) : option (list bool * stream) :=
  '(isVarInts, s) ← ser_readdata8 s;
  if (negb (isVarInts =? 0) && negb (isVarInts =? 1))%bool then None
  else if isVarInts =? 0 then ReadFixedBitSet size s
  else ReadFixedVarIntsBitSet size s.

(** ** Lemmas on fixed-width integers *)

Lemma le_bytes_length n z : length (le_bytes n z) = n.
Proof. revert z. induction n; intros; simpl; auto. Qed.

Lemma le_bytes_wf n z : Forall is_byte (le_bytes n z).
Proof.
  revert z. induction n as [|n IH]; intros z; constructor; [|apply IH].
  unfold is_byte. apply Z.mod_pos_bound. lia.
Qed.

Lemma le_bytes_val n z : 0 <= z < 2^(8 * Z.of_nat n) -> le_val (le_bytes n z) = z.
Proof.
  revert z. induction n as [|n IH]; intros z Hz; cbn [le_bytes le_val]; [lia|].
  rewrite IH; [pose proof (Z.div_mod z (2^8)); lia|].
  split; [apply Z.div_pos; lia|]. apply Z.div_lt_upper_bound; [lia|].
  rewrite <- Z.pow_add_r by lia. replace (8 + 8 * Z.of_nat n) with (8 * Z.of_nat (S n)) by lia. lia.
Qed.

Lemma le_bytes_le_val b : Forall is_byte b -> le_bytes (length b) (le_val b) = b.
Proof.
  induction 1 as [|x b Hx Hb IH]; [done|]. cbn [le_bytes length le_val]. unfold is_byte in Hx.
  rewrite (Z.mul_comm (2^8)), Z.mod_add, Z.mod_small by lia.
  rewrite Z.div_add, Z.div_small by lia. rewrite Z.add_0_l. now f_equal.
Qed.

Lemma read_bytes_app n b s : length b = n -> read_bytes n (b ++ s) = Some (b, s).
Proof.
  intros Hn. unfold read_bytes. rewrite length_app.
  rewrite (proj2 (Nat.ltb_ge _ _)) by lia. now rewrite take_app_length', drop_app_length'.
Qed.

Lemma read_bytes_inv n s b s' : read_bytes n s = Some (b, s') -> s = b ++ s' /\ length b = n.
Proof.
  unfold read_bytes. destruct (Nat.ltb_spec (length s) n); [done|]. intros [= <- <-].
  rewrite take_drop, length_take. split; [done|lia].
Qed.

Lemma ser_readdata_app n z s : 0 <= z < 2^(8 * Z.of_nat n) -> ser_readdata n (le_bytes n z ++ s) = Some (z, s).
Proof.
  intros Hz. unfold ser_readdata. rewrite read_bytes_app by apply le_bytes_length.
  cbn. now rewrite le_bytes_val.
Qed.

Lemma ser_readdata_inv n s z s' : Forall is_byte s -> ser_readdata n s = Some (z, s') ->
  s = le_bytes n z ++ s' /\ 0 <= z < 2^(8 * Z.of_nat n).
Proof.
  intros Hs. unfold ser_readdata. destruct (read_bytes n s) as [[b r]|] eqn:E; [|done].
  cbn. intros [= <- <-]. apply read_bytes_inv in E as [-> <-]. apply Forall_app in Hs as [Hb _].
  rewrite le_bytes_le_val by done. split; [done|]. now apply le_val_bound.
Qed.

(** ** Compact size *)

Ltac unfold_ser :=
  unfold ser_readdata8, ser_readdata16, ser_readdata32, ser_readdata64,
    ser_writedata8, ser_writedata16, ser_writedata32, ser_writedata64 in *.

Lemma ReadCompactSize_app n s rc : is_u64 n -> (rc = true -> n <= MAX_SIZE) ->
  ReadCompactSize rc (WriteCompactSize n ++ s) = Some (n, s).
Proof.
  intros Hn Hmax. unfold is_u64 in Hn. unfold ReadCompactSize, WriteCompactSize. unfold_ser.
  assert (Hend : (if (rc && (n >? MAX_SIZE))%bool then None else Some (n, s)) = Some (n, s)).
  { destruct rc; [|done]. cbn [andb]. rewrite Z.gtb_ltb, (proj2 (Z.ltb_ge _ _)) by auto. done. }
  destruct (Z.ltb_spec n 253); [|destruct (Z.leb_spec n (2^16 - 1)); [|destruct (Z.leb_spec n (2^32 - 1))]];
    rewrite <- ?app_assoc, ser_readdata_app by (simpl; lia); cbn [mbind option_bind].
  - rewrite (proj2 (Z.ltb_lt _ _)) by lia. exact Hend.
  - change (253 <? 253) with false. change (253 =? 253) with true. cbn iota.
    rewrite ser_readdata_app by (simpl; lia). cbn [mbind option_bind].
    rewrite (proj2 (Z.ltb_ge n 253)) by lia. exact Hend.
  - change (254 <? 253) with false. change (254 =? 253) with false. change (254 =? 254) with true. cbn iota.
    rewrite ser_readdata_app by (simpl; lia). cbn [mbind option_bind].
    rewrite (proj2 (Z.ltb_ge n 0x10000)) by lia. exact Hend.
  - change (255 <? 253) with false. change (255 =? 253) with false. change (255 =? 254) with false. cbn iota.
    rewrite ser_readdata_app by (simpl; lia). cbn [mbind option_bind].
    rewrite (proj2 (Z.ltb_ge n 0x100000000)) by lia. exact Hend.
Qed.

(** Only the canonical form is accepted. *)
Lemma ReadCompactSize_inv rc s n s' : Forall is_byte s -> ReadCompactSize rc s = Some (n, s') ->
  s = WriteCompactSize n ++ s' /\ is_u64 n /\ (rc = true -> n <= MAX_SIZE).
Proof.
  intros Hs. unfold ReadCompactSize. unfold_ser.
  destruct (ser_readdata 1 s) as [[ch s1]|] eqn:E1; [|done]. cbn [mbind option_bind].
  destruct (ser_readdata_inv _ _ _ _ Hs E1) as [-> Hch]. apply Forall_app in Hs as [_ Hs1].
  assert (Hend : forall m r, (if (rc && (m >? MAX_SIZE))%bool then None else Some (m, r)) = Some (n, s') ->
            m = n /\ r = s' /\ (rc = true -> n <= MAX_SIZE)).
  { intros m r. destruct (rc && (m >? MAX_SIZE))%bool eqn:Ec; [done|]. intros [= <- <-].
    split_and!; [done|done|]. intros ->. cbn [andb] in Ec. rewrite Z.gtb_ltb in Ec. apply Z.ltb_ge in Ec. lia. }
  unfold WriteCompactSize, is_u64 in *. unfold_ser.
  destruct (Z.ltb_spec ch 253) as [Hlt|Hge].
  { cbn [mbind option_bind]. intros H. apply Hend in H as (-> & -> & ?).
    rewrite (proj2 (Z.ltb_lt _ _)) by lia. split_and!; [done|lia|lia|done]. }
  destruct (Z.eqb_spec ch 253) as [->|H1]; [|destruct (Z.eqb_spec ch 254) as [->|H2]].
  - destruct (ser_readdata 2 s1) as [[m s2]|] eqn:E2; [|done]. cbn [mbind option_bind].
    destruct (ser_readdata_inv _ _ _ _ Hs1 E2) as [-> Hm].
    destruct (Z.ltb_spec m 253); [done|]. cbn [mbind option_bind]. intros H'. apply Hend in H' as (-> & -> & ?).
    rewrite (proj2 (Z.ltb_ge n 253)), (proj2 (Z.leb_le n _)), <- app_assoc by (simpl in *; lia).
    split_and!; [done|lia|simpl in *; lia|done].
  - destruct (ser_readdata 4 s1) as [[m s2]|] eqn:E2; [|done]. cbn [mbind option_bind].
    destruct (ser_readdata_inv _ _ _ _ Hs1 E2) as [-> Hm].
    destruct (Z.ltb_spec m 0x10000); [done|]. cbn [mbind option_bind]. intros H'. apply Hend in H' as (-> & -> & ?).
    rewrite (proj2 (Z.ltb_ge n 253)), (proj2 (Z.leb_gt n (2^16 - 1))), (proj2 (Z.leb_le n _)), <- app_assoc by (simpl in *; lia).
    split_and!; [done|lia|simpl in *; lia|done].
  - destruct (ser_readdata 8 s1) as [[m s2]|] eqn:E2; [|done]. cbn [mbind option_bind].
    destruct (ser_readdata_inv _ _ _ _ Hs1 E2) as [-> Hm].
    destruct (Z.ltb_spec m 0x100000000); [done|]. cbn [mbind option_bind]. intros H'. apply Hend in H' as (-> & -> & ?).
    rewrite (proj2 (Z.ltb_ge n 253)), (proj2 (Z.leb_gt n (2^16 - 1))), (proj2 (Z.leb_gt n (2^32 - 1))), <- app_assoc by (simpl in *; lia).
    replace ch with 255 by (simpl in Hch; lia). split_and!; [done|lia|simpl in *; lia|done].
Qed.

Lemma WriteCompactSize_length n : 0 <= n -> Z.of_nat (length (WriteCompactSize n)) = GetSizeOfCompactSize n.
Proof.
  intros Hn. unfold WriteCompactSize, GetSizeOfCompactSize. unfold_ser.
  destruct (n <? 253); [done|]. destruct (n <=? 2^16 - 1); [done|]. now destruct (n <=? 2^32 - 1).
Qed.

Lemma WriteCompactSize_wf n : Forall is_byte (WriteCompactSize n).
Proof.
  unfold WriteCompactSize. unfold_ser.
  repeat case_match; repeat apply Forall_app_2; apply le_bytes_wf.
Qed.

(** ** Variable-length integers *)

Lemma digit_first n : Z.lor (Z.land n 0x7f) 0 = n mod 2^7.
Proof. rewrite Z.lor_0_r. change 0x7f with (Z.ones 7). apply Z.land_ones. lia. Qed.

Lemma digit_more n : Z.lor (Z.land n 0x7f) 0x80 = n mod 2^7 + 2^7.
Proof.
  change 0x7f with (Z.ones 7). rewrite Z.land_ones by lia. change 0x80 with (1 * 2^7).
  rewrite lor_disjoint_add; [lia|lia|]. apply Z.mod_pos_bound. lia.
Qed.

Lemma shl7_lor n d : 0 <= d < 2^7 -> Z.lor (Z.shiftl n 7) d = n * 2^7 + d.
Proof. intros Hd. rewrite Z.shiftl_mul_pow2, Z.lor_comm, lor_disjoint_add by lia. lia. Qed.

(** A byte of the encoding, read: its seven bits and its continuation bit. *)
Lemma byte_parts d : 0 <= d < 2^7 -> forall c, (c = 0 \/ c = 2^7) ->
  Z.land (d + c) 0x7f = d /\ (Z.land (d + c) 0x80 =? 0) = (c =? 0).
Proof.
  intros Hd c Hc. change 0x7f with (Z.ones 7). rewrite Z.land_ones by lia.
  change 0x80 with (Z.shiftl 1 7). rewrite land_pow2_testbit by lia.
  destruct Hc as [-> | ->].
  - rewrite Z.add_0_r, Z.mod_small by lia. split; [done|].
    destruct (Z.testbit d 7) eqn:E; [|done]. apply Z.testbit_true in E; [|lia].
    rewrite Z.div_small in E by lia. done.
  - replace (d + 2^7) with (d + 1 * 2^7) at 1 by lia. rewrite Z.mod_add, Z.mod_small by lia. split; [done|].
    replace (Z.testbit (d + 2^7) 7) with true; [done|]. symmetry. apply Z.testbit_true; [lia|].
    replace (d + 2^7) with (d + 1 * 2^7) by lia. rewrite Z.div_add, Z.div_small by lia. done.
Qed.

Lemma ReadVarInt_step max n d c s : 0 <= d < 2^7 -> c = 0 \/ c = 2^7 -> n <= Z.shiftr max 7 ->
  ReadVarInt_loop max n ((d + c) :: s) =
  if c =? 0 then Some (n * 2^7 + d, s)
  else if n * 2^7 + d =? max then None else ReadVarInt_loop max (n * 2^7 + d + 1) s.
Proof.
  intros Hd Hc Hn. cbn [ReadVarInt_loop]. rewrite Z.gtb_ltb, (proj2 (Z.ltb_ge _ _)) by done.
  destruct (byte_parts d Hd c Hc) as [-> ->]. rewrite shl7_lor by done.
  destruct Hc as [-> | ->]; done.
Qed.

Lemma shiftr7_mono a b : a <= b -> Z.shiftr a 7 <= Z.shiftr b 7.
Proof. intros. rewrite !Z.shiftr_div_pow2 by lia. apply Z.div_le_mono; lia. Qed.

Lemma split7 n : Z.shiftr n 7 * 2^7 + n mod 2^7 = n /\ 0 <= n mod 2^7 < 2^7.
Proof.
  rewrite Z.shiftr_div_pow2 by lia. pose proof (Z.div_mod n (2^7)).
  pose proof (Z.mod_pos_bound n (2^7)). lia.
Qed.

(** Reading the leading digits of a number leaves its successor. *)
Lemma ReadVarInt_digits max fuel : forall n s, 0 <= n < max -> n < 2^(7 * Z.of_nat (S fuel)) ->
  ReadVarInt_loop max 0 (rev (varint_digits fuel n false) ++ s) = ReadVarInt_loop max (n + 1) s.
Proof.
  assert (Hone : forall n s, 0 <= n < max -> n < 2^7 ->
    ReadVarInt_loop max 0 ([Z.lor (Z.land n 0x7f) 0x80] ++ s) = ReadVarInt_loop max (n + 1) s).
  { intros n s Hn Hlt. rewrite digit_more, Z.mod_small by lia. cbn [app].
    rewrite ReadVarInt_step by (try lia; apply Z.shiftr_nonneg; lia).
    change (2^7 =? 0) with false. cbn iota. rewrite (proj2 (Z.eqb_neq _ _)) by lia. f_equal. }
  induction fuel as [|fuel IH]; intros n s Hn Hf.
  { cbn [varint_digits rev app]. apply Hone; simpl in *; lia. }
  cbn [varint_digits]. destruct (Z.leb_spec n 0x7f); [apply Hone; lia|].
  cbn [rev]. rewrite <- app_assoc. destruct (split7 n) as [Hs Hm].
  pose proof (shiftr7_mono n max ltac:(lia)).
  assert (1 <= Z.shiftr n 7) by lia.
  rewrite IH.
  - rewrite digit_more. cbn [app]. replace (Z.shiftr n 7 - 1 + 1) with (Z.shiftr n 7) by lia.
    rewrite ReadVarInt_step by lia. change (2^7 =? 0) with false. cbn iota.
    rewrite Hs, (proj2 (Z.eqb_neq _ _)) by lia. done.
  - lia.
  - replace (7 * Z.of_nat (S (S fuel))) with (7 + 7 * Z.of_nat (S fuel)) in Hf by lia.
    rewrite Z.pow_add_r in Hf by lia. nia.
Qed.

Lemma varint_digits_first fuel n :
  varint_digits (S fuel) n true
  = if n <=? 0x7f then [n mod 2^7] else n mod 2^7 :: varint_digits fuel (Z.shiftr n 7 - 1) false.
Proof. rewrite <- digit_first. done. Qed.

Lemma ReadVarInt_app max n s : 0 <= n <= max -> max < 2^64 -> ReadVarInt max (WriteVarInt n ++ s) = Some (n, s).
Proof.
  intros Hn Hmax. unfold ReadVarInt, WriteVarInt. rewrite varint_digits_first.
  destruct (split7 n) as [Hs Hm]. pose proof (shiftr7_mono n max ltac:(lia)).
  destruct (Z.leb_spec n 0x7f).
  - cbn [rev app]. replace (n mod 2^7) with (n mod 2^7 + 0) by lia.
    rewrite ReadVarInt_step by (try lia; apply Z.shiftr_nonneg; lia). simpl.
    rewrite Z.mod_small by lia. done.
  - cbn [rev]. rewrite <- app_assoc. rewrite ReadVarInt_digits by (simpl; lia).
    replace (Z.shiftr n 7 - 1 + 1) with (Z.shiftr n 7) by lia. cbn [app].
    replace (n mod 2^7) with (n mod 2^7 + 0) by lia. rewrite ReadVarInt_step by lia.
    change (0 =? 0) with true. cbn iota. now rewrite Hs.
Qed.

(** Enough digits: more fuel changes nothing. *)
Lemma varint_digits_fuel f : forall g n b, (f <= g)%nat -> n < 2^(7 * Z.of_nat (S f)) ->
  varint_digits g n b = varint_digits f n b.
Proof.
  induction f as [|f IH]; intros g n b Hg Hn.
  - destruct g as [|g]; [done|]. cbn [varint_digits]. rewrite (proj2 (Z.leb_le _ _)) by (simpl in Hn; lia). done.
  - destruct g as [|g]; [lia|]. cbn [varint_digits]. destruct (Z.leb_spec n 0x7f); [done|].
    f_equal. apply IH; [lia|]. destruct (split7 n) as [Hs Hm].
    replace (7 * Z.of_nat (S (S f))) with (7 + 7 * Z.of_nat (S f)) in Hn by lia.
    rewrite Z.pow_add_r in Hn by lia. nia.
Qed.

Lemma byte_split ch : is_byte ch -> exists d c, ch = d + c /\ 0 <= d < 2^7 /\ (c = 0 \/ c = 2^7).
Proof.
  unfold is_byte. intros Hch. destruct (Z.lt_ge_cases ch (2^7)).
  - exists ch, 0. lia.
  - exists (ch - 2^7), (2^7). lia.
Qed.

(** The digits of [n * 2^7 + d], [n] not 0, end with the digit [d]. *)
Lemma varint_digits_snoc n d : 0 < n -> n < 2^63 -> 0 <= d < 2^7 ->
  varint_digits 9 (n * 2^7 + d) false = (d + 2^7) :: varint_digits 9 (n - 1) false /\
  varint_digits 10 (n * 2^7 + d) true = d :: varint_digits 9 (n - 1) false.
Proof.
  intros Hn Hn2 Hd. set (m := n * 2^7 + d).
  assert (E1 : m mod 2^7 = d) by (subst m; rewrite Z.add_comm, Z.mod_add, Z.mod_small; lia).
  assert (E2 : Z.shiftr m 7 = n)
    by (subst m; rewrite Z.shiftr_div_pow2, Z.add_comm, Z.div_add, Z.div_small by lia; lia).
  split.
  - change (varint_digits 9 m false) with
      (if m <=? 0x7f then [Z.lor (Z.land m 0x7f) 0x80]
       else Z.lor (Z.land m 0x7f) 0x80 :: varint_digits 8 (Z.shiftr m 7 - 1) false).
    rewrite (proj2 (Z.leb_gt _ _)) by lia. rewrite digit_more, E1, E2.
    f_equal. symmetry. apply varint_digits_fuel; [lia|simpl; lia].
  - rewrite varint_digits_first, E1, E2, (proj2 (Z.leb_gt _ _)) by lia. done.
Qed.

Lemma ReadVarInt_loop_inv max : max < 2^64 -> max mod 2^7 = 2^7 - 1 -> forall s n m s', Forall is_byte s -> 0 <= n ->
  ReadVarInt_loop max n s = Some (m, s') ->
  exists p, s = p ++ s' /\ m <= max /\
    (if n =? 0 then [] else rev (varint_digits 9 (n - 1) false)) ++ p = WriteVarInt m.
Proof.
  intros Hmax Hones. induction s as [|ch s IH]; intros n m s' Hs Hn; [done|].
  inversion Hs as [|? ? Hch Hs2]; subst. destruct (byte_split ch Hch) as (d & c & -> & Hd & Hc).
  destruct (Z.lt_ge_cases (Z.shiftr max 7) n) as [Hlt|Hge].
  { cbn [ReadVarInt_loop]. rewrite Z.gtb_ltb, (proj2 (Z.ltb_lt _ _)) by done. done. }
  rewrite ReadVarInt_step by done. destruct (split7 max) as [Hms Hmm].
  destruct Hc as [-> | ->].
  - rewrite Z.eqb_refl, Z.add_0_r. intros [= <- <-]. exists [d]. unfold WriteVarInt.
    destruct (Z.eqb_spec n 0) as [->|Hn0]; split_and!; try done; try lia.
    + rewrite varint_digits_first, (proj2 (Z.leb_le _ _)), Z.mod_small by lia. done.
    + destruct (varint_digits_snoc n d) as [_ ->]; [lia..|]. done.
  - change (2^7 =? 0) with false. cbn iota. destruct (Z.eqb_spec (n * 2^7 + d) max) as [|Hne]; [done|].
    intros H. destruct (IH (n * 2^7 + d + 1) m s' Hs2 ltac:(lia) H) as (p & -> & Hle & Hp).
    exists ((d + 2^7) :: p). split_and!; [done|done|]. rewrite <- Hp.
    rewrite (proj2 (Z.eqb_neq (n * 2^7 + d + 1) 0)) by lia.
    replace (n * 2^7 + d + 1 - 1) with (n * 2^7 + d) by lia.
    destruct (Z.eqb_spec n 0) as [->|Hn0].
    + rewrite Z.mul_0_l, Z.add_0_l. cbn [varint_digits].
      rewrite (proj2 (Z.leb_le _ _)), digit_more, Z.mod_small by lia. done.
    + destruct (varint_digits_snoc n d) as [-> _]; [lia..|]. cbn [rev]. now rewrite <- app_assoc.
Qed.

Lemma ReadVarInt_inv max s m s' : max < 2^64 -> max mod 2^7 = 2^7 - 1 -> Forall is_byte s -> ReadVarInt max s = Some (m, s') ->
  s = WriteVarInt m ++ s' /\ m <= max.
Proof.
  intros Hmax Hones Hs H. destruct (ReadVarInt_loop_inv max Hmax Hones s 0 m s' Hs ltac:(lia) H) as (p & -> & Hle & <-). done.
Qed.

Lemma varint_digits_size fuel n b : Z.of_nat (length (varint_digits fuel n b)) = GetSizeOfVarInt_loop fuel n.
Proof.
  revert n b. induction fuel as [|fuel IH]; intros n b; [done|]. cbn [varint_digits GetSizeOfVarInt_loop].
  destruct (n <=? 0x7f); [done|]. cbn [length]. rewrite Nat2Z.inj_succ, IH. lia.
Qed.

Lemma WriteVarInt_length n : Z.of_nat (length (WriteVarInt n)) = GetSizeOfVarInt n.
Proof. unfold WriteVarInt. rewrite length_rev. apply varint_digits_size. Qed.

(** ** Bit sets *)

Definition bit_at (l : list Z) (q : nat) : bool := Z.testbit (limb l (q / 8)) (Z.of_nat (q mod 8)).

Lemma testbit_single b j k : 0 <= j -> 0 <= k -> Z.testbit (Z.shiftl (b2z b) j) k = (b && (k =? j))%bool.
Proof.
  intros Hj Hk. rewrite Z.shiftl_spec by done. destruct b; simpl.
  - destruct (Z.eqb_spec k j) as [->|]; [now rewrite Z.sub_diag|].
    destruct (Z.lt_ge_cases k j); [now rewrite Z.testbit_neg_r by lia|]. rewrite Z.bits_above_log2; simpl; lia.
  - apply Z.bits_0.
Qed.

Lemma bit_at_set l p q b : (p / 8 < length l)%nat ->
  bit_at (<[(p / 8)%nat := Z.lor (limb l (p / 8)) (Z.shiftl (b2z b) (Z.of_nat (p mod 8)))]> l) q
  = (bit_at l q || (b && (q =? p)%nat))%bool.
Proof.
  intros Hp. unfold bit_at. rewrite limb_insert by done.
  case_decide as E.
  - rewrite <- E, Z.lor_spec, testbit_single by lia. f_equal. f_equal.
    pose proof (Nat.div_mod_eq q 8). pose proof (Nat.div_mod_eq p 8).
    destruct (Z.eqb_spec (Z.of_nat (q mod 8)) (Z.of_nat (p mod 8))), (Nat.eqb_spec q p); try done; subst; lia.
  - replace (q =? p)%nat with false by (symmetry; apply Nat.eqb_neq; congruence).
    now rewrite andb_false_r, orb_false_r.
Qed.

Lemma byte_or x b j : is_byte x -> 0 <= j < 8 -> is_byte (Z.lor x (Z.shiftl (b2z b) j)).
Proof.
  unfold is_byte. intros Hx Hj.
  assert (0 <= Z.shiftl (b2z b) j < 2^8).
  { rewrite Z.shiftl_mul_pow2 by lia. assert (2^j <= 2^7) by (apply Z.pow_le_mono_r; lia).
    destruct b; simpl b2z; lia. }
  split; [apply Z.lor_nonneg; lia|]. apply Z.log2_lt_cancel.
  rewrite Z.log2_lor by lia. rewrite Z.log2_pow2 by lia.
  destruct (Z.eq_dec x 0) as [->|]; destruct (Z.eq_dec (Z.shiftl (b2z b) j) 0) as [->|]; simpl;
    repeat match goal with
    | |- context [Z.log2 ?y] => pose proof (proj1 (Z.log2_lt_pow2 y 8 ltac:(lia)) ltac:(lia));
                                generalize dependent (Z.log2 y); intros
    end; lia.
Qed.

(** The bytes written: bit [q] is [vec[q]], padding bits are 0. *)
Lemma WriteFixedBitSet_spec vec :
  let l := WriteFixedBitSet vec (length vec) in
  length l = GetSizeOfFixedBitSet (length vec) /\ Forall is_byte l /\
  forall q, (q < 8 * length l)%nat -> bit_at l q = nth q vec false.
Proof.
  cbv zeta. unfold WriteFixedBitSet. rewrite Nat.min_id. set (n := GetSizeOfFixedBitSet (length vec)).
  assert (Hn : (length vec <= 8 * n)%nat).
  { subst n. unfold GetSizeOfFixedBitSet. pose proof (Nat.div_mod_eq (length vec + 7) 8).
    pose proof (Nat.mod_upper_bound (length vec + 7) 8). lia. }
  match goal with |- context [for_to _ ?f _] => set (body := f) end.
  pose proof (for_to_inv (fun i l => length l = n /\ Forall is_byte l /\
     forall q, (q < 8 * n)%nat -> bit_at l q = if (q <? i)%nat then nth q vec false else false)
     (length vec) body (replicate n 0)) as Hinv.
  destruct Hinv as (Hl & Hf & Hb).
  - rewrite length_replicate. split_and!; [done|apply Forall_replicate; unfold is_byte; lia|].
    intros q Hq. unfold bit_at, limb. rewrite nth_lookup, lookup_replicate_2; [apply Z.bits_0|].
    apply Nat.Div0.div_lt_upper_bound. lia.
  - intros p l Hp (Hl & Hf & Hb). assert (Hp8 : (p / 8 < n)%nat) by (apply Nat.Div0.div_lt_upper_bound; lia).
    subst body. cbv beta. rewrite length_insert. split_and!; [done| |].
    + apply Forall_insert; [done|]. apply byte_or; [|pose proof (Nat.mod_upper_bound p 8); lia].
      rewrite Forall_lookup in Hf. apply (Hf (p / 8)%nat). apply limb_lookup. lia.
    + intros q Hq. rewrite bit_at_set, Hb by lia.
      destruct (Nat.eqb_spec q p) as [->|Hne].
      * rewrite Nat.ltb_irrefl, (proj2 (Nat.ltb_lt p (S p))) by lia. simpl. now rewrite andb_true_r.
      * rewrite andb_false_r, orb_false_r.
        destruct (Nat.ltb_spec q p), (Nat.ltb_spec q (S p)); try done; lia.
  - split_and!; [done|done|]. rewrite Hl. intros q Hq. rewrite Hb by done.
    destruct (Nat.ltb_spec q (length vec)); [done|]. now rewrite nth_overflow by lia.
Qed.

Lemma pad_mask_testbit rem j : 0 <= rem < 8 -> 0 <= j ->
  Z.testbit (u8 (Z.lnot (Z.shiftr 0xff rem))) j = ((j <? 8) && (8 <=? j + rem))%bool.
Proof.
  intros Hr Hj. unfold u8. destruct (Z.ltb_spec j 8).
  - rewrite Z.mod_pow2_bits_low, Z.lnot_spec, Z.shiftr_spec by lia. change 0xff with (Z.ones 8).
    rewrite Z.testbit_ones by lia. destruct (Z.leb_spec 0 (j + rem)), (Z.ltb_spec (j + rem) 8), (Z.leb_spec 8 (j + rem));
      simpl; done || lia.
  - now rewrite Z.mod_pow2_bits_high by lia.
Qed.

Lemma ReadFixedBitSet_app vec s : ReadFixedBitSet (length vec) (WriteFixedBitSet vec (length vec) ++ s) = Some (vec, s).
Proof.
  destruct (WriteFixedBitSet_spec vec) as (Hl & Hf & Hb). set (l := WriteFixedBitSet vec (length vec)) in *.
  unfold GetSizeOfFixedBitSet in Hl. unfold ReadFixedBitSet.
  rewrite length_app, (proj2 (Nat.ltb_ge _ _)) by lia. rewrite read_bytes_app by done. cbn [mbind option_bind].
  assert (Hn : (length vec <= 8 * length l < length vec + 8)%nat).
  { rewrite Hl. pose proof (Nat.div_mod_eq (length vec + 7) 8).
    pose proof (Nat.mod_upper_bound (length vec + 7) 8). lia. }
  assert (Hvec : map (fun p => negb (Z.land (limb l (p / 8)) (Z.shiftl 1 (Z.of_nat (p mod 8))) =? 0))
                   (seq 0 (length vec)) = vec).
  { apply (nth_ext _ _ false false); [now rewrite length_map, length_seq|].
    rewrite length_map, length_seq. intros q Hq.
    rewrite (nth_indep _ false (negb (Z.land (limb l (0 / 8)) (Z.shiftl 1 (Z.of_nat (0 mod 8))) =? 0)))
      by (rewrite length_map, length_seq; done).
    rewrite (map_nth (fun p => negb (Z.land (limb l (p / 8)) (Z.shiftl 1 (Z.of_nat (p mod 8))) =? 0))), seq_nth by done.
    rewrite Nat.add_0_l, land_pow2_testbit, negb_involutive by lia. apply (Hb q). lia. }
  rewrite Hvec. destruct (Nat.eqb_spec (length l * 8) (length vec)); cbn [negb]; [done|].
  set (rem := Z.of_nat (length l * 8 - length vec)).
  replace (Z.land (limb l (length l - 1)) (u8 (Z.lnot (Z.shiftr 0xff rem)))) with 0; [done|].
  symmetry. apply Z.bits_inj'. intros j Hj. rewrite Z.land_spec, Z.bits_0, pad_mask_testbit by lia.
  destruct (Z.ltb_spec j 8), (Z.leb_spec 8 (j + rem)); cbn [andb]; try apply andb_false_r.
  rewrite andb_true_r. set (q := ((length l - 1) * 8 + Z.to_nat j)%nat).
  assert (Eq : (q / 8 = length l - 1 /\ q mod 8 = Z.to_nat j)%nat).
  { subst q. rewrite Nat.add_comm. rewrite Nat.div_add, Nat.Div0.mod_add by lia.
    rewrite Nat.div_small, Nat.mod_small by lia. lia. }
  specialize (Hb q ltac:(lia)). unfold bit_at in Hb. destruct Eq as [E1 E2]. rewrite E1, E2, Z2Nat.id in Hb by lia.
  rewrite Hb. apply nth_overflow. lia.
Qed.

Lemma WriteVarInt_nonempty n : (1 <= length (WriteVarInt n))%nat.
Proof.
  unfold WriteVarInt. rewrite length_rev, varint_digits_first. destruct (n <=? 0x7f); cbn [length]; lia.
Qed.

(** Reading the offsets of [rest], the bits of [done_] already set. *)
Lemma ReadFixedVarInts_offsets s size : Z.of_nat size < 2^32 -> forall rest done_ last fuel,
  (length done_ + length rest = size)%nat ->
  match last with Some l => (l < length done_)%nat | None => True end ->
  (length (varints_offsets rest (length done_) last) < fuel)%nat ->
  ReadFixedVarIntsBitSet_loop fuel size (done_ ++ replicate (length rest) false) last
    (varints_offsets rest (length done_) last ++ WriteVarInt 0 ++ s) = Some (done_ ++ rest, s).
Proof.
  intros Hsize. induction rest as [|b rest IH]; intros done_ last fuel Hlen Hlast Hf.
  { cbn [varints_offsets app length replicate]. destruct fuel as [|fuel]; [simpl in Hf; lia|].
    cbn [ReadFixedVarIntsBitSet_loop]. rewrite ReadVarInt_app by lia. done. }
  cbn [length] in Hlen. cbn [varints_offsets] in *. destruct b.
  - set (off := match last with Some l => Z.of_nat (length done_ - l) | None => Z.of_nat (length done_ + 1) end) in *.
    assert (Hoff : 0 < off < 2^32) by (subst off; destruct last; lia).
    rewrite u32_id in * by (unfold is_u32; lia).
    destruct fuel as [|fuel]; [lia|]. cbn [ReadFixedVarIntsBitSet_loop].
    rewrite <- app_assoc, ReadVarInt_app by lia. cbn [mbind option_bind].
    rewrite (proj2 (Z.eqb_neq _ _)) by lia.
    replace (match last with Some l => (l + Z.to_nat off)%nat | None => (Z.to_nat off - 1)%nat end) with (length done_)
      by (subst off; destruct last; lia).
    rewrite (proj2 (Nat.leb_gt _ _)) by lia.
    replace (match last with Some l => (length done_ <=? l)%nat | None => false end) with false
      by (destruct last; [symmetry; apply Nat.leb_gt; lia|done]).
    rewrite length_app in Hf. pose proof (WriteVarInt_nonempty off).
    cbn [length replicate]. rewrite insert_app_r_alt, Nat.sub_diag by lia. cbn [insert list_insert].
    specialize (IH (done_ ++ [true]) (Some (length done_)) fuel). rewrite length_app in IH. cbn [length] in IH.
    rewrite Nat.add_1_r, <- !app_assoc in IH. apply IH; lia.
  - specialize (IH (done_ ++ [false]) last fuel). rewrite length_app in IH. cbn [length] in IH.
    rewrite Nat.add_1_r, <- !app_assoc in IH. cbn [length replicate]. apply IH; [lia|destruct last; lia|done].
Qed.

Lemma ReadFixedVarIntsBitSet_app vec s : Z.of_nat (length vec) < 2^32 ->
  ReadFixedVarIntsBitSet (length vec) (WriteFixedVarIntsBitSet vec ++ s) = Some (vec, s).
Proof.
  intros Hl. unfold ReadFixedVarIntsBitSet, WriteFixedVarIntsBitSet. rewrite <- app_assoc.
  apply (ReadFixedVarInts_offsets s (length vec) Hl vec [] None); [done|done|].
  rewrite !length_app. simpl. lia.
Qed.

Lemma ReadAutoBitSet_app vec s : Z.of_nat (length vec) < 2^32 ->
  exists b, WriteAutoBitSet vec (length vec) = Some b /\ ReadAutoBitSet (length vec) (b ++ s) = Some (vec, s) /\
  (length b <= 1 + GetSizeOfFixedBitSet (length vec))%nat.
Proof.
  intros Hl. unfold WriteAutoBitSet. rewrite Nat.eqb_refl. cbn [negb].
  destruct (WriteFixedBitSet_spec vec) as (E & _ & _). rewrite E, Nat.eqb_refl. cbn [negb].
  unfold ReadAutoBitSet. unfold_ser.
  destruct (Nat.ltb_spec (GetSizeOfFixedBitSet (length vec)) (length (WriteFixedVarIntsBitSet vec)));
    eexists; (split; [reflexivity|]); rewrite <- app_assoc, ser_readdata_app by (simpl; lia);
    rewrite length_app, le_bytes_length.
  - split; [apply ReadFixedBitSet_app|lia].
  - split; [now apply ReadFixedVarIntsBitSet_app|lia].
Qed.

(** ** Codecs

    What [Serialize] and [Unserialize] of a type promise its users. *)
Class Codec (A : Type) : Type := {
  encode : A -> list Z;
  decode : stream -> option (A * stream);
  encodable : A -> Prop;
}.

Class CodecLaws (A : Type) `{Codec A} : Prop := {
  decode_encode : forall a s, encodable a -> decode (encode a ++ s) = Some (a, s);
  encode_bytes : forall a, encodable a -> Forall is_byte (encode a);
}.

(** [READWRITE(a, b)] and [std::pair] *)
#[export] Instance pair_codec {A B} `{Codec A, Codec B} : Codec (A * B) := {
  encode p := encode p.1 ++ encode p.2;
  decode s := '(a, s) ← decode s; '(b, s) ← decode s; Some ((a, b), s);
  encodable p := encodable p.1 /\ encodable p.2;
}.

#[export] Instance pair_laws {A B} `{CodecLaws A, CodecLaws B} : CodecLaws (A * B).
Proof.
  split; intros [a b]; cbn.
  - intros s [Ha Hb]. rewrite <- app_assoc, decode_encode by done. cbn. now rewrite decode_encode.
  - intros [Ha Hb]. apply Forall_app_2; now apply encode_bytes.
Qed.

(** [VectorFormatter]: the number of elements, then the elements *)
Definition ser_vector {A} `{Codec A} (v : list A) : list Z :=
  WriteCompactSize (Z.of_nat (length v)) ++ concat (map encode v).

(** [UnserializeVectorContents] *)
Fixpoint unser_elements {A} `{Codec A} (size : nat) (s : stream) : option (list A * stream) :=
  match size with
  | O => Some ([], s)
  | S n => '(x, s) ← decode s; '(v, s) ← unser_elements n s; Some (x :: v, s)
  end.

Definition unser_vector {A} `{Codec A} (s : stream) : option (list A * stream) :=
  '(n, s) ← ReadCompactSize true s; unser_elements (Z.to_nat n) s.

#[export] Instance vector_codec {A} `{Codec A} : Codec (list A) := {
  encode := ser_vector;
  decode := unser_vector;
  encodable v := Z.of_nat (length v) <= MAX_SIZE /\ Forall encodable v;
}.

Lemma unser_elements_app {A} `{CodecLaws A} (v : list A) s :
  Forall encodable v -> unser_elements (length v) (concat (map encode v) ++ s) = Some (v, s).
Proof.
  induction 1 as [|x v Hx Hv IH]; [done|]. cbn [length unser_elements map concat].
  rewrite <- app_assoc, decode_encode by done. cbn [mbind option_bind]. rewrite IH. done.
Qed.

#[export] Instance vector_laws {A} `{CodecLaws A} : CodecLaws (list A).
Proof.
  split; intros v; cbn.
  - intros s [Hl Hv]. unfold unser_vector, ser_vector. rewrite <- app_assoc, ReadCompactSize_app.
    + cbn [mbind option_bind]. rewrite Nat2Z.id. now apply unser_elements_app.
    + unfold is_u64, MAX_SIZE in *. lia.
    + done.
  - intros [_ Hv]. apply Forall_app_2; [apply WriteCompactSize_wf|].
    induction Hv; [constructor|]. simpl. apply Forall_app_2; [now apply encode_bytes|done].
Qed.

(** [std::vector<unsigned char>] and [CScript]: the length, then the bytes *)
Definition ser_bytes (v : list Z) : list Z := WriteCompactSize (Z.of_nat (length v)) ++ v.
Definition unser_bytes (s : stream) : option (list Z * stream) :=
  '(n, s) ← ReadCompactSize true s; read_bytes (Z.to_nat n) s.
Definition bytes_ok (v : list Z) : Prop := Z.of_nat (length v) <= MAX_SIZE /\ Forall is_byte v.

Lemma unser_bytes_app v s : bytes_ok v -> unser_bytes (ser_bytes v ++ s) = Some (v, s).
Proof.
  intros [Hl _]. unfold unser_bytes, ser_bytes. rewrite <- app_assoc, ReadCompactSize_app.
  - cbn [mbind option_bind]. rewrite Nat2Z.id. now apply read_bytes_app.
  - unfold is_u64, MAX_SIZE in *. lia.
  - done.
Qed.

Lemma ser_bytes_wf v : bytes_ok v -> Forall is_byte (ser_bytes v).
Proof. intros [_ Hv]. apply Forall_app_2; [apply WriteCompactSize_wf|done]. Qed.

(** [DynamicBitSetFormatter] *)
Definition ser_dynbitset (vec : list bool) : list Z :=
  WriteCompactSize (Z.of_nat (length vec)) ++ WriteFixedBitSet vec (length vec).
Definition unser_dynbitset (s : stream) : option (list bool * stream) :=
  '(n, s) ← ReadCompactSize true s; ReadFixedBitSet (Z.to_nat n) s.

Lemma unser_dynbitset_app vec s : Z.of_nat (length vec) <= MAX_SIZE ->
  unser_dynbitset (ser_dynbitset vec ++ s) = Some (vec, s).
Proof.
  intros Hl. unfold unser_dynbitset, ser_dynbitset. rewrite <- app_assoc, ReadCompactSize_app.
  - cbn [mbind option_bind]. rewrite Nat2Z.id. apply ReadFixedBitSet_app.
  - unfold is_u64, MAX_SIZE in *. lia.
  - done.
Qed.

(** ** Properties *)

(** Compact sizes and variable-length integers read back exactly what was
    written, leaving the rest of the stream, and in both formats every accepted
    byte sequence is the one the writer produces: a number has one encoding. *)
Theorem integer_formats_bijective (n m : Z) (s r : stream) :
  Forall is_byte s ->
  (is_u64 n -> ReadCompactSize false (WriteCompactSize n ++ r) = Some (n, r) /\
               ReadVarInt (2^64 - 1) (WriteVarInt n ++ r) = Some (n, r)) /\
  (ReadCompactSize false s = Some (m, r) -> s = WriteCompactSize m ++ r) /\
  (ReadVarInt (2^64 - 1) s = Some (m, r) -> s = WriteVarInt m ++ r).
Proof.
  intros Hs. split; [|split].
  - intros Hn. split; [now apply ReadCompactSize_app|]. unfold is_u64 in Hn. apply ReadVarInt_app; lia.
  - intros H. now apply (ReadCompactSize_inv false).
  - intros H. apply (ReadVarInt_inv (2^64 - 1)); [lia|reflexivity|done|done].
Qed.

Lemma integer_formats_bijective_witness :
  ReadVarInt (2^64 - 1) (WriteVarInt 65535 ++ [7]) = Some (65535, [7]) /\ WriteVarInt 65535 = [0x82; 0xfe; 0x7f].
Proof.
  destruct (integer_formats_bijective 65535 0 [] [7] (Forall_nil_2 _)) as (H & _ & _).
  destruct H as [_ H]; [unfold is_u64; lia|]. split; [exact H|vm_compute; reflexivity].
Defined.

(** A bit set written in the packed form, in the offset form or in the
    automatic form, which picks the shorter of the two, reads back unchanged;
    the automatic form never takes more than one byte over the packed form, and
    its assertion on the packed size holds. *)
Theorem bitset_formats_roundtrip (vec : list bool) (s : stream) :
  Z.of_nat (length vec) < 2^32 ->
  ReadFixedBitSet (length vec) (WriteFixedBitSet vec (length vec) ++ s) = Some (vec, s) /\
  ReadFixedVarIntsBitSet (length vec) (WriteFixedVarIntsBitSet vec ++ s) = Some (vec, s) /\
  exists b, WriteAutoBitSet vec (length vec) = Some b /\
            ReadAutoBitSet (length vec) (b ++ s) = Some (vec, s) /\
            (length b <= 1 + GetSizeOfFixedBitSet (length vec))%nat.
Proof.
  intros Hl. split; [apply ReadFixedBitSet_app|]. split; [now apply ReadFixedVarIntsBitSet_app|].
  now apply ReadAutoBitSet_app.
Qed.

Lemma bitset_formats_roundtrip_witness :
  ReadFixedVarIntsBitSet 4 (WriteFixedVarIntsBitSet [false; true; true; false] ++ [9])
  = Some ([false; true; true; false], [9]).
Proof. apply (bitset_formats_roundtrip [false; true; true; false] [9]). simpl. lia. Defined.

#[global] Arguments le_bytes : simpl never.
#[global] Arguments read_bytes : simpl never.
#[global] Arguments ser_readdata : simpl never.
#[global] Arguments varint_digits : simpl never.
#[global] Arguments WriteCompactSize : simpl never.
#[global] Arguments ReadCompactSize : simpl never.
