(* ===== verification/Transaction.v ===== *)
(** * Transaction: transactions and their serialization
      (src/src/primitives/transaction.{h,cpp}, src/src/coins.h)

    Scripts are byte strings.  A transaction is written as a 32-bit word that
    packs [nVersion] and [nType], its inputs, outputs and lock time, and the
    payload of a special transaction. *)

From Stdlib Require Import ZArith Lia.
From stdpp Require Import base list numbers option countable.
From S2P Require Import Prelude Arith256 Uint256 Serialize.

Definition CScript : Type := list Z.

Record COutPoint : Type := mkOutPoint { op_hash : uint256; op_n : Z }.

#[export] Instance COutPoint_eq_dec : EqDecision COutPoint.
Proof. solve_decision. Defined.

#[export] Instance COutPoint_countable : Countable COutPoint.
Proof.
  refine (inj_countable' (fun o => (op_hash o, op_n o)) (fun p => mkOutPoint p.1 p.2) _). by intros [].
Defined.

Definition NULL_INDEX : Z := 2^32 - 1.

(** [COutPoint::IsNull] *)
Definition outpoint_IsNull (o : COutPoint) : bool := (IsNull (op_hash o) && (op_n o =? NULL_INDEX))%bool.

Record CTxIn : Type := mkTxIn {
  prevout : COutPoint;
  scriptSig : CScript;
  nSequence : Z;
}.

Record CTxOut : Type := mkTxOut {
  nValue : Z;
  scriptPubKey : CScript;
}.

#[export] Instance CTxIn_eq_dec : EqDecision CTxIn.
Proof. solve_decision. Defined.
#[export] Instance CTxOut_eq_dec : EqDecision CTxOut.
Proof. solve_decision. Defined.

(** [CTxOut::IsNull], [CTxOut::IsEmpty] *)
Definition txout_IsNull (o : CTxOut) : bool := nValue o =? -1.
Definition txout_IsEmpty (o : CTxOut) : bool :=
  ((nValue o =? 0) && bool_decide (scriptPubKey o = []))%bool.

Record CTransaction : Type := mkTx {
  vin : list CTxIn;
  vout : list CTxOut;
  tx_nVersion : Z;
  nType : Z;
  nLockTime : Z;
  vExtraPayload : list Z;
}.

#[export] Instance CTransaction_eq_dec : EqDecision CTransaction.
Proof. solve_decision. Defined.

Definition TRANSACTION_NORMAL : Z := 0.
Definition TRANSACTION_COINBASE : Z := 5.
Definition TRANSACTION_QUORUM_COMMITMENT : Z := 6.
Definition TRANSACTION_MNHF_SIGNAL : Z := 7.
Definition TRANSACTION_ASSET_UNLOCK : Z := 9.
Definition TRANSACTION_POSE_SERVICE_COMMITMENT : Z := 10.
Definition SPECIAL_VERSION : Z := 3.

(** [IsCoinBase], [IsCoinStake], [IsMasternodeReward] *)
Definition IsCoinBase (tx : CTransaction) : bool :=
  match vin tx with
  | [i] => (outpoint_IsNull (prevout i) && (1 <=? length (vout tx))%nat)%bool
  | _ => false
  end.
Definition IsCoinStake (tx : CTransaction) : bool :=
  match vin tx, vout tx with
  | i :: _, o0 :: _ :: _ => (negb (outpoint_IsNull (prevout i)) && txout_IsEmpty o0)%bool
  | _, _ => false
  end.
Definition IsMasternodeReward (tx : CTransaction) : bool :=
  match vin tx, vout tx with
  | [i], o0 :: o1 :: _ => (outpoint_IsNull (prevout i) && txout_IsEmpty o0 && negb (txout_IsEmpty o1))%bool
  | _, _ => false
  end.

(** [IsSpecialTxVersion], [IsPlatformTransfer], [HasExtraPayloadField] *)
Definition IsSpecialTxVersion (tx : CTransaction) : bool := tx_nVersion tx >=? SPECIAL_VERSION.
Definition IsPlatformTransfer (tx : CTransaction) : bool :=
  (IsSpecialTxVersion tx && (nType tx =? TRANSACTION_ASSET_UNLOCK))%bool.
Definition HasExtraPayloadField (tx : CTransaction) : bool :=
  (IsSpecialTxVersion tx && negb (nType tx =? TRANSACTION_NORMAL))%bool.

(** A coin of the UTXO set *)
Record Coin : Type := mkCoin {
  coin_out : CTxOut;
  fCoinBase : bool;
  coin_nHeight : Z;
  fCoinStake : bool;
}.
Definition IsSpent (c : Coin) : bool := txout_IsNull (coin_out c).

(** ** Serialization *)

#[export] Instance outpoint_codec : Codec COutPoint := {
  encode o := op_hash o ++ ser_writedata32 (op_n o);
  decode s := '(h, s) ← read_bytes 32 s; '(n, s) ← ser_readdata32 s; Some (mkOutPoint h n, s);
  encodable o := blob_wf (op_hash o) /\ is_u32 (op_n o);
}.

Definition txin_Serialize (i : CTxIn) : list Z :=
  encode (prevout i) ++ ser_bytes (scriptSig i) ++ ser_writedata32 (nSequence i).
Definition txin_Unserialize (s : stream) : option (CTxIn * stream) :=
  '(p, s) ← decode s; '(c, s) ← unser_bytes s; '(n, s) ← ser_readdata32 s; Some (mkTxIn p c n, s).

#[export] Instance txin_codec : Codec CTxIn := {
  encode := txin_Serialize;
  decode := txin_Unserialize;
  encodable i := encodable (prevout i) /\ bytes_ok (scriptSig i) /\ is_u32 (nSequence i);
}.

#[export] Instance txout_codec : Codec CTxOut := {
  encode o := ser_writedata64 (u64 (nValue o)) ++ ser_bytes (scriptPubKey o);
  decode s := '(v, s) ← ser_readdata64 s; '(c, s) ← unser_bytes s; Some (mkTxOut (i64 v) c, s);
  encodable o := is_i64 (nValue o) /\ bytes_ok (scriptPubKey o);
}.

(** [CTransaction::Serialize]: [nVersion | (nType << 16)] as an [int32_t] *)
Definition tx_Serialize (tx : CTransaction) : list Z :=
  let n32bitVersion := u32 (Z.lor (tx_nVersion tx) (Z.shiftl (nType tx) 16)) in
  ser_writedata32 n32bitVersion ++ encode (vin tx) ++ encode (vout tx) ++
  ser_writedata32 (nLockTime tx) ++
  (if HasExtraPayloadField tx then ser_bytes (vExtraPayload tx) else []).

(** [CMutableTransaction]'s reader *)
Definition tx_Unserialize (s : stream) : option (CTransaction * stream) :=
  '(n32bitVersion, s) ← ser_readdata32 s;
  let nVersion := i16 (Z.land n32bitVersion 0xffff) in
  let nType := Z.land (Z.shiftr n32bitVersion 16) 0xffff in
  '(vi, s) ← decode s;
  '(vo, s) ← decode s;
  '(lt, s) ← ser_readdata32 s;
  '(pl, s) ← (if ((nVersion >=? SPECIAL_VERSION) && negb (nType =? TRANSACTION_NORMAL))%bool
              then unser_bytes s else Some ([], s));
  Some (mkTx vi vo nVersion nType lt pl, s).

(** [GetSerializeSize(tx)] *)
Definition tx_size (tx : CTransaction) : Z := Z.of_nat (length (tx_Serialize tx)).

(** ** Codec laws *)

Lemma blob_bytes u : blob_wf u -> Forall is_byte u.
Proof. intros [_ H]. exact H. Qed.

Lemma i64_u64 v : is_i64 v -> i64 (u64 v) = v.
Proof.
  unfold is_i64, i64, u64. intros Hv. rewrite Z.add_mod_idemp_l by lia.
  rewrite Z.mod_small; lia.
Qed.

Lemma u64_range v : 0 <= u64 v < 2^64.
Proof. apply Z.mod_pos_bound. lia. Qed.

#[export] Instance outpoint_laws : CodecLaws COutPoint.
Proof.
  split; intros [h n]; cbn.
  - intros s [[Hl Hb] Hn]. rewrite <- app_assoc, read_bytes_app by done. cbn.
    unfold ser_readdata32, ser_writedata32. rewrite ser_readdata_app by (unfold is_u32 in Hn; simpl; lia). done.
  - intros [Hh _]. apply Forall_app_2; [now apply blob_bytes|apply le_bytes_wf].
Qed.

#[export] Instance txin_laws : CodecLaws CTxIn.
Proof.
  split; intros [p c n].
  - intros s (Hp & Hc & Hn). change (txin_Unserialize (txin_Serialize (mkTxIn p c n) ++ s) = Some (mkTxIn p c n, s)).
    unfold txin_Unserialize, txin_Serialize. cbn [prevout scriptSig nSequence] in *. rewrite <- !app_assoc, decode_encode by done. cbn [mbind option_bind].
    rewrite unser_bytes_app by done. cbn [mbind option_bind].
    unfold ser_readdata32, ser_writedata32. rewrite ser_readdata_app by (unfold is_u32 in Hn; simpl; lia). done.
  - intros (Hp & Hc & _). change (Forall is_byte (txin_Serialize (mkTxIn p c n))).
    apply Forall_app_2; [now apply encode_bytes|]. apply Forall_app_2; [now apply ser_bytes_wf|apply le_bytes_wf].
Qed.

#[export] Instance txout_laws : CodecLaws CTxOut.
Proof.
  split; intros [v c]; cbn.
  - intros s (Hv & Hc). rewrite <- app_assoc. unfold ser_readdata64, ser_writedata64.
    rewrite ser_readdata_app by (pose proof (u64_range v); simpl; lia). cbn [mbind option_bind].
    rewrite unser_bytes_app by done. cbn. now rewrite i64_u64.
  - intros (_ & Hc). apply Forall_app_2; [apply le_bytes_wf|now apply ser_bytes_wf].
Qed.

(** ** The version word *)

(** Transactions the writer represents faithfully: a non-negative version,
    and a payload only where the format has one. *)
Record tx_wf (tx : CTransaction) : Prop := {
  tw_version : 0 <= tx_nVersion tx < 2^15;
  tw_type : is_u16 (nType tx);
  tw_vin : encodable (vin tx);
  tw_vout : encodable (vout tx);
  tw_lock : is_u32 (nLockTime tx);
  tw_payload : if HasExtraPayloadField tx then bytes_ok (vExtraPayload tx) else vExtraPayload tx = [];
}.

Lemma version_word v t : 0 <= v < 2^15 -> is_u16 t ->
  let w := u32 (Z.lor v (Z.shiftl t 16)) in
  0 <= w < 2^32 /\ i16 (Z.land w 0xffff) = v /\ Z.land (Z.shiftr w 16) 0xffff = t.
Proof.
  intros Hv Ht. unfold is_u16 in Ht. cbv zeta.
  rewrite Z.shiftl_mul_pow2, lor_disjoint_add by lia.
  unfold u32. rewrite Z.mod_small by lia. split; [lia|].
  change 0xffff with (Z.ones 16). rewrite !Z.land_ones, Z.shiftr_div_pow2 by lia.
  rewrite Z.mod_add, (Z.mod_small v), Z.div_add, Z.div_small by lia.
  unfold i16. rewrite !Z.mod_small by lia. lia.
Qed.

Lemma tx_roundtrip_lemma tx s : tx_wf tx -> tx_Unserialize (tx_Serialize tx ++ s) = Some (tx, s).
Proof.
  intros [Hv Ht Hi Ho Hl Hp]. destruct (version_word _ _ Hv Ht) as (Hw & Ev & Et).
  unfold tx_Unserialize, tx_Serialize. rewrite <- !app_assoc.
  unfold ser_readdata32, ser_writedata32. rewrite ser_readdata_app by (simpl; lia).
  cbn [mbind option_bind]. rewrite Ev, Et.
  rewrite decode_encode by done. cbn [mbind option_bind].
  rewrite decode_encode by done. cbn [mbind option_bind].
  rewrite ser_readdata_app by (unfold is_u32 in Hl; simpl; lia). cbn [mbind option_bind].
  unfold HasExtraPayloadField, IsSpecialTxVersion in *.
  destruct ((tx_nVersion tx >=? SPECIAL_VERSION) && negb (nType tx =? TRANSACTION_NORMAL))%bool.
  - rewrite unser_bytes_app by done. cbn [mbind option_bind]. now destruct tx.
  - cbn [mbind option_bind app]. rewrite <- Hp. now destruct tx.
Qed.

(** A negative version fills the upper half of the word. *)
Lemma negative_version_word v t : - 2^15 <= v < 0 -> is_u16 t -> Z.lor v (Z.shiftl t 16) = v.
Proof.
  intros Hv Ht. apply Z.bits_inj'. intros n Hn. rewrite Z.lor_spec.
  destruct (Z.lt_ge_cases n 16).
  - rewrite Z.shiftl_spec_low by lia. apply orb_false_r.
  - replace (Z.testbit v n) with true; [done|]. symmetry.
    replace v with (Z.lnot (- v - 1)) by (unfold Z.lnot; lia). rewrite Z.lnot_spec by lia.
    destruct (Z.eq_dec (- v - 1) 0) as [->|]; [now rewrite Z.bits_0|].
    rewrite Z.bits_above_log2; [done|lia|].
    assert (Z.log2 (- v - 1) < 15) by (apply Z.log2_lt_pow2; lia). lia.
Qed.

Definition with_type (tx : CTransaction) (t : Z) : CTransaction :=
  mkTx (vin tx) (vout tx) (tx_nVersion tx) t (nLockTime tx) (vExtraPayload tx).

(** The bytes after the version word, and a wire form with its own word. *)
Definition tx_wire (tx : CTransaction) (t : Z) : list Z :=
  ser_writedata32 (u16 (tx_nVersion tx) + t * 2^16) ++ encode (vin tx) ++ encode (vout tx) ++
  ser_writedata32 (nLockTime tx).

Lemma negative_version_read tx t : - 2^15 <= tx_nVersion tx < 0 -> is_u16 t ->
  encodable (vin tx) -> encodable (vout tx) -> is_u32 (nLockTime tx) -> vExtraPayload tx = [] ->
  tx_Unserialize (tx_wire tx t) = Some (with_type tx t, []).
Proof.
  intros Hv Ht Hi Ho Hl Hp. unfold is_u16 in Ht. unfold tx_Unserialize, tx_wire.
  assert (Hu : u16 (tx_nVersion tx) = tx_nVersion tx + 2^16)
    by (unfold u16; symmetry; apply (Z.mod_unique_pos _ _ (-1)); lia).
  unfold ser_readdata32, ser_writedata32. rewrite ser_readdata_app by (simpl; lia).
  cbn [mbind option_bind].
  change 0xffff with (Z.ones 16). rewrite !Z.land_ones, Z.shiftr_div_pow2 by lia.
  rewrite Z.mod_add, Hu, (Z.mod_small (tx_nVersion tx + 2^16)), Z.div_add, Z.div_small by lia.
  rewrite Z.mod_small by lia.
  replace (i16 (tx_nVersion tx + 2^16)) with (tx_nVersion tx)
    by (unfold i16; rewrite <- (Z.mod_unique_pos (tx_nVersion tx + 2^16 + 2^15) (2^16) 1 (tx_nVersion tx + 2^15)); lia).
  rewrite decode_encode by done. cbn [mbind option_bind].
  rewrite decode_encode by done. cbn [mbind option_bind].
  replace (le_bytes 4 (nLockTime tx)) with (le_bytes 4 (nLockTime tx) ++ []) by apply app_nil_r.
  rewrite ser_readdata_app by (unfold is_u32 in Hl; simpl; lia). cbn [mbind option_bind].
  unfold SPECIAL_VERSION. rewrite Z.geb_leb, (proj2 (Z.leb_gt _ _)) by lia. cbn [andb mbind option_bind].
  unfold with_type. now rewrite Hp.
Qed.

(** ** Properties *)

(** C39: a transaction with a non-negative version reads back from its
    serialization exactly, and the rest of the stream is untouched. *)
Theorem tx_roundtrip (tx : CTransaction) (s : stream) :
  tx_wf tx -> tx_Unserialize (tx_Serialize tx ++ s) = Some (tx, s).
Proof. apply tx_roundtrip_lemma. Qed.

Definition demo_tx : CTransaction :=
  mkTx [mkTxIn (mkOutPoint (replicate 32 7) 1) [1; 2] 0xffffffff] [mkTxOut 5000 [0x51]; mkTxOut 0 []]
       3 1 0 [9; 9].

Lemma tx_roundtrip_witness : tx_Unserialize (tx_Serialize demo_tx ++ [1]) = Some (demo_tx, [1]).
Proof.
  apply tx_roundtrip.
  assert (Hb : forall l, Forall is_byte l -> (length l <= 100)%nat -> bytes_ok l)
    by (intros l Hl Hn; split; [unfold MAX_SIZE; lia|exact Hl]).
  assert (H1 : Forall is_byte (replicate 32 7)) by (apply Forall_replicate; unfold is_byte; lia).
  split; cbn -[encodable].
  - lia.
  - unfold is_u16. lia.
  - split; [unfold MAX_SIZE; simpl; lia|]. constructor; [|constructor].
    split; [split; [split; [reflexivity|exact H1]|unfold is_u32; simpl; lia]|].
    split; [|unfold is_u32; simpl; lia]. apply Hb; [|simpl; lia]. repeat constructor; lia.
  - split; [unfold MAX_SIZE; simpl; lia|]. repeat constructor; unfold MAX_SIZE; simpl; lia.
  - unfold is_u32. lia.
  - apply Hb; [|simpl; lia]. repeat constructor; lia.
Defined.

(** C40: for a negative version the serialization does not depend on the
    transaction type: transactions that differ in [nType] alone have the same
    bytes, hence the same hash, although the reader produces each of them from
    a wire form of its own. *)
Theorem tx_negative_version_ambiguous (tx : CTransaction) (t1 t2 : Z) :
  - 2^15 <= tx_nVersion tx < 0 -> is_u16 t1 -> is_u16 t2 ->
  encodable (vin tx) -> encodable (vout tx) -> is_u32 (nLockTime tx) -> vExtraPayload tx = [] ->
  tx_Serialize (with_type tx t1) = tx_Serialize (with_type tx t2) /\
  tx_Unserialize (tx_wire tx t1) = Some (with_type tx t1, []) /\
  tx_Unserialize (tx_wire tx t2) = Some (with_type tx t2, []).
Proof.
  intros Hv H1 H2 Hi Ho Hl Hp. split; [|split; now apply negative_version_read].
  unfold tx_Serialize, HasExtraPayloadField, IsSpecialTxVersion, SPECIAL_VERSION.
  cbn [with_type tx_nVersion nType vin vout nLockTime vExtraPayload].
  rewrite !negative_version_word by done. rewrite Z.geb_leb, (proj2 (Z.leb_gt _ _)) by lia. done.
Qed.

Lemma tx_negative_version_ambiguous_witness :
  tx_Serialize (mkTx [] [] (-1) 0 0 []) = tx_Serialize (mkTx [] [] (-1) 6 0 []).
Proof.
  apply (tx_negative_version_ambiguous (mkTx [] [] (-1) 0 0 []) 0 6); try (unfold is_u16, is_u32; simpl; lia).
  - split; [unfold MAX_SIZE; simpl; lia|constructor].
  - split; [unfold MAX_SIZE; simpl; lia|constructor].
  - reflexivity.
Defined.
