(* ===== verification/Script.v ===== *)
(** * Script: scripts as byte strings and as operations
      (src/src/script/script.{h,cpp})

    A script is a list of bytes; an iterator into it is the rest of the list.
    The numbers of the interpreter are little-endian with a sign bit on top. *)

From Stdlib Require Import ZArith Lia.
From stdpp Require Import base list numbers option.
From S2P Require Import Prelude Arith256 Uint256 Serialize Transaction.

(** ** Limits and opcodes *)

Definition MAX_SCRIPT_ELEMENT_SIZE : Z := 520.
Definition MAX_OPS_PER_SCRIPT : Z := 201.
Definition MAX_PUBKEYS_PER_MULTISIG : Z := 20.
Definition MAX_SCRIPT_SIZE : Z := 10000.
Definition MAX_STACK_SIZE : Z := 1000.

Definition OP_0 : Z := 0x00.
Definition OP_FALSE : Z := OP_0.
Definition OP_PUSHDATA1 : Z := 0x4c.
Definition OP_PUSHDATA2 : Z := 0x4d.
Definition OP_PUSHDATA4 : Z := 0x4e.
Definition OP_1NEGATE : Z := 0x4f.
Definition OP_RESERVED : Z := 0x50.
Definition OP_1 : Z := 0x51.
Definition OP_TRUE : Z := OP_1.
Definition OP_2 : Z := 0x52.
Definition OP_3 : Z := 0x53.
Definition OP_4 : Z := 0x54.
Definition OP_5 : Z := 0x55.
Definition OP_6 : Z := 0x56.
Definition OP_7 : Z := 0x57.
Definition OP_8 : Z := 0x58.
Definition OP_9 : Z := 0x59.
Definition OP_10 : Z := 0x5a.
Definition OP_11 : Z := 0x5b.
Definition OP_12 : Z := 0x5c.
Definition OP_13 : Z := 0x5d.
Definition OP_14 : Z := 0x5e.
Definition OP_15 : Z := 0x5f.
Definition OP_16 : Z := 0x60.
Definition OP_NOP : Z := 0x61.
Definition OP_VER : Z := 0x62.
Definition OP_IF : Z := 0x63.
Definition OP_NOTIF : Z := 0x64.
Definition OP_VERIF : Z := 0x65.
Definition OP_VERNOTIF : Z := 0x66.
Definition OP_ELSE : Z := 0x67.
Definition OP_ENDIF : Z := 0x68.
Definition OP_VERIFY : Z := 0x69.
Definition OP_RETURN : Z := 0x6a.
Definition OP_TOALTSTACK : Z := 0x6b.
Definition OP_FROMALTSTACK : Z := 0x6c.
Definition OP_2DROP : Z := 0x6d.
Definition OP_2DUP : Z := 0x6e.
Definition OP_3DUP : Z := 0x6f.
Definition OP_2OVER : Z := 0x70.
Definition OP_2ROT : Z := 0x71.
Definition OP_2SWAP : Z := 0x72.
Definition OP_IFDUP : Z := 0x73.
Definition OP_DEPTH : Z := 0x74.
Definition OP_DROP : Z := 0x75.
Definition OP_DUP : Z := 0x76.
Definition OP_NIP : Z := 0x77.
Definition OP_OVER : Z := 0x78.
Definition OP_PICK : Z := 0x79.
Definition OP_ROLL : Z := 0x7a.
Definition OP_ROT : Z := 0x7b.
Definition OP_SWAP : Z := 0x7c.
Definition OP_TUCK : Z := 0x7d.
Definition OP_CAT : Z := 0x7e.
Definition OP_SPLIT : Z := 0x7f.
Definition OP_SIZE : Z := 0x82.
Definition OP_NUM2BIN : Z := 0x80.
Definition OP_BIN2NUM : Z := 0x81.
Definition OP_INVERT : Z := 0x83.
Definition OP_AND : Z := 0x84.
Definition OP_OR : Z := 0x85.
Definition OP_XOR : Z := 0x86.
Definition OP_EQUAL : Z := 0x87.
Definition OP_EQUALVERIFY : Z := 0x88.
Definition OP_RESERVED1 : Z := 0x89.
Definition OP_RESERVED2 : Z := 0x8a.
Definition OP_1ADD : Z := 0x8b.
Definition OP_1SUB : Z := 0x8c.
Definition OP_2MUL : Z := 0x8d.
Definition OP_2DIV : Z := 0x8e.
Definition OP_NEGATE : Z := 0x8f.
Definition OP_ABS : Z := 0x90.
Definition OP_NOT : Z := 0x91.
Definition OP_0NOTEQUAL : Z := 0x92.
Definition OP_ADD : Z := 0x93.
Definition OP_SUB : Z := 0x94.
Definition OP_MUL : Z := 0x95.
Definition OP_DIV : Z := 0x96.
Definition OP_MOD : Z := 0x97.
Definition OP_LSHIFT : Z := 0x98.
Definition OP_RSHIFT : Z := 0x99.
Definition OP_BOOLAND : Z := 0x9a.
Definition OP_BOOLOR : Z := 0x9b.
Definition OP_NUMEQUAL : Z := 0x9c.
Definition OP_NUMEQUALVERIFY : Z := 0x9d.
Definition OP_NUMNOTEQUAL : Z := 0x9e.
Definition OP_LESSTHAN : Z := 0x9f.
Definition OP_GREATERTHAN : Z := 0xa0.
Definition OP_LESSTHANOREQUAL : Z := 0xa1.
Definition OP_GREATERTHANOREQUAL : Z := 0xa2.
Definition OP_MIN : Z := 0xa3.
Definition OP_MAX : Z := 0xa4.
Definition OP_WITHIN : Z := 0xa5.
Definition OP_RIPEMD160 : Z := 0xa6.
Definition OP_SHA1 : Z := 0xa7.
Definition OP_SHA256 : Z := 0xa8.
Definition OP_HASH160 : Z := 0xa9.
Definition OP_HASH256 : Z := 0xaa.
Definition OP_CODESEPARATOR : Z := 0xab.
Definition OP_CHECKSIG : Z := 0xac.
Definition OP_CHECKSIGVERIFY : Z := 0xad.
Definition OP_CHECKMULTISIG : Z := 0xae.
Definition OP_CHECKMULTISIGVERIFY : Z := 0xaf.
Definition OP_NOP1 : Z := 0xb0.
Definition OP_CHECKLOCKTIMEVERIFY : Z := 0xb1.
Definition OP_NOP2 : Z := OP_CHECKLOCKTIMEVERIFY.
Definition OP_CHECKSEQUENCEVERIFY : Z := 0xb2.
Definition OP_NOP3 : Z := OP_CHECKSEQUENCEVERIFY.
Definition OP_NOP4 : Z := 0xb3.
Definition OP_NOP5 : Z := 0xb4.
Definition OP_NOP6 : Z := 0xb5.
Definition OP_NOP7 : Z := 0xb6.
Definition OP_NOP8 : Z := 0xb7.
Definition OP_NOP9 : Z := 0xb8.
Definition OP_NOP10 : Z := 0xb9.
Definition OP_CHECKDATASIG : Z := 0xba.
Definition OP_CHECKDATASIGVERIFY : Z := 0xbb.
Definition OP_INVALIDOPCODE : Z := 0xff.

(** The enumeration of these values *)
Definition opcodetype : list Z :=
  [OP_0; OP_FALSE; OP_PUSHDATA1; OP_PUSHDATA2; OP_PUSHDATA4; OP_1NEGATE; OP_RESERVED; OP_1; OP_TRUE; OP_2; OP_3;
   OP_4; OP_5; OP_6; OP_7; OP_8; OP_9; OP_10; OP_11; OP_12; OP_13; OP_14; OP_15; OP_16; OP_NOP; OP_VER; OP_IF;
   OP_NOTIF; OP_VERIF; OP_VERNOTIF; OP_ELSE; OP_ENDIF; OP_VERIFY; OP_RETURN; OP_TOALTSTACK; OP_FROMALTSTACK;
   OP_2DROP; OP_2DUP; OP_3DUP; OP_2OVER; OP_2ROT; OP_2SWAP; OP_IFDUP; OP_DEPTH; OP_DROP; OP_DUP; OP_NIP; OP_OVER;
   OP_PICK; OP_ROLL; OP_ROT; OP_SWAP; OP_TUCK; OP_CAT; OP_SPLIT; OP_SIZE; OP_NUM2BIN; OP_BIN2NUM; OP_INVERT;
   OP_AND; OP_OR; OP_XOR; OP_EQUAL; OP_EQUALVERIFY; OP_RESERVED1; OP_RESERVED2; OP_1ADD; OP_1SUB; OP_2MUL;
   OP_2DIV; OP_NEGATE; OP_ABS; OP_NOT; OP_0NOTEQUAL; OP_ADD; OP_SUB; OP_MUL; OP_DIV; OP_MOD; OP_LSHIFT; OP_RSHIFT;
   OP_BOOLAND; OP_BOOLOR; OP_NUMEQUAL; OP_NUMEQUALVERIFY; OP_NUMNOTEQUAL; OP_LESSTHAN; OP_GREATERTHAN;
   OP_LESSTHANOREQUAL; OP_GREATERTHANOREQUAL; OP_MIN; OP_MAX; OP_WITHIN; OP_RIPEMD160; OP_SHA1; OP_SHA256;
   OP_HASH160; OP_HASH256; OP_CODESEPARATOR; OP_CHECKSIG; OP_CHECKSIGVERIFY; OP_CHECKMULTISIG;
   OP_CHECKMULTISIGVERIFY; OP_NOP1; OP_CHECKLOCKTIMEVERIFY; OP_NOP2; OP_CHECKSEQUENCEVERIFY; OP_NOP3; OP_NOP4;
   OP_NOP5; OP_NOP6; OP_NOP7; OP_NOP8; OP_NOP9; OP_NOP10; OP_CHECKDATASIG; OP_CHECKDATASIGVERIFY;
   OP_INVALIDOPCODE].

(** ** Bytes of a vector *)

Definition size {A} (l : list A) : Z := Z.of_nat (length l).
Definition byte_at (s : list Z) (i : nat) : Z := s !!! i.
(** [back()] and the assignment to it *)
Definition back (s : list Z) : Z := List.last s 0.
Definition set_back (s : list Z) (x : Z) : list Z := removelast s ++ [x].
Definition has_bit (x m : Z) : bool := negb (Z.land x m =? 0).

(** ** Numbers *)

(** The loop of [serialize], one byte at a time *)
Fixpoint abs_bytes (fuel : nat) (absvalue : Z) : list Z :=
  match fuel with
  | O => []
  | S f => if absvalue =? 0 then [] else Z.land absvalue 0xff :: abs_bytes f (Z.shiftr absvalue 8)
  end.

(** [CScriptNum::serialize] *)
Definition num_serialize (value : Z) : list Z :=
  if value =? 0 then []
  else
    let neg := value <? 0 in
    let absvalue := if neg then u64 (u64 (Z.lnot (u64 value)) + 1) else u64 value in
    let result := abs_bytes 8 absvalue in
    if has_bit (back result) 0x80 then result ++ [if neg then 0x80 else 0]
    else if neg then set_back result (Z.lor (back result) 0x80)
    else result.

(** [CScriptNum::set_vch] *)
Fixpoint set_vch_loop (vch : list Z) (i : Z) (result : Z) : Z :=
  match vch with
  | [] => result
  | v :: vch' => set_vch_loop vch' (i + 1) (i64 (Z.lor result (Z.shiftl v (8 * i))))
  end.
Definition set_vch (vch : list Z) : Z :=
  if (length vch =? 0)%nat then 0
  else
    let result := set_vch_loop vch 0 0 in
    if has_bit (back vch) 0x80
    then i64 (- i64 (Z.land (u64 result) (u64 (Z.lnot (Z.shiftl 0x80 (8 * (size vch - 1)))))))
    else result.

(** [CScriptNum::IsMinimallyEncoded] *)
Definition IsMinimallyEncoded (vch : list Z) (nMaxNumSize : Z) : bool :=
  if size vch >? nMaxNumSize then false
  else if size vch >? 0 then
    if Z.land (back vch) 0x7f =? 0 then
      negb ((size vch <=? 1) || negb (has_bit (byte_at vch (length vch - 2)) 0x80))
    else true
  else true.

(** The loop of [MinimallyEncode] from [i] down *)
Fixpoint trim_loop (data : list Z) (last : Z) (i : nat) : list Z :=
  match i with
  | O => []
  | S j =>
      if negb (byte_at data j =? 0) then
        if has_bit (byte_at data j) 0x80 then take (S i) (<[i := last]> data)
        else take i (<[j := Z.lor (byte_at data j) last]> data)
      else trim_loop data last j
  end.

(** [CScriptNum::MinimallyEncode]: whether the data changed, and the data *)
Definition MinimallyEncode (data : list Z) : bool * list Z :=
  if (length data =? 0)%nat then (false, data)
  else
    let last := back data in
    if has_bit last 0x7f then (false, data)
    else if (length data =? 1)%nat then (true, [])
    else if has_bit (byte_at data (length data - 2)) 0x80 then (false, data)
    else (true, trim_loop data last (length data - 1)).

(** The constructor of [CScriptNum] from bytes; [None] is an exception. *)
Definition CScriptNum (vch : list Z) (fRequireMinimal : bool) (nMaxNumSize : Z) : option Z :=
  if size vch >? nMaxNumSize then None
  else if (fRequireMinimal && negb (IsMinimallyEncoded vch nMaxNumSize))%bool then None
  else Some (set_vch vch).
Definition nDefaultMaxNumSize : Z := 4.

(** [CScriptNum::getint] *)
Definition getint (m_value : Z) : Z :=
  if m_value >? INT_MAX then INT_MAX else if m_value <? - 2^31 then - 2^31 else m_value.

(** ** Writing and reading operations *)

(** [operator<<] for bytes *)
Definition script_push (b : list Z) : CScript :=
  (if size b <? OP_PUSHDATA1 then [size b]
   else if size b <=? 0xff then [OP_PUSHDATA1; size b]
   else if size b <=? 0xffff then OP_PUSHDATA2 :: ser_writedata16 (u16 (size b))
   else OP_PUSHDATA4 :: ser_writedata32 (u32 (size b))) ++ b.

(** [push_int64] *)
Definition push_int64 (n : Z) : CScript :=
  if ((n =? -1) || ((n >=? 1) && (n <=? 16)))%bool then [n + (OP_1 - 1)]
  else if n =? 0 then [OP_0]
  else script_push (num_serialize n).

(** [GetScriptOp]: the opcode, its data and the rest of the script *)
Definition GetScriptOp (pc : CScript) : option (Z * list Z * CScript) :=
  match pc with
  | [] => None
  | opcode :: pc =>
      if opcode <=? OP_PUSHDATA4 then
        '(nSize, pc) ← (if opcode <? OP_PUSHDATA1 then Some (opcode, pc)
                        else if opcode =? OP_PUSHDATA1 then ser_readdata8 pc
                        else if opcode =? OP_PUSHDATA2 then ser_readdata16 pc
                        else ser_readdata32 pc);
        if size pc <? nSize then None
        else
          '(vch, pc) ← read_bytes (Z.to_nat nSize) pc;
          Some (opcode, vch, pc)
      else Some (opcode, [], pc)
  end.

(** [DecodeOP_N], [EncodeOP_N] *)
Definition DecodeOP_N (opcode : Z) : outcome Z :=
  if opcode =? OP_0 then Ret 0
  else if ((opcode >=? OP_1) && (opcode <=? OP_16))%bool then Ret (opcode - (OP_1 - 1)) else Abort.
Definition EncodeOP_N (n : Z) : outcome Z :=
  if ((n >=? 0) && (n <=? 16))%bool then Ret (if n =? 0 then OP_0 else OP_1 + n - 1) else Abort.

(** The loop of [GetSigOpCount]; every operation takes at least a byte. *)
Fixpoint sigop_loop (fuel : nat) (fAccurate : bool) (pc : CScript) (lastOpcode n : Z) : outcome Z :=
  match fuel with
  | O => Ret n
  | S f =>
      match GetScriptOp pc with
      | None => Ret n
      | Some (opcode, _, pc) =>
          if ((opcode =? OP_CHECKSIG) || (opcode =? OP_CHECKSIGVERIFY))%bool then sigop_loop f fAccurate pc opcode (u32 (n + 1))
          else if ((opcode =? OP_CHECKMULTISIG) || (opcode =? OP_CHECKMULTISIGVERIFY))%bool then
            if (fAccurate && (lastOpcode >=? OP_1) && (lastOpcode <=? OP_16))%bool then
              k ← DecodeOP_N lastOpcode; sigop_loop f fAccurate pc opcode (u32 (n + k))
            else sigop_loop f fAccurate pc opcode (u32 (n + MAX_PUBKEYS_PER_MULTISIG))
          else sigop_loop f fAccurate pc opcode n
      end
  end.

(** [GetSigOpCount(bool)] *)
Definition GetSigOpCount (script : CScript) (fAccurate : bool) : outcome Z :=
  sigop_loop (length script) fAccurate script OP_INVALIDOPCODE 0.

(** [IsPayToPublicKeyHash], [IsPayToScriptHash], [IsPayToPublicKey], [IsPayToBLSPublicKey] *)
Definition IsPayToPublicKeyHash (s : CScript) : bool :=
  ((length s =? 25)%nat && (byte_at s 0 =? OP_DUP) && (byte_at s 1 =? OP_HASH160) && (byte_at s 2 =? 0x14) &&
   (byte_at s 23 =? OP_EQUALVERIFY) && (byte_at s 24 =? OP_CHECKSIG))%bool.
Definition IsPayToScriptHash (s : CScript) : bool :=
  ((length s =? 23)%nat && (byte_at s 0 =? OP_HASH160) && (byte_at s 1 =? 0x14) && (byte_at s 22 =? OP_EQUAL))%bool.
Definition IsPayToPublicKey (s : CScript) : bool :=
  if (length s =? 35)%nat then (((byte_at s 1 =? 0x02) || (byte_at s 1 =? 0x03)) && (byte_at s 34 =? OP_CHECKSIG))%bool
  else if (length s =? 67)%nat then ((byte_at s 1 =? 0x04) && (byte_at s 66 =? OP_CHECKSIG))%bool
  else false.
Definition IsPayToBLSPublicKey (s : CScript) : bool :=
  if (length s =? 50)%nat then byte_at s 49 =? OP_CHECKSIG else false.

(** The last value a script pushes, if it only pushes *)
Fixpoint last_push (fuel : nat) (pc : CScript) (vData : list Z) : option (list Z) :=
  match fuel with
  | O => Some vData
  | S f =>
      match pc with
      | [] => Some vData
      | _ :: _ =>
          match GetScriptOp pc with
          | None => None
          | Some (opcode, vData, pc) => if opcode >? OP_16 then None else last_push f pc vData
          end
      end
  end.

(** [GetSigOpCount(const CScript&)] *)
Definition GetSigOpCount_p2sh (script scriptSig : CScript) : outcome Z :=
  if negb (IsPayToScriptHash script) then GetSigOpCount script true
  else
    match last_push (length scriptSig) scriptSig [] with
    | None => Ret 0
    | Some vData => GetSigOpCount vData true
    end.

(** [IsPushOnly] *)
Fixpoint push_only_loop (fuel : nat) (pc : CScript) : bool :=
  match fuel with
  | O => true
  | S f =>
      match pc with
      | [] => true
      | _ :: _ =>
          match GetScriptOp pc with
          | None => false
          | Some (opcode, _, pc) => if opcode >? OP_16 then false else push_only_loop f pc
          end
      end
  end.
Definition IsPushOnly (s : CScript) : bool := push_only_loop (length s) s.

(** [IsUnspendable] *)
Definition IsUnspendable (s : CScript) : bool :=
  (match s with b :: _ => b =? OP_RETURN | [] => false end || (size s >? MAX_SCRIPT_SIZE))%bool.

(** ** Reading operations *)

Lemma ser_readdata_suffix n s x s' : ser_readdata n s = Some (x, s') -> exists pre, s = pre ++ s' /\ length pre = n.
Proof.
  unfold ser_readdata. destruct (read_bytes n s) as [[b t]|] eqn:E; [|done]. cbn. intros [= <- <-].
  apply read_bytes_inv in E as [-> Hl]. by exists b.
Qed.

(** An operation is a nonempty prefix of the script, and its data is the end of the prefix. *)
Lemma GetScriptOp_inv pc opcode vch rest : GetScriptOp pc = Some (opcode, vch, rest) ->
  exists pre, pc = (opcode :: pre) ++ vch ++ rest /\ (OP_PUSHDATA4 < opcode -> pre = [] /\ vch = []).
Proof.
  unfold GetScriptOp. destruct pc as [|b pc]; [done|]. destruct (Z.leb_spec b OP_PUSHDATA4) as [Hb|Hb].
  2:{ intros [= <- <- <-]. by exists []. }
  assert (forall r n pc', r = Some (n, pc') -> (r = Some (b, pc) \/ exists k, r = ser_readdata k pc) -> exists pre, pc = pre ++ pc') as Hpre.
  { intros r n pc' Hr [->|[k ->]]; [injection Hr as <- <-; by exists []|]. apply ser_readdata_suffix in Hr as (pre & -> & _). by exists pre. }
  destruct (if b <? OP_PUSHDATA1 then _ else _) as [[n pc']|] eqn:E; [|done]. cbn [mbind option_bind].
  destruct (Hpre _ _ _ E) as [pre ->].
  { repeat case_match; eauto. }
  destruct (_ <? n); [done|]. destruct (read_bytes _ pc') as [[v r]|] eqn:Ev; [|done]. cbn [mbind option_bind]. intros [= <- <- <-].
  apply read_bytes_inv in Ev as [-> _]. exists pre. split; [done|]. lia.
Qed.

Lemma GetScriptOp_shorter pc opcode vch rest : GetScriptOp pc = Some (opcode, vch, rest) -> (length rest < length pc)%nat.
Proof. intros (pre & -> & _)%GetScriptOp_inv. rewrite !length_app. cbn. lia. Qed.

Lemma read_data_app (opcode : Z) b rest n : n = size b ->
  (if size (b ++ rest) <? n then None else '(vch, pc) ← read_bytes (Z.to_nat n) (b ++ rest); Some (opcode, vch, pc)) = Some (opcode, b, rest).
Proof.
  intros ->. rewrite (proj2 (Z.ltb_ge _ _)) by (unfold size; rewrite length_app; lia).
  unfold size. by rewrite Nat2Z.id, read_bytes_app.
Qed.

(** The opcode [operator<<] chooses *)
Definition push_opcode (b : list Z) : Z :=
  if size b <? OP_PUSHDATA1 then size b else if size b <=? 0xff then OP_PUSHDATA1
  else if size b <=? 0xffff then OP_PUSHDATA2 else OP_PUSHDATA4.

Lemma push_opcode_range b : 0 <= push_opcode b <= OP_PUSHDATA4.
Proof.
  assert (0 <= size b) by (unfold size; lia). unfold push_opcode, OP_PUSHDATA1, OP_PUSHDATA2, OP_PUSHDATA4.
  destruct (Z.ltb_spec (size b) 0x4c); [lia|]. repeat case_match; lia.
Qed.

(** What [operator<<] writes is one operation that carries the bytes. *)
Lemma GetScriptOp_push b rest : size b < 2^32 -> GetScriptOp (script_push b ++ rest) = Some (push_opcode b, b, rest).
Proof.
  intros Hb. assert (0 <= size b) as H0 by (unfold size; lia). unfold script_push, push_opcode, u16, u32.
  destruct (Z.ltb_spec (size b) OP_PUSHDATA1) as [H1|H1]; [|destruct (Z.leb_spec (size b) 0xff); [|destruct (Z.leb_spec (size b) 0xffff)]].
  - unfold OP_PUSHDATA1, OP_PUSHDATA4 in *. cbn [app GetScriptOp]. unfold OP_PUSHDATA1, OP_PUSHDATA4.
    rewrite (proj2 (Z.leb_le _ _)), (proj2 (Z.ltb_lt _ _)) by lia. cbn [mbind option_bind]. by apply read_data_app.
  - cbn [app GetScriptOp Z.leb Z.ltb Z.eqb Z.compare OP_PUSHDATA1 OP_PUSHDATA4 Pos.compare Pos.compare_cont Pos.eqb].
    change (size b :: b ++ rest) with ([size b] ++ b ++ rest).
    assert (le_bytes 1 (size b) = [size b]) as <- by (change (le_bytes 1 (size b)) with [size b mod 2^8]; rewrite Z.mod_small by lia; done).
    unfold ser_readdata8. rewrite ser_readdata_app by (cbn; lia). cbn [mbind option_bind]. by apply read_data_app.
  - cbn [app GetScriptOp Z.leb Z.ltb Z.eqb Z.compare OP_PUSHDATA1 OP_PUSHDATA2 OP_PUSHDATA4 Pos.compare Pos.compare_cont Pos.eqb].
    rewrite <- app_assoc, Z.mod_small by lia. unfold ser_readdata16, ser_writedata16. rewrite ser_readdata_app by (cbn; lia). cbn [mbind option_bind]. by apply read_data_app.
  - cbn [app GetScriptOp Z.leb Z.ltb Z.eqb Z.compare OP_PUSHDATA1 OP_PUSHDATA2 OP_PUSHDATA4 Pos.compare Pos.compare_cont Pos.eqb].
    rewrite <- app_assoc, Z.mod_small by lia. unfold ser_readdata32, ser_writedata32. rewrite ser_readdata_app by (cbn; lia). cbn [mbind option_bind]. by apply read_data_app.
Qed.

Lemma script_push_size b : size (script_push b) <= size b + 5.
Proof.
  unfold script_push, size, ser_writedata16, ser_writedata32. rewrite length_app.
  repeat case_match; cbn [length]; rewrite ?le_bytes_length; lia.
Qed.

Lemma script_push_head b : exists r, script_push b = push_opcode b :: r.
Proof. unfold script_push, push_opcode. repeat case_match; cbn [app]; eauto. Qed.

(** ** Numbers: their value and their one minimal form *)

Notation bytes := (Forall is_byte).

(** The integer a vector stands for: sign and magnitude *)
Definition num_value (v : list Z) : Z :=
  if back v <? 128 then le_val v else 2^(8 * size v - 1) - le_val v.

Lemma le_val_app a b : le_val (a ++ b) = le_val a + 2^(8 * size a) * le_val b.
Proof.
  unfold size. induction a as [|x a IH]; [cbn [app le_val length]; lia|]. cbn [app le_val]. rewrite IH.
  change (length (x :: a)) with (S (length a)). rewrite Nat2Z.inj_succ.
  replace (8 * Z.succ (Z.of_nat (length a))) with (8 + 8 * Z.of_nat (length a)) by lia. rewrite Z.pow_add_r by lia. lia.
Qed.

Lemma back_snoc l t : back (l ++ [t]) = t.
Proof. apply List.last_last. Qed.

Lemma size_snoc {A} (l : list A) t : size (l ++ [t]) = size l + 1.
Proof. unfold size. rewrite length_app. cbn. lia. Qed.

Lemma size_nonneg {A} (l : list A) : 0 <= size l.
Proof. unfold size. lia. Qed.

Lemma num_value_snoc l t : num_value (l ++ [t]) =
  if t <? 128 then le_val l + 2^(8 * size l) * t else - (le_val l + 2^(8 * size l) * (t - 128)).
Proof.
  unfold num_value. rewrite back_snoc, le_val_app, size_snoc. cbn [le_val]. destruct (t <? 128); [lia|].
  replace (8 * (size l + 1) - 1) with (8 * size l + 7) by lia. rewrite Z.pow_add_r by (pose proof (size_nonneg l); lia). lia.
Qed.

Lemma bit7 t : is_byte t -> has_bit t 0x80 = negb (t <? 128).
Proof.
  intros Ht. unfold has_bit. f_equal. destruct (Z.ltb_spec t 128) as [H|H].
  - apply Z.eqb_eq. change 0x80 with (Z.shiftl 1 7). apply Z.bits_inj'. intros i Hi. rewrite Z.land_spec, Z.bits_0.
    destruct (Z.eq_dec i 7) as [->|Hn].
    + rewrite (Z.bits_above_log2 t 7); [done|unfold is_byte in Ht; lia|]. destruct (Z.eq_dec t 0) as [->|]; [cbn; lia|].
      apply Z.log2_lt_pow2; unfold is_byte in Ht; lia.
    + rewrite Z.shiftl_spec by done. change 1 with (2^0). rewrite Z.pow2_bits_eqb by lia. rewrite (proj2 (Z.eqb_neq 0 (i - 7))) by lia. apply andb_false_r.
  - apply Z.eqb_neq. intros E. assert (Z.testbit (Z.land t 0x80) 7 = false) as Hf by (by rewrite E).
    rewrite Z.land_spec in Hf. change (Z.testbit 0x80 7) with true in Hf. rewrite andb_true_r in Hf.
    rewrite Z.testbit_false in Hf by lia. unfold is_byte in Ht. change (2^7) with 128 in Hf.
    assert (t / 128 = 1) as Hd by (symmetry; apply Z.div_unique with (t - 128); lia). rewrite Hd in Hf. discriminate.
Qed.

Lemma low7 t : Z.land t 0x7f = t mod 128.
Proof. change 0x7f with (Z.ones 7). by rewrite Z.land_ones. Qed.

(** A nonempty vector with no byte to spare *)
Definition minimal (v : list Z) : Prop :=
  v = [] \/ exists l t, v = l ++ [t] /\ (t mod 128 <> 0 \/ exists k x, l = k ++ [x] /\ 128 <= x).

Lemma snoc_cases {A} (v : list A) : v = [] \/ exists l t, v = l ++ [t].
Proof. destruct v as [|t l _] using rev_ind; [by left|right; by exists l, t]. Qed.

Lemma IsMinimallyEncoded_spec v max : bytes v -> IsMinimallyEncoded v max = true <-> size v <= max /\ minimal v.
Proof.
  intros Hv. unfold IsMinimallyEncoded, minimal. destruct (Z.gtb_spec (size v) max) as [H|H]; [split; [done|lia]|].
  destruct (snoc_cases v) as [->|(l & t & ->)].
  { split; [intros _; split; [done|by left]|done]. }
  apply Forall_app in Hv as [Hl Ht]. rewrite size_snoc, back_snoc, low7 in *. pose proof (size_nonneg l).
  rewrite Z.gtb_ltb, (proj2 (Z.ltb_lt _ _)) by lia.
  destruct (Z.eqb_spec (t mod 128) 0) as [E|E].
  2:{ split; [intros _|done]. split; [done|]. right. exists l, t. by split; [|left]. }
  destruct (snoc_cases l) as [->|(k & x & ->)].
  { cbn. split; [done|]. intros [_ [Hn|(l' & t' & El & Hc)]]; [done|]. apply (app_inj_tail []) in El as [<- <-]. destruct Hc as [Hc|(k & x & Hk & _)]; [done|by destruct k]. }
  apply Forall_app in Hl as [Hk Hx]. rewrite size_snoc in *. rewrite (proj2 (Z.leb_gt _ _)) by (pose proof (size_nonneg k); lia). cbn [orb]. rewrite negb_involutive.
  replace (byte_at _ _) with x.
  2:{ symmetry. unfold byte_at. apply list_lookup_total_correct. rewrite !length_app. cbn [length]. rewrite lookup_app_l by (rewrite length_app; cbn; lia).
      apply list_lookup_middle. lia. }
  rewrite bit7 by (by inversion Hx). destruct (Z.ltb_spec x 128); cbn [negb]; split; try done.
  - intros [_ [Hn|(l' & t' & El & Hc)]]; [by destruct k|]. apply app_inj_tail in El as [<- <-].
    destruct Hc as [Hc|(k' & x' & El & Hx')]; [done|]. apply app_inj_tail in El as [<- <-]; lia.
  - intros _. split; [lia|]. right. exists (k ++ [x]), t. split; [done|]. right. by exists k, x.
Qed.

Lemma i64_small z : is_i64 z -> i64 z = z.
Proof. unfold is_i64, i64. intros Hz. rewrite Z.mod_small; lia. Qed.

Lemma u64_i64 z : is_u64 z -> u64 (i64 z) = z.
Proof.
  unfold is_u64, u64, i64. intros Hz. rewrite <- Zminus_mod_idemp_l, Z.mod_mod, Zminus_mod_idemp_l by lia.
  rewrite Z.add_simpl_r. by apply Z.mod_small.
Qed.

Lemma set_vch_loop_spec v : forall i r, bytes v -> 0 <= i -> 8 * (i + size v) <= 64 -> 0 <= r < 2^(8 * i) ->
  v <> [] -> set_vch_loop v i (i64 r) = i64 (r + 2^(8 * i) * le_val v).
Proof.
  induction v as [|x v IH]; intros i r Hv Hi Hl Hr Hne; [done|]. inversion Hv as [|? ? Hx Hv']; subst.
  cbn [set_vch_loop le_val]. unfold size in Hl. cbn [length] in Hl. unfold is_byte in Hx.
  assert (2^(8 * (i + 1)) = 2^(8 * i) * 2^8) as Hp by (rewrite <- Z.pow_add_r by lia; f_equal; lia).
  assert (2^(8 * (i + 1)) <= 2^64) as Hp2 by (apply Z.pow_le_mono_r; lia).
  assert (i64 (Z.lor (i64 r) (Z.shiftl x (8 * i))) = i64 (r + 2^(8 * i) * x)) as Hstep.
  { f_equal. rewrite i64_small.
    - rewrite Z.shiftl_mul_pow2 by lia. rewrite lor_disjoint_add by (lia || done). lia.
    - unfold is_i64. assert (2^(8 * i) <= 2^56) by (apply Z.pow_le_mono_r; lia). lia. }
  rewrite Hstep. destruct v as [|y v].
  - cbn [set_vch_loop le_val]. f_equal. lia.
  - rewrite IH; [|done|lia|unfold size; cbn [length] in *; lia|rewrite Hp; nia|done]. f_equal. rewrite Hp. lia.
Qed.

(** Clearing the top bit *)
Lemma clear_top x k : 0 <= k < 64 -> 2^k <= x < 2^(k + 1) -> Z.land x (u64 (Z.lnot (2^k))) = x - 2^k.
Proof.
  intros Hk Hx. assert (0 < 2^k) by (apply Z.pow_pos_nonneg; lia). assert (2^(k + 1) = 2 * 2^k) as Hp by (rewrite Z.pow_add_r by lia; lia).
  replace (x - 2^k) with (x mod 2^k).
  2:{ symmetry. rewrite <- (Z.mod_small (x - 2^k) (2^k)) by lia. rewrite <- (Z_mod_plus_full (x - 2^k) 1). f_equal. lia. }
  apply Z.bits_inj'. intros i Hi. unfold u64. rewrite Z.land_spec, !Z.testbit_mod_pow2, Z.lnot_spec, Z.pow2_bits_eqb by lia.
  destruct (Z.lt_trichotomy i k) as [Hl|[->|Hg]].
  - rewrite (proj2 (Z.ltb_lt i 64)), (proj2 (Z.ltb_lt i k)), (proj2 (Z.eqb_neq k i)) by lia. apply andb_true_r.
  - rewrite Z.eqb_refl, Z.ltb_irrefl. cbn. by rewrite !andb_false_r.
  - rewrite (Z.bits_above_log2 x i); [by rewrite andb_false_r|lia|]. apply Z.log2_lt_pow2; [lia|].
    apply Z.lt_le_trans with (2^(k + 1)); [lia|]. apply Z.pow_le_mono_r; lia.
Qed.

Lemma set_vch_value v : bytes v -> size v <= 8 -> set_vch v = num_value v.
Proof.
  intros Hv Hl. destruct (snoc_cases v) as [->|(l & t & ->)]; [done|]. unfold set_vch.
  rewrite (proj2 (Nat.eqb_neq _ 0)) by (rewrite length_app; cbn; lia).
  assert (set_vch_loop (l ++ [t]) 0 0 = i64 (le_val (l ++ [t]))) as ->.
  { change (set_vch_loop (l ++ [t]) 0 (i64 0) = i64 (le_val (l ++ [t]))). rewrite set_vch_loop_spec; [f_equal; lia|done|lia|lia|lia|by destruct l]. }
  apply Forall_app in Hv as [Hlb Ht]. inversion Ht as [|? ? Htb _]; subst. rewrite size_snoc in *. pose proof (size_nonneg l) as H0.
  rewrite back_snoc, bit7 by done. rewrite num_value_snoc, le_val_app. cbn [le_val]. pose proof (le_val_bound l Hlb) as Hb.
  change (Z.of_nat (length l)) with (size l) in Hb. unfold is_byte in Htb. set (B := 2^(8 * size l)) in *.
  assert (2^(8 * size l + 7) = B * 128) as Hp7 by (by rewrite Z.pow_add_r by lia).
  assert (2^(8 * size l + 7) <= 2^63) as Hp63 by (apply Z.pow_le_mono_r; lia).
  destruct (Z.ltb_spec t 128); cbn [negb].
  - rewrite i64_small by (unfold is_i64; nia). lia.
  - rewrite u64_i64 by (unfold is_u64; nia). change 0x80 with (2^7).
    rewrite Z.shiftl_mul_pow2, <- Z.pow_add_r by lia. replace (7 + 8 * (size l + 1 - 1)) with (8 * size l + 7) by lia.
    rewrite clear_top; [|lia|replace (8 * size l + 7 + 1) with (8 * size l + 8) by lia; rewrite (Z.pow_add_r _ _ 8) by lia; fold B; rewrite Hp7; nia].
    rewrite Hp7. rewrite (i64_small (_ - _)) by (unfold is_i64; nia). rewrite i64_small by (unfold is_i64; nia). lia.
Qed.

(** The size of a minimal form is that of its value. *)
Lemma minimal_range l t : bytes (l ++ [t]) -> minimal (l ++ [t]) ->
  2^(8 * size l) <= 2 * Z.abs (num_value (l ++ [t])) < 2^(8 * size l + 8) /\ num_value (l ++ [t]) <> 0.
Proof.
  intros Hv [Hm|(l' & t' & E & Hm)]; [by destruct l|]. apply app_inj_tail in E as [<- <-].
  apply Forall_app in Hv as [Hl Ht]. inversion Ht as [|? ? Htb _]; subst. unfold is_byte in Htb.
  rewrite num_value_snoc. pose proof (le_val_bound l Hl) as Hb. change (Z.of_nat (length l)) with (size l) in Hb.
  rewrite Z.pow_add_r by (pose proof (size_nonneg l); lia). set (B := 2^(8 * size l)) in *. change (2^8) with 256.
  assert (t mod 128 = if t <? 128 then t else t - 128) as Hmod.
  { destruct (Z.ltb_spec t 128); [apply Z.mod_small; lia|]. rewrite <- (Z.mod_small (t - 128) 128) by lia. rewrite <- (Z_mod_plus_full (t - 128) 1). f_equal. lia. }
  assert (t mod 128 <> 0 \/ B <= 2 * le_val l) as Hlow.
  { destruct Hm as [Hm|(k & x & -> & Hx)]; [by left|right]. subst B. rewrite le_val_app, size_snoc. cbn [le_val].
    replace (8 * (size k + 1)) with (8 * size k + 8) by lia. rewrite Z.pow_add_r by (pose proof (size_nonneg k); lia).
    apply Forall_app in Hl as [Hk _]. pose proof (le_val_bound k Hk). assert (0 < 2^(8 * size k)) by (apply Z.pow_pos_nonneg; pose proof (size_nonneg k); lia). nia. }
  destruct (t <? 128) eqn:E; rewrite ?Z.ltb_lt, ?Z.ltb_ge in E.
  - rewrite Z.abs_eq by nia. nia.
  - rewrite Z.abs_opp, Z.abs_eq by nia. nia.
Qed.

Lemma minimal_unique v w : bytes v -> bytes w -> minimal v -> minimal w -> num_value v = num_value w -> v = w.
Proof.
  intros Hv Hw Mv Mw E.
  destruct (snoc_cases v) as [->|(l & t & ->)], (snoc_cases w) as [->|(k & x & ->)]; [done| | |].
  { destruct (minimal_range _ _ Hw Mw) as [_ Hn]. by rewrite <- E in Hn. }
  { destruct (minimal_range _ _ Hv Mv) as [_ Hn]. by rewrite E in Hn. }
  destruct (minimal_range _ _ Hv Mv) as [Rv Nv], (minimal_range _ _ Hw Mw) as [Rw _]. rewrite E in Rv.
  assert (size l = size k) as Hs.
  { destruct (Z.lt_trichotomy (size l) (size k)) as [H|[H|H]]; [|done|]; exfalso.
    - assert (2^(8 * size l + 8) <= 2^(8 * size k)) by (apply Z.pow_le_mono_r; lia). lia.
    - assert (2^(8 * size k + 8) <= 2^(8 * size l)) by (apply Z.pow_le_mono_r; lia). lia. }
  apply le_val_inj; [rewrite !length_app; unfold size in Hs; cbn; lia|done|done|].
  rewrite !num_value_snoc in E. rewrite num_value_snoc in Nv. rewrite !le_val_app. cbn [le_val]. rewrite <- Hs in *.
  apply Forall_app in Hv as [Hl Ht], Hw as [Hk Hx]. inversion Ht as [|? ? Htb _]; inversion Hx as [|? ? Hxb _]; subst. unfold is_byte in Htb, Hxb.
  pose proof (le_val_bound l Hl). pose proof (le_val_bound k Hk).
  destruct (Z.ltb_spec t 128), (Z.ltb_spec x 128); nia.
Qed.

Lemma abs_bytes_spec fuel : forall a, 0 < a < 2^(8 * Z.of_nat fuel) ->
  bytes (abs_bytes fuel a) /\ le_val (abs_bytes fuel a) = a /\ exists l t, abs_bytes fuel a = l ++ [t] /\ 0 < t.
Proof.
  induction fuel as [|f IH]; intros a Ha; [cbn in Ha; lia|]. cbn [abs_bytes]. rewrite (proj2 (Z.eqb_neq a 0)) by lia.
  change 0xff with (Z.ones 8). rewrite Z.land_ones, Z.shiftr_div_pow2 by lia. pose proof (Z.mod_pos_bound a (2^8) ltac:(lia)) as Hm.
  pose proof (Z.div_mod a (2^8) ltac:(lia)) as Hdm.
  destruct (Z.eq_dec (a / 2^8) 0) as [Ez|Ez].
  - rewrite Ez. assert (abs_bytes f 0 = []) as -> by (by destruct f). split; [by repeat constructor; lia|]. split; [cbn [le_val]; lia|].
    exists [], (a mod 2^8). split; [done|]. lia.
  - destruct (IH (a / 2^8)) as (Hb & Hv & l & t & E & Ht).
    { split; [pose proof (Z.div_pos a (2^8)); lia|]. apply Z.div_lt_upper_bound; [lia|]. rewrite <- Z.pow_add_r by lia.
      replace (8 + 8 * Z.of_nat f) with (8 * Z.of_nat (S f)) by lia. lia. }
    split; [constructor; [unfold is_byte; lia|done]|]. split; [cbn [le_val]; rewrite Hv; lia|].
    exists (a mod 2^8 :: l), t. rewrite E. done.
Qed.

(** [serialize] gives the minimal form of the number. *)
Lemma num_serialize_spec n : - 2^63 < n < 2^63 ->
  bytes (num_serialize n) /\ minimal (num_serialize n) /\ num_value (num_serialize n) = n.
Proof.
  intros Hn. unfold num_serialize. destruct (Z.eqb_spec n 0) as [->|Hnz].
  { split; [constructor|]. split; [by left|done]. }
  assert ((if n <? 0 then u64 (u64 (Z.lnot (u64 n)) + 1) else u64 n) = Z.abs n) as ->.
  { destruct (Z.ltb_spec n 0) as [H|H]; [|rewrite u64_id by (unfold is_u64; lia); lia].
    unfold Z.lnot. assert (u64 n = n + 2^64) as -> by (unfold u64; symmetry; apply Z.mod_unique with (-1); lia).
    assert (u64 (Z.pred (- (n + 2^64))) = - n - 1) as -> by (unfold u64; symmetry; apply Z.mod_unique with (-1); lia).
    rewrite u64_id by (unfold is_u64; lia). lia. }
  destruct (abs_bytes_spec 8 (Z.abs n) ltac:(lia)) as (Hb & Hv & l & t & E & Ht). rewrite E in *. clear E.
  pose proof Hb as Hb'. apply Forall_app in Hb' as [Hl Htb]. inversion Htb as [|? ? Ht' _]; subst. unfold is_byte in Ht'.
  rewrite le_val_app in Hv. cbn [le_val] in Hv. rewrite back_snoc, bit7 by done.
  destruct (Z.ltb_spec t 128) as [H|H]; cbn [negb].
  - destruct (Z.ltb_spec n 0) as [Hneg|Hpos].
    + unfold set_back. rewrite List.removelast_last.
      assert (Z.lor t 0x80 = t + 128) as -> by (change 0x80 with (1 * 2^7); rewrite lor_disjoint_add; lia).
      split; [apply Forall_app; split; [done|]; repeat constructor; lia|]. split.
      * right. exists l, (t + 128). split; [done|]. left. rewrite <- (Z.mul_1_l 128) at 1. rewrite Z_mod_plus_full, Z.mod_small; lia.
      * rewrite num_value_snoc, (proj2 (Z.ltb_ge _ _)) by lia. lia.
    + split; [done|]. split; [|rewrite num_value_snoc, (proj2 (Z.ltb_lt _ _)) by lia; lia].
      right. exists l, t. split; [done|]. left. rewrite Z.mod_small; lia.
  - set (s := if n <? 0 then 0x80 else 0). assert (Hs : s = 0 \/ s = 128) by (subst s; destruct (n <? 0); auto).
    split; [apply Forall_app; split; [done|]; repeat constructor; lia|]. split.
    + right. exists (l ++ [t]), s. split; [done|]. right. by exists l, t.
    + rewrite num_value_snoc, le_val_app. cbn [le_val]. subst s. destruct (Z.ltb_spec n 0); [change (128 <? 128) with false|change (0 <? 128) with true]; cbv iota; lia.
Qed.

(** Bytes that are all zero before a bare sign *)
Lemma num_value_sign l s : s = 0 \/ s = 128 -> num_value (l ++ [s]) = if s =? 0 then le_val l else - le_val l.
Proof. intros [->| ->]; rewrite num_value_snoc; cbn [Z.ltb Z.eqb Z.compare Pos.compare Pos.compare_cont]; lia. Qed.

Lemma take_S_byte data j : (j < length data)%nat -> take (S j) data = take j data ++ [byte_at data j].
Proof.
  intros Hj. destruct (lookup_lt_is_Some_2 data j Hj) as [x Hx]. unfold byte_at. rewrite (list_lookup_total_correct _ _ _ Hx). by apply take_S_r.
Qed.

Lemma byte_at_wf data j : bytes data -> (j < length data)%nat -> is_byte (byte_at data j).
Proof.
  intros Hd Hj. destruct (lookup_lt_is_Some_2 data j Hj) as [x Hx]. unfold byte_at. rewrite (list_lookup_total_correct _ _ _ Hx).
  by apply (Forall_lookup_1 _ _ _ _ Hd Hx).
Qed.

Lemma trim_loop_spec data s i : bytes data -> s = 0 \/ s = 128 -> (i < length data)%nat ->
  bytes (trim_loop data s i) /\ minimal (trim_loop data s i) /\ num_value (trim_loop data s i) = num_value (take i data ++ [s]).
Proof.
  intros Hd Hs. induction i as [|j IH]; intros Hi; cbn [trim_loop].
  { split; [constructor|]. split; [by left|]. rewrite num_value_sign by done. cbn. by destruct (s =? 0). }
  pose proof (byte_at_wf data j Hd ltac:(lia)) as Hx. set (x := byte_at data j) in *. rewrite (take_S_byte data j) by lia. fold x.
  assert (bytes (take j data)) as Ht by (by apply Forall_take).
  destruct (Z.eqb_spec x 0) as [Ex|Ex]; cbn [negb].
  { destruct IH as (H1 & H2 & H3); [lia|]. split; [done|]. split; [done|]. rewrite H3, !num_value_sign, le_val_app, Ex by done. cbn [le_val]. destruct (s =? 0); lia. }
  rewrite bit7 by done. unfold is_byte in Hx. destruct (Z.ltb_spec x 128) as [H|H]; cbn [negb].
  - assert (take (S j) (<[j := Z.lor x s]> data) = take j data ++ [Z.lor x s]) as ->.
    { rewrite (take_S_r _ _ (Z.lor x s)) by (apply list_lookup_insert_eq; lia). by rewrite take_insert_ge by lia. }
    assert (Z.lor x s = x + s) as ->.
    { destruct Hs as [->| ->]; [rewrite Z.lor_0_r; lia|]. change 128 with (1 * 2^7). rewrite lor_disjoint_add; lia. }
    split; [apply Forall_app; split; [done|]; repeat constructor; lia|]. split.
    + right. exists (take j data), (x + s). split; [done|]. left. destruct Hs as [->| ->]; [rewrite Z.add_0_r, Z.mod_small; lia|].
      rewrite <- (Z.mul_1_l 128) at 1. rewrite Z_mod_plus_full, Z.mod_small; lia.
    + rewrite (num_value_sign (_ ++ [x])), num_value_snoc, le_val_app by done. cbn [le_val].
      destruct Hs as [->| ->]; [rewrite (proj2 (Z.ltb_lt _ _)) by lia|rewrite (proj2 (Z.ltb_ge _ _)) by lia]; cbn [Z.eqb]; lia.
  - assert (take (S (S j)) (<[S j := s]> data) = take j data ++ [x] ++ [s]) as ->.
    { rewrite (take_S_r _ _ s) by (apply list_lookup_insert_eq; lia). rewrite take_insert_ge by lia. rewrite take_S_byte by lia. by rewrite <- app_assoc. }
    split; [rewrite !Forall_app; split; [done|]; split; repeat constructor; lia|]. split; [|by rewrite app_assoc].
    right. exists (take j data ++ [x]), s. split; [by rewrite app_assoc|]. right. by exists (take j data), x.
Qed.

(** [MinimallyEncode] keeps the number and leaves no byte to spare. *)
Lemma MinimallyEncode_spec data : bytes data ->
  bytes (MinimallyEncode data).2 /\ minimal (MinimallyEncode data).2 /\ num_value (MinimallyEncode data).2 = num_value data.
Proof.
  intros Hd. unfold MinimallyEncode. destruct (snoc_cases data) as [->|(l & t & ->)].
  { split; [constructor|]. split; [by left|done]. }
  rewrite (proj2 (Nat.eqb_neq (length (l ++ [t])) 0)) by (rewrite length_app; cbn; lia). rewrite back_snoc.
  pose proof Hd as Hd'. apply Forall_app in Hd' as [Hl Ht]. inversion Ht as [|? ? Htb _]; subst. unfold is_byte in Htb.
  assert (has_bit t 0x7f = negb (t mod 128 =? 0)) as -> by (unfold has_bit; by rewrite low7). destruct (Z.eqb_spec (t mod 128) 0) as [E|E]; cbn [negb].
  2:{ split; [done|]. split; [|done]. right. exists l, t. by split; [|left]. }
  assert (Hs : t = 0 \/ t = 128).
  { destruct (Z_lt_ge_dec t 128); [rewrite Z.mod_small in E; lia|]. right.
    rewrite <- (Z_mod_plus_full t (-1)) in E. rewrite Z.mod_small in E; lia. }
  destruct (snoc_cases l) as [->|(k & x & ->)].
  { cbn [app length Nat.eqb]. split; [constructor|]. split; [by left|]. change [t] with ([] ++ [t]). rewrite num_value_sign by done. cbn. by destruct (t =? 0). }
  rewrite (proj2 (Nat.eqb_neq _ 1)) by (rewrite !length_app; cbn; lia).
  assert (length ((k ++ [x]) ++ [t]) - 2 = length k)%nat as -> by (rewrite !length_app; cbn; lia).
  assert (byte_at ((k ++ [x]) ++ [t]) (length k) = x) as ->.
  { unfold byte_at. apply list_lookup_total_correct. rewrite lookup_app_l by (rewrite length_app; cbn; lia). by apply list_lookup_middle. }
  apply Forall_app in Hl as [Hk Hx]. inversion Hx as [|? ? Hxb _]; subst. rewrite bit7 by done.
  destruct (Z.ltb_spec x 128); cbn [negb snd].
  - assert (length ((k ++ [x]) ++ [t]) - 1 = length (k ++ [x]))%nat as -> by (rewrite !length_app; cbn; lia).
    destruct (trim_loop_spec ((k ++ [x]) ++ [t]) t (length (k ++ [x])) Hd Hs) as (H1 & H2 & H3); [rewrite !length_app; cbn; lia|].
    split; [done|]. split; [done|]. rewrite H3. by rewrite take_app_length.
  - split; [done|]. split; [|done]. right. exists (k ++ [x]), t. split; [done|]. right. by exists k, x.
Qed.

Lemma num_value_bound v : bytes v -> v <> [] -> Z.abs (num_value v) < 2^(8 * size v - 1).
Proof.
  intros Hv Hne. destruct (snoc_cases v) as [->|(l & t & ->)]; [done|]. apply Forall_app in Hv as [Hl Ht]. inversion Ht as [|? ? Htb _]; subst.
  unfold is_byte in Htb. rewrite num_value_snoc, size_snoc. pose proof (le_val_bound l Hl) as Hb. change (Z.of_nat (length l)) with (size l) in Hb.
  replace (8 * (size l + 1) - 1) with (8 * size l + 7) by lia. rewrite Z.pow_add_r by (pose proof (size_nonneg l); lia).
  destruct (Z.ltb_spec t 128); nia.
Qed.

(** Reading a number that must be minimal *)
Lemma CScriptNum_spec v req max n : bytes v -> max <= 8 -> CScriptNum v req max = Some n ->
  size v <= max /\ n = num_value v /\ (req = true -> minimal v) /\ Z.abs n < 2^63.
Proof.
  intros Hv Hmax. unfold CScriptNum. destruct (Z.gtb_spec (size v) max); [done|].
  destruct (req && _)%bool eqn:E; [done|]. intros [= <-]. rewrite set_vch_value by (done || lia).
  split; [done|]. split; [done|]. split.
  - intros ->. cbn [andb] in E. apply negb_false_iff, IsMinimallyEncoded_spec in E; [by destruct E|done].
  - destruct (decide (v = [])) as [->|Hne]; [done|]. apply Z.lt_le_trans with (2^(8 * size v - 1)); [by apply num_value_bound|].
    apply Z.pow_le_mono_r; lia.
Qed.

Lemma num_serialize_size n : - 2^63 < n < 2^63 -> size (num_serialize n) <= 8.
Proof.
  intros Hn. destruct (num_serialize_spec n Hn) as (Hb & Hm & Hv).
  destruct (snoc_cases (num_serialize n)) as [E|(l & t & E)]; rewrite E in *; [done|].
  destruct (minimal_range l t Hb Hm) as [Hr _]. rewrite Hv in Hr. rewrite size_snoc. destruct (Z_lt_ge_dec (size l) 8) as [|g]; [lia|].
  assert (2^64 <= 2^(8 * size l)) by (apply Z.pow_le_mono_r; clear - g; lia). lia.
Qed.

Lemma num_serialize_read n : - 2^63 < n < 2^63 -> set_vch (num_serialize n) = n.
Proof.
  intros Hn. destruct (num_serialize_spec n Hn) as (Hb & _ & Hv). rewrite <- Hv at 2.
  apply set_vch_value; [done|by apply num_serialize_size].
Qed.

(** Script numbers have one form. Every 64-bit number but the least
    reads back from what [serialize] writes, which is minimal; a vector that is
    read under the minimal rule, up to eight bytes, is what [serialize] writes
    for the number; and [MinimallyEncode] turns any vector into the minimal one
    with the same value. *)
Theorem script_numbers_canonical :
  (forall n, - 2^63 < n < 2^63 -> set_vch (num_serialize n) = n /\
     IsMinimallyEncoded (num_serialize n) (size (num_serialize n)) = true) /\
  (forall v max n, bytes v -> max <= 8 -> CScriptNum v true max = Some n -> num_serialize n = v) /\
  (forall v, bytes v -> let w := (MinimallyEncode v).2 in
     num_value w = num_value v /\ IsMinimallyEncoded w (size w) = true /\
     (IsMinimallyEncoded v (size v) = true -> w = v)).
Proof.
  split; [|split].
  - intros n Hn. split; [by apply num_serialize_read|]. destruct (num_serialize_spec n Hn) as (Hb & Hm & _).
    by apply IsMinimallyEncoded_spec.
  - intros v max n Hv Hmax E. destruct (CScriptNum_spec _ _ _ _ Hv Hmax E) as (Hs & -> & Hm & Hr).
    destruct (num_serialize_spec (num_value v)) as (Hb & Hm' & Hv'); [lia|]. apply minimal_unique; try done. by apply Hm.
  - intros v Hv w. destruct (MinimallyEncode_spec v Hv) as (Hb & Hm & E). fold w in Hb, Hm, E. split; [done|].
    split; [by apply IsMinimallyEncoded_spec|]. intros [_ Hm']%IsMinimallyEncoded_spec; [|done]. by apply minimal_unique.
Qed.

Lemma script_numbers_canonical_witness :
  num_serialize (-255) = [0xff; 0x80] /\ set_vch (num_serialize (-255)) = -255 /\
  num_serialize 1000 = [0xe8; 0x03] /\ num_value (MinimallyEncode [5; 0; 0x80]).2 = -5.
Proof.
  destruct script_numbers_canonical as (H1 & H2 & H3).
  split; [vm_compute; reflexivity|]. split; [apply H1; lia|]. split.
  - apply (H2 [0xe8; 0x03] 4 1000); [repeat constructor; lia|lia|vm_compute; reflexivity].
  - rewrite (proj1 (H3 [5; 0; 0x80] ltac:(repeat constructor; lia))). vm_compute. reflexivity.
Defined.
