(* ===== verification/Interpreter.v ===== *)
(** * Interpreter: the stack machine that decides whether a coin may be spent
      (src/src/script/interpreter.{h,cpp}, src/src/script/script_error.h,
       src/src/pubkey.h, src/src/hash.h)

    The stacks are lists with the top first. An iterator into a script is the
    rest of the script. A run ends with a value, with a script error, or in a
    failed assertion; an exception inside [EvalScript] is caught there and is
    the error [SCRIPT_ERR_UNKNOWN_ERROR]. Hashes, the curve operations and the
    transaction a signature commits to are interfaces. *)

From Stdlib Require Import ZArith Lia.
From stdpp Require Import base list numbers option.
From S2P Require Import Prelude Arith256 Uint256 Serialize Transaction Script.

(** ** Errors and flags *)

Inductive ScriptError : Type :=
  | SCRIPT_ERR_OK | SCRIPT_ERR_UNKNOWN_ERROR | SCRIPT_ERR_EVAL_FALSE | SCRIPT_ERR_OP_RETURN
  | SCRIPT_ERR_SCRIPT_SIZE | SCRIPT_ERR_PUSH_SIZE | SCRIPT_ERR_OP_COUNT | SCRIPT_ERR_STACK_SIZE
  | SCRIPT_ERR_SIG_COUNT | SCRIPT_ERR_PUBKEY_COUNT
  | SCRIPT_ERR_VERIFY | SCRIPT_ERR_EQUALVERIFY | SCRIPT_ERR_CHECKMULTISIGVERIFY | SCRIPT_ERR_CHECKSIGVERIFY
  | SCRIPT_ERR_CHECKDATASIGVERIFY | SCRIPT_ERR_NUMEQUALVERIFY
  | SCRIPT_ERR_BAD_OPCODE | SCRIPT_ERR_DISABLED_OPCODE | SCRIPT_ERR_INVALID_STACK_OPERATION
  | SCRIPT_ERR_INVALID_ALTSTACK_OPERATION | SCRIPT_ERR_UNBALANCED_CONDITIONAL
  | SCRIPT_ERR_INVALID_SPLIT_RANGE | SCRIPT_ERR_INVALID_OPERAND_SIZE | SCRIPT_ERR_INVALID_NUMBER_RANGE
  | SCRIPT_ERR_IMPOSSIBLE_ENCODING
  | SCRIPT_ERR_DIV_BY_ZERO | SCRIPT_ERR_MOD_BY_ZERO
  | SCRIPT_ERR_NEGATIVE_LOCKTIME | SCRIPT_ERR_UNSATISFIED_LOCKTIME
  | SCRIPT_ERR_SIG_HASHTYPE | SCRIPT_ERR_SIG_DER | SCRIPT_ERR_MINIMALDATA | SCRIPT_ERR_SIG_PUSHONLY
  | SCRIPT_ERR_SIG_HIGH_S | SCRIPT_ERR_SIG_NULLDUMMY | SCRIPT_ERR_PUBKEYTYPE | SCRIPT_ERR_CLEANSTACK
  | SCRIPT_ERR_SIG_NULLFAIL
  | SCRIPT_ERR_DISCOURAGE_UPGRADABLE_NOPS
  | SCRIPT_ERR_OP_CODESEPARATOR | SCRIPT_ERR_SIG_FINDANDDELETE.

(** A run: a value, [set_error], or a failed assertion *)
Inductive eval (A : Type) : Type :=
  | Done (a : A)
  | Fail (e : ScriptError)
  | Crash.
Arguments Done {A} a.
Arguments Fail {A} e.
Arguments Crash {A}.

#[export] Instance eval_ret : MRet eval := fun A a => Done a.
#[export] Instance eval_bind : MBind eval := fun A B f m =>
  match m with Done a => f a | Fail e => Fail e | Crash => Crash end.

Definition lift {A} (o : outcome A) : eval A := match o with Ret a => Done a | Abort => Crash end.
(** An exception, caught around the loop *)
Definition throws {A} (o : option A) : eval A := match o with Some a => Done a | None => Fail SCRIPT_ERR_UNKNOWN_ERROR end.
Definition guard_err (ok : bool) (e : ScriptError) : eval unit := if ok then Done tt else Fail e.

Definition SCRIPT_VERIFY_P2SH : Z := Z.shiftl 1 0.
Definition SCRIPT_VERIFY_STRICTENC : Z := Z.shiftl 1 1.
Definition SCRIPT_VERIFY_DERSIG : Z := Z.shiftl 1 2.
Definition SCRIPT_VERIFY_LOW_S : Z := Z.shiftl 1 3.
Definition SCRIPT_VERIFY_NULLDUMMY : Z := Z.shiftl 1 4.
Definition SCRIPT_VERIFY_SIGPUSHONLY : Z := Z.shiftl 1 5.
Definition SCRIPT_VERIFY_MINIMALDATA : Z := Z.shiftl 1 6.
Definition SCRIPT_VERIFY_DISCOURAGE_UPGRADABLE_NOPS : Z := Z.shiftl 1 7.
Definition SCRIPT_VERIFY_CLEANSTACK : Z := Z.shiftl 1 8.
Definition SCRIPT_VERIFY_CHECKLOCKTIMEVERIFY : Z := Z.shiftl 1 9.
Definition SCRIPT_VERIFY_CHECKSEQUENCEVERIFY : Z := Z.shiftl 1 10.
Definition SCRIPT_VERIFY_NULLFAIL : Z := Z.shiftl 1 14.
Definition SCRIPT_VERIFY_CONST_SCRIPTCODE : Z := Z.shiftl 1 16.
Definition SCRIPT_VERIFY_STRICT_BLS_SIG_SIZE : Z := Z.shiftl 1 17.
(** The enumeration of the flags *)
Definition script_verify_flags : list Z :=
  [SCRIPT_VERIFY_P2SH; SCRIPT_VERIFY_STRICTENC; SCRIPT_VERIFY_DERSIG; SCRIPT_VERIFY_LOW_S;
   SCRIPT_VERIFY_NULLDUMMY; SCRIPT_VERIFY_SIGPUSHONLY; SCRIPT_VERIFY_MINIMALDATA; SCRIPT_VERIFY_DISCOURAGE_UPGRADABLE_NOPS;
   SCRIPT_VERIFY_CLEANSTACK; SCRIPT_VERIFY_CHECKLOCKTIMEVERIFY; SCRIPT_VERIFY_CHECKSEQUENCEVERIFY;
   SCRIPT_VERIFY_NULLFAIL; SCRIPT_VERIFY_CONST_SCRIPTCODE; SCRIPT_VERIFY_STRICT_BLS_SIG_SIZE].

Definition SIGHASH_ALL : Z := 1.
Definition SIGHASH_NONE : Z := 2.
Definition SIGHASH_SINGLE : Z := 3.
Definition SIGHASH_ANYONECANPAY : Z := 0x80.

(** ** What the machine asks of others *)

(** Hash functions and the curve library *)
Class Crypto : Type := {
  RIPEMD160 : list Z -> list Z;
  SHA1 : list Z -> list Z;
  SHA256 : list Z -> list Z;
  (** a signature over a hash by a key that parses *)
  ecdsa_verify : list Z -> list Z -> list Z -> bool;
  bls_verify : list Z -> list Z -> list Z -> bool;
  (** [CPubKey::CheckLowS] *)
  CheckLowS : list Z -> bool;
}.

Definition digest_ok (n : nat) (b : list Z) : Prop := length b = n /\ Forall is_byte b.
Class CryptoLaws `{Crypto} : Prop := {
  RIPEMD160_ok : forall b, digest_ok 20 (RIPEMD160 b);
  SHA1_ok : forall b, digest_ok 20 (SHA1 b);
  SHA256_ok : forall b, digest_ok 32 (SHA256 b);
}.

(** [BaseSignatureChecker] *)
Class SignatureChecker : Type := {
  CheckSig : list Z -> list Z -> CScript -> outcome bool;
  CheckLockTime : Z -> outcome bool;
  CheckSequence : Z -> outcome bool;
}.
(** A checker for an input that exists answers. *)
Class SignatureCheckerLaws `{SignatureChecker} : Prop := {
  CheckSig_total : forall sig key code, exists b, CheckSig sig key code = Ret b;
  CheckLockTime_total : forall n, exists b, CheckLockTime n = Ret b;
  CheckSequence_total : forall n, exists b, CheckSequence n = Ret b;
}.

(** ** Public keys *)

Definition PUBKEY_SIZE : Z := 65.
Definition COMPRESSED_SIZE : Z := 33.
Definition BLS_PUBLIC_KEY_SIZE : Z := 48.
Definition BLS_SIGNATURE_SIZE : Z := 96.

(** [CPubKey::Set]: the bytes of a key, none when the length is not a key's *)
Definition CPubKey_Set (vch : list Z) : list Z :=
  if ((size vch =? COMPRESSED_SIZE) || (size vch =? PUBKEY_SIZE) || (size vch =? BLS_PUBLIC_KEY_SIZE))%bool then vch else [].
Definition CPubKey_IsValid (key : list Z) : bool := size key >? 0.

Notation valtype := (list Z) (only parsing).

Section interpreter.

Context `{Crypto} `{SignatureChecker}.

(** [CHash160], [CHash256] *)
Definition Hash160 (b : list Z) : list Z := RIPEMD160 (SHA256 b).
Definition Hash256 (b : list Z) : list Z := SHA256 (SHA256 b).

(** [CPubKey::Verify], [CPubKey::VerifyBLS] *)
Definition CPubKey_Verify (key hash sig : list Z) : bool :=
  if negb (CPubKey_IsValid key) then false else ecdsa_verify key hash sig.
Definition CPubKey_VerifyBLS (key hash sig : list Z) : bool :=
  if (negb (size key =? BLS_PUBLIC_KEY_SIZE) || negb (size sig =? BLS_SIGNATURE_SIZE))%bool then false else bls_verify key hash sig.

(** ** Encodings *)

(** [CastToBool] *)
Fixpoint CastToBool (vch : list Z) : bool :=
  match vch with
  | [] => false
  | b :: vch' => if negb (b =? 0) then negb ((length vch' =? 0)%nat && (b =? 0x80)) else CastToBool vch'
  end.

(** [IsCompressedOrUncompressedPubKey] *)
Definition IsCompressedOrUncompressedPubKey (k : list Z) : bool :=
  if size k <? COMPRESSED_SIZE then false
  else if byte_at k 0 =? 0x04 then size k =? PUBKEY_SIZE
  else if ((byte_at k 0 =? 0x02) || (byte_at k 0 =? 0x03))%bool then size k =? COMPRESSED_SIZE
  else false.

(** [IsValidSignatureEncoding] *)
Definition IsValidSignatureEncoding (sig : list Z) : bool :=
  let at_ i := byte_at sig (Z.to_nat i) in
  if size sig <? 9 then false
  else if size sig >? 73 then false
  else if negb (at_ 0 =? 0x30) then false
  else if negb (at_ 1 =? size sig - 3) then false
  else
    let lenR := at_ 3 in
    if 5 + lenR >=? size sig then false
    else
      let lenS := at_ (5 + lenR) in
      if negb (lenR + lenS + 7 =? size sig) then false
      else if negb (at_ 2 =? 0x02) then false
      else if lenR =? 0 then false
      else if has_bit (at_ 4) 0x80 then false
      else if ((lenR >? 1) && (at_ 4 =? 0x00) && negb (has_bit (at_ 5) 0x80))%bool then false
      else if negb (at_ (lenR + 4) =? 0x02) then false
      else if lenS =? 0 then false
      else if has_bit (at_ (lenR + 6)) 0x80 then false
      else if ((lenS >? 1) && (at_ (lenR + 6) =? 0x00) && negb (has_bit (at_ (lenR + 7)) 0x80))%bool then false
      else true.

(** [IsLowDERSignature] *)
Definition IsLowDERSignature (vchSig : list Z) : eval unit :=
  if negb (IsValidSignatureEncoding vchSig) then Fail SCRIPT_ERR_SIG_DER
  else if negb (CheckLowS (take (length vchSig - 1) vchSig)) then Fail SCRIPT_ERR_SIG_HIGH_S
  else Done tt.

(** [IsDefinedHashtypeSignature] *)
Definition IsDefinedHashtypeSignature (vchSig : list Z) : bool :=
  if size vchSig =? 0 then false
  else
    let nHashType := u8 (Z.land (byte_at vchSig (length vchSig - 1)) (Z.lnot SIGHASH_ANYONECANPAY)) in
    negb ((nHashType <? SIGHASH_ALL) || (nHashType >? SIGHASH_SINGLE)).

(** [IsBLSSig] *)
Definition IsBLSSig (flags : Z) (vchSig : list Z) : bool :=
  if has_bit flags SCRIPT_VERIFY_STRICT_BLS_SIG_SIZE then size vchSig =? BLS_SIGNATURE_SIZE + 1
  else size vchSig >=? BLS_SIGNATURE_SIZE.

(** [CheckSignatureEncoding] *)
Definition CheckSignatureEncoding (vchSig : list Z) (flags : Z) : eval unit :=
  if size vchSig =? 0 then Done tt
  else if IsBLSSig flags vchSig then Done tt
  else if (has_bit flags (Z.lor (Z.lor SCRIPT_VERIFY_DERSIG SCRIPT_VERIFY_LOW_S) SCRIPT_VERIFY_STRICTENC) &&
           negb (IsValidSignatureEncoding vchSig))%bool then Fail SCRIPT_ERR_SIG_DER
  else
    _ ← (if has_bit flags SCRIPT_VERIFY_LOW_S then IsLowDERSignature vchSig else Done tt);
    guard_err (negb (has_bit flags SCRIPT_VERIFY_STRICTENC && negb (IsDefinedHashtypeSignature vchSig))) SCRIPT_ERR_SIG_HASHTYPE.

(** [CheckPubKeyEncoding] *)
Definition CheckPubKeyEncoding (vchPubKey : list Z) (flags : Z) : eval unit :=
  if size vchPubKey =? BLS_PUBLIC_KEY_SIZE then Done tt
  else guard_err (negb (has_bit flags SCRIPT_VERIFY_STRICTENC && negb (IsCompressedOrUncompressedPubKey vchPubKey))) SCRIPT_ERR_PUBKEYTYPE.

(** [CheckMinimalPush] *)
Definition CheckMinimalPush (data : list Z) (opcode : Z) : eval bool :=
  if negb ((0 <=? opcode) && (opcode <=? OP_PUSHDATA4)) then Crash
  else if size data =? 0 then Done (opcode =? OP_0)
  else if ((size data =? 1) && (byte_at data 0 >=? 1) && (byte_at data 0 <=? 16))%bool then Done false
  else if ((size data =? 1) && (byte_at data 0 =? 0x81))%bool then Done false
  else if size data <=? 75 then Done (opcode =? size data)
  else if size data <=? 255 then Done (opcode =? OP_PUSHDATA1)
  else if size data <=? 65535 then Done (opcode =? OP_PUSHDATA2)
  else Done true.

(** The inner loop of [FindAndDelete]: the copies of [b] at [pc] *)
Fixpoint skip_copies (fuel : nat) (b pc : CScript) (nFound : Z) : CScript * Z :=
  match fuel with
  | O => (pc, nFound)
  | S f => if bool_decide (take (length b) pc = b) then skip_copies f b (drop (length b) pc) (nFound + 1) else (pc, nFound)
  end.

(** Its outer loop; the script starts at [pc2], the next operation at [pc]. *)
Fixpoint find_and_delete_loop (fuel : nat) (b pc2 pc result : CScript) (nFound : Z) : CScript * CScript * Z :=
  match fuel with
  | O => (result, pc2, nFound)
  | S f =>
      let result := result ++ take (length pc2 - length pc) pc2 in
      let '(pc, nFound) := skip_copies (length pc) b pc nFound in
      match GetScriptOp pc with
      | Some (_, _, pc') => find_and_delete_loop f b pc pc' result nFound
      | None => (result, pc, nFound)
      end
  end.

(** [FindAndDelete]: the number of copies found and the script without them *)
Definition FindAndDelete (script b : CScript) : Z * CScript :=
  if size b =? 0 then (0, script)
  else
    let '(result, pc2, nFound) := find_and_delete_loop (S (length script)) b script script [] 0 in
    if nFound >? 0 then (nFound, result ++ pc2) else (nFound, script).

(** ** The condition stack *)

Definition NO_FALSE : Z := 2^32 - 1.
Record ConditionStack : Type := mkCond { m_stack_size : Z; m_first_false_pos : Z }.
Definition cond_new : ConditionStack := mkCond 0 NO_FALSE.
Definition cond_empty (c : ConditionStack) : bool := m_stack_size c =? 0.
Definition all_true (c : ConditionStack) : bool := m_first_false_pos c =? NO_FALSE.
Definition cond_push_back (c : ConditionStack) (f : bool) : ConditionStack :=
  mkCond (u32 (m_stack_size c + 1))
    (if ((m_first_false_pos c =? NO_FALSE) && negb f)%bool then m_stack_size c else m_first_false_pos c).
Definition cond_pop_back (c : ConditionStack) : eval ConditionStack :=
  if negb (m_stack_size c >? 0) then Crash
  else
    let n := m_stack_size c - 1 in
    Done (mkCond n (if m_first_false_pos c =? n then NO_FALSE else m_first_false_pos c)).
Definition toggle_top (c : ConditionStack) : eval ConditionStack :=
  if negb (m_stack_size c >? 0) then Crash
  else if m_first_false_pos c =? NO_FALSE then Done (mkCond (m_stack_size c) (m_stack_size c - 1))
  else if m_first_false_pos c =? m_stack_size c - 1 then Done (mkCond (m_stack_size c) NO_FALSE)
  else Done c.

(** ** Operations on the stack *)

Definition vchFalse : valtype := [].
Definition vchTrue : valtype := [1].
Definition of_bool (b : bool) : valtype := if b then vchTrue else vchFalse.

Definition one_of (opcode : Z) (l : list Z) : bool := existsb (Z.eqb opcode) l.
Definition bad_stack {A} : eval A := Fail SCRIPT_ERR_INVALID_STACK_OPERATION.

(** A number from the stack *)
Definition num (fRequireMinimal : bool) (v : valtype) : eval Z := throws (CScriptNum v fRequireMinimal nDefaultMaxNumSize).
Definition num5 (fRequireMinimal : bool) (v : valtype) : eval Z := throws (CScriptNum v fRequireMinimal 5).

(** Moves and copies that depend on nothing but the stack *)
Definition op_2DROP (stack : list valtype) : eval (list valtype) :=
  match stack with _ :: _ :: s => Done s | _ => bad_stack end.
Definition op_2DUP (stack : list valtype) : eval (list valtype) :=
  match stack with x2 :: x1 :: s => Done (x2 :: x1 :: x2 :: x1 :: s) | _ => bad_stack end.
Definition op_3DUP (stack : list valtype) : eval (list valtype) :=
  match stack with x3 :: x2 :: x1 :: s => Done (x3 :: x2 :: x1 :: x3 :: x2 :: x1 :: s) | _ => bad_stack end.
Definition op_2OVER (stack : list valtype) : eval (list valtype) :=
  match stack with x4 :: x3 :: x2 :: x1 :: s => Done (x2 :: x1 :: x4 :: x3 :: x2 :: x1 :: s) | _ => bad_stack end.
Definition op_2ROT (stack : list valtype) : eval (list valtype) :=
  match stack with x6 :: x5 :: x4 :: x3 :: x2 :: x1 :: s => Done (x2 :: x1 :: x6 :: x5 :: x4 :: x3 :: s) | _ => bad_stack end.
Definition op_2SWAP (stack : list valtype) : eval (list valtype) :=
  match stack with x4 :: x3 :: x2 :: x1 :: s => Done (x2 :: x1 :: x4 :: x3 :: s) | _ => bad_stack end.
Definition op_IFDUP (stack : list valtype) : eval (list valtype) :=
  match stack with x :: s => Done (if CastToBool x then x :: x :: s else x :: s) | _ => bad_stack end.
Definition op_DEPTH (stack : list valtype) : eval (list valtype) := Done (num_serialize (size stack) :: stack).
Definition op_DROP (stack : list valtype) : eval (list valtype) :=
  match stack with _ :: s => Done s | _ => bad_stack end.
Definition op_DUP (stack : list valtype) : eval (list valtype) :=
  match stack with x :: s => Done (x :: x :: s) | _ => bad_stack end.
Definition op_NIP (stack : list valtype) : eval (list valtype) :=
  match stack with x2 :: _ :: s => Done (x2 :: s) | _ => bad_stack end.
Definition op_OVER (stack : list valtype) : eval (list valtype) :=
  match stack with x2 :: x1 :: s => Done (x1 :: x2 :: x1 :: s) | _ => bad_stack end.
Definition op_ROT (stack : list valtype) : eval (list valtype) :=
  match stack with x3 :: x2 :: x1 :: s => Done (x1 :: x3 :: x2 :: s) | _ => bad_stack end.
Definition op_SWAP (stack : list valtype) : eval (list valtype) :=
  match stack with x2 :: x1 :: s => Done (x1 :: x2 :: s) | _ => bad_stack end.
Definition op_TUCK (stack : list valtype) : eval (list valtype) :=
  match stack with x2 :: x1 :: s => Done (x2 :: x1 :: x2 :: s) | _ => bad_stack end.
Definition op_SIZE (stack : list valtype) : eval (list valtype) :=
  match stack with x :: s => Done (num_serialize (size x) :: x :: s) | _ => bad_stack end.

Definition op_VERIFY (stack : list valtype) : eval (list valtype) :=
  match stack with x :: s => if CastToBool x then Done s else Fail SCRIPT_ERR_VERIFY | _ => bad_stack end.
Definition op_EQUAL (opcode : Z) (stack : list valtype) : eval (list valtype) :=
  match stack with
  | x2 :: x1 :: s =>
      let fEqual := bool_decide (x1 = x2) in
      if opcode =? OP_EQUALVERIFY then (if fEqual then Done s else Fail SCRIPT_ERR_EQUALVERIFY)
      else Done (of_bool fEqual :: s)
  | _ => bad_stack
  end.
Definition op_BITWISE (opcode : Z) (stack : list valtype) : eval (list valtype) :=
  match stack with
  | x2 :: x1 :: s =>
      if negb (size x1 =? size x2) then Fail SCRIPT_ERR_INVALID_OPERAND_SIZE
      else Done (zip_with (if opcode =? OP_AND then Z.land else if opcode =? OP_OR then Z.lor else Z.lxor) x1 x2 :: s)
  | _ => bad_stack
  end.
Definition op_HASH (opcode : Z) (stack : list valtype) : eval (list valtype) :=
  match stack with
  | x :: s =>
      Done ((if opcode =? OP_RIPEMD160 then RIPEMD160 x
             else if opcode =? OP_SHA1 then SHA1 x
             else if opcode =? OP_SHA256 then SHA256 x
             else if opcode =? OP_HASH160 then Hash160 x
             else Hash256 x) :: s)
  | _ => bad_stack
  end.
Definition op_CAT (stack : list valtype) : eval (list valtype) :=
  match stack with
  | x2 :: x1 :: s => if size x1 + size x2 >? MAX_SCRIPT_ELEMENT_SIZE then Fail SCRIPT_ERR_PUSH_SIZE else Done ((x1 ++ x2) :: s)
  | _ => bad_stack
  end.
Definition op_BIN2NUM (stack : list valtype) : eval (list valtype) :=
  match stack with
  | x :: s =>
      let n := (MinimallyEncode x).2 in
      if negb (IsMinimallyEncoded n nDefaultMaxNumSize) then Fail SCRIPT_ERR_INVALID_NUMBER_RANGE else Done (n :: s)
  | _ => bad_stack
  end.

(** The operations that read numbers *)
Definition op_PICK (opcode : Z) (req : bool) (stack : list valtype) : eval (list valtype) :=
  match stack with
  | x :: ((_ :: _) as s) =>
      n ← num req x;
      let n := getint n in
      if ((n <? 0) || (n >=? size s))%bool then bad_stack
      else
        vch ← throws (s !! Z.to_nat n);
        Done (vch :: (if opcode =? OP_ROLL then delete (Z.to_nat n) s else s))
  | _ => bad_stack
  end.
(** [operator+=], [operator-=] and the negation, with their assertions *)
Definition num_add (m_value rhs : Z) : eval Z :=
  if ((rhs =? 0) || ((rhs >? 0) && (m_value <=? INT64_MAX - rhs)) || ((rhs <? 0) && (m_value >=? - 2^63 - rhs)))%bool
  then Done (m_value + rhs) else Crash.
Definition num_sub (m_value rhs : Z) : eval Z :=
  if ((rhs =? 0) || ((rhs >? 0) && (m_value >=? - 2^63 + rhs)) || ((rhs <? 0) && (m_value <=? INT64_MAX + rhs)))%bool
  then Done (m_value - rhs) else Crash.
Definition num_neg (m_value : Z) : eval Z := if negb (m_value =? - 2^63) then Done (- m_value) else Crash.

Definition op_UNARY (opcode : Z) (req : bool) (stack : list valtype) : eval (list valtype) :=
  match stack with
  | x :: s =>
      bn ← num req x;
      bn ← (if opcode =? OP_1ADD then num_add bn 1
            else if opcode =? OP_1SUB then num_sub bn 1
            else if opcode =? OP_NEGATE then num_neg bn
            else if opcode =? OP_ABS then (if bn <? 0 then num_neg bn else Done bn)
            else if opcode =? OP_NOT then Done (b2z (bn =? 0))
            else if opcode =? OP_0NOTEQUAL then Done (b2z (negb (bn =? 0)))
            else Crash);
      Done (num_serialize bn :: s)
  | _ => bad_stack
  end.

Definition op_BINARY (opcode : Z) (req : bool) (stack : list valtype) : eval (list valtype) :=
  match stack with
  | x2 :: x1 :: s =>
      bn1 ← num req x1;
      bn2 ← num req x2;
      bn ← (if opcode =? OP_ADD then Done (i64 (bn1 + bn2))
            else if opcode =? OP_SUB then Done (i64 (bn1 - bn2))
            else if opcode =? OP_DIV then (if bn2 =? 0 then Fail SCRIPT_ERR_DIV_BY_ZERO else Done (Z.quot bn1 bn2))
            else if opcode =? OP_MOD then (if bn2 =? 0 then Fail SCRIPT_ERR_MOD_BY_ZERO else Done (Z.rem bn1 bn2))
            else if opcode =? OP_BOOLAND then Done (b2z (negb (bn1 =? 0) && negb (bn2 =? 0)))
            else if opcode =? OP_BOOLOR then Done (b2z (negb (bn1 =? 0) || negb (bn2 =? 0)))
            else if opcode =? OP_NUMEQUAL then Done (b2z (bn1 =? bn2))
            else if opcode =? OP_NUMEQUALVERIFY then Done (b2z (bn1 =? bn2))
            else if opcode =? OP_NUMNOTEQUAL then Done (b2z (negb (bn1 =? bn2)))
            else if opcode =? OP_LESSTHAN then Done (b2z (bn1 <? bn2))
            else if opcode =? OP_GREATERTHAN then Done (b2z (bn1 >? bn2))
            else if opcode =? OP_LESSTHANOREQUAL then Done (b2z (bn1 <=? bn2))
            else if opcode =? OP_GREATERTHANOREQUAL then Done (b2z (bn1 >=? bn2))
            else if opcode =? OP_MIN then Done (if bn1 <? bn2 then bn1 else bn2)
            else if opcode =? OP_MAX then Done (if bn1 >? bn2 then bn1 else bn2)
            else Crash);
      let out := num_serialize bn in
      if opcode =? OP_NUMEQUALVERIFY then (if CastToBool out then Done s else Fail SCRIPT_ERR_NUMEQUALVERIFY)
      else Done (out :: s)
  | _ => bad_stack
  end.

Definition op_WITHIN (req : bool) (stack : list valtype) : eval (list valtype) :=
  match stack with
  | x3 :: x2 :: x1 :: s =>
      bn1 ← num req x1;
      bn2 ← num req x2;
      bn3 ← num req x3;
      Done (of_bool ((bn2 <=? bn1) && (bn1 <? bn3)) :: s)
  | _ => bad_stack
  end.

Definition op_SPLIT (req : bool) (stack : list valtype) : eval (list valtype) :=
  match stack with
  | x2 :: vch :: s =>
      n ← num req x2;
      let nPosition := getint n in
      if ((nPosition <? 0) || (nPosition >? size vch))%bool then Fail SCRIPT_ERR_INVALID_SPLIT_RANGE
      else if nPosition =? 0 then Done (vch :: [] :: s)
      else if nPosition =? size vch then Done ([] :: vch :: s)
      else Done (drop (Z.to_nat nPosition) vch :: take (Z.to_nat nPosition) vch :: s)
  | _ => bad_stack
  end.

Definition op_NUM2BIN (req : bool) (stack : list valtype) : eval (list valtype) :=
  match stack with
  | x2 :: x1 :: s =>
      n ← num req x2;
      let sz := u64 (getint n) in
      if sz >? MAX_SCRIPT_ELEMENT_SIZE then Fail SCRIPT_ERR_PUSH_SIZE
      else
        let rawnum := (MinimallyEncode x1).2 in
        if size rawnum >? sz then Fail SCRIPT_ERR_IMPOSSIBLE_ENCODING
        else if size rawnum =? sz then Done (rawnum :: s)
        else
          let '(signbit, rawnum) :=
            if size rawnum >? 0 then (Z.land (back rawnum) 0x80, set_back rawnum (Z.land (back rawnum) 0x7f)) else (0x00, rawnum) in
          Done ((rawnum ++ repeat 0x00 (Z.to_nat (sz - 1 - size rawnum)) ++ [signbit]) :: s)
  | _ => bad_stack
  end.

(** Lock times: the stack is only read. *)
Definition op_CHECKLOCKTIMEVERIFY (flags : Z) (req : bool) (stack : list valtype) : eval unit :=
  if negb (has_bit flags SCRIPT_VERIFY_CHECKLOCKTIMEVERIFY) then Done tt
  else
    match stack with
    | x :: _ =>
        nLockTime ← num5 req x;
        if nLockTime <? 0 then Fail SCRIPT_ERR_NEGATIVE_LOCKTIME
        else
          ok ← lift (CheckLockTime nLockTime);
          guard_err ok SCRIPT_ERR_UNSATISFIED_LOCKTIME
    | _ => bad_stack
    end.

Definition op_CHECKSEQUENCEVERIFY (flags : Z) (req : bool) (stack : list valtype) : eval unit :=
  if negb (has_bit flags SCRIPT_VERIFY_CHECKSEQUENCEVERIFY) then Done tt
  else
    match stack with
    | x :: _ =>
        nSeq ← num5 req x;
        if nSeq <? 0 then Fail SCRIPT_ERR_NEGATIVE_LOCKTIME
        else if has_bit nSeq (Z.shiftl 1 31) then Done tt
        else
          ok ← lift (CheckSequence nSeq);
          guard_err ok SCRIPT_ERR_UNSATISFIED_LOCKTIME
    | _ => bad_stack
    end.

(** ** Signatures *)

(** [EvalChecksig] *)
Definition EvalChecksig (vchSig vchPubKey : valtype) (codehash : CScript) (flags : Z) : eval bool :=
  let '(found, scriptCode) := FindAndDelete codehash (script_push vchSig) in
  if ((found >? 0) && has_bit flags SCRIPT_VERIFY_CONST_SCRIPTCODE)%bool then Fail SCRIPT_ERR_SIG_FINDANDDELETE
  else
    _ ← CheckSignatureEncoding vchSig flags;
    _ ← CheckPubKeyEncoding vchPubKey flags;
    fSuccess ← lift (CheckSig vchSig vchPubKey scriptCode);
    if (negb fSuccess && has_bit flags SCRIPT_VERIFY_NULLFAIL && negb (size vchSig =? 0))%bool then Fail SCRIPT_ERR_SIG_NULLFAIL
    else Done fSuccess.

Definition op_CHECKSIG (opcode flags : Z) (codehash : CScript) (stack : list valtype) : eval (list valtype) :=
  match stack with
  | vchPubKey :: vchSig :: s =>
      fSuccess ← EvalChecksig vchSig vchPubKey codehash flags;
      if opcode =? OP_CHECKSIGVERIFY then (if fSuccess : bool then Done s else Fail SCRIPT_ERR_CHECKSIGVERIFY)
      else Done (of_bool fSuccess :: s)
  | _ => bad_stack
  end.

Definition op_CHECKDATASIG (opcode flags : Z) (stack : list valtype) : eval (list valtype) :=
  match stack with
  | vchPubKey :: vchMessage :: vchSig :: s =>
      _ ← CheckSignatureEncoding vchSig flags;
      _ ← CheckPubKeyEncoding vchPubKey flags;
      let fSuccess := if size vchSig =? 0 then false else CPubKey_Verify (CPubKey_Set vchPubKey) (SHA256 vchMessage) vchSig in
      if (negb fSuccess && has_bit flags SCRIPT_VERIFY_NULLFAIL && negb (size vchSig =? 0))%bool then Fail SCRIPT_ERR_SIG_NULLFAIL
      else if opcode =? OP_CHECKDATASIGVERIFY then (if fSuccess then Done s else Fail SCRIPT_ERR_CHECKDATASIGVERIFY)
      else Done (of_bool fSuccess :: s)
  | _ => bad_stack
  end.

(** The loop that drops the signatures from the script code *)
Fixpoint drop_signatures (sigs : list valtype) (flags : Z) (scriptCode : CScript) : eval CScript :=
  match sigs with
  | [] => Done scriptCode
  | vchSig :: sigs' =>
      let '(found, scriptCode) := FindAndDelete scriptCode (script_push vchSig) in
      if ((found >? 0) && has_bit flags SCRIPT_VERIFY_CONST_SCRIPTCODE)%bool then Fail SCRIPT_ERR_SIG_FINDANDDELETE
      else drop_signatures sigs' flags scriptCode
  end.

(** The matching loop: each round uses up a key. *)
Fixpoint multisig_loop (sigs keys : list valtype) (flags : Z) (scriptCode : CScript) : eval bool :=
  match sigs with
  | [] => Done true
  | vchSig :: sigs' =>
      match keys with
      | [] => Crash
      | vchPubKey :: keys' =>
          _ ← CheckSignatureEncoding vchSig flags;
          _ ← CheckPubKeyEncoding vchPubKey flags;
          fOk ← lift (CheckSig vchSig vchPubKey scriptCode);
          let sigs := if fOk : bool then sigs' else sigs in
          if size sigs >? size keys' then Done false else multisig_loop sigs keys' flags scriptCode
      end
  end.

(** The removal of the arguments; the first [ikey2] of them are not signatures. *)
Fixpoint multisig_cleanup (n : nat) (fSuccess : bool) (flags : Z) (ikey2 : Z) (stack : list valtype) : eval (list valtype) :=
  match n with
  | O => Done stack
  | S n' =>
      match stack with
      | [] => Fail SCRIPT_ERR_UNKNOWN_ERROR
      | x :: s =>
          if (negb fSuccess && has_bit flags SCRIPT_VERIFY_NULLFAIL && (ikey2 =? 0) && negb (size x =? 0))%bool
          then Fail SCRIPT_ERR_SIG_NULLFAIL
          else multisig_cleanup n' fSuccess flags (if ikey2 >? 0 then ikey2 - 1 else ikey2) s
      end
  end.

(** The operation; the new [nOpCount] comes with the stack. *)
Definition op_CHECKMULTISIG (opcode flags : Z) (req : bool) (codehash : CScript) (nOpCount : Z) (stack : list valtype)
    : eval (Z * list valtype) :=
  if size stack <? 1 then bad_stack
  else
    x ← throws (stack !! 0%nat);
    n ← num req x;
    let nKeysCount := getint n in
    if ((nKeysCount <? 0) || (nKeysCount >? MAX_PUBKEYS_PER_MULTISIG))%bool then Fail SCRIPT_ERR_PUBKEY_COUNT
    else
      let nOpCount := nOpCount + nKeysCount in
      if nOpCount >? MAX_OPS_PER_SCRIPT then Fail SCRIPT_ERR_OP_COUNT
      else if size stack <? 2 + nKeysCount then bad_stack
      else
        x ← throws (stack !! Z.to_nat (1 + nKeysCount));
        n ← num req x;
        let nSigsCount := getint n in
        if ((nSigsCount <? 0) || (nSigsCount >? nKeysCount))%bool then Fail SCRIPT_ERR_SIG_COUNT
        else
          let i := 3 + nKeysCount + nSigsCount in
          if size stack <? i then bad_stack
          else
            let keys := take (Z.to_nat nKeysCount) (drop 1 stack) in
            let sigs := take (Z.to_nat nSigsCount) (drop (Z.to_nat (2 + nKeysCount)) stack) in
            scriptCode ← drop_signatures sigs flags codehash;
            fSuccess ← multisig_loop sigs keys flags scriptCode;
            s ← multisig_cleanup (Z.to_nat (i - 1)) fSuccess flags (nKeysCount + 2) stack;
            match s with
            | [] => bad_stack
            | dummy :: s =>
                if (has_bit flags SCRIPT_VERIFY_NULLDUMMY && negb (size dummy =? 0))%bool then Fail SCRIPT_ERR_SIG_NULLDUMMY
                else if opcode =? OP_CHECKMULTISIGVERIFY then
                  (if fSuccess : bool then Done (nOpCount, s) else Fail SCRIPT_ERR_CHECKMULTISIGVERIFY)
                else Done (nOpCount, of_bool fSuccess :: s)
            end.

(** ** The machine *)

(** The variables of [EvalScript]: the rest of the script, the code from the
    last separator on, the stacks, the conditions and the operation count *)
Record exec : Type := mkExec {
  pc : CScript;
  codehash : CScript;
  stack : list valtype;
  altstack : list valtype;
  vfExec : ConditionStack;
  nOpCount : Z;
}.
Definition with_stack (e : exec) (s : list valtype) : exec :=
  mkExec (pc e) (codehash e) s (altstack e) (vfExec e) (nOpCount e).
Definition with_cond (e : exec) (s : list valtype) (c : ConditionStack) : exec :=
  mkExec (pc e) (codehash e) s (altstack e) c (nOpCount e).
(** An operation that changes the stack only *)
Definition on_stack (e : exec) (r : eval (list valtype)) : eval exec := s ← r; Done (with_stack e s).

(** The [switch] of [EvalScript]; [pc e] is past the opcode. *)
Definition exec_op (flags : Z) (fExec : bool) (opcode : Z) (e : exec) : eval exec :=
  let req := has_bit flags SCRIPT_VERIFY_MINIMALDATA in
  if ((opcode =? OP_1NEGATE) || ((OP_1 <=? opcode) && (opcode <=? OP_16)))%bool then
    Done (with_stack e (num_serialize (opcode - (OP_1 - 1)) :: stack e))
  else if opcode =? OP_NOP then Done e
  else if opcode =? OP_CHECKLOCKTIMEVERIFY then _ ← op_CHECKLOCKTIMEVERIFY flags req (stack e); Done e
  else if opcode =? OP_CHECKSEQUENCEVERIFY then _ ← op_CHECKSEQUENCEVERIFY flags req (stack e); Done e
  else if one_of opcode [OP_NOP1; OP_NOP4; OP_NOP5; OP_NOP6; OP_NOP7; OP_NOP8; OP_NOP9; OP_NOP10] then
    _ ← guard_err (negb (has_bit flags SCRIPT_VERIFY_DISCOURAGE_UPGRADABLE_NOPS)) SCRIPT_ERR_DISCOURAGE_UPGRADABLE_NOPS; Done e
  else if one_of opcode [OP_IF; OP_NOTIF] then
    if fExec then
      match stack e with
      | [] => Fail SCRIPT_ERR_UNBALANCED_CONDITIONAL
      | vch :: s =>
          let fValue := CastToBool vch in
          let fValue := if opcode =? OP_NOTIF then negb fValue else fValue in
          Done (with_cond e s (cond_push_back (vfExec e) fValue))
      end
    else Done (with_cond e (stack e) (cond_push_back (vfExec e) false))
  else if opcode =? OP_ELSE then
    if cond_empty (vfExec e) then Fail SCRIPT_ERR_UNBALANCED_CONDITIONAL
    else c ← toggle_top (vfExec e); Done (with_cond e (stack e) c)
  else if opcode =? OP_ENDIF then
    if cond_empty (vfExec e) then Fail SCRIPT_ERR_UNBALANCED_CONDITIONAL
    else c ← cond_pop_back (vfExec e); Done (with_cond e (stack e) c)
  else if opcode =? OP_VERIFY then on_stack e (op_VERIFY (stack e))
  else if opcode =? OP_RETURN then Fail SCRIPT_ERR_OP_RETURN
  else if opcode =? OP_TOALTSTACK then
    match stack e with
    | [] => bad_stack
    | x :: s => Done (mkExec (pc e) (codehash e) s (x :: altstack e) (vfExec e) (nOpCount e))
    end
  else if opcode =? OP_FROMALTSTACK then
    match altstack e with
    | [] => Fail SCRIPT_ERR_INVALID_ALTSTACK_OPERATION
    | x :: a => Done (mkExec (pc e) (codehash e) (x :: stack e) a (vfExec e) (nOpCount e))
    end
  else if opcode =? OP_2DROP then on_stack e (op_2DROP (stack e))
  else if opcode =? OP_2DUP then on_stack e (op_2DUP (stack e))
  else if opcode =? OP_3DUP then on_stack e (op_3DUP (stack e))
  else if opcode =? OP_2OVER then on_stack e (op_2OVER (stack e))
  else if opcode =? OP_2ROT then on_stack e (op_2ROT (stack e))
  else if opcode =? OP_2SWAP then on_stack e (op_2SWAP (stack e))
  else if opcode =? OP_IFDUP then on_stack e (op_IFDUP (stack e))
  else if opcode =? OP_DEPTH then on_stack e (op_DEPTH (stack e))
  else if opcode =? OP_DROP then on_stack e (op_DROP (stack e))
  else if opcode =? OP_DUP then on_stack e (op_DUP (stack e))
  else if opcode =? OP_NIP then on_stack e (op_NIP (stack e))
  else if opcode =? OP_OVER then on_stack e (op_OVER (stack e))
  else if one_of opcode [OP_PICK; OP_ROLL] then on_stack e (op_PICK opcode req (stack e))
  else if opcode =? OP_ROT then on_stack e (op_ROT (stack e))
  else if opcode =? OP_SWAP then on_stack e (op_SWAP (stack e))
  else if opcode =? OP_TUCK then on_stack e (op_TUCK (stack e))
  else if opcode =? OP_SIZE then on_stack e (op_SIZE (stack e))
  else if one_of opcode [OP_EQUAL; OP_EQUALVERIFY] then on_stack e (op_EQUAL opcode (stack e))
  else if one_of opcode [OP_AND; OP_OR; OP_XOR] then on_stack e (op_BITWISE opcode (stack e))
  else if one_of opcode [OP_1ADD; OP_1SUB; OP_NEGATE; OP_ABS; OP_NOT; OP_0NOTEQUAL] then on_stack e (op_UNARY opcode req (stack e))
  else if one_of opcode [OP_ADD; OP_SUB; OP_DIV; OP_MOD; OP_BOOLAND; OP_BOOLOR; OP_NUMEQUAL; OP_NUMEQUALVERIFY;
      OP_NUMNOTEQUAL; OP_LESSTHAN; OP_GREATERTHAN; OP_LESSTHANOREQUAL; OP_GREATERTHANOREQUAL; OP_MIN; OP_MAX] then
    on_stack e (op_BINARY opcode req (stack e))
  else if opcode =? OP_WITHIN then on_stack e (op_WITHIN req (stack e))
  else if one_of opcode [OP_RIPEMD160; OP_SHA1; OP_SHA256; OP_HASH160; OP_HASH256] then on_stack e (op_HASH opcode (stack e))
  else if opcode =? OP_CODESEPARATOR then
    Done (mkExec (pc e) (pc e) (stack e) (altstack e) (vfExec e) (nOpCount e))
  else if one_of opcode [OP_CHECKSIG; OP_CHECKSIGVERIFY] then on_stack e (op_CHECKSIG opcode flags (codehash e) (stack e))
  else if one_of opcode [OP_CHECKDATASIG; OP_CHECKDATASIGVERIFY] then on_stack e (op_CHECKDATASIG opcode flags (stack e))
  else if one_of opcode [OP_CHECKMULTISIG; OP_CHECKMULTISIGVERIFY] then
    r ← op_CHECKMULTISIG opcode flags req (codehash e) (nOpCount e) (stack e);
    Done (mkExec (pc e) (codehash e) (r : Z * list valtype).2 (altstack e) (vfExec e) r.1)
  else if opcode =? OP_CAT then on_stack e (op_CAT (stack e))
  else if opcode =? OP_SPLIT then on_stack e (op_SPLIT req (stack e))
  else if opcode =? OP_NUM2BIN then on_stack e (op_NUM2BIN req (stack e))
  else if opcode =? OP_BIN2NUM then on_stack e (op_BIN2NUM (stack e))
  else Fail SCRIPT_ERR_BAD_OPCODE.

(** One turn of the loop *)
Definition eval_step (flags : Z) (e : exec) : eval exec :=
  let fExec := all_true (vfExec e) in
  match GetScriptOp (pc e) with
  | None => Fail SCRIPT_ERR_BAD_OPCODE
  | Some (opcode, vchPushValue, rest) =>
      if size vchPushValue >? MAX_SCRIPT_ELEMENT_SIZE then Fail SCRIPT_ERR_PUSH_SIZE
      else
        let n := if opcode >? OP_16 then nOpCount e + 1 else nOpCount e in
        if ((opcode >? OP_16) && (n >? MAX_OPS_PER_SCRIPT))%bool then Fail SCRIPT_ERR_OP_COUNT
        else if one_of opcode [OP_INVERT; OP_2MUL; OP_2DIV; OP_MUL; OP_LSHIFT; OP_RSHIFT] then Fail SCRIPT_ERR_DISABLED_OPCODE
        else if ((opcode =? OP_CODESEPARATOR) && has_bit flags SCRIPT_VERIFY_CONST_SCRIPTCODE)%bool then Fail SCRIPT_ERR_OP_CODESEPARATOR
        else
          let e := mkExec rest (codehash e) (stack e) (altstack e) (vfExec e) n in
          e ← (if (fExec && (0 <=? opcode) && (opcode <=? OP_PUSHDATA4))%bool then
                 minimal ← (if has_bit flags SCRIPT_VERIFY_MINIMALDATA then CheckMinimalPush vchPushValue opcode else Done true);
                 _ ← guard_err minimal SCRIPT_ERR_MINIMALDATA;
                 Done (with_stack e (vchPushValue :: stack e))
               else if (fExec || ((OP_IF <=? opcode) && (opcode <=? OP_ENDIF)))%bool then exec_op flags fExec opcode e
               else Done e);
          if size (stack e) + size (altstack e) >? MAX_STACK_SIZE then Fail SCRIPT_ERR_STACK_SIZE else Done e
  end.

(** The loop; a turn takes at least one byte, so the length of the script is enough. *)
Fixpoint eval_loop (fuel : nat) (flags : Z) (e : exec) : eval exec :=
  match pc e with
  | [] => Done e
  | _ :: _ =>
      match fuel with
      | O => Crash
      | S f => e ← eval_step flags e; eval_loop f flags e
      end
  end.

(** [EvalScript]: the stack a successful run leaves *)
Definition EvalScript (s : list valtype) (script : CScript) (flags : Z) : eval (list valtype) :=
  if size script >? MAX_SCRIPT_SIZE then Fail SCRIPT_ERR_SCRIPT_SIZE
  else
    e ← eval_loop (length script) flags (mkExec script script s [] cond_new 0);
    if negb (cond_empty (vfExec e)) then Fail SCRIPT_ERR_UNBALANCED_CONDITIONAL else Done (stack e).

(** The test of the top of the stack *)
Definition check_top (s : list valtype) : eval unit :=
  match s with
  | [] => Fail SCRIPT_ERR_EVAL_FALSE
  | x :: _ => if CastToBool x then Done tt else Fail SCRIPT_ERR_EVAL_FALSE
  end.

(** [VerifyScript] *)
Definition VerifyScript (scriptSig scriptPubKey : CScript) (flags : Z) : eval unit :=
  if (has_bit flags SCRIPT_VERIFY_SIGPUSHONLY && negb (IsPushOnly scriptSig))%bool then Fail SCRIPT_ERR_SIG_PUSHONLY
  else
    stackCopy ← EvalScript [] scriptSig flags;
    s ← EvalScript stackCopy scriptPubKey flags;
    _ ← check_top s;
    s ← (if (has_bit flags SCRIPT_VERIFY_P2SH && IsPayToScriptHash scriptPubKey)%bool then
           if negb (IsPushOnly scriptSig) then Fail SCRIPT_ERR_SIG_PUSHONLY
           else
             match stackCopy with
             | [] => Crash
             | pubKeySerialized :: s =>
                 s ← EvalScript s pubKeySerialized flags;
                 _ ← check_top s;
                 Done s
             end
         else Done s);
    if has_bit flags SCRIPT_VERIFY_CLEANSTACK then
      if negb (has_bit flags SCRIPT_VERIFY_P2SH) then Crash
      else guard_err (size s =? 1) SCRIPT_ERR_CLEANSTACK
    else Done tt.

End interpreter.
