(* ===== verification/ScriptRules.v ===== *)
(** * ScriptRules: what the script machine accepts
      (src/src/script/interpreter.{h,cpp})

    Dropping a verification flag never makes a script invalid; CHECKMULTISIG
    finds an assignment of signatures to keys whenever there is one; and the
    standard payments to a key hash and to a script hash accept exactly the
    spends they describe. *)

From Stdlib Require Import ZArith Lia.
From stdpp Require Import base list numbers option.
From S2P Require Import Prelude Arith256 Uint256 Serialize Transaction Script Interpreter.

(** ** Fewer flags accept more *)

Definition flags_sub (f' f : Z) : Prop := Z.land f' f = f'.

Lemma flags_sub_bit f' f x : flags_sub f' f -> has_bit f' x = true -> has_bit f x = true.
Proof.
  unfold flags_sub, has_bit. intros E. rewrite !negb_true_iff, !Z.eqb_neq. intros Hn Hz. apply Hn.
  by rewrite <- E, <- Z.land_assoc, Hz, Z.land_0_r.
Qed.

(** [r'] ends as [r] does when [r] ends with a value *)
Definition permits {A} (r' r : eval A) : Prop := forall a, r = Done a -> r' = Done a.

Create HintDb permits.

Lemma permits_refl {A} (r : eval A) : permits r r.
Proof. by intros a. Qed.

Lemma permits_bind {A B} (r' r : eval A) (k' k : A -> eval B) :
  permits r' r -> (forall a, permits (k' a) (k a)) -> permits (r' ≫= k') (r ≫= k).
Proof.
  intros Hr Hk b. destruct r as [a| |] eqn:E; cbn; [|done|done]. rewrite (Hr a eq_refl). apply Hk.
Qed.

Lemma permits_if {A} (b : bool) (x' x y' y : eval A) : permits x' x -> permits y' y -> permits (if b then x' else y') (if b then x else y).
Proof. by destruct b. Qed.

Lemma permits_guard {A} (bad' bad : bool) e' e (k' k : eval A) : (bad' = true -> bad = true) -> permits k' k ->
  permits (if bad' then Fail e' else k') (if bad then Fail e else k).
Proof. intros Hb Hk. destruct bad, bad'; try done. discriminate (Hb eq_refl). Qed.

Lemma permits_guard_err (ok' ok : bool) e' e : (ok = true -> ok' = true) -> permits (guard_err ok' e') (guard_err ok e).
Proof. intros Hb. unfold guard_err. destruct ok; [|done]. rewrite Hb by done. apply permits_refl. Qed.

Lemma permits_num (req' req : bool) v : (req' = true -> req = true) -> permits (num req' v) (num req v) /\ permits (num5 req' v) (num5 req v).
Proof.
  intros Hr. unfold num, num5, CScriptNum. split; (destruct (size v >? _); [apply permits_refl|]);
    (destruct req'; [rewrite Hr by done; apply permits_refl|]); cbn [andb]; (destruct (req && _)%bool; [by intros ?|apply permits_refl]).
Qed.

#[export] Hint Resolve permits_refl permits_bind permits_if : permits.
#[local] Hint Resolve permits_refl : core.

Section flags.

Context `{Crypto} `{SignatureChecker} (f' f : Z) (Hsub : flags_sub f' f).

Let sub x := flags_sub_bit f' f x Hsub.

Lemma permits_flag_guard {A} x b e (k' k : eval A) : permits k' k ->
  permits (if (b && has_bit f' x)%bool then Fail e else k') (if (b && has_bit f x)%bool then Fail e else k).
Proof. apply permits_guard. rewrite !andb_true_iff. intros [? ?]. split; [done|by apply sub]. Qed.

Lemma permits_sig_encoding sig : permits (CheckSignatureEncoding sig f') (CheckSignatureEncoding sig f).
Proof.
  unfold CheckSignatureEncoding. apply permits_if; [apply permits_refl|].
  assert (IsBLSSig f sig = true -> IsBLSSig f' sig = true) as Hbls.
  { unfold IsBLSSig. pose proof (sub SCRIPT_VERIFY_STRICT_BLS_SIG_SIZE) as Hs.
    destruct (has_bit f' _); [by rewrite Hs|]. destruct (has_bit f _); [|done]. unfold BLS_SIGNATURE_SIZE. rewrite Z.eqb_eq. intros ->. done. }
  destruct (IsBLSSig f sig); [by rewrite Hbls|]. destruct (IsBLSSig f' sig).
  { intros [] _. done. }
  apply permits_guard; [rewrite !andb_true_iff; intros [? ?]; split; [by eapply sub|done]|].
  apply permits_bind.
  - pose proof (sub SCRIPT_VERIFY_LOW_S) as Hs. destruct (has_bit f' SCRIPT_VERIFY_LOW_S); [by rewrite Hs|]. intros [] _. done.
  - intros _. apply permits_guard_err. rewrite !negb_true_iff, !andb_false_iff.
    pose proof (sub SCRIPT_VERIFY_STRICTENC) as Hs. destruct (has_bit f' SCRIPT_VERIFY_STRICTENC); [rewrite Hs by done|]; tauto.
Qed.

Lemma permits_key_encoding key : permits (CheckPubKeyEncoding key f') (CheckPubKeyEncoding key f).
Proof.
  unfold CheckPubKeyEncoding. apply permits_if; [apply permits_refl|]. apply permits_guard_err. rewrite !negb_true_iff, !andb_false_iff.
  pose proof (sub SCRIPT_VERIFY_STRICTENC) as Hs. destruct (has_bit f' SCRIPT_VERIFY_STRICTENC); [rewrite Hs by done|]; tauto.
Qed.

Lemma permits_checksig sig key code : permits (EvalChecksig sig key code f') (EvalChecksig sig key code f).
Proof.
  unfold EvalChecksig. destruct (FindAndDelete _ _) as [found scriptCode]. apply permits_flag_guard.
  apply permits_bind; [apply permits_sig_encoding|intros _]. apply permits_bind; [apply permits_key_encoding|intros _].
  apply permits_bind; [apply permits_refl|intros ok]. apply permits_guard; [|apply permits_refl].
  rewrite !andb_true_iff. intros [[? ?] ?]. repeat split; try done. by apply sub.
Qed.

Lemma permits_drop_signatures sigs : forall code, permits (drop_signatures sigs f' code) (drop_signatures sigs f code).
Proof.
  induction sigs as [|sig sigs IH]; intros code; cbn [drop_signatures]; [apply permits_refl|].
  destruct (FindAndDelete _ _) as [found code']. by apply permits_flag_guard.
Qed.

Lemma permits_multisig_loop keys code : forall sigs, permits (multisig_loop sigs keys f' code) (multisig_loop sigs keys f code).
Proof.
  induction keys as [|key keys IH]; intros [|sig sigs]; cbn [multisig_loop]; try apply permits_refl.
  apply permits_bind; [apply permits_sig_encoding|intros _]. apply permits_bind; [apply permits_key_encoding|intros _].
  apply permits_bind; [apply permits_refl|intros ok]. apply permits_if; [apply permits_refl|apply IH].
Qed.

Lemma permits_cleanup n ok : forall i s, permits (multisig_cleanup n ok f' i s) (multisig_cleanup n ok f i s).
Proof.
  induction n as [|n IH]; intros i s; cbn [multisig_cleanup]; [apply permits_refl|]. destruct s as [|x s]; [apply permits_refl|].
  apply permits_guard; [|apply IH]. rewrite !andb_true_iff. intros [[[? ?] ?] ?]. repeat split; try done. by apply sub.
Qed.

Let req' := has_bit f' SCRIPT_VERIFY_MINIMALDATA.
Let req := has_bit f SCRIPT_VERIFY_MINIMALDATA.

Lemma permits_num_flags v : permits (num req' v) (num req v) /\ permits (num5 req' v) (num5 req v).
Proof. apply permits_num, sub. Qed.

(** Both sides take the same turn until a number is read. *)
Ltac permits_step :=
  first
    [ apply permits_refl
    | apply permits_num_flags
    | apply permits_bind; [|intros ?]
    | match goal with |- permits (match ?x with _ => _ end) (match ?x with _ => _ end) => destruct x end ].

Lemma permits_number_ops opcode s :
  permits (op_PICK opcode req' s) (op_PICK opcode req s) /\ permits (op_UNARY opcode req' s) (op_UNARY opcode req s) /\
  permits (op_BINARY opcode req' s) (op_BINARY opcode req s) /\ permits (op_WITHIN req' s) (op_WITHIN req s) /\
  permits (op_SPLIT req' s) (op_SPLIT req s) /\ permits (op_NUM2BIN req' s) (op_NUM2BIN req s).
Proof.
  unfold op_PICK, op_UNARY, op_BINARY, op_WITHIN, op_SPLIT, op_NUM2BIN.
  split_and!; repeat permits_step.
Qed.

Lemma permits_locktimes s :
  permits (op_CHECKLOCKTIMEVERIFY f' req' s) (op_CHECKLOCKTIMEVERIFY f req s) /\
  permits (op_CHECKSEQUENCEVERIFY f' req' s) (op_CHECKSEQUENCEVERIFY f req s).
Proof.
  unfold op_CHECKLOCKTIMEVERIFY, op_CHECKSEQUENCEVERIFY. split.
  - pose proof (sub SCRIPT_VERIFY_CHECKLOCKTIMEVERIFY) as Hs. destruct (has_bit f' SCRIPT_VERIFY_CHECKLOCKTIMEVERIFY); [rewrite Hs by done|by intros [] _].
    cbn [negb]. repeat permits_step.
  - pose proof (sub SCRIPT_VERIFY_CHECKSEQUENCEVERIFY) as Hs. destruct (has_bit f' SCRIPT_VERIFY_CHECKSEQUENCEVERIFY); [rewrite Hs by done|by intros [] _].
    cbn [negb]. repeat permits_step.
Qed.

Lemma permits_signature_ops opcode code n s :
  permits (op_CHECKSIG opcode f' code s) (op_CHECKSIG opcode f code s) /\
  permits (op_CHECKDATASIG opcode f' s) (op_CHECKDATASIG opcode f s) /\
  permits (op_CHECKMULTISIG opcode f' req' code n s) (op_CHECKMULTISIG opcode f req code n s).
Proof.
  unfold op_CHECKSIG, op_CHECKDATASIG, op_CHECKMULTISIG. split_and!.
  - destruct s as [|key [|sig s]]; try done. apply permits_bind; [apply permits_checksig|done].
  - destruct s as [|key [|msg [|sig s]]]; try done.
    apply permits_bind; [apply permits_sig_encoding|intros _]. apply permits_bind; [apply permits_key_encoding|intros _].
    apply permits_guard; [|done]. rewrite !andb_true_iff. intros [[? ?] ?]. repeat split; try done. by apply sub.
  - repeat first [ apply permits_drop_signatures | apply permits_multisig_loop | apply permits_cleanup | permits_step ].
    apply permits_guard; [|done]. rewrite !andb_true_iff. intros [? ?]. split; [by apply sub|done].
Qed.

Lemma permits_on_stack e r' r : permits r' r -> permits (on_stack e r') (on_stack e r).
Proof. intros Hr. by apply permits_bind. Qed.

Lemma permits_exec_op fExec opcode e : permits (exec_op f' fExec opcode e) (exec_op f fExec opcode e).
Proof.
  unfold exec_op. fold req' req.
  destruct (permits_number_ops opcode (stack e)) as (H1 & H2 & H3 & H4 & H5 & H6).
  destruct (permits_locktimes (stack e)) as [H7 H8].
  destruct (permits_signature_ops opcode (codehash e) (nOpCount e) (stack e)) as (H9 & H10 & H11).
  repeat (apply permits_if; [first [done | by apply permits_on_stack | by apply permits_bind | idtac]|]); [|done].
  apply permits_bind; [|done]. apply permits_guard_err. rewrite !negb_true_iff.
  pose proof (sub SCRIPT_VERIFY_DISCOURAGE_UPGRADABLE_NOPS) as Hs. destruct (has_bit f' SCRIPT_VERIFY_DISCOURAGE_UPGRADABLE_NOPS); [by rewrite Hs|done].
Qed.

Lemma permits_eval_step e : permits (eval_step f' e) (eval_step f e).
Proof.
  unfold eval_step. destruct (GetScriptOp (pc e)) as [[[opcode v] rest]|]; [|done].
  apply permits_if; [done|]. apply permits_if; [done|]. apply permits_if; [done|]. apply permits_flag_guard.
  apply permits_bind; [|done]. apply permits_if; [|apply permits_if; [apply permits_exec_op|done]].
  pose proof (sub SCRIPT_VERIFY_MINIMALDATA) as Hs. destruct (has_bit f' SCRIPT_VERIFY_MINIMALDATA); [rewrite Hs by done; apply permits_refl|].
  destruct (has_bit f _); [|done]. destruct (CheckMinimalPush v opcode) as [[]| |]; cbn; [done|by intros ?|by intros ?|by intros ?].
Qed.

Lemma permits_eval_loop fuel : forall e, permits (eval_loop fuel f' e) (eval_loop fuel f e).
Proof.
  induction fuel as [|fuel IH]; intros e; cbn [eval_loop]; [done|]. destruct (pc e); [done|].
  apply permits_bind; [apply permits_eval_step|apply IH].
Qed.

Lemma permits_EvalScript s script : permits (EvalScript s script f') (EvalScript s script f).
Proof. unfold EvalScript. apply permits_if; [done|]. apply permits_bind; [apply permits_eval_loop|done]. Qed.

End flags.

Lemma permits_VerifyScript `{Crypto} `{SignatureChecker} f' f scriptSig scriptPubKey :
  flags_sub f' f -> (has_bit f' SCRIPT_VERIFY_CLEANSTACK = true -> has_bit f' SCRIPT_VERIFY_P2SH = true) ->
  permits (VerifyScript scriptSig scriptPubKey f') (VerifyScript scriptSig scriptPubKey f).
Proof.
  intros Hsub Hclean. pose proof (fun x => flags_sub_bit f' f x Hsub) as sub. unfold VerifyScript.
  apply permits_guard; [rewrite !andb_true_iff; intros [? ?]; split; [by apply sub|done]|].
  apply permits_bind; [by apply permits_EvalScript|intros copy]. apply permits_bind; [by apply permits_EvalScript|intros s].
  apply permits_bind; [done|intros _].
  destruct (has_bit f' SCRIPT_VERIFY_P2SH) eqn:Hp.
  - rewrite (sub _ Hp). cbn [andb negb]. apply permits_bind.
    + apply permits_if; [|done]. apply permits_if; [done|]. destruct copy as [|redeem s']; [done|].
      apply permits_bind; [by apply permits_EvalScript|done].
    + intros s'. destruct (has_bit f' SCRIPT_VERIFY_CLEANSTACK) eqn:Hc; [by rewrite (sub _ Hc)|]. by intros [] _.
  - destruct (has_bit f' SCRIPT_VERIFY_CLEANSTACK) eqn:Hc; [by specialize (Hclean eq_refl)|]. by intros [] _.
Qed.

(** C15: the flags are soft forks: a spend that is valid under some flags is
    valid under any part of them, as long as that part does not ask for a clean
    stack without script hashes, which the code rules out. *)
Theorem flags_are_soft_forks `{Crypto} `{SignatureChecker} f' f scriptSig scriptPubKey :
  flags_sub f' f -> (has_bit f' SCRIPT_VERIFY_CLEANSTACK = true -> has_bit f' SCRIPT_VERIFY_P2SH = true) ->
  VerifyScript scriptSig scriptPubKey f = Done tt -> VerifyScript scriptSig scriptPubKey f' = Done tt.
Proof. intros Hsub Hclean. by apply permits_VerifyScript. Qed.

(** ** Multiple signatures *)

Section multisig.

Context `{Crypto} `{SignatureCheckerLaws}.

(** The signatures can be given to some of the keys, in order. *)
Definition assignable (code : CScript) (sigs keys : list valtype) : Prop :=
  exists ks, sublist ks keys /\ Forall2 (fun sig key => CheckSig sig key code = Ret true) sigs ks.

Lemma assignable_nil code keys : assignable code [] keys.
Proof. exists []. split; [apply sublist_nil_l|constructor]. Qed.

Lemma assignable_length code sigs keys : assignable code sigs keys -> (length sigs <= length keys)%nat.
Proof. intros (ks & Hs & Hf). etrans; [apply Nat.eq_le_incl, (Forall2_length Hf)|by apply sublist_length]. Qed.

(** Using the first key for the first signature it fits loses nothing. *)
Lemma assignable_step code sig sigs key keys b : CheckSig sig key code = Ret b ->
  assignable code (sig :: sigs) (key :: keys) <-> assignable code (if b then sigs else sig :: sigs) keys.
Proof.
  intros E. split.
  - intros (ks & Hs & Hf). inversion Hf as [|? k ? ks' Hk Hf']; subst. destruct b.
    + exists ks'. split; [|done]. inversion Hs as [|? ? ? Hs'|? ? ? Hs']; subst; [done|]. by apply sublist_cons_l in Hs' as (? & ? & -> & ?); apply sublist_inserts_l, sublist_cons.
    + inversion Hs as [|? ? ? Hs'|? ? ? Hs']; subst; [congruence|]. by exists (k :: ks').
  - intros (ks & Hs & Hf). destruct b.
    + exists (key :: ks). split; [by apply sublist_skip|by constructor].
    + exists ks. split; [by apply sublist_cons|done].
Qed.

Definition encodings_ok (flags : Z) (sigs keys : list valtype) : Prop :=
  Forall (fun sig => CheckSignatureEncoding sig flags = Done tt) sigs /\
  Forall (fun key => CheckPubKeyEncoding key flags = Done tt) keys.

Lemma multisig_loop_spec flags code keys : forall sigs, encodings_ok flags sigs keys -> (length sigs <= length keys)%nat ->
  exists b : bool, multisig_loop sigs keys flags code = Done b /\ (b = true <-> assignable code sigs keys).
Proof.
  induction keys as [|key keys IH]; intros [|sig sigs] [He Hk] Hl; cbn [multisig_loop].
  1,3: by exists true; split; [|split; [intros _; apply assignable_nil|]].
  { cbn in Hl. lia. }
  inversion He as [|? ? E1 He']; inversion Hk as [|? ? E2 Hk']; subst. rewrite E1, E2. cbn [mbind eval_bind].
  destruct (CheckSig_total sig key code) as [ok E]. rewrite E. cbn [lift mbind eval_bind].
  pose proof (assignable_step code sig sigs key keys ok E) as Hstep. set (rest := if ok then sigs else sig :: sigs) in *.
  assert (encodings_ok flags rest keys) as Hrest by (subst rest; by destruct ok).
  unfold size. rewrite Z.gtb_ltb. destruct (Z.ltb_spec (Z.of_nat (length keys)) (Z.of_nat (length rest))) as [Hlt|Hge].
  - exists false. split; [done|]. split; [done|]. rewrite Hstep. intros Ha%assignable_length. lia.
  - destruct (IH rest Hrest) as (b & Eb & Hb); [lia|]. exists b. split; [done|]. by rewrite Hstep.
Qed.

Lemma multisig_cleanup_ok (fSuccess : bool) flags : forall args rest n i, n = length args -> (fSuccess = true \/ has_bit flags SCRIPT_VERIFY_NULLFAIL = false) ->
  multisig_cleanup n fSuccess flags i (args ++ rest) = Done rest.
Proof.
  induction args as [|x args IH]; intros rest n i -> Hn; [done|]. cbn [length app multisig_cleanup].
  assert ((negb fSuccess && has_bit flags SCRIPT_VERIFY_NULLFAIL)%bool = false) as Hz by (by destruct Hn as [->| ->]; [|apply andb_false_r]).
  rewrite Hz. cbn [andb]. by apply IH.
Qed.

(** A count that fits a number of the script *)
Lemma num_count req n : 0 <= n <= 20 -> num req (num_serialize n) = Done n /\ getint n = n.
Proof.
  intros Hn. assert (exists k, (k <= 20)%nat /\ n = Z.of_nat k) as (k & Hk & ->) by (exists (Z.to_nat n); lia).
  do 21 (destruct k as [|k]; [by destruct req|]). lia.
Qed.

Lemma multisig_cleanup_keys flags : forall args rest n m i, n = length args -> 0 <= i -> i = size args ->
  multisig_cleanup (n + m) false flags i (args ++ rest) = multisig_cleanup m false flags 0 rest.
Proof.
  induction args as [|x args IH]; intros rest n m i -> Hi Ei; [by rewrite Ei|]. unfold size in Ei. cbn [length app Nat.add multisig_cleanup] in *.
  rewrite (proj2 (Z.eqb_neq i 0)), andb_false_r by lia. cbn [andb]. rewrite Z.gtb_ltb, (proj2 (Z.ltb_lt _ _)) by lia.
  apply IH; [done|lia|unfold size; lia].
Qed.

Lemma multisig_cleanup_empty flags i : forall sigs rest, Forall (fun sig => sig = []) sigs -> i = 0 ->
  multisig_cleanup (length sigs) false flags i (sigs ++ rest) = Done rest.
Proof.
  intros sigs rest He ->. induction He as [|x sigs -> _ IH]; [done|]. cbn [length app multisig_cleanup].
  by rewrite andb_false_r.
Qed.
Lemma multisig_cleanup_sigs flags : has_bit flags SCRIPT_VERIFY_NULLFAIL = true -> forall sigs rest n, n = length sigs ->
  Exists (fun sig => sig <> []) sigs -> multisig_cleanup n false flags 0 (sigs ++ rest) = Fail SCRIPT_ERR_SIG_NULLFAIL.
Proof.
  intros Hf. induction sigs as [|sig sigs IH]; intros rest n -> He; [by inversion He|]. cbn [length app multisig_cleanup]. rewrite Hf. cbn [negb andb Z.eqb Z.gtb Z.compare].
  destruct sig as [|x sig]; [|done]. cbn. apply IH; [done|]. by inversion He.
Qed.

Lemma lookup_after {A} (x : A) l k y n : n = S (length l) -> (x :: l ++ y :: k) !! n = Some y.
Proof. intros ->. cbn. by apply list_lookup_middle. Qed.

Lemma multisig_run flags req codehash code nOp keys sigs dummy s (b : bool) :
  size keys <= MAX_PUBKEYS_PER_MULTISIG -> size sigs <= size keys -> nOp + size keys <= MAX_OPS_PER_SCRIPT ->
  drop_signatures sigs flags codehash = Done code -> multisig_loop sigs keys flags code = Done b ->
  let args := (num_serialize (size keys) :: keys ++ [num_serialize (size sigs)]) ++ sigs in
  op_CHECKMULTISIG OP_CHECKMULTISIG flags req codehash nOp (args ++ dummy :: s) =
  (r ← multisig_cleanup (length args) b flags (size keys + 2) (args ++ dummy :: s);
   match r with
   | [] => bad_stack
   | dummy :: s => if (has_bit flags SCRIPT_VERIFY_NULLDUMMY && negb (size dummy =? 0))%bool then Fail SCRIPT_ERR_SIG_NULLDUMMY
                   else Done (nOp + size keys, of_bool b :: s)
   end).
Proof.
  intros Hk Hs Hn Hdrop Hloop args. unfold op_CHECKMULTISIG, MAX_PUBKEYS_PER_MULTISIG, MAX_OPS_PER_SCRIPT in *.
  pose proof (size_nonneg keys). pose proof (size_nonneg sigs).
  destruct (num_count req (size keys)) as [E1 G1]; [lia|]. destruct (num_count req (size sigs)) as [E2 G2]; [lia|].
  assert (length args = (2 + length keys + length sigs)%nat) as Hlen by (subst args; cbn [app length]; rewrite !length_app; cbn; lia).
  assert (size (args ++ dummy :: s) >= 3 + size keys + size sigs) as Hsize by (unfold size; rewrite length_app, Hlen; cbn [length]; lia).
  assert (args ++ dummy :: s = num_serialize (size keys) :: keys ++ num_serialize (size sigs) :: sigs ++ dummy :: s) as Hargs
    by (subst args; cbn [app]; by rewrite <- !app_assoc).
  rewrite (proj2 (Z.ltb_ge _ 1)) by lia. rewrite Hargs at 1. cbn [lookup list_lookup throws mbind eval_bind]. rewrite E1. cbn [mbind eval_bind]. rewrite G1.
  rewrite (proj2 (Z.ltb_ge _ 0)), Z.gtb_ltb, (proj2 (Z.ltb_ge 20 _)) by lia. cbn [orb].
  rewrite Z.gtb_ltb, (proj2 (Z.ltb_ge 201 _)), (proj2 (Z.ltb_ge _ (2 + _))) by lia.
  rewrite Hargs at 1. rewrite lookup_after by (unfold size; lia). cbn [throws mbind eval_bind]. rewrite E2. cbn [mbind eval_bind]. rewrite G2.
  rewrite (proj2 (Z.ltb_ge _ 0)), Z.gtb_ltb, (proj2 (Z.ltb_ge (size keys) _)) by lia. cbn [orb].
  rewrite (proj2 (Z.ltb_ge _ (3 + _ + _))) by lia.
  assert (take (Z.to_nat (size keys)) (drop 1 (args ++ dummy :: s)) = keys) as ->.
  { rewrite Hargs. cbn [drop]. unfold size. rewrite Nat2Z.id. apply take_app_length. }
  assert (take (Z.to_nat (size sigs)) (drop (Z.to_nat (2 + size keys)) (args ++ dummy :: s)) = sigs) as ->.
  { rewrite Hargs. replace (Z.to_nat (2 + size keys)) with (S (length keys + 1)) by (unfold size; lia). cbn [drop].
    rewrite <- drop_drop, drop_app_length. cbn [drop]. unfold size. rewrite Nat2Z.id. apply take_app_length. }
  rewrite Hdrop. cbn [mbind eval_bind]. rewrite Hloop. cbn [mbind eval_bind].
  replace (Z.to_nat (3 + size keys + size sigs - 1)) with (length args) by (rewrite Hlen; unfold size; lia). done.
Qed.

(** C17: CHECKMULTISIG is complete. With well-encoded signatures and keys, at
    most as many signatures as keys, counts within the limits on keys and
    operations, and an empty dummy element where NULLDUMMY asks for one, the
    operation answers true exactly when the signatures can be given, in order,
    to some of the keys, although it tries each key once and never goes back. It
    answers false otherwise, except that under NULLFAIL a failure with a
    signature that is not empty is an error. *)
Theorem CHECKMULTISIG_exact flags req codehash code nOp keys sigs dummy s :
  size keys <= MAX_PUBKEYS_PER_MULTISIG -> size sigs <= size keys -> nOp + size keys <= MAX_OPS_PER_SCRIPT ->
  drop_signatures sigs flags codehash = Done code -> encodings_ok flags sigs keys ->
  (has_bit flags SCRIPT_VERIFY_NULLDUMMY = true -> dummy = []) ->
  let stack := num_serialize (size keys) :: keys ++ num_serialize (size sigs) :: sigs ++ dummy :: s in
  let run := op_CHECKMULTISIG OP_CHECKMULTISIG flags req codehash nOp stack in
  (assignable code sigs keys -> run = Done (nOp + size keys, vchTrue :: s)) /\
  (~ assignable code sigs keys -> has_bit flags SCRIPT_VERIFY_NULLFAIL = false -> run = Done (nOp + size keys, vchFalse :: s)) /\
  (~ assignable code sigs keys -> has_bit flags SCRIPT_VERIFY_NULLFAIL = true -> Exists (fun sig => sig <> []) sigs ->
     run = Fail SCRIPT_ERR_SIG_NULLFAIL) /\
  (~ assignable code sigs keys -> Forall (fun sig => sig = []) sigs -> run = Done (nOp + size keys, vchFalse :: s)).
Proof.
  intros Hk Hs Hn Hdrop Henc Hdummy stack run.
  destruct (multisig_loop_spec flags code keys sigs Henc) as (b & Eb & Hb); [unfold size in *; lia|].
  pose proof (multisig_run flags req codehash code nOp keys sigs dummy s b Hk Hs Hn Hdrop Eb) as Hrun. cbv zeta in Hrun.
  set (args := (_ :: _) ++ sigs) in Hrun. assert (args ++ dummy :: s = stack) as Hargs by (subst args stack; cbn [app]; by rewrite <- !app_assoc).
  rewrite Hargs in Hrun. fold run in Hrun.
  assert ((has_bit flags SCRIPT_VERIFY_NULLDUMMY && negb (size dummy =? 0))%bool = false) as Hd.
  { destruct (has_bit flags SCRIPT_VERIFY_NULLDUMMY); [by rewrite Hdummy|done]. }
  split; [|split; [|split]].
  - intros Ha%Hb. subst b. rewrite Hrun, <- Hargs, multisig_cleanup_ok by auto. cbn [mbind eval_bind]. by rewrite Hd.
  - intros Ha Hf. destruct b; [by destruct Ha; apply Hb|]. rewrite Hrun, <- Hargs, multisig_cleanup_ok by auto. cbn [mbind eval_bind]. by rewrite Hd.
  - intros Ha Hf He. destruct b; [by destruct Ha; apply Hb|]. rewrite Hrun, <- Hargs. subst args. rewrite <- app_assoc.
    rewrite length_app. rewrite multisig_cleanup_keys; [|done|pose proof (size_nonneg keys); lia|unfold size; cbn [length]; rewrite length_app; cbn; lia].
    by rewrite multisig_cleanup_sigs.
  - intros Ha He. destruct b; [by destruct Ha; apply Hb|]. rewrite Hrun, <- Hargs. subst args. rewrite <- app_assoc.
    rewrite length_app. rewrite multisig_cleanup_keys; [|done|pose proof (size_nonneg keys); lia|unfold size; cbn [length]; rewrite length_app; cbn; lia].
    rewrite multisig_cleanup_empty by done. cbn [mbind eval_bind]. by rewrite Hd.
Qed.

End multisig.

(** ** Standard payments *)

Section payments.

Context `{Crypto} `{SignatureChecker}.

Definition start (script : CScript) (s : list valtype) : exec := mkExec script script s [] cond_new 0.

Lemma eval_loop_end fuel flags e : pc e = [] -> eval_loop fuel flags e = Done e.
Proof. intros E. destruct fuel; cbn [eval_loop]; by rewrite E. Qed.

Lemma eval_loop_turn fuel flags e : pc e <> [] -> eval_loop (S fuel) flags e = (e ← eval_step flags e; eval_loop fuel flags e).
Proof. intros E. cbn [eval_loop]. by destruct (pc e). Qed.

(** The check after a turn *)
Definition sized (e : exec) : eval exec :=
  if size (stack e) + size (altstack e) >? MAX_STACK_SIZE then Fail SCRIPT_ERR_STACK_SIZE else Done e.

Lemma push_minimal b : 2 <= size b < 2^16 -> CheckMinimalPush b (push_opcode b) = Done true.
Proof.
  intros Hb. unfold CheckMinimalPush. pose proof (push_opcode_range b).
  rewrite (proj2 (Z.leb_le 0 _)), (proj2 (Z.leb_le _ OP_PUSHDATA4)) by lia. cbn [andb negb].
  rewrite (proj2 (Z.eqb_neq (size b) 0)), (proj2 (Z.eqb_neq (size b) 1)) by lia. cbn [andb].
  unfold push_opcode, OP_PUSHDATA1, OP_PUSHDATA2 in *.
  destruct (Z.ltb_spec (size b) 0x4c), (Z.leb_spec (size b) 75), (Z.leb_spec (size b) 255), (Z.leb_spec (size b) 65535); try lia;
    f_equal; try apply Z.eqb_refl; done.
Qed.

Lemma eval_step_push flags e b rest : pc e = script_push b ++ rest -> 2 <= size b <= MAX_SCRIPT_ELEMENT_SIZE -> all_true (vfExec e) = true ->
  eval_step flags e = sized (mkExec rest (codehash e) (b :: stack e) (altstack e) (vfExec e) (nOpCount e)).
Proof.
  unfold MAX_SCRIPT_ELEMENT_SIZE. intros Hpc Hb Ht. unfold eval_step. rewrite Hpc, GetScriptOp_push, Ht by lia.
  unfold MAX_SCRIPT_ELEMENT_SIZE. rewrite Z.gtb_ltb, (proj2 (Z.ltb_ge 520 _)) by lia. pose proof (push_opcode_range b) as Hr.
  assert (forall x, OP_PUSHDATA4 < x -> (push_opcode b =? x) = false) as Hne by (intros x Hx; apply Z.eqb_neq; lia).
  unfold OP_16. rewrite Z.gtb_ltb, (proj2 (Z.ltb_ge 0x60 _)) by (unfold OP_PUSHDATA4 in Hr; lia). cbn [andb].
  unfold one_of. cbn [existsb]. rewrite !Hne by done. cbn [orb andb].
  rewrite (proj2 (Z.leb_le 0 _)), (proj2 (Z.leb_le _ OP_PUSHDATA4)) by lia. cbn [andb].
  rewrite push_minimal by lia. by destruct (has_bit flags SCRIPT_VERIFY_MINIMALDATA).
Qed.

Lemma eval_step_op flags e opcode rest : pc e = opcode :: rest -> OP_16 < opcode -> nOpCount e < MAX_OPS_PER_SCRIPT -> all_true (vfExec e) = true ->
  one_of opcode [OP_INVERT; OP_2MUL; OP_2DIV; OP_MUL; OP_LSHIFT; OP_RSHIFT; OP_CODESEPARATOR] = false ->
  eval_step flags e =
  (e ← exec_op flags true opcode (mkExec rest (codehash e) (stack e) (altstack e) (vfExec e) (nOpCount e + 1)); sized e).
Proof.
  unfold OP_16, MAX_OPS_PER_SCRIPT. intros Hpc Hop Hn Ht Hdis. unfold eval_step. rewrite Hpc, Ht.
  assert (GetScriptOp (opcode :: rest) = Some (opcode, [], rest)) as ->.
  { unfold GetScriptOp, OP_PUSHDATA4. by rewrite (proj2 (Z.leb_gt opcode _)) by lia. }
  unfold OP_16, MAX_OPS_PER_SCRIPT. cbn [size length Z.of_nat Z.gtb Z.compare MAX_SCRIPT_ELEMENT_SIZE].
  change (size [] >? MAX_SCRIPT_ELEMENT_SIZE) with false. cbv iota.
  rewrite Z.gtb_ltb, (proj2 (Z.ltb_lt _ _)) by lia. rewrite Z.gtb_ltb, (proj2 (Z.ltb_ge 201 _)) by lia. cbn [andb].
  unfold one_of in *. cbn [existsb] in *. rewrite !orb_false_iff in Hdis. destruct Hdis as (E1 & E2 & E3 & E4 & E5 & E6 & E7 & _).
  rewrite E1, E2, E3, E4, E5, E6, E7. cbn [orb andb]. unfold OP_PUSHDATA4. rewrite (proj2 (Z.leb_gt opcode _)) by lia. rewrite andb_false_r. done.
Qed.

(** A copy that cannot start here *)
Lemma skip_copies_none fuel b pc n : (forall x r, pc = x :: r -> head b <> Some x) -> b <> [] -> skip_copies fuel b pc n = (pc, n).
Proof.
  intros Hx Hb. destruct fuel; cbn [skip_copies]; [done|]. rewrite bool_decide_false; [done|]. destruct b as [|y b]; [done|].
  destruct pc as [|x r]; [done|]. cbn. intros [= E _]. apply (Hx x r eq_refl). by rewrite E.
Qed.

(** A script none of whose operations starts like the bytes to delete *)
Fixpoint avoids (fuel : nat) (c : Z) (pc : CScript) : Prop :=
  match fuel, pc with
  | S f, x :: _ => x <> c /\ match GetScriptOp pc with Some (_, _, rest) => avoids f c rest | None => True end
  | _, _ => True
  end.

Lemma find_and_delete_avoids c b : forall fuel pc2 pc result, avoids fuel c pc -> (length pc < fuel)%nat ->
  (find_and_delete_loop fuel (c :: b) pc2 pc result 0).2 = 0.
Proof.
  induction fuel as [|f IH]; intros pc2 pc result Ha Hl; [lia|]. cbn [find_and_delete_loop].
  rewrite skip_copies_none; [|intros x r ->; cbn in Ha |- *; intros [= ->]; by destruct Ha|done].
  destruct (GetScriptOp pc) as [[[op v] rest]|] eqn:E; [|done].
  pose proof (GetScriptOp_shorter _ _ _ _ E). apply IH; [|lia]. destruct pc as [|x r]; [done|]. cbn [avoids] in Ha. rewrite E in Ha. by destruct Ha.
Qed.

Lemma FindAndDelete_avoids script sig : avoids (S (length script)) (push_opcode sig) script -> FindAndDelete script (script_push sig) = (0, script).
Proof.
  intros Ha. unfold FindAndDelete. destruct (script_push_head sig) as [r ->].
  rewrite (proj2 (Z.eqb_neq _ 0)) by (unfold size; cbn; lia).
  pose proof (find_and_delete_avoids (push_opcode sig) r _ script script [] Ha (Nat.lt_succ_diag_r _)) as E.
  destruct (find_and_delete_loop _ _ _ _ _ _) as [[result pc2] n]. cbn in E. by subst n.
Qed.

(** [OP_DUP OP_HASH160 <h> OP_EQUALVERIFY OP_CHECKSIG] and [OP_HASH160 <h> OP_EQUAL] *)
Definition P2PKH (h : list Z) : CScript := [OP_DUP; OP_HASH160] ++ script_push h ++ [OP_EQUALVERIFY; OP_CHECKSIG].
Definition P2SH (h : list Z) : CScript := [OP_HASH160] ++ script_push h ++ [OP_EQUAL].

Lemma script_push_20 h : length h = 20%nat -> script_push h = 20 :: h.
Proof. intros E. unfold script_push, size. by rewrite E. Qed.

Lemma P2PKH_avoids h sig : length h = 20%nat -> size sig <> 20 -> size sig < 2^16 -> FindAndDelete (P2PKH h) (script_push sig) = (0, P2PKH h).
Proof.
  intros Hh Hs Hl. apply FindAndDelete_avoids. pose proof (push_opcode_range sig) as Hr. unfold OP_PUSHDATA4 in Hr.
  assert (push_opcode sig <> 20) as Hne.
  { unfold push_opcode, OP_PUSHDATA1, OP_PUSHDATA2, OP_PUSHDATA4. destruct (Z.ltb_spec (size sig) 0x4c); [done|]. repeat case_match; lia. }
  assert (size h < 2^32) as Hsz by (unfold size; rewrite Hh; lia).
  unfold P2PKH. cbn [app length avoids]. split; [unfold OP_DUP; lia|].
  change (GetScriptOp (OP_DUP :: ?r)) with (Some (OP_DUP, [] : list Z, r)). cbv iota. cbn [avoids]. split; [unfold OP_HASH160; lia|].
  change (GetScriptOp (OP_HASH160 :: ?r)) with (Some (OP_HASH160, [] : list Z, r)). cbv iota.
  rewrite length_app, script_push_20 by done. cbn [length Nat.add avoids app]. split; [done|].
  change (20 :: h ++ ?r) with ((20 :: h) ++ r). rewrite <- (script_push_20 h Hh), GetScriptOp_push by done.
  rewrite Hh. cbn [Nat.add avoids]. split; [unfold OP_EQUALVERIFY; lia|].
  change (GetScriptOp (OP_EQUALVERIFY :: ?r)) with (Some (OP_EQUALVERIFY, [] : list Z, r)). cbv iota. cbn [avoids]. split; [unfold OP_CHECKSIG; lia|]. done.
Qed.

Lemma small_stack_sized e : size (stack e) + size (altstack e) <= 1000 -> sized e = Done e.
Proof. intros Hs. unfold sized, MAX_STACK_SIZE. by rewrite Z.gtb_ltb, (proj2 (Z.ltb_ge 1000 _)) by lia. Qed.

(** A script that pushes two values *)
Lemma EvalScript_push2 flags a b : 2 <= size a <= MAX_SCRIPT_ELEMENT_SIZE -> 2 <= size b <= MAX_SCRIPT_ELEMENT_SIZE ->
  EvalScript [] (script_push a ++ script_push b) flags = Done [b; a].
Proof.
  intros Ha Hb. unfold EvalScript. destruct (script_push_head a) as [ra Ea], (script_push_head b) as [rb Eb].
  assert (size (script_push a ++ script_push b) <= 1050) as Hl.
  { pose proof (script_push_size a). pose proof (script_push_size b). unfold size, MAX_SCRIPT_ELEMENT_SIZE in *. rewrite length_app. lia. }
  unfold MAX_SCRIPT_SIZE. rewrite Z.gtb_ltb, (proj2 (Z.ltb_ge 10000 _)) by lia.
  assert (exists n, length (script_push a ++ script_push b) = S (S n)) as [n ->].
  { rewrite length_app, Ea, Eb. cbn [length]. exists (length ra + length rb)%nat. lia. }
  rewrite eval_loop_turn by (by rewrite Ea). rewrite (eval_step_push _ _ a (script_push b)) by done. cbn [stack altstack codehash vfExec nOpCount].
  rewrite small_stack_sized by done. cbn [mbind eval_bind].
  rewrite eval_loop_turn by (cbn [pc]; by rewrite Eb). rewrite (eval_step_push _ _ b []) by (try done; cbn [pc]; by rewrite app_nil_r). cbn [stack altstack codehash vfExec nOpCount].
  rewrite small_stack_sized by done. cbn [mbind eval_bind]. rewrite eval_loop_end by done. done.
Qed.

Lemma push_only_2 a b : size a < 2^16 -> size b < 2^16 -> IsPushOnly (script_push a ++ script_push b) = true.
Proof.
  intros Ha Hb. unfold IsPushOnly. destruct (script_push_head a) as [ra Ea], (script_push_head b) as [rb Eb].
  assert (exists n, length (script_push a ++ script_push b) = S (S n)) as [n ->].
  { rewrite length_app, Ea, Eb. cbn [length]. exists (length ra + length rb)%nat. lia. }
  cbn [push_only_loop]. pose proof (push_opcode_range a). pose proof (push_opcode_range b). unfold OP_PUSHDATA4, OP_16 in *.
  destruct (script_push a ++ script_push b) eqn:E; [done|]. rewrite <- E, GetScriptOp_push by lia. rewrite Z.gtb_ltb, (proj2 (Z.ltb_ge _ _)) by lia.
  destruct (script_push b) eqn:E'; [done|]. rewrite <- E', <- (app_nil_r (script_push b)), GetScriptOp_push by lia. rewrite Z.gtb_ltb, (proj2 (Z.ltb_ge _ _)) by lia.
  by destruct n.
Qed.

(** Unfolding the records and the binds of a run *)
Ltac tidy := cbn [pc codehash stack altstack vfExec nOpCount with_stack on_stack mbind eval_bind].

Lemma EvalScript_P2PKH flags h key sig s : length h = 20%nat -> size s <= 990 ->
  EvalScript (key :: sig :: s) (P2PKH h) flags =
  if bool_decide (Hash160 key = h) then (ok ← EvalChecksig sig key (P2PKH h) flags; Done (of_bool ok :: s)) else Fail SCRIPT_ERR_EQUALVERIFY.
Proof.
  intros Hh Hs. assert (2 <= size h <= MAX_SCRIPT_ELEMENT_SIZE) as Hsz by (unfold size, MAX_SCRIPT_ELEMENT_SIZE; rewrite Hh; lia).
  assert (length (P2PKH h) = 25%nat) as Hl by (unfold P2PKH; rewrite script_push_20 by done; rewrite !length_app; cbn [length]; rewrite Hh; done).
  unfold EvalScript, size at 1. rewrite Hl. change (Z.of_nat 25 >? MAX_SCRIPT_SIZE) with false. cbv iota.
  assert (forall x, size (x :: s : list (list Z)) = size s + 1) as Hc by (intros; unfold size; cbn [length]; lia).
  rewrite eval_loop_turn by done. rewrite (eval_step_op _ _ OP_DUP (OP_HASH160 :: script_push h ++ [OP_EQUALVERIFY; OP_CHECKSIG])) by reflexivity.
  change (exec_op flags true OP_DUP ?e) with (on_stack e (op_DUP (stack e))). tidy; cbn [op_DUP]; tidy.
  rewrite small_stack_sized by (unfold size in *; cbn [with_stack stack altstack length]; lia). tidy.
  rewrite eval_loop_turn by done. rewrite (eval_step_op _ _ OP_HASH160 (script_push h ++ [OP_EQUALVERIFY; OP_CHECKSIG])) by reflexivity.
  change (exec_op flags true OP_HASH160 ?e) with (on_stack e (op_HASH OP_HASH160 (stack e))). tidy; cbn [op_HASH]; tidy.
  change (if OP_HASH160 =? OP_RIPEMD160 then _ else _) with (Hash160 key).
  rewrite small_stack_sized by (unfold size in *; cbn [with_stack stack altstack length]; lia). tidy.
  rewrite eval_loop_turn by (cbn [pc]; rewrite script_push_20; done).
  rewrite (eval_step_push _ _ h [OP_EQUALVERIFY; OP_CHECKSIG]) by (done || reflexivity). tidy.
  rewrite small_stack_sized by (unfold size in *; cbn [with_stack stack altstack length]; lia). tidy.
  rewrite eval_loop_turn by done. rewrite (eval_step_op _ _ OP_EQUALVERIFY [OP_CHECKSIG]) by reflexivity.
  change (exec_op flags true OP_EQUALVERIFY ?e) with (on_stack e (op_EQUAL OP_EQUALVERIFY (stack e))). tidy; cbn [op_EQUAL].
  change (OP_EQUALVERIFY =? OP_EQUALVERIFY) with true. cbv iota. destruct (bool_decide (Hash160 key = h)); [|done].
  tidy. rewrite small_stack_sized by (unfold size in *; cbn [with_stack stack altstack length]; lia). tidy.
  rewrite eval_loop_turn by done. rewrite (eval_step_op _ _ OP_CHECKSIG []) by reflexivity.
  change (exec_op flags true OP_CHECKSIG ?e) with (on_stack e (op_CHECKSIG OP_CHECKSIG flags (codehash e) (stack e))). tidy; cbn [op_CHECKSIG].
  destruct (EvalChecksig sig key (P2PKH h) flags) as [ok| |]; [|done|done]. tidy.
  change (OP_CHECKSIG =? OP_CHECKSIGVERIFY) with false. cbv iota. tidy.
  rewrite small_stack_sized by (unfold size in *; cbn [with_stack stack altstack length]; lia). tidy. by rewrite eval_loop_end.
Qed.

Lemma EvalScript_P2SH flags h x s : length h = 20%nat -> size s <= 998 ->
  EvalScript (x :: s) (P2SH h) flags = Done (of_bool (bool_decide (Hash160 x = h)) :: s).
Proof.
  intros Hh Hs. assert (2 <= size h <= MAX_SCRIPT_ELEMENT_SIZE) as Hsz by (unfold size, MAX_SCRIPT_ELEMENT_SIZE; rewrite Hh; lia).
  assert (length (P2SH h) = 23%nat) as Hl by (unfold P2SH; rewrite script_push_20 by done; rewrite !length_app; cbn [length]; rewrite Hh; done).
  unfold EvalScript, size at 1. rewrite Hl. change (Z.of_nat 23 >? MAX_SCRIPT_SIZE) with false. cbv iota.
  rewrite eval_loop_turn by done. rewrite (eval_step_op _ _ OP_HASH160 (script_push h ++ [OP_EQUAL])) by reflexivity.
  change (exec_op flags true OP_HASH160 ?e) with (on_stack e (op_HASH OP_HASH160 (stack e))). tidy; cbn [op_HASH]; tidy.
  change (if OP_HASH160 =? OP_RIPEMD160 then _ else _) with (Hash160 x).
  rewrite small_stack_sized by (unfold size in *; cbn [with_stack stack altstack length]; lia). tidy.
  rewrite eval_loop_turn by (cbn [pc]; rewrite script_push_20; done).
  rewrite (eval_step_push _ _ h [OP_EQUAL]) by (done || reflexivity). tidy.
  rewrite small_stack_sized by (unfold size in *; cbn [with_stack stack altstack length]; lia). tidy.
  rewrite eval_loop_turn by done. rewrite (eval_step_op _ _ OP_EQUAL []) by reflexivity.
  change (exec_op flags true OP_EQUAL ?e) with (on_stack e (op_EQUAL OP_EQUAL (stack e))). tidy; cbn [op_EQUAL].
  change (OP_EQUAL =? OP_EQUALVERIFY) with false. cbv iota. tidy.
  rewrite small_stack_sized by (unfold size in *; cbn [with_stack stack altstack length]; lia). tidy. by rewrite eval_loop_end.
Qed.

Lemma P2PKH_not_P2SH h : length h = 20%nat -> IsPayToScriptHash (P2PKH h) = false.
Proof. intros Hh. unfold IsPayToScriptHash, P2PKH. rewrite script_push_20 by done. cbn [app length]. rewrite length_app, Hh. done. Qed.

Lemma P2SH_is_P2SH h : length h = 20%nat -> IsPayToScriptHash (P2SH h) = true.
Proof.
  intros Hh. unfold IsPayToScriptHash, P2SH. rewrite script_push_20 by done. do 21 (destruct h as [|? h]; [done|]). done.
Qed.

(** The last test of [VerifyScript] on a stack of one *)
Lemma clean_one flags (x : valtype) : (has_bit flags SCRIPT_VERIFY_CLEANSTACK = true -> has_bit flags SCRIPT_VERIFY_P2SH = true) ->
  (if has_bit flags SCRIPT_VERIFY_CLEANSTACK then
     if negb (has_bit flags SCRIPT_VERIFY_P2SH) then Crash else guard_err (size [x] =? 1) SCRIPT_ERR_CLEANSTACK
   else Done tt) = Done tt.
Proof. intros Hc. destruct (has_bit flags SCRIPT_VERIFY_CLEANSTACK); [by rewrite Hc|done]. Qed.

(** Paying to a key hash. A signature and a key, pushed in this order,
    spend an output to the hash [h] if and only if the key hashes to [h], both
    are encoded as the flags ask, and the signature checks over the output
    script itself. *)
Theorem P2PKH_exact flags h sig key :
  length h = 20%nat -> 2 <= size sig <= MAX_SCRIPT_ELEMENT_SIZE -> size sig <> 20 -> 2 <= size key <= MAX_SCRIPT_ELEMENT_SIZE ->
  (has_bit flags SCRIPT_VERIFY_CLEANSTACK = true -> has_bit flags SCRIPT_VERIFY_P2SH = true) ->
  VerifyScript (script_push sig ++ script_push key) (P2PKH h) flags = Done tt <->
  Hash160 key = h /\ CheckSignatureEncoding sig flags = Done tt /\ CheckPubKeyEncoding key flags = Done tt /\
  CheckSig sig key (P2PKH h) = Ret true.
Proof.
  intros Hh Hs Hs20 Hk Hclean. unfold VerifyScript. rewrite push_only_2 by (unfold MAX_SCRIPT_ELEMENT_SIZE in *; lia). rewrite andb_false_r.
  rewrite EvalScript_push2 by done. tidy. rewrite EvalScript_P2PKH by done. rewrite P2PKH_not_P2SH, andb_false_r by done.
  unfold EvalChecksig. rewrite P2PKH_avoids by (done || unfold MAX_SCRIPT_ELEMENT_SIZE in *; lia). cbn [Z.gtb Z.compare andb].
  destruct (bool_decide_reflect (Hash160 key = h)) as [E|E]; [|split; [done|tauto]].
  destruct (CheckSignatureEncoding sig flags) as [[]| |]; [|split; [done|naive_solver]..]. tidy.
  destruct (CheckPubKeyEncoding key flags) as [[]| |]; [|split; [done|naive_solver]..]. tidy.
  destruct (CheckSig sig key (P2PKH h)) as [[]|]; [| |split; [done|naive_solver]]; cbn [lift]; tidy; cbn [negb andb].
  - cbn [of_bool check_top]. change (CastToBool vchTrue) with true. cbv iota. tidy. rewrite clean_one by done. split; [done|done].
  - split; [|naive_solver]. destruct (has_bit flags SCRIPT_VERIFY_NULLFAIL && negb (size sig =? 0))%bool; done.
Qed.

(** C18: paying to a script hash. Once the script of the input has left the
    redeem script on top of a stack with at most 998 other elements, the spend is valid if and only if the
    input only pushes, the redeem script hashes to [h], and running it on the
    rest of the stack leaves a true value, alone when the flags ask for a clean
    stack. *)
Theorem P2SH_exact flags h scriptSig redeem s :
  length h = 20%nat -> has_bit flags SCRIPT_VERIFY_P2SH = true ->
  EvalScript [] scriptSig flags = Done (redeem :: s) -> size s <= 998 ->
  VerifyScript scriptSig (P2SH h) flags = Done tt <->
  IsPushOnly scriptSig = true /\ Hash160 redeem = h /\
  exists s', EvalScript s redeem flags = Done s' /\ check_top s' = Done tt /\
    (has_bit flags SCRIPT_VERIFY_CLEANSTACK = true -> size s' = 1).
Proof.
  intros Hh Hp Hsig Hs. unfold VerifyScript. rewrite Hsig. tidy. rewrite EvalScript_P2SH by done. tidy.
  rewrite P2SH_is_P2SH, Hp by done. cbn [andb negb].
  destruct (IsPushOnly scriptSig); cbn [negb andb].
  2:{ split; [|by intros [? _]]. destruct (has_bit flags SCRIPT_VERIFY_SIGPUSHONLY); [done|]. cbn [andb].
      destruct (bool_decide _); done. }
  rewrite andb_false_r. destruct (bool_decide_reflect (Hash160 redeem = h)) as [E|E]; [|split; [done|tauto]].
  cbn [of_bool check_top]. change (CastToBool vchTrue) with true. cbv iota. tidy.
  destruct (EvalScript s redeem flags) as [s'| |]; [|split; [done|naive_solver]..]. tidy.
  destruct (check_top s') as [[]| |] eqn:Ht; [|split; [done|intros (_ & _ & s'' & [= <-] & ? & _); congruence]..]. tidy.
  destruct (has_bit flags SCRIPT_VERIFY_CLEANSTACK); [|split; [intros _; split_and!; eauto; eexists; split_and!; done|done]].
  unfold guard_err. destruct (Z.eqb_spec (size s') 1).
  - split; [intros _; split_and!; eauto; eexists; split_and!; done|done].
  - split; [done|]. intros (_ & _ & s'' & [= <-] & _ & H1). by specialize (H1 eq_refl).
Qed.

End payments.

(** ** Examples *)

(** Hashes that cut or pad, and a checker that compares a signature with the key *)
#[local] Instance demo_crypto : Crypto := {
  RIPEMD160 b := take 20 (b ++ repeat 0 20);
  SHA1 b := take 20 (b ++ repeat 1 20);
  SHA256 b := take 32 (b ++ repeat 0 32);
  ecdsa_verify _ _ _ := true;
  bls_verify _ _ _ := true;
  CheckLowS _ := true;
}.
#[local] Instance demo_checker : SignatureChecker := {
  CheckSig sig key _ := Ret (byte_at sig 1 =? byte_at key 1);
  CheckLockTime n := Ret (n <=? 100);
  CheckSequence n := Ret (n <=? 100);
}.
#[local] Instance demo_checker_laws : SignatureCheckerLaws.
Proof. split; eauto. Qed.

Definition demo_sig (n : Z) : list Z := repeat n 97.
Definition demo_key (n : Z) : list Z := repeat n 48.
Definition demo_hash : list Z := Hash160 (demo_key 7).
Definition every_flag : Z := foldr Z.lor 0 script_verify_flags.

Lemma flags_are_soft_forks_witness :
  VerifyScript (script_push (demo_sig 7) ++ script_push (demo_key 7)) (P2PKH demo_hash) every_flag = Done tt /\
  VerifyScript (script_push (demo_sig 7) ++ script_push (demo_key 7)) (P2PKH demo_hash) SCRIPT_VERIFY_P2SH = Done tt.
Proof.
  split; [vm_compute; reflexivity|].
  apply (flags_are_soft_forks SCRIPT_VERIFY_P2SH every_flag); [reflexivity|intros _; reflexivity|vm_compute; reflexivity].
Defined.

Lemma CHECKMULTISIG_exact_witness :
  let stack := num_serialize 3 :: [demo_key 1; demo_key 2; demo_key 3] ++ num_serialize 2 :: [demo_sig 1; demo_sig 3] ++ [] :: [[9]] in
  op_CHECKMULTISIG OP_CHECKMULTISIG every_flag true [] 0 stack = Done (3, [vchTrue; [9]]).
Proof.
  apply (CHECKMULTISIG_exact every_flag true [] [] 0 [demo_key 1; demo_key 2; demo_key 3] [demo_sig 1; demo_sig 3] [] [[9]]).
  - vm_compute. discriminate.
  - vm_compute. discriminate.
  - vm_compute. discriminate.
  - vm_compute. reflexivity.
  - split; repeat constructor.
  - reflexivity.
  - exists [demo_key 1; demo_key 3]. split; [apply sublist_skip, sublist_cons, sublist_skip, sublist_nil|].
    repeat constructor.
Defined.

Lemma P2PKH_exact_witness :
  VerifyScript (script_push (demo_sig 7) ++ script_push (demo_key 7)) (P2PKH demo_hash) every_flag = Done tt /\
  VerifyScript (script_push (demo_sig 6) ++ script_push (demo_key 7)) (P2PKH demo_hash) 0 <> Done tt.
Proof.
  split.
  - apply P2PKH_exact; try (vm_compute; (reflexivity || discriminate || (split; discriminate) || (intros _; reflexivity))).
    split; [reflexivity|]. split; [reflexivity|]. split; reflexivity.
  - rewrite P2PKH_exact; try (vm_compute; (reflexivity || discriminate || (split; discriminate) || (intros _; reflexivity))).
    intros (_ & _ & _ & Hc). vm_compute in Hc. discriminate.
Defined.

Lemma P2SH_exact_witness :
  VerifyScript (script_push (demo_sig 7) ++ script_push (script_push (demo_key 7) ++ [OP_CHECKSIG]))
    (P2SH (Hash160 (script_push (demo_key 7) ++ [OP_CHECKSIG]))) every_flag = Done tt.
Proof.
  apply (P2SH_exact every_flag _ _ (script_push (demo_key 7) ++ [OP_CHECKSIG]) [demo_sig 7]).
  - reflexivity.
  - reflexivity.
  - vm_compute. reflexivity.
  - vm_compute. discriminate.
  - split; [vm_compute; reflexivity|]. split; [reflexivity|]. exists [vchTrue]. split; [vm_compute; reflexivity|]. split; [reflexivity|intros _; reflexivity].
Defined.
