(* ===== verification/ScriptSafety.v ===== *)
(** * ScriptSafety: every run of the script machine ends within its limits
      (src/src/script/interpreter.cpp)

    No script reaches a failed assertion, whatever the flags allow; the stacks,
    their elements and the operation count stay within the limits of
    src/src/script/script.h; and the two counters that stand for the stack of
    conditions behave like that stack. *)

From Stdlib Require Import ZArith Lia.
From stdpp Require Import base list numbers option.
From S2P Require Import Prelude Arith256 Uint256 Serialize Transaction Script Interpreter ScriptRules.

(** ** Runs that do not crash *)

Definition safe {A} (P : A -> Prop) (r : eval A) : Prop :=
  match r with Done a => P a | Fail _ => True | Crash => False end.

Lemma safe_bind {A B} (Q : A -> Prop) (P : B -> Prop) r (k : A -> eval B) :
  safe Q r -> (forall a, Q a -> safe P (k a)) -> safe P (r ≫= k).
Proof. intros Hr Hk. destruct r; cbn in *; [by apply Hk|done|done]. Qed.

Lemma safe_if {A} (P : A -> Prop) (b : bool) x y : safe P x -> safe P y -> safe P (if b then x else y).
Proof. by destruct b. Qed.

Lemma safe_case {A} (P : A -> Prop) (b : bool) x y : (b = true -> safe P x) -> safe P y -> safe P (if b then x else y).
Proof. destruct b; auto. Qed.

Lemma safe_impl {A} (P Q : A -> Prop) r : safe P r -> (forall a, P a -> Q a) -> safe Q r.
Proof. destruct r; cbn; auto. Qed.

(** An element of a stack *)
Definition elem_ok (v : valtype) : Prop := bytes v /\ size v <= MAX_SCRIPT_ELEMENT_SIZE.

Lemma land_byte x y : is_byte x -> is_byte (Z.land x y).
Proof.
  unfold is_byte. intros Hx. assert (Z.land x y = (Z.land x y) mod 2^8) as ->; [|apply Z.mod_pos_bound; lia].
  rewrite <- Z.land_ones by lia. rewrite <- (Z.mod_small x (2^8)) by lia. rewrite <- Z.land_ones by lia.
  rewrite <- !Z.land_assoc. f_equal. by rewrite (Z.land_comm y), Z.land_assoc, Z.land_diag.
Qed.

Lemma lor_byte x y : is_byte x -> is_byte y -> is_byte (Z.lor x y) /\ is_byte (Z.lxor x y).
Proof.
  unfold is_byte. intros Hx Hy. assert (forall z, 0 <= z < 2^8 -> Z.land z (Z.ones 8) = z) as E by (intros; rewrite Z.land_ones, Z.mod_small; lia).
  assert (Z.land (Z.lor x y) (Z.ones 8) = Z.lor x y) as E1 by (by rewrite Z.land_lor_distr_l, !E).
  assert (Z.land (Z.lxor x y) (Z.ones 8) = Z.lxor x y) as E2.
  { apply Z.bits_inj'. intros i Hi. rewrite Z.land_spec, Z.lxor_spec. destruct (Z.testbit (Z.ones 8) i) eqn:Eo; [apply andb_true_r|].
    assert (forall z, 0 <= z < 2^8 -> Z.testbit z i = false) as Hz by (intros z Hz; rewrite <- (E z Hz), Z.land_spec, Eo; apply andb_false_r).
    by rewrite !Hz. }
  rewrite Z.land_ones in E1, E2 by lia. split; [rewrite <- E1|rewrite <- E2]; apply Z.mod_pos_bound; lia.
Qed.

Lemma num_serialize_ok n : - 2^40 < n < 2^40 -> elem_ok (num_serialize n).
Proof.
  intros Hn. destruct (num_serialize_spec n) as (Hb & _ & _); [lia|]. split; [done|].
  pose proof (num_serialize_size n ltac:(lia)). unfold MAX_SCRIPT_ELEMENT_SIZE. lia.
Qed.

Lemma CScriptNum_range v req max n : elem_ok v -> 0 < max <= 8 -> CScriptNum v req max = Some n -> Z.abs n < 2^(8 * max - 1).
Proof.
  intros [Hv _] Hmax E. destruct (CScriptNum_spec v req max n Hv ltac:(lia) E) as (Hs & -> & _ & _).
  destruct (decide (v = [])) as [->|Hne]; [cbn; assert (0 < 2^(8 * max - 1)) by (apply Z.pow_pos_nonneg; lia); done|].
  apply Z.lt_le_trans with (2^(8 * size v - 1)); [by apply num_value_bound|]. apply Z.pow_le_mono_r; lia.
Qed.

Lemma num_safe req v : elem_ok v -> safe (fun n => Z.abs n < 2^31) (num req v).
Proof.
  intros Hv. unfold num. destruct (CScriptNum v req nDefaultMaxNumSize) as [n|] eqn:E; cbn; [|done].
  apply (CScriptNum_range v req 4 n Hv); [lia|done].
Qed.

Lemma num5_safe req v : elem_ok v -> safe (fun n => Z.abs n < 2^39) (num5 req v).
Proof.
  intros Hv. unfold num5. destruct (CScriptNum v req 5) as [n|] eqn:E; cbn; [|done]. by apply (CScriptNum_range v req 5 n Hv).
Qed.

(** Every element of a stack *)
Notation stack_ok := (Forall elem_ok).

(** A chain of tests of one opcode that one of them passes *)
Ltac opcode_cases Hop tac :=
  repeat match goal with |- safe _ (if ?x =? ?c then _ else _) => destruct (x =? c) eqn:?; [tac|] end;
  cbn [orb] in Hop; discriminate Hop.

Section safety.

Context `{CryptoLaws} `{SignatureCheckerLaws}.

Lemma of_bool_ok b : elem_ok (of_bool b).
Proof. destruct b; split; try done; repeat constructor; lia. Qed.

Lemma digest_elem n b : (n <= 32)%nat -> digest_ok n b -> elem_ok b.
Proof. intros Hn [Hl Hb]. split; [done|]. unfold size, MAX_SCRIPT_ELEMENT_SIZE. lia. Qed.

Lemma size_ok {A} (l : list A) : size l <= 1000 -> elem_ok (num_serialize (size l)).
Proof. intros Hl. apply num_serialize_ok. pose proof (size_nonneg l). lia. Qed.

(** The operations that only move elements *)
Lemma move_ops_safe s : stack_ok s -> size s <= 1000 ->
  safe stack_ok (op_2DROP s) /\ safe stack_ok (op_2DUP s) /\ safe stack_ok (op_3DUP s) /\ safe stack_ok (op_2OVER s) /\
  safe stack_ok (op_2ROT s) /\ safe stack_ok (op_2SWAP s) /\ safe stack_ok (op_IFDUP s) /\ safe stack_ok (op_DEPTH s) /\
  safe stack_ok (op_DROP s) /\ safe stack_ok (op_DUP s) /\ safe stack_ok (op_NIP s) /\ safe stack_ok (op_OVER s) /\
  safe stack_ok (op_ROT s) /\ safe stack_ok (op_SWAP s) /\ safe stack_ok (op_TUCK s) /\ safe stack_ok (op_SIZE s) /\ safe stack_ok (op_VERIFY s).
Proof.
  intros Hs Hl. pose proof (size_ok s Hl) as Hd.
  unfold op_2DROP, op_2DUP, op_3DUP, op_2OVER, op_2ROT, op_2SWAP, op_IFDUP, op_DEPTH, op_DROP, op_DUP, op_NIP, op_OVER, op_ROT, op_SWAP, op_TUCK, op_SIZE, op_VERIFY.
  split_and!; repeat (case_match; try done); cbn [safe]; subst; decompose_Forall_hyps; repeat (done || apply Forall_cons_2).
  match goal with H : elem_ok ?v |- elem_ok (num_serialize (size ?v)) => apply size_ok; destruct H; unfold MAX_SCRIPT_ELEMENT_SIZE in *; lia end.
Qed.

Lemma zip_bytes f v w : (forall x y, is_byte x -> is_byte y -> is_byte (f x y)) -> bytes v -> bytes w -> bytes (zip_with f v w).
Proof. intros Hf Hv. revert w. induction Hv as [|x v Hx Hv IH]; intros [|y w] Hw; cbn; [constructor..|]. inversion Hw; subst. constructor; auto. Qed.

Lemma data_ops_safe opcode s : stack_ok s ->
  safe stack_ok (op_EQUAL opcode s) /\ safe stack_ok (op_BITWISE opcode s) /\ safe stack_ok (op_HASH opcode s) /\
  safe stack_ok (op_CAT s) /\ safe stack_ok (op_BIN2NUM s).
Proof.
  intros Hs. pose proof of_bool_ok as Hbool. split_and!.
  - destruct s as [|x2 [|x1 s]]; try done. decompose_Forall_hyps. unfold op_EQUAL. repeat case_match; cbn; auto.
  - destruct s as [|x2 [|x1 s]]; try done. decompose_Forall_hyps. unfold op_BITWISE. destruct (negb _); [done|]. cbn.
    apply Forall_cons_2; [|done]. destruct H3 as [H2b _], H4 as [H1b H1s]. split.
    + apply zip_bytes; [|done|done]. intros x y Hx Hy. repeat case_match; [by apply land_byte|by apply lor_byte|by apply lor_byte].
    + unfold size in *. rewrite length_zip_with. lia.
  - destruct s as [|x s]; [done|]. decompose_Forall_hyps. unfold op_HASH, Hash160, Hash256. cbn. apply Forall_cons_2; [|done].
    repeat case_match; (eapply (digest_elem 20); [lia|]; first [apply RIPEMD160_ok | apply SHA1_ok]) || (eapply (digest_elem 32); [lia|]; apply SHA256_ok).
  - destruct s as [|x2 [|x1 s]]; try done. decompose_Forall_hyps. unfold op_CAT.
    destruct (Z.gtb_spec (size x1 + size x2) MAX_SCRIPT_ELEMENT_SIZE); [done|]. cbn. apply Forall_cons_2; [|done].
    destruct H3 as [H2b _], H4 as [H1b _]. split; [by apply Forall_app|]. unfold size in *. rewrite length_app. lia.
  - destruct s as [|x s]; [done|]. decompose_Forall_hyps. unfold op_BIN2NUM. destruct H3 as [Hb _]. destruct (MinimallyEncode_spec x Hb) as (Hb' & _ & _).
    destruct (IsMinimallyEncoded _ _) eqn:E; [|done]. cbn. apply Forall_cons_2; [|done]. split; [done|].
    apply IsMinimallyEncoded_spec in E as [E _]; [|done]. unfold nDefaultMaxNumSize, MAX_SCRIPT_ELEMENT_SIZE in *. lia.
Qed.

Lemma getint_small n : Z.abs n < 2^31 -> getint n = n.
Proof. intros Hn. unfold getint, INT_MAX. rewrite Z.gtb_ltb, (proj2 (Z.ltb_ge _ _)), (proj2 (Z.ltb_ge _ _)) by lia. done. Qed.

Lemma b2z_range b : - 2^40 < b2z b < 2^40.
Proof. destruct b; cbn; lia. Qed.

Lemma unary_safe opcode req s : one_of opcode [OP_1ADD; OP_1SUB; OP_NEGATE; OP_ABS; OP_NOT; OP_0NOTEQUAL] = true ->
  stack_ok s -> safe stack_ok (op_UNARY opcode req s).
Proof.
  intros Hop Hs. destruct s as [|x s]; [done|]. decompose_Forall_hyps. unfold op_UNARY.
  apply safe_bind with (fun n => Z.abs n < 2^31); [by apply num_safe|]. intros n Hn.
  apply safe_bind with (fun n => - 2^40 < n < 2^40).
  - unfold num_add, num_sub, num_neg, INT64_MAX. unfold one_of in Hop. cbn [existsb] in Hop.
    opcode_cases Hop ltac:(idtac; lazymatch goal with
      | |- safe _ (Done (b2z ?b)) => apply b2z_range
      | |- _ => repeat (case_match; cbn [safe]; try lia) end).
  - intros m Hm. cbn. apply Forall_cons_2; [by apply num_serialize_ok|done].
Qed.

Lemma quot_range n m : Z.abs n < 2^31 -> m <> 0 -> - 2^40 < Z.quot n m < 2^40.
Proof.
  intros Hn Hz. assert (Z.abs (Z.quot n m) <= Z.abs n); [|lia]. rewrite <- Z.quot_abs by done. rewrite Z.quot_div_nonneg by lia.
  apply Z.div_le_upper_bound; nia.
Qed.

Lemma rem_range n m : Z.abs m < 2^31 -> m <> 0 -> - 2^40 < Z.rem n m < 2^40.
Proof. intros Hm Hz. pose proof (Z.rem_bound_abs n m Hz). lia. Qed.

Lemma binary_safe opcode req s : one_of opcode [OP_ADD; OP_SUB; OP_DIV; OP_MOD; OP_BOOLAND; OP_BOOLOR; OP_NUMEQUAL; OP_NUMEQUALVERIFY;
      OP_NUMNOTEQUAL; OP_LESSTHAN; OP_GREATERTHAN; OP_LESSTHANOREQUAL; OP_GREATERTHANOREQUAL; OP_MIN; OP_MAX] = true ->
  stack_ok s -> safe stack_ok (op_BINARY opcode req s).
Proof.
  intros Hop Hs. destruct s as [|x2 [|x1 s]]; try done. decompose_Forall_hyps. unfold op_BINARY.
  apply safe_bind with (fun n => Z.abs n < 2^31); [by apply num_safe|]. intros n Hn.
  apply safe_bind with (fun n => Z.abs n < 2^31); [by apply num_safe|]. intros m Hm.
  apply safe_bind with (fun n => - 2^40 < n < 2^40).
  - unfold one_of in Hop. cbn [existsb] in Hop. rewrite !i64_small by (unfold is_i64; lia).
    opcode_cases Hop ltac:(idtac; lazymatch goal with
      | |- safe _ (Done (b2z ?b)) => apply b2z_range
      | |- safe _ (Done (if ?b then _ else _)) => cbn [safe]; destruct b; clear - Hn Hm; lia
      | |- safe _ (if _ then _ else Done (Z.quot _ _)) => destruct (Z.eqb_spec m 0); [done|by apply quot_range]
      | |- safe _ (if _ then _ else Done (Z.rem _ _)) => destruct (Z.eqb_spec m 0); [done|by apply rem_range]
      | |- _ => cbn [safe]; clear - Hn Hm; lia end).
  - intros k Hk. apply safe_if; [by apply safe_if|]. cbn. apply Forall_cons_2; [by apply num_serialize_ok|done].
Qed.

Lemma zeros_bytes n : bytes (repeat 0 n).
Proof. induction n; cbn; constructor; [unfold is_byte; lia|done]. Qed.

Lemma number_ops_safe opcode req s : stack_ok s -> size s <= 1000 ->
  safe stack_ok (op_PICK opcode req s) /\ safe stack_ok (op_WITHIN req s) /\ safe stack_ok (op_SPLIT req s) /\ safe stack_ok (op_NUM2BIN req s).
Proof.
  intros Hs Hl. split_and!.
  - destruct s as [|x [|y s]]; try done. unfold op_PICK. decompose_Forall_hyps. apply safe_bind with (fun n => Z.abs n < 2^31); [by apply num_safe|]. intros n Hn.
    apply safe_if; [done|]. destruct ((y :: s) !! _) as [v|] eqn:E; [|done]. cbn [throws mbind eval_bind safe].
    assert (stack_ok (y :: s)) as Hys by (by apply Forall_cons_2). apply Forall_cons_2; [by apply (Forall_lookup_1 _ _ _ _ Hys E)|].
    case_match; [by apply Forall_delete|done].
  - destruct s as [|x3 [|x2 [|x1 s]]]; try done. unfold op_WITHIN. decompose_Forall_hyps.
    apply safe_bind with (fun n => Z.abs n < 2^31); [by apply num_safe|]. intros n1 _. apply safe_bind with (fun n => Z.abs n < 2^31); [by apply num_safe|]. intros n2 _.
    apply safe_bind with (fun n => Z.abs n < 2^31); [by apply num_safe|]. intros n3 _. cbn. apply Forall_cons_2; [apply of_bool_ok|done].
  - destruct s as [|x [|v s]]; try done. unfold op_SPLIT. decompose_Forall_hyps. apply safe_bind with (fun n => Z.abs n < 2^31); [by apply num_safe|]. intros n _.
    assert (elem_ok []) as Hnil by (split; [constructor|done]). destruct H4 as [Hb Hsz].
    apply safe_if; [done|]. apply safe_if; [by repeat apply Forall_cons_2|]. apply safe_if; [by repeat apply Forall_cons_2|]. cbn.
    repeat apply Forall_cons_2; [| |done]; split; try (by apply Forall_drop); try (by apply Forall_take); unfold size in *; rewrite ?length_drop, ?length_take; lia.
  - destruct s as [|x [|v s]]; try done. unfold op_NUM2BIN. decompose_Forall_hyps. apply safe_bind with (fun n => Z.abs n < 2^31); [by apply num_safe|]. intros n _.
    destruct (Z.gtb_spec (u64 (getint n)) MAX_SCRIPT_ELEMENT_SIZE) as [|Hmax]; [done|]. destruct H4 as [Hb _]. destruct (MinimallyEncode_spec v Hb) as (Hr & _ & _).
    set (raw := (MinimallyEncode v).2) in *. set (sz := u64 (getint n)) in *. clearbody raw sz.
    destruct (Z.gtb_spec (size raw) sz) as [|Hle]; [done|]. destruct (Z.eqb_spec (size raw) sz) as [E|E]; [cbn; apply Forall_cons_2; [split; [done|lia]|done]|].
    destruct (snoc_cases raw) as [->|(l & t & ->)].
    + cbn [size length Z.of_nat Z.gtb Z.compare safe app]. change (size [] >? 0) with false. cbv iota. cbn [safe]. change (size []) with 0 in *. apply Forall_cons_2; [|done]. split.
      * rewrite !Forall_app. split_and!; [constructor|apply zeros_bytes|repeat constructor; lia].
      * unfold size. rewrite !length_app, repeat_length. cbn [length]. lia.
    + rewrite size_snoc in *. pose proof (size_nonneg l). rewrite Z.gtb_ltb, (proj2 (Z.ltb_lt _ _)) by lia. unfold set_back. rewrite back_snoc, List.removelast_last.
      apply Forall_app in Hr as [Hlb Htb]. inversion Htb as [|? ? Ht _]; subst. cbn [safe]. apply Forall_cons_2; [|done]. split.
      * rewrite !Forall_app. split_and!; [done|by repeat constructor; apply land_byte| |by repeat constructor; apply land_byte].
        apply zeros_bytes.
      * unfold size in *. rewrite !length_app, repeat_length. cbn [length]. rewrite ?length_app. cbn [length]. lia.
Qed.

Definition any {A} (_ : A) : Prop := True.

Lemma sig_encoding_safe sig flags : safe any (CheckSignatureEncoding sig flags).
Proof. unfold CheckSignatureEncoding, IsLowDERSignature, guard_err. repeat (case_match; cbn; try done). Qed.

Lemma key_encoding_safe key flags : safe any (CheckPubKeyEncoding key flags).
Proof. unfold CheckPubKeyEncoding, guard_err. repeat (case_match; cbn; try done). Qed.

Lemma checksig_safe sig key code : safe any (lift (CheckSig sig key code)).
Proof. by destruct (CheckSig_total sig key code) as [b ->]. Qed.

Lemma locktimes_safe flags req s : stack_ok s ->
  safe any (op_CHECKLOCKTIMEVERIFY flags req s) /\ safe any (op_CHECKSEQUENCEVERIFY flags req s).
Proof.
  intros Hs. unfold op_CHECKLOCKTIMEVERIFY, op_CHECKSEQUENCEVERIFY. split; (apply safe_if; [done|]); (destruct s as [|x s]; [done|]); decompose_Forall_hyps;
    (apply safe_bind with (fun n => Z.abs n < 2^39); [by apply num5_safe|]); intros n _; (apply safe_if; [done|]).
  - destruct (CheckLockTime_total n) as [b ->]. by destruct b.
  - apply safe_if; [done|]. destruct (CheckSequence_total n) as [b ->]. by destruct b.
Qed.

Lemma drop_signatures_safe flags sigs : forall code, safe any (drop_signatures sigs flags code).
Proof. induction sigs as [|sig sigs IH]; intros code; cbn; [done|]. destruct (FindAndDelete _ _). by apply safe_if. Qed.

Lemma multisig_loop_safe flags code keys : forall sigs, (length sigs <= length keys)%nat -> safe any (multisig_loop sigs keys flags code).
Proof.
  induction keys as [|key keys IH]; intros [|sig sigs] Hl; cbn [multisig_loop]; try done; [cbn in Hl; lia|].
  apply safe_bind with any; [apply sig_encoding_safe|intros _ _]. apply safe_bind with any; [apply key_encoding_safe|intros _ _].
  apply safe_bind with any; [apply checksig_safe|intros ok _]. set (rest := if ok then sigs else _).
  destruct (Z.gtb_spec (size rest) (size keys)); [done|]. apply IH. unfold size in *. lia.
Qed.

Lemma multisig_cleanup_safe flags ok n : forall i s, stack_ok s -> safe stack_ok (multisig_cleanup n ok flags i s).
Proof.
  induction n as [|n IH]; intros i s Hs; cbn [multisig_cleanup]; [done|]. destruct s as [|x s]; [done|]. apply safe_if; [done|].
  apply IH. by decompose_Forall_hyps.
Qed.

Lemma signature_ops_safe opcode flags code s : stack_ok s ->
  safe stack_ok (op_CHECKSIG opcode flags code s) /\ safe stack_ok (op_CHECKDATASIG opcode flags s).
Proof.
  intros Hs. pose proof of_bool_ok as Hbool. split.
  - destruct s as [|key [|sig s]]; try done. decompose_Forall_hyps. unfold op_CHECKSIG, EvalChecksig. destruct (FindAndDelete _ _).
    apply safe_bind with any.
    + apply safe_if; [done|]. apply safe_bind with any; [apply sig_encoding_safe|intros _ _]. apply safe_bind with any; [apply key_encoding_safe|intros _ _].
      apply safe_bind with any; [apply checksig_safe|intros ok _]. by apply safe_if.
    + intros ok _. apply safe_if; [by destruct ok|]. cbn. by apply Forall_cons_2.
  - destruct s as [|key [|msg [|sig s]]]; try done. decompose_Forall_hyps. unfold op_CHECKDATASIG.
    apply safe_bind with any; [apply sig_encoding_safe|intros _ _]. apply safe_bind with any; [apply key_encoding_safe|intros _ _].
    apply safe_if; [done|]. apply safe_if; [by apply safe_if|]. cbn. by apply Forall_cons_2.
Qed.

Lemma multisig_safe opcode flags req code n s : stack_ok s -> 0 <= n ->
  safe (fun r => n <= r.1 <= MAX_OPS_PER_SCRIPT /\ stack_ok r.2) (op_CHECKMULTISIG opcode flags req code n s).
Proof.
  intros Hs Hn. unfold op_CHECKMULTISIG. apply safe_if; [done|]. destruct (s !! 0%nat) as [x|] eqn:Ex; [|done]. cbn [throws mbind eval_bind].
  apply safe_bind with (fun n => Z.abs n < 2^31); [apply num_safe; by eapply Forall_lookup_1|]. intros nk Hk. rewrite getint_small by done.
  destruct ((nk <? 0) || (nk >? MAX_PUBKEYS_PER_MULTISIG))%bool eqn:Ek; [done|]. apply orb_false_iff in Ek as [Ek1 Ek2]. apply Z.ltb_ge in Ek1.
  destruct (Z.gtb_spec (n + nk) MAX_OPS_PER_SCRIPT) as [|Hops]; [done|]. apply safe_if; [done|]. destruct (s !! Z.to_nat (1 + nk)) as [y|] eqn:Ey; [|done]. cbn [throws mbind eval_bind].
  apply safe_bind with (fun n => Z.abs n < 2^31); [apply num_safe; by eapply Forall_lookup_1|]. intros ns Hns. rewrite getint_small by done.
  destruct ((ns <? 0) || (ns >? nk))%bool eqn:Es; [done|]. apply orb_false_iff in Es as [Es1 Es2]. apply Z.ltb_ge in Es1. rewrite Z.gtb_ltb in Es2. apply Z.ltb_ge in Es2.
  destruct (size s <? 3 + nk + ns) eqn:Hsz; [done|]. apply Z.ltb_ge in Hsz.
  apply safe_bind with any; [apply drop_signatures_safe|intros code' _]. apply safe_bind with any.
  { apply multisig_loop_safe. unfold size in Hsz. rewrite !length_take, !length_drop. lia. }
  intros ok _. apply safe_bind with stack_ok; [by apply multisig_cleanup_safe|]. intros [|dummy r] Hr; [done|]. apply Forall_cons_1 in Hr as [_ Hr].
  apply safe_if; [done|]. pose proof of_bool_ok as Hbool.
  apply safe_if; [apply safe_if; [|done]|]; cbn; (split; [lia|]); [done|by apply Forall_cons_2].
Qed.

(** ** The machine *)

(** What holds of the variables of [EvalScript] between turns: the elements and
    the count of operations are within bounds, and there are no more open
    conditions than operations. *)
Record exec_ok (e : exec) : Prop := {
  ok_pc : bytes (pc e);
  ok_stack : stack_ok (stack e);
  ok_alt : stack_ok (altstack e);
  ok_ops : 0 <= nOpCount e <= MAX_OPS_PER_SCRIPT;
  ok_cond : 0 <= m_stack_size (vfExec e) <= nOpCount e;
}.

(** A turn keeps the rest of the script that reading the operation left. *)
Definition exec_next (e e' : exec) : Prop := exec_ok e' /\ pc e' = pc e.

Lemma on_stack_safe e r : exec_ok e -> safe stack_ok r -> safe (exec_next e) (on_stack e r).
Proof. intros [] Hr. apply safe_bind with stack_ok; [done|]. by intros s Hs. Qed.

Lemma exec_same_safe {A} e (r : eval A) : exec_ok e -> safe any r -> safe (exec_next e) (_ ← r; Done e).
Proof. intros He Hr. apply safe_bind with any; [done|]. by intros _ _. Qed.

Lemma cond_safe e s c : exec_ok e -> stack_ok s -> 0 <= m_stack_size c <= nOpCount e -> safe (exec_next e) (Done (with_cond e s c)).
Proof. by intros []. Qed.

Lemma cond_push_size c f : m_stack_size (cond_push_back c f) = u32 (m_stack_size c + 1).
Proof. done. Qed.

Lemma if_safe fExec opcode e : exec_ok e -> m_stack_size (vfExec e) < nOpCount e ->
  safe (exec_next e)
    (if fExec : bool then
       match stack e with
       | [] => Fail SCRIPT_ERR_UNBALANCED_CONDITIONAL
       | vch :: s =>
           let fValue := CastToBool vch in
           let fValue := if opcode =? OP_NOTIF then negb fValue else fValue in
           Done (with_cond e s (cond_push_back (vfExec e) fValue))
       end
     else Done (with_cond e (stack e) (cond_push_back (vfExec e) false))).
Proof.
  intros He Hlt. pose proof He as [_ Hst _ Hops Hc]. unfold MAX_OPS_PER_SCRIPT in Hops.
  assert (forall f, 0 <= m_stack_size (cond_push_back (vfExec e) f) <= nOpCount e) as Hp.
  { intros f. rewrite cond_push_size, u32_id by (unfold is_u32; lia). lia. }
  apply safe_if; [|by apply cond_safe]. destruct (stack e) as [|x s] eqn:Es; [done|]. apply Forall_cons_1 in Hst as [_ Hst]. by apply cond_safe.
Qed.

Lemma toggle_safe e : exec_ok e -> safe (exec_next e)
  (if cond_empty (vfExec e) then Fail SCRIPT_ERR_UNBALANCED_CONDITIONAL else c ← toggle_top (vfExec e); Done (with_cond e (stack e) c)).
Proof.
  intros He. pose proof He as [_ Hst _ _ Hc]. unfold cond_empty, toggle_top. destruct (Z.eqb_spec (m_stack_size (vfExec e)) 0); [done|].
  rewrite Z.gtb_ltb, (proj2 (Z.ltb_lt 0 _)) by lia. cbn [negb].
  destruct (m_first_false_pos (vfExec e) =? NO_FALSE); [by apply cond_safe|]. destruct (_ =? _); by apply cond_safe.
Qed.

Lemma pop_safe e : exec_ok e -> safe (exec_next e)
  (if cond_empty (vfExec e) then Fail SCRIPT_ERR_UNBALANCED_CONDITIONAL else c ← cond_pop_back (vfExec e); Done (with_cond e (stack e) c)).
Proof.
  intros He. pose proof He as [_ Hst _ _ Hc]. unfold cond_empty, cond_pop_back. destruct (Z.eqb_spec (m_stack_size (vfExec e)) 0); [done|].
  rewrite Z.gtb_ltb, (proj2 (Z.ltb_lt 0 _)) by lia. cbn [negb mbind eval_bind]. apply cond_safe; [done|done|]. cbn. lia.
Qed.

Lemma alt_ops_safe e : exec_ok e ->
  safe (exec_next e) (match stack e with [] => bad_stack | x :: s => Done (mkExec (pc e) (codehash e) s (x :: altstack e) (vfExec e) (nOpCount e)) end) /\
  safe (exec_next e) (match altstack e with [] => Fail SCRIPT_ERR_INVALID_ALTSTACK_OPERATION
                      | x :: a => Done (mkExec (pc e) (codehash e) (x :: stack e) a (vfExec e) (nOpCount e)) end).
Proof.
  intros [Hp Hs Ha Ho Hc]. split.
  - destruct (stack e) as [|x s]; [done|]. apply Forall_cons_1 in Hs as [Hx Hs]. split; [|done]. split; cbn; try done. by apply Forall_cons_2.
  - destruct (altstack e) as [|x a]; [done|]. apply Forall_cons_1 in Ha as [Hx Ha]. split; [|done]. split; cbn; try done. by apply Forall_cons_2.
Qed.

Lemma exec_op_safe flags fExec opcode e : exec_ok e -> size (stack e) <= 1000 ->
  (OP_16 < opcode -> m_stack_size (vfExec e) < nOpCount e) -> safe (exec_next e) (exec_op flags fExec opcode e).
Proof.
  intros He Hsz Hlt. pose proof He as [Hpc Hst Halt Hops Hc]. unfold exec_op. set (req := has_bit flags SCRIPT_VERIFY_MINIMALDATA).
  destruct (move_ops_safe (stack e) Hst Hsz) as (M1 & M2 & M3 & M4 & M5 & M6 & M7 & M8 & M9 & M10 & M11 & M12 & M13 & M14 & M15 & M16 & M17).
  destruct (data_ops_safe opcode (stack e) Hst) as (D1 & D2 & D3 & D4 & D5).
  destruct (number_ops_safe opcode req (stack e) Hst Hsz) as (N1 & N2 & N3 & N4).
  destruct (locktimes_safe flags req (stack e) Hst) as (L1 & L2). destruct (signature_ops_safe opcode flags (codehash e) (stack e) Hst) as (S1 & S2).
  pose proof (multisig_safe opcode flags req (codehash e) (nOpCount e) (stack e) Hst (proj1 Hops)) as S3.
  destruct (alt_ops_safe e He) as [A1 A2].
  assert (safe (exec_next e) (Done e)) as Hsame by done.
  apply safe_case.
  { intros Hop. split; [|done]. split; cbn; try done. apply Forall_cons_2; [|done]. apply num_serialize_ok.
    unfold OP_1NEGATE, OP_1, OP_16 in *. apply orb_true_iff in Hop as [Hop|Hop]; bool_hyps; lia. }
  repeat (apply safe_case; [intros Hop; first [ done | by apply on_stack_safe | by apply exec_same_safe
    | by apply on_stack_safe, unary_safe | by apply on_stack_safe, binary_safe | by apply toggle_safe | by apply pop_safe | idtac ]|]); [| | |done].
  - apply exec_same_safe; [done|]. by destruct (negb _).
  - apply if_safe; [done|]. apply Hlt. unfold one_of in Hop. cbn [existsb] in Hop. unfold OP_IF, OP_NOTIF, OP_16 in *. rewrite !orb_true_iff in Hop.
    destruct Hop as [Hop|[Hop|Hop]]; bool_hyps; [lia|lia|done].
  - eapply safe_bind; [exact S3|]. intros [n s] [Hn Hs]. cbn [fst snd] in *. split; [|done]. split; cbn; try done; lia.
Qed.

Lemma check_minimal_safe v opcode : 0 <= opcode <= OP_PUSHDATA4 -> safe any (CheckMinimalPush v opcode).
Proof.
  intros Hop. unfold CheckMinimalPush. rewrite (proj2 (Z.leb_le 0 _)), (proj2 (Z.leb_le _ OP_PUSHDATA4)) by lia. cbn [andb negb].
  repeat (apply safe_if; [done|]). done.
Qed.

Lemma eval_step_safe flags e : exec_ok e -> size (stack e) + size (altstack e) <= MAX_STACK_SIZE ->
  safe (fun e' => exec_ok e' /\ size (stack e') + size (altstack e') <= MAX_STACK_SIZE /\ (length (pc e') < length (pc e))%nat) (eval_step flags e).
Proof.
  intros [Hpc Hst Halt Hops Hc] Hsz. unfold eval_step. destruct (GetScriptOp (pc e)) as [[[opcode v] rest]|] eqn:E; [|done].
  pose proof (GetScriptOp_shorter _ _ _ _ E) as Hlen. apply GetScriptOp_inv in E as (pre & Epc & _).
  rewrite Epc in Hpc. apply Forall_app in Hpc as [Hpre Hpc]. apply Forall_app in Hpc as [Hv Hrest].
  destruct (Z.gtb_spec (size v) MAX_SCRIPT_ELEMENT_SIZE) as [|Hvs]; [done|].
  set (n := if opcode >? OP_16 then nOpCount e + 1 else nOpCount e).
  destruct ((opcode >? OP_16) && (n >? MAX_OPS_PER_SCRIPT))%bool eqn:En; [done|]. apply safe_if; [done|]. apply safe_if; [done|].
  assert (0 <= n <= MAX_OPS_PER_SCRIPT /\ m_stack_size (vfExec e) <= n /\ (OP_16 < opcode -> m_stack_size (vfExec e) < n)) as (Hn & Hcn & Hlt).
  { subst n. rewrite !Z.gtb_ltb in *. destruct (Z.ltb_spec OP_16 opcode); cbn [andb] in En; [apply Z.ltb_ge in En|]; lia. }
  clearbody n. set (e1 := mkExec rest (codehash e) (stack e) (altstack e) (vfExec e) n).
  assert (exec_ok e1) as He1 by (split; cbn; try done; lia).
  pose proof (size_nonneg (altstack e)). unfold MAX_STACK_SIZE in *.
  apply safe_bind with (exec_next e1).
  - apply safe_case.
    { intros Hop. apply safe_bind with any; [apply safe_if; [|done]; apply check_minimal_safe; bool_hyps; lia|]. intros ok _.
      apply safe_bind with any; [by destruct ok|]. intros _ _. cbn. split; [|done]. destruct He1. split; try done. by apply Forall_cons_2. }
    apply safe_if; [|by cbn]. apply exec_op_safe; [done|cbn; lia|done].
  - intros e2 [He2 Epc2]. destruct (Z.gtb_spec (size (stack e2) + size (altstack e2)) 1000); [done|]. cbn.
    split; [done|]. split; [done|]. rewrite Epc2. cbn. lia.
Qed.

Lemma eval_loop_safe flags fuel : forall e, exec_ok e -> size (stack e) + size (altstack e) <= MAX_STACK_SIZE -> (length (pc e) <= fuel)%nat ->
  safe (fun e' => exec_ok e' /\ size (stack e') + size (altstack e') <= MAX_STACK_SIZE) (eval_loop fuel flags e).
Proof.
  induction fuel as [|f IH]; intros e He Hs Hl; cbn [eval_loop]; destruct (pc e) as [|x p] eqn:Epc; try done; [cbn in Hl; lia|].
  eapply safe_bind; [by apply eval_step_safe|]. intros e' (He' & Hs' & Hl'). rewrite Epc in Hl'. cbn in *. apply IH; [done|done|lia].
Qed.

(** A stack between scripts *)
Definition stack_wf (s : list valtype) : Prop := stack_ok s /\ size s <= MAX_STACK_SIZE.

Lemma EvalScript_safe s script flags : stack_wf s -> bytes script -> safe stack_wf (EvalScript s script flags).
Proof.
  intros [Hs Hl] Hb. unfold EvalScript. apply safe_if; [done|]. eapply safe_bind.
  - apply eval_loop_safe; [split; [done|done|apply Forall_nil_2|by split|by split]|unfold size in *; cbn [stack altstack length] in *; lia|done].
  - intros e' [[_ Hs' _ _ _] Hl']. apply safe_if; [done|]. cbn. split; [done|]. pose proof (size_nonneg (altstack e')). lia.
Qed.

Lemma check_top_safe s : safe any (check_top s).
Proof. destruct s as [|x s]; cbn; [done|]. by destruct (CastToBool x). Qed.

(** A script hash is not run on an empty stack. *)
Lemma P2SH_needs_stack script flags : IsPayToScriptHash script = true -> exists e, EvalScript [] script flags = Fail e.
Proof.
  unfold IsPayToScriptHash. intros Hp. apply andb_true_iff in Hp as [[[Hl H0']%andb_true_iff _]%andb_true_iff _]. apply Nat.eqb_eq in Hl. apply Z.eqb_eq in H0'.
  unfold EvalScript, size. rewrite Hl. change (Z.of_nat 23 >? MAX_SCRIPT_SIZE) with false. cbv iota.
  destruct script as [|b script]; [done|]. cbn in H0'. subst b. exists SCRIPT_ERR_INVALID_STACK_OPERATION.
  rewrite eval_loop_turn by done. rewrite (eval_step_op _ _ OP_HASH160 script) by reflexivity.
  change (exec_op flags true OP_HASH160 ?e) with (on_stack e (op_HASH OP_HASH160 (stack e))). done.
Qed.

(** C16: every run of the script machine ends and stays within its limits. With
    byte strings for scripts and a clean stack asked for only with script
    hashes, [VerifyScript] accepts or reports an error and fails no assertion;
    and a script that [EvalScript] runs to the end leaves at most a thousand
    elements of at most 520 bytes each. *)
Theorem script_runs_within_limits scriptSig scriptPubKey s flags :
  bytes scriptSig -> bytes scriptPubKey -> stack_wf s ->
  (has_bit flags SCRIPT_VERIFY_CLEANSTACK = true -> has_bit flags SCRIPT_VERIFY_P2SH = true) ->
  VerifyScript scriptSig scriptPubKey flags <> Crash /\
  match EvalScript s scriptPubKey flags with
  | Done s' => size s' <= MAX_STACK_SIZE /\ Forall (fun v => bytes v /\ size v <= MAX_SCRIPT_ELEMENT_SIZE) s'
  | Fail e => True
  | Crash => False
  end.
Proof.
  intros Hsig Hpub Hs Hclean. split.
  - enough (safe any (VerifyScript scriptSig scriptPubKey flags)) as Hv by (intros E; by rewrite E in Hv).
    unfold VerifyScript. apply safe_if; [done|].
    assert (stack_wf []) as Hnil by (split; [constructor|done]).
    apply safe_bind with (fun copy => stack_wf copy /\ EvalScript [] scriptSig flags = Done copy).
    { pose proof (EvalScript_safe [] scriptSig flags Hnil Hsig) as He. by destruct (EvalScript [] scriptSig flags). }
    intros copy [Hcopy _].
    destruct (EvalScript copy scriptPubKey flags) as [s1|e|] eqn:E1; [|done|].
    2:{ pose proof (EvalScript_safe copy scriptPubKey flags Hcopy Hpub) as He. by rewrite E1 in He. }
    cbn [mbind eval_bind]. apply safe_bind with any; [apply check_top_safe|]. intros _ _.
    apply safe_bind with any.
    + apply safe_case; [|done]. intros [_ Hp]%andb_true_iff. apply safe_if; [done|]. destruct copy as [|redeem rest].
      { destruct (P2SH_needs_stack scriptPubKey flags Hp) as [e Ee]. congruence. }
      destruct Hcopy as [Hok Hsz]. apply Forall_cons_1 in Hok as [[Hredeem _] Hrest].
      eapply safe_bind; [apply EvalScript_safe; [split; [done|]|done]|].
      * unfold size in *. cbn [length] in Hsz. lia.
      * intros s2 _. apply safe_bind with any; [apply check_top_safe|done].
    + intros s2 _. destruct (has_bit flags SCRIPT_VERIFY_CLEANSTACK); [rewrite Hclean by done|done]. cbn [negb]. unfold guard_err. by apply safe_if.
  - pose proof (EvalScript_safe s scriptPubKey flags Hs Hpub) as He. destruct (EvalScript s scriptPubKey flags); [|done|done].
    by destruct He.
Qed.

End safety.

(** ** The condition stack *)

(** The stack of the comment, top first *)
Inductive cond_op : Type := CPush (f : bool) | CPop | CToggle.
Definition spec_op (l : list bool) (op : cond_op) : option (list bool) :=
  match op, l with
  | CPush f, _ => Some (f :: l)
  | CPop, _ :: l => Some l
  | CToggle, b :: l => Some (negb b :: l)
  | _, [] => None
  end.
Fixpoint spec_ops (l : list bool) (ops : list cond_op) : option (list bool) :=
  match ops with [] => Some l | op :: ops => l ← spec_op l op; spec_ops l ops end.

Definition cond_run (c : ConditionStack) (op : cond_op) : eval ConditionStack :=
  match op with CPush f => Done (cond_push_back c f) | CPop => cond_pop_back c | CToggle => toggle_top c end.
Fixpoint cond_runs (c : ConditionStack) (ops : list cond_op) : eval ConditionStack :=
  match ops with [] => Done c | op :: ops => c ← cond_run c op; cond_runs c ops end.

(** The position of the lowest false value *)
Fixpoint lowest_false (l : list bool) : option Z :=
  match l with
  | [] => None
  | b :: l => match lowest_false l with Some p => Some p | None => if b then None else Some (size l) end
  end.

Definition stands_for (c : ConditionStack) (l : list bool) : Prop :=
  m_stack_size c = size l /\ m_first_false_pos c = default NO_FALSE (lowest_false l).

Lemma lowest_false_range l p : lowest_false l = Some p -> 0 <= p < size l.
Proof.
  revert p. induction l as [|b l IH]; [done|]. cbn. unfold size in *. cbn [length]. destruct (lowest_false l); intros p' E.
  - injection E as <-. specialize (IH _ eq_refl). lia.
  - destruct b; [done|]. injection E as <-. lia.
Qed.

Lemma lowest_false_none l : lowest_false l = None <-> forallb id l = true.
Proof. induction l as [|[] l IH]; cbn; [done| |]; destruct (lowest_false l); cbn in *; naive_solver. Qed.

Lemma cond_run_spec c l op : stands_for c l -> size l < 2^32 - 2 ->
  match spec_op l op with
  | Some l' => exists c', cond_run c op = Done c' /\ stands_for c' l'
  | None => cond_run c op = Crash
  end.
Proof.
  intros [Es Ep] Hl. pose proof (size_nonneg l). unfold NO_FALSE in *.
  assert (forall b l', l = b :: l' -> size l = size l' + 1 /\ 0 <= size l') as Hcons by (intros ? ? ->; unfold size; cbn [length]; lia).
  assert (forall m p, lowest_false m = Some p -> size m <= size l -> p <> 2^32 - 1) as Hp by (intros m p Em Hm; apply lowest_false_range in Em; lia).
  destruct op as [f| |]; cbn [cond_run].
  - exists (cond_push_back c f). split; [done|]. unfold cond_push_back, stands_for, NO_FALSE. cbn [m_stack_size m_first_false_pos]. split.
    + rewrite Es, u32_id by (unfold is_u32; lia). unfold size. cbn [length]. lia.
    + rewrite Ep, Es. cbn [lowest_false]. destruct (lowest_false l) as [p|] eqn:El; cbn [from_option id].
      * rewrite (proj2 (Z.eqb_neq _ _)) by (by eapply Hp). done.
      * rewrite Z.eqb_refl. by destruct f.
  - unfold cond_pop_back. rewrite Es. destruct l as [|b l]; [done|]. destruct (Hcons b l eq_refl) as [E H0]. cbn [spec_op].
    rewrite Z.gtb_ltb, (proj2 (Z.ltb_lt 0 _)) by lia. cbn [negb]. eexists. split; [done|]. unfold stands_for. cbn [m_stack_size m_first_false_pos].
    split; [lia|]. rewrite Ep, E. cbn [lowest_false]. replace (size l + 1 - 1) with (size l) by lia.
    destruct (lowest_false l) as [p|] eqn:El; cbn [from_option id].
    + rewrite (proj2 (Z.eqb_neq _ _)) by (apply lowest_false_range in El; lia). done.
    + destruct b; cbn [from_option id]; [rewrite (proj2 (Z.eqb_neq _ _)) by (unfold NO_FALSE; lia); done|by rewrite Z.eqb_refl].
  - unfold toggle_top. rewrite Es. destruct l as [|b l]; [done|]. destruct (Hcons b l eq_refl) as [E H0]. cbn [spec_op].
    rewrite Z.gtb_ltb, (proj2 (Z.ltb_lt 0 _)) by lia. cbn [negb]. rewrite Ep, E. cbn [lowest_false] in *. replace (size l + 1 - 1) with (size l) by lia.
    assert (size (negb b :: l) = size l + 1) as En by (unfold size; cbn [length]; lia). unfold NO_FALSE.
    destruct (lowest_false l) as [p|] eqn:El; cbn [from_option id].
    + pose proof (lowest_false_range _ _ El). rewrite (proj2 (Z.eqb_neq p (2^32 - 1))), (proj2 (Z.eqb_neq p (size l))) by lia.
      exists c. split; [done|]. split; [lia|]. rewrite Ep. cbn [lowest_false]. by rewrite El.
    + destruct b; cbn [from_option id negb] in *.
      * rewrite Z.eqb_refl. eexists. split; [done|]. split; cbn [m_stack_size m_first_false_pos lowest_false]; [lia|]. by rewrite El.
      * rewrite (proj2 (Z.eqb_neq _ _)), Z.eqb_refl by lia. eexists. split; [done|]. split; cbn [m_stack_size m_first_false_pos lowest_false]; [lia|]. by rewrite El.
Qed.

Lemma spec_op_size l op l' : spec_op l op = Some l' -> size l' <= size l + 1.
Proof. unfold size. destruct op, l; cbn; intros [= <-]; cbn [length]; lia. Qed.

(** The condition stack. The size and the position of the first false value
    stand for the stack of booleans the comment describes: after any sequence
    of pushes, pops and toggles the two say whether that stack is empty and
    whether it is all true, and an operation fails its assertion exactly when
    the stack is empty. *)
Theorem condition_stack_refines ops : size ops < 2^32 - 2 ->
  match spec_ops [] ops with
  | Some l => exists c, cond_runs cond_new ops = Done c /\ cond_empty c = bool_decide (l = []) /\ all_true c = forallb id l
  | None => cond_runs cond_new ops = Crash
  end.
Proof.
  intros Hops. enough (forall ops c l, stands_for c l -> size l + size ops < 2^32 - 2 ->
    match spec_ops l ops with
    | Some l => exists c', cond_runs c ops = Done c' /\ stands_for c' l /\ size l < 2^32 - 2
    | None => cond_runs c ops = Crash
    end) as Hrun.
  { specialize (Hrun ops cond_new [] (conj eq_refl eq_refl) ltac:(unfold size at 1; cbn [length]; lia)). destruct (spec_ops [] ops) as [l|]; [|done].
    destruct Hrun as (c & E & [Es Ep] & Hl). exists c. split; [done|]. unfold cond_empty, all_true. rewrite Es, Ep. split.
    - destruct l; [done|]. rewrite (proj2 (Z.eqb_neq _ _)) by (unfold size; cbn [length]; lia). done.
    - destruct (lowest_false l) as [p|] eqn:El; cbn [from_option id].
      + rewrite (proj2 (Z.eqb_neq _ _)) by (apply lowest_false_range in El; unfold NO_FALSE; lia). symmetry. apply not_true_is_false. intros H%lowest_false_none. congruence.
      + rewrite Z.eqb_refl. symmetry. by apply lowest_false_none. }
  clear ops Hops. induction ops as [|op ops IH]; intros c l Hc Hl; cbn [spec_ops cond_runs].
  { exists c. unfold size in *. cbn [length] in Hl. by split_and!; [..|lia]. }
  assert (size (op :: ops) = size ops + 1) as Eo by (unfold size; cbn [length]; lia). pose proof (size_nonneg ops).
  pose proof (cond_run_spec c l op Hc ltac:(lia)) as Hstep. destruct (spec_op l op) as [l'|] eqn:E; cbn [mbind option_bind]; [|by rewrite Hstep].
  destruct Hstep as (c' & -> & Hc'). cbn [mbind eval_bind]. apply IH; [done|]. apply spec_op_size in E. lia.
Qed.

(** ** Examples *)

#[local] Instance zero_crypto : Crypto := {
  RIPEMD160 _ := repeat 0 20; SHA1 _ := repeat 0 20; SHA256 _ := repeat 0 32;
  ecdsa_verify _ _ _ := true; bls_verify _ _ _ := true; CheckLowS _ := true;
}.
#[local] Instance zero_crypto_laws : CryptoLaws.
Proof. split; intros b; (split; [reflexivity|apply zeros_bytes]). Qed.
#[local] Instance yes_checker : SignatureChecker := {
  CheckSig _ _ _ := Ret true; CheckLockTime _ := Ret true; CheckSequence _ := Ret true;
}.
#[local] Instance yes_checker_laws : SignatureCheckerLaws.
Proof. split; eauto. Qed.

(** A branch, a number of a given width and a code separator *)
Definition demo_script : CScript :=
  [OP_1; OP_IF; OP_5; OP_3; OP_NUM2BIN; OP_ELSE; OP_RETURN; OP_ENDIF; OP_CODESEPARATOR; OP_SIZE].

Lemma script_runs_within_limits_witness :
  EvalScript [] demo_script 0 = Done [[3]; [5; 0; 0]] /\ VerifyScript [] demo_script 0x101 <> Crash.
Proof.
  split; [vm_compute; reflexivity|].
  destruct (script_runs_within_limits [] demo_script [] 0x101) as [Hv _]; [| | | |exact Hv].
  - apply Forall_nil_2.
  - repeat (apply Forall_cons_2; [vm_compute; split; congruence|]). apply Forall_nil_2.
  - split; [apply Forall_nil_2|vm_compute; discriminate].
  - intros _. reflexivity.
Defined.

Lemma condition_stack_refines_witness :
  exists c, cond_runs cond_new [CPush true; CPush false; CPush true; CToggle; CPop; CToggle] = Done c /\
    cond_empty c = false /\ all_true c = true.
Proof. refine (condition_stack_refines [CPush true; CPush false; CPush true; CToggle; CPop; CToggle] _). reflexivity. Defined.
