(* ===== verification/HashBlock.v ===== *)
(** * HashBlock: the buffering of the block hashes
      (CSHA256, CSHA1 and CRIPEMD160 of src/src/crypto)

    The three classes have the same [Write] and [Finalize] around their own
    [Transform], and differ in the order of bytes. A hasher is shown to compute
    the padded hash of all it was given, however the data was cut into
    pieces. *)

From Stdlib Require Import ZArith Lia.
From stdpp Require Import base list numbers option.
From S2P Require Import Prelude.

(** What the classes do not share *)
Class BlockHash : Type := {
  Initialize : list Z;
  (** the words after a chunk of 64 bytes *)
  Transform : list Z -> list Z -> list Z;
  (** [WriteBE32] or [WriteLE32]; [WriteBE64] or [WriteLE64] *)
  word_out : Z -> list Z;
  size_out : Z -> list Z;
}.
Class BlockHashLaws `{BlockHash} : Prop := {
  size_out_length : forall n, length (size_out n) = 8%nat;
}.

(** [s], [buf] and [bytes] *)
Record hasher : Type := mkHasher { hs_s : list Z; hs_buf : list Z; hs_bytes : Z }.

(** [memcpy(buf + off, data, length data)] *)
Definition memcpy_at (buf : list Z) (off : nat) (data : list Z) : list Z :=
  take off buf ++ data ++ drop (off + length data) buf.

Section hasher.

Context `{BlockHash}.

(** The constructor; it leaves the buffer as it finds it. *)
Definition hash_new (buf : list Z) : hasher := mkHasher Initialize buf 0.

(** The transformation of consecutive chunks *)
Fixpoint transform_blocks (blocks : nat) (s : list Z) (chunk : list Z) : list Z :=
  match blocks with
  | O => s
  | S n => transform_blocks n (Transform s (take 64 chunk)) (drop 64 chunk)
  end.

(** [Write]: first the chunks of the data itself and the rest, *)
Definition write_rest (h : hasher) (data : list Z) (bufsize : nat) : hasher :=
  let blocks := (length data / 64)%nat in
  let '(h, data) :=
    if (64 <=? length data)%nat then
      (mkHasher (transform_blocks blocks (hs_s h) data) (hs_buf h) (u64 (hs_bytes h + Z.of_nat (64 * blocks))), drop (64 * blocks) data)
    else (h, data) in
  if (0 <? length data)%nat
  then mkHasher (hs_s h) (memcpy_at (hs_buf h) bufsize data) (u64 (hs_bytes h + Z.of_nat (length data)))
  else h.

(** and before them a buffer that the data fills. *)
Definition Write (h : hasher) (data : list Z) : hasher :=
  let bufsize := Z.to_nat (hs_bytes h mod 64) in
  if (negb (bufsize =? 0)%nat && (64 <=? bufsize + length data)%nat)%bool then
    let n := (64 - bufsize)%nat in
    let buf := memcpy_at (hs_buf h) bufsize (take n data) in
    write_rest (mkHasher (Transform (hs_s h) buf) buf (u64 (hs_bytes h + Z.of_nat n))) (drop n data) 0
  else write_rest h data bufsize.

Definition hash_pad : list Z := 0x80 :: repeat 0 63.

Definition Finalize (h : hasher) : list Z :=
  let sizedesc := size_out (u64 (Z.shiftl (hs_bytes h) 3)) in
  let h := Write h (take (1 + Z.to_nat ((119 - hs_bytes h mod 64) mod 64)) hash_pad) in
  let h := Write h sizedesc in
  concat (map word_out (hs_s h)).

(** [CSHA1] and [CRIPEMD160] transform the chunks of the data in a loop. *)
Fixpoint chunk_loop (fuel : nat) (h : hasher) (data : list Z) : hasher * list Z :=
  match fuel with
  | O => (h, data)
  | S fuel =>
      if (64 <=? length data)%nat
      then chunk_loop fuel (mkHasher (Transform (hs_s h) (take 64 data)) (hs_buf h) (u64 (hs_bytes h + 64))) (drop 64 data)
      else (h, data)
  end.
Definition write_rest_loop (h : hasher) (data : list Z) (bufsize : nat) : hasher :=
  let '(h, data) := chunk_loop (length data) h data in
  if (0 <? length data)%nat
  then mkHasher (hs_s h) (memcpy_at (hs_buf h) bufsize data) (u64 (hs_bytes h + Z.of_nat (length data)))
  else h.
Definition Write_loop (h : hasher) (data : list Z) : hasher :=
  let bufsize := Z.to_nat (hs_bytes h mod 64) in
  if (negb (bufsize =? 0)%nat && (64 <=? bufsize + length data)%nat)%bool then
    let n := (64 - bufsize)%nat in
    let buf := memcpy_at (hs_buf h) bufsize (take n data) in
    write_rest_loop (mkHasher (Transform (hs_s h) buf) buf (u64 (hs_bytes h + Z.of_nat n))) (drop n data) 0
  else write_rest_loop h data bufsize.
Definition Finalize_loop (h : hasher) : list Z :=
  let sizedesc := size_out (u64 (Z.shiftl (hs_bytes h) 3)) in
  let h := Write_loop h (take (1 + Z.to_nat ((119 - hs_bytes h mod 64) mod 64)) hash_pad) in
  let h := Write_loop h sizedesc in
  concat (map word_out (hs_s h)).

(** ** The hash of a message *)

Definition md_state (m : list Z) : list Z := transform_blocks (length m / 64) Initialize m.
Definition md_pad (m : list Z) : list Z :=
  m ++ 0x80 :: repeat 0 (Z.to_nat ((119 - Z.of_nat (length m)) mod 64)) ++ size_out (u64 (8 * Z.of_nat (length m))).
Definition md_hash (m : list Z) : list Z := concat (map word_out (md_state (md_pad m))).

Lemma transform_blocks_app k : forall j s full x, length full = (64 * k)%nat ->
  transform_blocks (k + j) s (full ++ x) = transform_blocks j (transform_blocks k s full) x.
Proof.
  induction k as [|k IH]; intros j s full x Hl.
  - by destruct full.
  - cbn [transform_blocks plus]. rewrite take_app_le, drop_app_le by lia. apply IH. rewrite length_drop. lia.
Qed.

(** The hasher has taken in [m]: whole blocks into the words, the rest into the buffer. *)
Definition absorbed (h : hasher) (m : list Z) : Prop :=
  exists k full tail, m = full ++ tail /\ length full = (64 * k)%nat /\ (length tail < 64)%nat /\
    hs_s h = transform_blocks k Initialize full /\ length (hs_buf h) = 64%nat /\
    take (length tail) (hs_buf h) = tail /\ hs_bytes h = u64 (Z.of_nat (length m)).

Lemma u64_mod64 n : u64 n mod 64 = n mod 64.
Proof. unfold u64. apply Z.mod_mod_divide. exists (2^58). reflexivity. Qed.

Lemma u64_add_bytes n k : u64 (u64 n + k) = u64 (n + k).
Proof. unfold u64. by rewrite Zplus_mod_idemp_l. Qed.

Lemma bufsize_tail (k : nat) (full tail : list Z) : length full = (64 * k)%nat -> (length tail < 64)%nat ->
  Z.to_nat (u64 (Z.of_nat (length (full ++ tail))) mod 64) = length tail.
Proof.
  intros Hf Ht. rewrite u64_mod64, length_app, Hf, Nat2Z.inj_add, Nat2Z.inj_mul, Z.add_comm, Z.mul_comm, Z_mod_plus_full, Z.mod_small by lia. lia.
Qed.

(** Filling the buffer and transforming it *)
Lemma absorbed_fill h k full tail d :
  length full = (64 * k)%nat -> (length tail < 64)%nat -> (64 <= length tail + length d)%nat ->
  hs_s h = transform_blocks k Initialize full -> length (hs_buf h) = 64%nat -> take (length tail) (hs_buf h) = tail ->
  hs_bytes h = u64 (Z.of_nat (length (full ++ tail))) ->
  let n := (64 - length tail)%nat in
  let buf := memcpy_at (hs_buf h) (length tail) (take n d) in
  absorbed (mkHasher (Transform (hs_s h) buf) buf (u64 (hs_bytes h + Z.of_nat n))) ((full ++ tail) ++ take n d).
Proof.
  intros Hf Ht Hd Hs Hl Hb Hn n buf. assert (length (take n d) = n) as Hn' by (rewrite length_take; lia).
  assert (buf = tail ++ take n d) as Eb.
  { unfold buf, memcpy_at. rewrite Hb, Hn', (drop_ge (hs_buf h)) by lia. by rewrite app_nil_r. }
  exists (S k), (full ++ tail ++ take n d), []. rewrite app_nil_r, <- app_assoc. split; [done|].
  assert (length (tail ++ take n d) = 64%nat) as H64 by (rewrite length_app; lia).
  split; [rewrite length_app; lia|]. split; [cbn; lia|]. cbn [hs_s hs_buf hs_bytes]. split; [|split; [by rewrite Eb|split; [done|]]].
  - replace (S k) with (k + 1)%nat by lia. rewrite transform_blocks_app by done. cbn [transform_blocks]. rewrite take_ge by lia. by rewrite Hs, Eb.
  - rewrite Hn, u64_add_bytes, !length_app, Hn'. f_equal. lia.
Qed.

(** Transforming whole chunks of the data *)
Lemma absorbed_blocks h k full d blocks :
  length full = (64 * k)%nat -> (64 * blocks <= length d)%nat -> hs_s h = transform_blocks k Initialize full -> length (hs_buf h) = 64%nat ->
  hs_bytes h = u64 (Z.of_nat (length full)) ->
  absorbed (mkHasher (transform_blocks blocks (hs_s h) d) (hs_buf h) (u64 (hs_bytes h + Z.of_nat (64 * blocks)))) (full ++ take (64 * blocks) d).
Proof.
  intros Hf Hd Hs Hl Hn. assert (length (take (64 * blocks) d) = 64 * blocks)%nat as Hd' by (rewrite length_take; lia).
  exists (k + blocks)%nat, (full ++ take (64 * blocks) d), []. rewrite app_nil_r. split; [done|]. split; [rewrite length_app; lia|]. split; [cbn; lia|].
  cbn [hs_s hs_buf hs_bytes]. split; [|split; [done|split; [done|]]].
  - rewrite transform_blocks_app by done. rewrite Hs. rewrite <- (take_drop (64 * blocks) d) at 1.
    rewrite <- (Nat.add_0_r blocks) at 1. by rewrite transform_blocks_app.
  - rewrite Hn, u64_add_bytes, length_app, Hd'. f_equal. lia.
Qed.

(** Keeping the rest in the buffer *)
Lemma absorbed_rest h k full tail d :
  length full = (64 * k)%nat -> (length tail + length d < 64)%nat ->
  hs_s h = transform_blocks k Initialize full -> length (hs_buf h) = 64%nat -> take (length tail) (hs_buf h) = tail ->
  hs_bytes h = u64 (Z.of_nat (length (full ++ tail))) ->
  absorbed (if (0 <? length d)%nat then mkHasher (hs_s h) (memcpy_at (hs_buf h) (length tail) d) (u64 (hs_bytes h + Z.of_nat (length d))) else h)
    ((full ++ tail) ++ d).
Proof.
  intros Hf Hd Hs Hl Hb Hn. exists k, full, (tail ++ d). rewrite <- app_assoc. split; [done|]. split; [done|]. split; [rewrite length_app; lia|].
  destruct (Nat.ltb_spec 0 (length d)).
  - cbn [hs_s hs_buf hs_bytes]. split; [done|]. unfold memcpy_at. rewrite Hb. split; [|split].
    + rewrite !length_app, length_drop. lia.
    + rewrite (app_assoc tail d), take_app_length'; [done|by rewrite length_app].
    + rewrite Hn, u64_add_bytes, !length_app. f_equal. lia.
  - destruct d; [|cbn in *; lia]. rewrite app_nil_r. done.
Qed.

Lemma absorbed_whole h m k : length m = (64 * k)%nat -> absorbed h m ->
  hs_s h = transform_blocks k Initialize m /\ length (hs_buf h) = 64%nat /\ hs_bytes h = u64 (Z.of_nat (length m)).
Proof.
  intros Hm (k' & full & tail & -> & Hf & Ht & Hs & Hl & Hb & Hn). rewrite length_app in Hm.
  assert (k' = k) as -> by lia. destruct tail; [|cbn in *; lia]. rewrite app_nil_r in *. done.
Qed.

Lemma write_rest_absorbed h k full tail d :
  length full = (64 * k)%nat -> (length tail = 0 \/ length tail + length d < 64)%nat ->
  hs_s h = transform_blocks k Initialize full -> length (hs_buf h) = 64%nat -> take (length tail) (hs_buf h) = tail ->
  hs_bytes h = u64 (Z.of_nat (length (full ++ tail))) -> absorbed (write_rest h d (length tail)) ((full ++ tail) ++ d).
Proof.
  intros Hf Ht Hs Hl Hb Hn. unfold write_rest. destruct (Nat.leb_spec 64 (length d)) as [Hd|Hd].
  - destruct tail; [|cbn in Ht; lia]. rewrite app_nil_r in *. cbn [length].
    pose proof (Nat.Div0.div_mod (length d) 64) as Hdiv. pose proof (Nat.mod_upper_bound (length d) 64 ltac:(lia)) as Hmod. set (blocks := (length d / 64)%nat) in *.
    pose proof (absorbed_blocks h k full d blocks Hf ltac:(lia) Hs Hl Hn) as Ha.
    assert (length (full ++ take (64 * blocks) d) = 64 * (k + blocks))%nat as Hw by (rewrite length_app, length_take; lia).
    apply (absorbed_whole _ _ _ Hw) in Ha as (Hs' & Hl' & Hn').
    pose proof (absorbed_rest _ _ _ [] (drop (64 * blocks) d) Hw ltac:(rewrite length_drop; cbn [length]; lia) Hs' Hl' eq_refl) as Hr.
    rewrite app_nil_r in Hr. specialize (Hr Hn'). by rewrite <- app_assoc, take_drop in Hr.
  - apply (absorbed_rest h k full tail d); try done. lia.
Qed.

Lemma Write_absorbed h m d : absorbed h m -> absorbed (Write h d) (m ++ d).
Proof.
  intros (k & full & tail & -> & Hf & Ht & Hs & Hl & Hb & Hn). unfold Write.
  assert (Z.to_nat (hs_bytes h mod 64) = length tail) as -> by (rewrite Hn; by apply bufsize_tail with k).
  destruct (Nat.eqb_spec (length tail) 0); cbn [negb andb]; [apply write_rest_absorbed with k; try done; lia|].
  destruct (Nat.leb_spec 64 (length tail + length d)); [|apply write_rest_absorbed with k; try done; lia].
  pose proof (absorbed_fill h k full tail d Hf Ht ltac:(lia) Hs Hl Hb Hn) as Ha. cbv zeta in Ha.
  assert (length ((full ++ tail) ++ take (64 - length tail) d) = 64 * S k)%nat as Hw by (rewrite !length_app, length_take; lia).
  apply (absorbed_whole _ _ _ Hw) in Ha as (Hs' & Hl' & Hn').
  pose proof (write_rest_absorbed _ _ _ [] (drop (64 - length tail) d) Hw ltac:(cbn [length]; lia) Hs' Hl' eq_refl) as Hr.
  rewrite app_nil_r in Hr. specialize (Hr Hn'). by rewrite <- app_assoc, take_drop in Hr.
Qed.

Lemma foldl_absorbed pieces : forall h m, absorbed h m -> absorbed (foldl Write h pieces) (m ++ concat pieces).
Proof.
  induction pieces as [|d pieces IH]; intros h m Hm; cbn; [by rewrite app_nil_r|]. rewrite app_assoc. by apply IH, Write_absorbed.
Qed.

Lemma new_absorbed buf : length buf = 64%nat -> absorbed (hash_new buf) [].
Proof. intros Hb. exists 0%nat, [], []. repeat (split; [done || (cbn; lia)|]). done. Qed.

Lemma md_pad_length `{!BlockHashLaws} m : exists k, length (md_pad m) = (64 * k)%nat.
Proof.
  unfold md_pad. rewrite length_app. cbn [length]. rewrite length_app, repeat_length, size_out_length.
  set (r := (119 - Z.of_nat (length m)) mod 64). pose proof (Z.mod_pos_bound (119 - Z.of_nat (length m)) 64) as Hr.
  exists (Z.to_nat ((Z.of_nat (length m) + r + 9) / 64)).
  assert ((Z.of_nat (length m) + r + 9) mod 64 = 0) as E.
  { unfold r. rewrite <- Z.add_assoc, (Z.add_comm _ 9), Z.add_assoc, Zplus_mod_idemp_r. replace (_ + _) with (2 * 64) by lia. by rewrite Z_mod_mult. }
  apply Z.div_exact in E; [|lia]. fold r in Hr. lia.
Qed.

(** However the data is cut into pieces, the hasher computes the hash of the message. *)
Lemma hash_streaming_lemma `{!BlockHashLaws} buf pieces : length buf = 64%nat ->
  Finalize (foldl Write (hash_new buf) pieces) = md_hash (concat pieces).
Proof.
  intros Hb. pose proof (foldl_absorbed pieces _ _ (new_absorbed buf Hb)) as Ha. cbn [app] in Ha. set (m := concat pieces) in *.
  set (h := foldl Write _ _) in *. unfold Finalize, md_hash. assert (hs_bytes h = u64 (Z.of_nat (length m))) as En by (by destruct Ha as (? & ? & ? & -> & ? & ? & ? & ? & ? & ?)).
  rewrite En, u64_mod64. rewrite Zminus_mod_idemp_r.
  assert (u64 (Z.shiftl (u64 (Z.of_nat (length m))) 3) = u64 (8 * Z.of_nat (length m))) as ->.
  { rewrite Z.shiftl_mul_pow2 by lia. unfold u64. change (2^3) with 8. by rewrite Zmult_mod_idemp_l, Z.mul_comm. }
  pose proof (Z.mod_pos_bound (119 - Z.of_nat (length m)) 64 ltac:(lia)) as Hr. set (r := Z.to_nat _).
  assert (take (1 + r) hash_pad = 0x80 :: repeat 0 r) as ->.
  { unfold hash_pad. cbn [plus firstn]. f_equal. replace 63%nat with (r + (63 - r))%nat by lia. rewrite repeat_app, take_app_length'; [done|by rewrite repeat_length]. }
  apply Write_absorbed with (d := 0x80 :: repeat 0 r) in Ha. apply Write_absorbed with (d := size_out (u64 (8 * Z.of_nat (length m)))) in Ha.
  rewrite <- app_assoc in Ha. cbn [app] in Ha. change (m ++ 0x80 :: repeat 0 r ++ _) with (md_pad m) in Ha.
  destruct (md_pad_length m) as [k Hk]. apply (absorbed_whole _ _ _ Hk) in Ha as (-> & _). unfold md_state. rewrite Hk, Nat.mul_comm, Nat.div_mul by lia. done.
Qed.

(** The loop over the chunks does what the transformation of all of them does. *)
Lemma chunk_loop_blocks fuel : forall h data, (length data <= fuel)%nat ->
  let blocks := (length data / 64)%nat in
  chunk_loop fuel h data =
  if (64 <=? length data)%nat
  then (mkHasher (transform_blocks blocks (hs_s h) data) (hs_buf h) (u64 (hs_bytes h + Z.of_nat (64 * blocks))), drop (64 * blocks) data)
  else (h, data).
Proof.
  induction fuel as [|fuel IH]; intros h data Hd blocks; cbn [chunk_loop]; [destruct data; [done|cbn in Hd; lia]|].
  destruct (Nat.leb_spec 64 (length data)) as [H64|]; [|done]. rewrite IH by (rewrite length_drop; lia). cbn [hs_s hs_buf hs_bytes].
  assert (blocks = S (length (drop 64 data) / 64)) as ->.
  { unfold blocks. rewrite length_drop. replace (length data) with (length data - 64 + 1 * 64)%nat at 1 by lia. rewrite Nat.div_add by lia. lia. }
  destruct (Nat.leb_spec 64 (length (drop 64 data))) as [H2|H2].
  - cbn [transform_blocks]. rewrite u64_add_bytes, drop_drop. do 2 f_equal; [f_equal|]; lia.
  - rewrite (Nat.div_small (length (drop 64 data))) by lia. cbn [transform_blocks]. done.
Qed.

Lemma Write_loop_eq h data : Write_loop h data = Write h data.
Proof.
  assert (forall h data n, write_rest_loop h data n = write_rest h data n) as E; [|unfold Write_loop, Write; by rewrite !E].
  clear. intros h data n. unfold write_rest_loop, write_rest. rewrite chunk_loop_blocks by lia. done.
Qed.
Lemma Finalize_loop_eq h : Finalize_loop h = Finalize h.
Proof. unfold Finalize_loop, Finalize. by rewrite !Write_loop_eq. Qed.

Lemma hash_streaming_loop `{!BlockHashLaws} buf pieces : length buf = 64%nat ->
  Finalize_loop (foldl Write_loop (hash_new buf) pieces) = md_hash (concat pieces).
Proof.
  intros Hb. rewrite Finalize_loop_eq, <- (hash_streaming_lemma buf pieces Hb). f_equal. generalize (hash_new buf).
  induction pieces as [|d pieces IH]; intros h; [done|]. cbn [foldl]. by rewrite Write_loop_eq, IH.
Qed.

End hasher.
