(* ===== verification/Sha256.v ===== *)
(** * Sha256: the transformations of SHA-256
      (src/src/crypto/sha256.{h,cpp}, src/src/crypto/common.h)

    The source unrolls the rounds, lets the eight variables and the sixteen
    schedule words change roles instead of moving them, and folds constants into
    a special transformation for the double hash of 64 bytes. Both are shown to
    compute the function of the standard. *)

From Stdlib Require Import ZArith Lia.
From stdpp Require Import base list numbers option.
From S2P Require Import Prelude Uint256 Serialize HashBlock.

Definition ReadBE32 (b : list Z) : Z := foldl (fun x y => x * 2^8 + y) 0 (take 4 b).
Definition WriteBE32 (x : Z) : list Z := rev (le_bytes 4 x).
Definition WriteBE64 (x : Z) : list Z := rev (le_bytes 8 x).

(** ** The functions of the source *)

Definition Ch (x y z : Z) : Z := Z.lxor z (Z.land x (Z.lxor y z)).
Definition Maj (x y z : Z) : Z := Z.lor (Z.land x y) (Z.land z (Z.lor x y)).
(** [x >> n | x << (32 - n)] *)
Definition rotr (x n : Z) : Z := Z.lor (Z.shiftr x n) (u32 (Z.shiftl x (32 - n))).
Definition Sigma0 (x : Z) : Z := Z.lxor (Z.lxor (rotr x 2) (rotr x 13)) (rotr x 22).
Definition Sigma1 (x : Z) : Z := Z.lxor (Z.lxor (rotr x 6) (rotr x 11)) (rotr x 25).
Definition sigma0 (x : Z) : Z := Z.lxor (Z.lxor (rotr x 7) (rotr x 18)) (Z.shiftr x 3).
Definition sigma1 (x : Z) : Z := Z.lxor (Z.lxor (rotr x 17) (rotr x 19)) (Z.shiftr x 10).

(** Call number [t] of [Round]: its parameter number [j] is the variable number
    [j - t] of [a], ..., [h]; the fourth and the last are references. *)
Definition Round (t : nat) (k : Z) (v : list Z) : list Z :=
  let var j := ((j + 7 * t) mod 8)%nat in
  let x j := v !!! var j in
  let t1 := u32 (x 7%nat + Sigma1 (x 4%nat) + Ch (x 4%nat) (x 5%nat) (x 6%nat) + k) in
  let t2 := u32 (Sigma0 (x 0%nat) + Maj (x 0%nat) (x 1%nat) (x 2%nat)) in
  <[var 7%nat := u32 (t1 + t2)]> (<[var 3%nat := u32 (x 3%nat + t1)]> v).

Definition sha256_Initialize : list Z :=
  [0x6a09e667; 0xbb67ae85; 0x3c6ef372; 0xa54ff53a; 0x510e527f; 0x9b05688c; 0x1f83d9ab; 0x5be0cd19].

(** The constants of the calls; the roles are back after eight. *)
Definition sha256_k : list Z :=
  [0x428a2f98; 0x71374491; 0xb5c0fbcf; 0xe9b5dba5; 0x3956c25b; 0x59f111f1; 0x923f82a4; 0xab1c5ed5] ++
  [0xd807aa98; 0x12835b01; 0x243185be; 0x550c7dc3; 0x72be5d74; 0x80deb1fe; 0x9bdc06a7; 0xc19bf174] ++
  [0xe49b69c1; 0xefbe4786; 0x0fc19dc6; 0x240ca1cc; 0x2de92c6f; 0x4a7484aa; 0x5cb0a9dc; 0x76f988da] ++
  [0x983e5152; 0xa831c66d; 0xb00327c8; 0xbf597fc7; 0xc6e00bf3; 0xd5a79147; 0x06ca6351; 0x14292967] ++
  [0x27b70a85; 0x2e1b2138; 0x4d2c6dfc; 0x53380d13; 0x650a7354; 0x766a0abb; 0x81c2c92e; 0x92722c85] ++
  [0xa2bfe8a1; 0xa81a664b; 0xc24b8b70; 0xc76c51a3; 0xd192e819; 0xd6990624; 0xf40e3585; 0x106aa070] ++
  [0x19a4c116; 0x1e376c08; 0x2748774c; 0x34b0bcb5; 0x391c0cb3; 0x4ed8aa4a; 0x5b9cca4f; 0x682e6ff3] ++
  [0x748f82ee; 0x78a5636f; 0x84c87814; 0x8cc70208; 0x90befffa; 0xa4506ceb; 0xbef9a3f7; 0xc67178f2].

(** [w_t += sigma1(w_(t-2)) + w_(t-7) + sigma0(w_(t-15))], indices modulo 16 *)
Definition schedule_step (t : nat) (w : list Z) : list Z :=
  let x j := w !!! ((j + t) mod 16)%nat in
  <[(t mod 16)%nat := u32 (x 0%nat + (sigma1 (x 14%nat) + x 9%nat + sigma0 (x 1%nat)))]> w.

(** The calls from number [t] on *)
Fixpoint rounds (t : nat) (ks : list Z) (w v : list Z) : list Z :=
  match ks with
  | [] => v
  | k :: ks =>
      let w := if (t <? 16)%nat then w else schedule_step t w in
      rounds (S t) ks w (Round t (u32 (k + w !!! (t mod 16)%nat)) v)
  end.

Definition chunk_words (chunk : list Z) : list Z := map (fun i => ReadBE32 (drop (4 * i) chunk)) (seq 0 16).
Definition add_words (s v : list Z) : list Z := zip_with (fun x y => u32 (x + y)) s v.

Definition sha256_Transform (s chunk : list Z) : list Z := add_words s (rounds 0 sha256_k (chunk_words chunk) s).

(** ** [TransformD64] *)

(** The constants of the second transformation, whose chunk is all padding *)
Definition d64_k2 : list Z :=
  [0xc28a2f98; 0x71374491; 0xb5c0fbcf; 0xe9b5dba5; 0x3956c25b; 0x59f111f1; 0x923f82a4; 0xab1c5ed5] ++
  [0xd807aa98; 0x12835b01; 0x243185be; 0x550c7dc3; 0x72be5d74; 0x80deb1fe; 0x9bdc06a7; 0xc19bf374] ++
  [0x649b69c1; 0xf0fe4786; 0x0fe1edc6; 0x240cf254; 0x4fe9346f; 0x6cc984be; 0x61b9411e; 0x16f988fa] ++
  [0xf2c65152; 0xa88e5a6d; 0xb019fc65; 0xb9d99ec7; 0x9a1231c3; 0xe70eeaa0; 0xfdb1232b; 0xc7353eb0] ++
  [0x3069bad5; 0xcb976d5f; 0x5a0f118f; 0xdc1eeefd; 0x0a35b689; 0xde0b7a04; 0x58f4ca9d; 0xe15d5b16] ++
  [0x007f3e86; 0x37088980; 0xa507ea32; 0x6fab9537; 0x17406110; 0x0d8cd6f1; 0xcdaa3b6d; 0xc0bbbe37] ++
  [0x83613bda; 0xdb48a363; 0x0b02e931; 0x6fd15ca7; 0x521afaca; 0x31338431; 0x6ed41a95; 0x6d437890] ++
  [0xc39c91f2; 0x9eccabbd; 0xb5c9a0e6; 0x532fb63c; 0xd2c741c6; 0x07237ea3; 0xa4954b68; 0x4c191d76].

(** The constants of calls 8 to 15 of the third *)
Definition d64_k3 : list Z := [0x5807aa98; 0x12835b01; 0x243185be; 0x550c7dc3; 0x72be5d74; 0x80deb1fe; 0x9bdc06a7; 0xc19bf274].

(** The first update of the schedule words in the third, with the padding folded in *)
Definition d64_schedule (w : list Z) : list Z :=
  match w with
  | [w0; w1; w2; w3; w4; w5; w6; w7] =>
      let w0 := u32 (w0 + sigma0 w1) in
      let w1 := u32 (w1 + (0xa00000 + sigma0 w2)) in
      let w2 := u32 (w2 + (sigma1 w0 + sigma0 w3)) in
      let w3 := u32 (w3 + (sigma1 w1 + sigma0 w4)) in
      let w4 := u32 (w4 + (sigma1 w2 + sigma0 w5)) in
      let w5 := u32 (w5 + (sigma1 w3 + sigma0 w6)) in
      let w6 := u32 (w6 + (sigma1 w4 + 0x100 + sigma0 w7)) in
      let w7 := u32 (w7 + (sigma1 w5 + w0 + 0x11002000)) in
      let w8 := u32 (0x80000000 + sigma1 w6 + w1) in
      let w9 := u32 (sigma1 w7 + w2) in
      let w10 := u32 (sigma1 w8 + w3) in
      let w11 := u32 (sigma1 w9 + w4) in
      let w12 := u32 (sigma1 w10 + w5) in
      let w13 := u32 (sigma1 w11 + w6) in
      let w14 := u32 (sigma1 w12 + w7 + 0x400022) in
      let w15 := u32 (0x100 + sigma1 w13 + w8 + sigma0 w0) in
      [w0; w1; w2; w3; w4; w5; w6; w7; w8; w9; w10; w11; w12; w13; w14; w15]
  | _ => []
  end.

(** Calls of [Round] with given last arguments *)
Fixpoint rounds_with (t : nat) (ks v : list Z) : list Z :=
  match ks with
  | [] => v
  | k :: ks => rounds_with (S t) ks (Round t k v)
  end.

Definition TransformD64 (inp : list Z) : list Z :=
  let t := add_words sha256_Initialize (rounds 0 sha256_k (chunk_words inp) sha256_Initialize) in
  let w := add_words t (rounds_with 0 d64_k2 t) in
  let v := rounds_with 0 (zip_with (fun k x => u32 (k + x)) (take 8 sha256_k) w ++ d64_k3) sha256_Initialize in
  let w := d64_schedule w in
  let v := rounds_with 16 (zip_with (fun k x => u32 (k + x)) (take 16 (drop 16 sha256_k)) w) v in
  let v := rounds 32 (drop 32 sha256_k) w v in
  concat (map WriteBE32 (add_words sha256_Initialize v)).

(** The class *)
#[global] Instance SHA256_hash : BlockHash := {
  Initialize := sha256_Initialize; Transform := sha256_Transform; word_out := WriteBE32; size_out := WriteBE64;
}.
#[global] Instance SHA256_laws : BlockHashLaws.
Proof. split. intros n. cbn [size_out SHA256_hash]. unfold WriteBE64. by rewrite length_rev, le_bytes_length. Qed.

(** ** SHA-256 as the standard states it *)

Definition fips_Ch (x y z : Z) : Z := Z.lxor (Z.land x y) (Z.ldiff z x).
Definition fips_Maj (x y z : Z) : Z := Z.lxor (Z.lxor (Z.land x y) (Z.land x z)) (Z.land y z).

(** One step on the working variables [a], ..., [h] *)
Definition fips_step (v : list Z) (kw : Z * Z) : list Z :=
  match v with
  | [a; b; c; d; e; f; g; h] =>
      let T1 := u32 (h + Sigma1 e + fips_Ch e f g + kw.1 + kw.2) in
      let T2 := u32 (Sigma0 a + fips_Maj a b c) in
      [u32 (T1 + T2); a; b; c; u32 (d + T1); e; f; g]
  | _ => v
  end.

(** The word that follows sixteen words, and the [n] words that follow *)
Definition fips_next (w : list Z) : Z := u32 (sigma1 (w !!! 14%nat) + w !!! 9%nat + sigma0 (w !!! 1%nat) + w !!! 0%nat).
Fixpoint fips_words (n : nat) (w : list Z) : list Z :=
  match n with
  | O => []
  | S n => fips_next w :: fips_words n (tail w ++ [fips_next w])
  end.

Definition fips_compress (H M : list Z) : list Z :=
  add_words H (foldl fips_step H (combine sha256_k (M ++ fips_words 48 M))).

(** ** The unrolled code computes it *)

Lemma Ch_fips x y z : Ch x y z = fips_Ch x y z.
Proof.
  apply Z.bits_inj'. intros n Hn. unfold Ch, fips_Ch. rewrite !Z.lxor_spec, !Z.land_spec, Z.lxor_spec, Z.ldiff_spec.
  by destruct (Z.testbit x n), (Z.testbit y n), (Z.testbit z n).
Qed.
Lemma Maj_fips x y z : Maj x y z = fips_Maj x y z.
Proof.
  apply Z.bits_inj'. intros n Hn. unfold Maj, fips_Maj. rewrite !Z.lxor_spec, Z.lor_spec, !Z.land_spec, Z.lor_spec.
  by destruct (Z.testbit x n), (Z.testbit y n), (Z.testbit z n).
Qed.

(** The values of the parameters of call [t] *)
Definition roles (t : nat) (v : list Z) : list Z := map (fun j => v !!! ((j + 7 * t) mod 8)%nat) (seq 0 8).

Lemma mod8_mul j t : ((j + 7 * t) mod 8 = (j + 7 * (t mod 8)) mod 8)%nat.
Proof. rewrite (Nat.Div0.div_mod t 8) at 1. replace (j + 7 * _)%nat with (j + 7 * (t mod 8) + (7 * (t / 8)) * 8)%nat by lia. apply Nat.Div0.mod_add. Qed.
Lemma mod8_S j t : ((j + 7 * S t) mod 8 = (j + 7 * S (t mod 8)) mod 8)%nat.
Proof. replace (j + 7 * S t)%nat with ((j + 7) + 7 * t)%nat by lia. rewrite mod8_mul. f_equal. lia. Qed.

Lemma length_Round t k v : length (Round t k v) = length v.
Proof. unfold Round. by rewrite !length_insert. Qed.

Lemma roles_mod t v : roles t v = roles (t mod 8) v.
Proof. apply map_ext. intros j. by rewrite mod8_mul. Qed.
Lemma roles_S_mod t v : roles (S t) v = roles (S (t mod 8)) v.
Proof. apply map_ext. intros j. by rewrite mod8_S. Qed.
Lemma Round_mod t k v : Round t k v = Round (t mod 8) k v.
Proof.
  unfold Round. by rewrite (mod8_mul 0 t), (mod8_mul 1 t), (mod8_mul 2 t), (mod8_mul 3 t), (mod8_mul 4 t), (mod8_mul 5 t), (mod8_mul 6 t), (mod8_mul 7 t).
Qed.

Lemma Round_roles t k x v : length v = 8%nat -> roles (S t) (Round t (u32 (k + x)) v) = fips_step (roles t v) (k, x).
Proof.
  intros Hv. rewrite roles_S_mod, Round_mod, (roles_mod t).
  assert (t mod 8 < 8)%nat as Ht by (apply Nat.mod_upper_bound; lia). generalize dependent (t mod 8)%nat. clear t. intros t Ht.
  do 8 (destruct v as [|? v]; [done|]). destruct v; [|done].
  do 8 (destruct t as [|t]; [unfold fips_step; cbn -[Z.add u32 Ch Maj Sigma0 Sigma1 fips_Ch fips_Maj]; by rewrite <- !Ch_fips, <- !Maj_fips, !u32_add_r, !Z.add_assoc|]). lia.
Qed.

(** The schedule words in the order of the standard *)
Definition rot (t : nat) (w : list Z) : list Z := map (fun j => w !!! ((j + t) mod 16)%nat) (seq 0 16).

Lemma mod16_add j t : ((j + t) mod 16 = (j + t mod 16) mod 16)%nat.
Proof. symmetry. apply Nat.Div0.add_mod_idemp_r. Qed.

Lemma rot_step t x w : length w = 16%nat -> rot (S t) (<[(t mod 16)%nat := x]> w) = tail (rot t w) ++ [x].
Proof.
  intros Hw. assert (rot t w = rot (t mod 16) w) as -> by (apply map_ext; intros j; by rewrite mod16_add).
  assert (forall w, rot (S t) w = rot (S (t mod 16)) w) as ->.
  { intros w'. apply map_ext. intros j. rewrite !Nat.add_succ_r, <- !Nat.add_succ_l. by rewrite mod16_add. }
  assert (t mod 16 < 16)%nat as Ht by (apply Nat.mod_upper_bound; lia). generalize dependent (t mod 16)%nat. clear t. intros t Ht.
  do 16 (destruct w as [|? w]; [done|]). destruct w; [|done].
  do 16 (destruct t as [|t]; [reflexivity|]). lia.
Qed.

Lemma schedule_step_next t w : schedule_step t w = <[(t mod 16)%nat := fips_next (rot t w)]> w.
Proof. unfold schedule_step, fips_next, rot. cbn [map seq lookup_total list_lookup_total]. do 2 f_equal. lia. Qed.

Lemma length_schedule_step t w : length (schedule_step t w) = length w.
Proof. unfold schedule_step. by rewrite length_insert. Qed.

Lemma rounds_late ks : forall t w v, (16 <= t)%nat -> length w = 16%nat -> length v = 8%nat ->
  roles (t + length ks) (rounds t ks w v) = foldl fips_step (roles t v) (combine ks (fips_words (length ks) (rot t w))).
Proof.
  induction ks as [|k ks IH]; intros t w v Ht Hw Hv; cbn [rounds length fips_words combine foldl]; [by rewrite Nat.add_0_r|].
  rewrite (proj2 (Nat.ltb_ge _ _)) by lia. rewrite Nat.add_succ_r, <- Nat.add_succ_l.
  rewrite IH; [|lia|by rewrite length_schedule_step|by rewrite length_Round].
  rewrite Round_roles by done. rewrite schedule_step_next, rot_step by done. rewrite list_lookup_total_insert_eq; [done|].
  rewrite Hw. apply Nat.mod_upper_bound. lia.
Qed.

Lemma rounds_early ks : forall t w v, (t + length ks <= 16)%nat -> length w = 16%nat -> length v = 8%nat ->
  roles (t + length ks) (rounds t ks w v) = foldl fips_step (roles t v) (combine ks (drop t w)) /\ length (rounds t ks w v) = 8%nat.
Proof.
  induction ks as [|k ks IH]; intros t w v Ht Hw Hv; cbn [rounds length]; [by rewrite Nat.add_0_r|]. cbn [length] in Ht.
  rewrite (proj2 (Nat.ltb_lt _ _)) by lia. rewrite Nat.add_succ_r, <- Nat.add_succ_l.
  destruct (IH (S t) w (Round t (u32 (k + w !!! (t mod 16)%nat)) v)) as [E Hl]; [lia|done|by rewrite length_Round|]. rewrite E. split; [|done].
  rewrite Round_roles by done. destruct (lookup_lt_is_Some_2 w t) as [x Hx]; [lia|]. rewrite (drop_S _ _ _ Hx). cbn [combine foldl].
  by rewrite Nat.mod_small, (list_lookup_total_correct _ _ _ Hx) by lia.
Qed.

Lemma rounds_app ks1 : forall t ks2 w v, (t + length ks1 <= 16)%nat ->
  rounds t (ks1 ++ ks2) w v = rounds (t + length ks1) ks2 w (rounds t ks1 w v).
Proof.
  induction ks1 as [|k ks1 IH]; intros t ks2 w v Ht; cbn [rounds length app]; [by rewrite Nat.add_0_r|]. cbn [length] in Ht.
  rewrite (proj2 (Nat.ltb_lt _ _)) by lia. rewrite IH by lia. by rewrite Nat.add_succ_r, <- Nat.add_succ_l.
Qed.

Lemma roles_whole t v : length v = 8%nat -> (t mod 8 = 0)%nat -> roles t v = v.
Proof. intros Hv Ht. rewrite roles_mod, Ht. do 8 (destruct v as [|? v]; [done|]). by destruct v. Qed.
Lemma rot_16 w : length w = 16%nat -> rot 16 w = w.
Proof. intros Hw. do 16 (destruct w as [|? w]; [done|]). by destruct w. Qed.

Lemma length_rounds ks : forall t w v, length (rounds t ks w v) = length v.
Proof. induction ks as [|k ks IH]; intros t w v; cbn [rounds]; [done|]. by rewrite IH, length_Round. Qed.

Lemma combine_app {A B} (a1 a2 : list A) (b1 b2 : list B) : length a1 = length b1 -> combine (a1 ++ a2) (b1 ++ b2) = combine a1 b1 ++ combine a2 b2.
Proof. revert b1. induction a1 as [|x a1 IH]; intros [|y b1] Hl; try done. cbn. by rewrite IH by (cbn in Hl; lia). Qed.

Lemma sha256_Transform_fips s chunk : length s = 8%nat -> sha256_Transform s chunk = fips_compress s (chunk_words chunk).
Proof.
  intros Hs. unfold sha256_Transform, fips_compress. f_equal. set (w := chunk_words chunk). assert (length w = 16%nat) as Hw by done.
  rewrite <- (take_drop 16 sha256_k). rewrite rounds_app by done. set (k1 := take 16 sha256_k). set (k2 := drop 16 sha256_k).
  destruct (rounds_early k1 0 w s) as [E Hl]; [done|done|done|].
  pose proof (rounds_late k2 16 w (rounds 0 k1 w s) ltac:(done) Hw Hl) as E2. change (0 + length k1)%nat with 16%nat in *. rewrite E in E2.
  rewrite (roles_whole 0 s), (roles_whole (16 + length k2)), rot_16 in E2 by (rewrite ?length_rounds; done).
  rewrite E2, combine_app, foldl_app by done. done.
Qed.

(** ** The double hash of 64 bytes *)

(** The last arguments of the calls *)
Fixpoint round_args (t : nat) (ks w : list Z) : list Z :=
  match ks with
  | [] => []
  | k :: ks =>
      let w := if (t <? 16)%nat then w else schedule_step t w in
      u32 (k + w !!! (t mod 16)%nat) :: round_args (S t) ks w
  end.
Fixpoint schedule_run (n t : nat) (w : list Z) : list Z :=
  match n with
  | O => w
  | S n => schedule_run n (S t) (if (t <? 16)%nat then w else schedule_step t w)
  end.

Lemma rounds_args ks : forall t w v, rounds t ks w v = rounds_with t (round_args t ks w) v.
Proof. induction ks as [|k ks IH]; intros t w v; cbn; [done|]. by rewrite IH. Qed.
Lemma rounds_with_app a : forall t b v, rounds_with t (a ++ b) v = rounds_with (t + length a) b (rounds_with t a v).
Proof. induction a as [|k a IH]; intros t b v; cbn; [by rewrite Nat.add_0_r|]. by rewrite IH, Nat.add_succ_r. Qed.
Lemma round_args_app a : forall t b w, round_args t (a ++ b) w = round_args t a w ++ round_args (t + length a) b (schedule_run (length a) t w).
Proof. induction a as [|k a IH]; intros t b w; cbn; [by rewrite Nat.add_0_r|]. by rewrite IH, Nat.add_succ_r. Qed.
Lemma length_rounds_with a : forall t v, length (rounds_with t a v) = length v.
Proof. induction a as [|k a IH]; intros t v; cbn; [done|]. by rewrite IH, length_Round. Qed.
Lemma length_round_args a : forall t w, length (round_args t a w) = length a.
Proof. induction a as [|k a IH]; intros t w; cbn; [done|]. by rewrite IH. Qed.

(** The schedule of a chunk that holds eight words and the padding for them *)
Definition d64_padding : list Z := [0x80000000; 0; 0; 0; 0; 0; 0; 0x100].

Lemma d64_schedule_spec w : length w = 8%nat ->
  schedule_run 16 16 (w ++ d64_padding) = d64_schedule w /\
  round_args 16 (take 16 (drop 16 sha256_k)) (w ++ d64_padding) = zip_with (fun k x => u32 (k + x)) (take 16 (drop 16 sha256_k)) (d64_schedule w).
Proof.
  intros Hw. do 8 (destruct w as [|? w]; [done|]). destruct w; [|done]. clear Hw. unfold d64_padding.
  cbv -[Z.add u32 sigma0 sigma1].
  change (sigma1 0) with 0. change (sigma0 0) with 0. change (sigma1 256) with 10485760. change (sigma0 2147483648) with 285220864. change (sigma0 256) with 4194338.
  rewrite ?Z.add_0_l, ?Z.add_0_r, ?Z.add_assoc. done.
Qed.

Lemma WriteBE32_bytes x : WriteBE32 x = [x / 2^8 / 2^8 / 2^8 mod 2^8; x / 2^8 / 2^8 mod 2^8; x / 2^8 mod 2^8; x mod 2^8].
Proof. reflexivity. Qed.

Lemma ReadBE32_WriteBE32 x l : is_u32 x -> ReadBE32 (WriteBE32 x ++ l) = x.
Proof.
  intros Hx. rewrite WriteBE32_bytes. unfold ReadBE32. cbn [app firstn foldl]. unfold is_u32 in Hx. change (2^32) with 4294967296 in Hx. change (2^8) with 256.
  rewrite take_0. cbn [foldl]. Z.div_mod_to_equations. lia.
Qed.

Lemma length_digest s : length (concat (map WriteBE32 s)) = (4 * length s)%nat.
Proof. induction s as [|x s IH]; [done|]. cbn [map concat]. rewrite length_app, IH. rewrite WriteBE32_bytes. cbn [length]. lia. Qed.

Lemma add_words_u32 s v : Forall is_u32 (add_words s v).
Proof.
  revert v. induction s as [|x s IH]; intros [|y v]; cbn; try apply Forall_nil_2. apply Forall_cons_2; [|apply IH].
  unfold u32, is_u32. apply Z.mod_pos_bound. lia.
Qed.
Lemma length_sha256_Transform s chunk : length (sha256_Transform s chunk) = length s.
Proof. unfold sha256_Transform, add_words. by rewrite length_zip_with, length_rounds, Nat.min_id. Qed.

Lemma read_words s : forall n l, Forall is_u32 s -> (length s <= n)%nat ->
  map (fun i => ReadBE32 (drop (4 * i) (concat (map WriteBE32 s) ++ l))) (seq 0 n)
  = s ++ map (fun i => ReadBE32 (drop (4 * i) l)) (seq 0 (n - length s)).
Proof.
  induction s as [|x s IH]; intros n l Hs Hn; cbn [length] in *; [by rewrite Nat.sub_0_r|].
  apply Forall_cons_1 in Hs as [Hx Hs]. destruct n as [|n]; [lia|]. rewrite <- cons_seq, <- seq_shift. cbn [map concat app]. rewrite map_map.
  rewrite <- app_assoc. f_equal.
  - rewrite Nat.mul_0_r, drop_0. by apply ReadBE32_WriteBE32.
  - cbn [Nat.sub]. rewrite <- IH by (done || lia). apply map_ext. intros i. f_equal. rewrite Nat.mul_succ_r, Nat.add_comm.
    rewrite <- drop_drop. by rewrite (WriteBE32_bytes x).
Qed.

(** The words of a chunk that holds a digest and its padding *)
Lemma digest_words s : length s = 8%nat -> Forall is_u32 s ->
  chunk_words (concat (map WriteBE32 s) ++ 0x80 :: repeat 0 29 ++ [1; 0]) = s ++ d64_padding.
Proof. intros Hl Hs. unfold chunk_words. rewrite read_words by (done || lia). rewrite Hl. f_equal. Qed.

(** The third transformation of [TransformD64] *)
Lemma d64_third w : length w = 8%nat -> Forall is_u32 w ->
  rounds 32 (drop 32 sha256_k) (d64_schedule w)
    (rounds_with 16 (zip_with (fun k x => u32 (k + x)) (take 16 (drop 16 sha256_k)) (d64_schedule w))
      (rounds_with 0 (zip_with (fun k x => u32 (k + x)) (take 8 sha256_k) w ++ d64_k3) sha256_Initialize))
  = rounds 0 sha256_k (w ++ d64_padding) sha256_Initialize.
Proof.
  intros Hw Hu. destruct (d64_schedule_spec w Hw) as [Er Ea]. rewrite <- Ea, <- Er, !rounds_args.
  assert (zip_with (fun k x => u32 (k + x)) (take 8 sha256_k) w ++ d64_k3 = round_args 0 (take 16 sha256_k) (w ++ d64_padding)) as ->.
  { do 8 (destruct w as [|? w]; [done|]). destruct w; [|done]. reflexivity. }
  set (k1 := take 16 sha256_k). set (k2 := take 16 (drop 16 sha256_k)). set (k3 := drop 32 sha256_k).
  assert (sha256_k = k1 ++ k2 ++ k3) as -> by reflexivity.
  rewrite !round_args_app, !rounds_with_app, !length_round_args. change (length k1) with 16%nat. change (length k2) with 16%nat.
  change (schedule_run 16 0 (w ++ d64_padding)) with (w ++ d64_padding). reflexivity.
Qed.

Lemma sha256_Transform_args s chunk :
  sha256_Transform s chunk = add_words s (rounds_with 0 (round_args 0 sha256_k (chunk_words chunk)) s).
Proof. unfold sha256_Transform. by rewrite rounds_args. Qed.
Lemma d64_k2_args : round_args 0 sha256_k (chunk_words (0x80 :: repeat 0 61 ++ [2; 0])) = d64_k2.
Proof. vm_compute. reflexivity. Qed.

Lemma TransformD64_eq inp t w : sha256_Transform sha256_Initialize inp = t -> add_words t (rounds_with 0 d64_k2 t) = w ->
  TransformD64 inp = concat (map WriteBE32 (add_words sha256_Initialize
    (rounds 32 (drop 32 sha256_k) (d64_schedule w)
      (rounds_with 16 (zip_with (fun k x => u32 (k + x)) (take 16 (drop 16 sha256_k)) (d64_schedule w))
        (rounds_with 0 (zip_with (fun k x => u32 (k + x)) (take 8 sha256_k) w ++ d64_k3) sha256_Initialize))))).
Proof. intros <- <-. unfold TransformD64, sha256_Transform. reflexivity. Qed.

Lemma md_hash_64 inp : length inp = 64%nat ->
  md_hash inp = concat (map WriteBE32 (sha256_Transform (sha256_Transform sha256_Initialize inp) (0x80 :: repeat 0 61 ++ [2; 0]))).
Proof.
  intros Hi. unfold md_hash. do 2 f_equal. unfold md_state.
  assert (md_pad inp = inp ++ 0x80 :: repeat 0 61 ++ [2; 0]) as -> by (unfold md_pad; by rewrite Hi).
  set (pad := 0x80 :: _). rewrite length_app, Hi. change (length pad) with 64%nat. change ((64 + 64) / 64)%nat with 2%nat. cbn [transform_blocks].
  rewrite take_app_length', drop_app_length' by done. by rewrite (take_ge pad).
Qed.

Lemma md_hash_digest s : length s = 8%nat ->
  md_hash (concat (map WriteBE32 s))
  = concat (map WriteBE32 (sha256_Transform sha256_Initialize (concat (map WriteBE32 s) ++ 0x80 :: repeat 0 29 ++ [1; 0]))).
Proof.
  intros Hs. unfold md_hash. do 2 f_equal. unfold md_state.
  assert (md_pad (concat (map WriteBE32 s)) = concat (map WriteBE32 s) ++ 0x80 :: repeat 0 29 ++ [1; 0]) as -> by (unfold md_pad; by rewrite length_digest, Hs).
  rewrite length_app, length_digest, Hs. change (4 * 8 + _)%nat with 64%nat. change (64 / 64)%nat with 1%nat. cbn [transform_blocks].
  by rewrite take_ge by (rewrite length_app, length_digest, Hs; done).
Qed.

Lemma TransformD64_double inp : length inp = 64%nat -> TransformD64 inp = md_hash (md_hash inp).
Proof.
  intros Hi. rewrite (md_hash_64 inp Hi). set (t := sha256_Transform sha256_Initialize inp). set (w := sha256_Transform t _).
  assert (length w = 8%nat) as Hw by (unfold w, t; by rewrite !length_sha256_Transform). assert (Forall is_u32 w) as Hu by apply add_words_u32.
  assert (add_words t (rounds_with 0 d64_k2 t) = w) as Ew by (unfold w; by rewrite (sha256_Transform_args t), d64_k2_args).
  rewrite (md_hash_digest w Hw), (TransformD64_eq inp t w eq_refl Ew), (d64_third w Hw Hu). unfold sha256_Transform. by rewrite (digest_words w Hw Hu).
Qed.

(** [TransformD64Wrapper], which the accelerated transformations are used through *)
Definition TransformD64Wrapper (tr : list Z -> list Z -> list Z) (inp : list Z) : list Z :=
  let padding1 := 0x80 :: repeat 0 61 ++ [2; 0] in
  let buffer2 := repeat 0 32 ++ 0x80 :: repeat 0 29 ++ [1; 0] in
  let s := tr (tr sha256_Initialize inp) padding1 in
  concat (map WriteBE32 (tr sha256_Initialize (memcpy_at buffer2 0 (concat (map WriteBE32 s))))).

Lemma TransformD64Wrapper_eq tr inp s : tr (tr sha256_Initialize inp) (0x80 :: repeat 0 61 ++ [2; 0]) = s -> length s = 8%nat ->
  TransformD64Wrapper tr inp = concat (map WriteBE32 (tr sha256_Initialize (concat (map WriteBE32 s) ++ 0x80 :: repeat 0 29 ++ [1; 0]))).
Proof.
  intros <- Hs. unfold TransformD64Wrapper. do 3 f_equal. unfold memcpy_at. rewrite length_digest, Hs. reflexivity.
Qed.

Lemma TransformD64Wrapper_double inp : length inp = 64%nat -> TransformD64Wrapper sha256_Transform inp = md_hash (md_hash inp).
Proof.
  intros Hi. rewrite (md_hash_64 inp Hi), md_hash_digest by (by rewrite !length_sha256_Transform).
  apply TransformD64Wrapper_eq; [done|by rewrite !length_sha256_Transform].
Qed.

(** ** Properties *)

(** The hash of a message: the padded message in blocks of sixteen words *)
Definition fips_pad (m : list Z) : list Z :=
  let bits := 8 * Z.of_nat (length m) in
  m ++ 0x80 :: repeat 0 (Z.to_nat ((119 - Z.of_nat (length m)) mod 64)) ++ WriteBE64 (bits mod 2^64).
Fixpoint fips_blocks (n : nat) (H m : list Z) : list Z :=
  match n with
  | O => H
  | S n => fips_blocks n (fips_compress H (chunk_words (take 64 m))) (drop 64 m)
  end.
Definition fips_sha256 (m : list Z) : list Z :=
  let m := fips_pad m in
  concat (map WriteBE32 (fips_blocks (length m / 64) sha256_Initialize m)).

Lemma transform_blocks_fips n : forall s m, length s = 8%nat -> transform_blocks n s m = fips_blocks n s m.
Proof.
  induction n as [|n IH]; intros s m Hs; [done|]. cbn [transform_blocks fips_blocks].
  change (Transform s (take 64 m)) with (sha256_Transform s (take 64 m)). rewrite IH by (by rewrite length_sha256_Transform).
  by rewrite (sha256_Transform_fips s _ Hs).
Qed.

Lemma md_hash_fips m : md_hash m = fips_sha256 m.
Proof. unfold md_hash, md_state, fips_sha256. change (md_pad m) with (fips_pad m). cbv zeta. by rewrite transform_blocks_fips. Qed.

(** C35: however the data is cut into pieces, and whatever the buffer held
    before, [CSHA256] computes the hash the standard defines for their
    concatenation. *)
Theorem CSHA256_correct buf pieces : length buf = 64%nat ->
  Finalize (foldl Write (hash_new buf) pieces) = fips_sha256 (concat pieces).
Proof. intros Hb. by rewrite (hash_streaming_lemma buf pieces Hb), md_hash_fips. Qed.

(** C36: the transformation for 64 bytes with its folded constants, and the one
    through which accelerated transformations are used, compute the double hash
    of the standard. *)
Theorem TransformD64_correct inp : length inp = 64%nat ->
  TransformD64 inp = fips_sha256 (fips_sha256 inp) /\ TransformD64Wrapper sha256_Transform inp = fips_sha256 (fips_sha256 inp).
Proof. intros Hi. by rewrite (TransformD64_double inp Hi), (TransformD64Wrapper_double inp Hi), !md_hash_fips. Qed.

Lemma CSHA256_correct_witness :
  Finalize (foldl Write (hash_new (repeat 7 64)) [[97]; []; [98; 99]]) = fips_sha256 [97; 98; 99] /\
  take 4 (fips_sha256 [97; 98; 99]) = [0xba; 0x78; 0x16; 0xbf].
Proof. split; [apply (CSHA256_correct (repeat 7 64) [[97]; []; [98; 99]]); reflexivity|vm_compute; reflexivity]. Defined.

Lemma TransformD64_correct_witness :
  TransformD64 (repeat 7 64) = fips_sha256 (fips_sha256 (repeat 7 64)).
Proof. exact (proj1 (TransformD64_correct (repeat 7 64) eq_refl)). Defined.
