(* ===== verification/Sha1.v ===== *)
(** * Sha1: the transformation of SHA-1 (src/src/crypto/sha1.{h,cpp})

    Eighty calls of [Round] on five variables that change roles, over sixteen
    schedule words that are overwritten in turn. [CSHA1] is shown to compute the
    function of the standard. *)

From Stdlib Require Import ZArith Lia.
From stdpp Require Import base list numbers option.
From S2P Require Import Prelude Uint256 Serialize HashBlock Sha256.

(** [x << i | x >> (32 - i)] *)
Definition rol (x i : Z) : Z := Z.lor (u32 (Z.shiftl x i)) (Z.shiftr x (32 - i)).

Definition sha1_f1 (b c d : Z) : Z := Z.lxor d (Z.land b (Z.lxor c d)).
Definition sha1_f2 (b c d : Z) : Z := Z.lxor (Z.lxor b c) d.
Definition sha1_f3 (b c d : Z) : Z := Z.lor (Z.land b c) (Z.land d (Z.lor b c)).

(** Parameter number [j] of call number [t] of a round on five variables is the
    variable number [j - t]. *)
Definition var5 (t j : nat) : nat := ((j + 4 * t) mod 5)%nat.

(** The second and the fifth parameter are references. *)
Definition sha1_Round (t : nat) (f : Z -> Z -> Z -> Z) (k w : Z) (v : list Z) : list Z :=
  let x j := v !!! var5 t j in
  let v := <[var5 t 4 := u32 (x 4%nat + (rol (x 0%nat) 5 + f (x 1%nat) (x 2%nat) (x 3%nat) + k + w))]> v in
  <[var5 t 1 := rol (x 1%nat) 30]> v.

Definition sha1_Initialize : list Z := [0x67452301; 0xEFCDAB89; 0x98BADCFE; 0x10325476; 0xC3D2E1F0].

(** The function and the constant of each call *)
Definition sha1_calls : list ((Z -> Z -> Z -> Z) * Z) :=
  repeat (sha1_f1, 0x5A827999) 20 ++ repeat (sha1_f2, 0x6ED9EBA1) 20 ++
  repeat (sha1_f3, 0x8F1BBCDC) 20 ++ repeat (sha1_f2, 0xCA62C1D6) 20.

(** [w_t = left(w_t ^ w_(t+13) ^ w_(t+8) ^ w_(t+2))], indices modulo 16 *)
Definition sha1_schedule (t : nat) (w : list Z) : list Z :=
  let x j := w !!! ((j + t) mod 16)%nat in
  <[(t mod 16)%nat := rol (Z.lxor (Z.lxor (Z.lxor (x 0%nat) (x 13%nat)) (x 8%nat)) (x 2%nat)) 1]> w.

Fixpoint sha1_rounds (t : nat) (calls : list ((Z -> Z -> Z -> Z) * Z)) (w v : list Z) : list Z :=
  match calls with
  | [] => v
  | (f, k) :: calls =>
      let w := if (t <? 16)%nat then w else sha1_schedule t w in
      sha1_rounds (S t) calls w (sha1_Round t f k (w !!! (t mod 16)%nat) v)
  end.

Definition sha1_Transform (s chunk : list Z) : list Z := add_words s (sha1_rounds 0 sha1_calls (chunk_words chunk) s).

Definition SHA1_hash : BlockHash :=
  Build_BlockHash sha1_Initialize sha1_Transform WriteBE32 WriteBE64.
Lemma SHA1_laws : @BlockHashLaws SHA1_hash.
Proof. split. intros n. apply (@size_out_length SHA256_hash SHA256_laws n). Qed.

(** ** SHA-1 as the standard states it *)

Definition fips1_fk (t : nat) : (Z -> Z -> Z -> Z) * Z :=
  if (t <? 20)%nat then (fips_Ch, 0x5a827999)
  else if (t <? 40)%nat then (fun x y z => Z.lxor x (Z.lxor y z), 0x6ed9eba1)
  else if (t <? 60)%nat then (fips_Maj, 0x8f1bbcdc)
  else (fun x y z => Z.lxor x (Z.lxor y z), 0xca62c1d6).

Definition fips1_step (v : list Z) (fkw : (Z -> Z -> Z -> Z) * Z * Z) : list Z :=
  match v, fkw with
  | [a; b; c; d; e], (f, k, w) => [u32 (rol a 5 + f b c d + e + k + w); a; rol b 30; c; d]
  | _, _ => v
  end.

(** [W_t = ROTL 1 (W_(t-3) xor W_(t-8) xor W_(t-14) xor W_(t-16))] *)
Definition fips1_next (w : list Z) : Z :=
  rol (Z.lxor (w !!! 13%nat) (Z.lxor (w !!! 8%nat) (Z.lxor (w !!! 2%nat) (w !!! 0%nat)))) 1.
Fixpoint fips1_words (n : nat) (w : list Z) : list Z :=
  match n with
  | O => []
  | S n => fips1_next w :: fips1_words n (tail w ++ [fips1_next w])
  end.

Definition fips1_compress (H M : list Z) : list Z :=
  add_words H (foldl fips1_step H (combine (map fips1_fk (seq 0 80)) (M ++ fips1_words 64 M))).

Fixpoint fips1_blocks (n : nat) (H m : list Z) : list Z :=
  match n with
  | O => H
  | S n => fips1_blocks n (fips1_compress H (chunk_words (take 64 m))) (drop 64 m)
  end.
Definition fips_sha1 (m : list Z) : list Z :=
  let m := fips_pad m in
  concat (map WriteBE32 (fips1_blocks (length m / 64) [0x67452301; 0xefcdab89; 0x98badcfe; 0x10325476; 0xc3d2e1f0] m)).

(** ** Five variables that change roles *)

Lemma list5 {A} (v : list A) : length v = 5%nat -> exists a b c d e, v = [a; b; c; d; e].
Proof. intros Hv. do 5 (destruct v as [|? v]; [done|]). destruct v; [by do 5 eexists|done]. Qed.

Definition roles5 (t : nat) (v : list Z) : list Z := map (fun j => v !!! var5 t j) (seq 0 5).

Lemma var5_mod t j : var5 t j = var5 (t mod 5) j.
Proof.
  unfold var5. rewrite (Nat.Div0.div_mod t 5) at 1. replace (j + 4 * _)%nat with (j + 4 * (t mod 5) + (4 * (t / 5)) * 5)%nat by lia. apply Nat.Div0.mod_add.
Qed.
Lemma var5_S t j : var5 (S t) j = var5 (S (t mod 5)) j.
Proof. unfold var5. replace (j + 4 * S t)%nat with (j + 4 + 4 * t)%nat by lia. change ((j + 4 + 4 * t) mod 5)%nat with (var5 t (j + 4)). rewrite var5_mod. unfold var5. f_equal. lia. Qed.
Lemma roles5_mod t v : roles5 t v = roles5 (t mod 5) v.
Proof. apply map_ext. intros j. by rewrite var5_mod. Qed.
Lemma roles5_S t v : roles5 (S t) v = roles5 (S (t mod 5)) v.
Proof. apply map_ext. intros j. by rewrite var5_S. Qed.
Lemma roles5_whole t v : length v = 5%nat -> (t mod 5 = 0)%nat -> roles5 t v = v.
Proof. intros Hv Ht. rewrite roles5_mod, Ht. by destruct (list5 v Hv) as (? & ? & ? & ? & ? & ->). Qed.

(** A round whose parameters depend on the roles only is a step on the roles. *)
Lemma round5_roles (round : nat -> list Z -> list Z) (step : list Z -> list Z) :
  (forall t v, round t v = round (t mod 5)%nat v) ->
  (forall t a b c d e, (t < 5)%nat -> roles5 (S t) (round t [a; b; c; d; e]) = step (roles5 t [a; b; c; d; e])) ->
  forall t v, length v = 5%nat -> roles5 (S t) (round t v) = step (roles5 t v).
Proof.
  intros Hm Hs t v Hv. rewrite roles5_S, Hm, (roles5_mod t). destruct (list5 v Hv) as (? & ? & ? & ? & ? & ->).
  apply Hs, Nat.mod_upper_bound. lia.
Qed.

(** ** The unrolled code computes it *)

Lemma length_sha1_Round t f k w v : length (sha1_Round t f k w v) = length v.
Proof. unfold sha1_Round. by rewrite !length_insert. Qed.

Lemma sha1_Round_roles t f k w v : length v = 5%nat -> roles5 (S t) (sha1_Round t f k w v) = fips1_step (roles5 t v) (f, k, w).
Proof.
  apply (round5_roles (fun t => sha1_Round t f k w) (fun v => fips1_step v (f, k, w))).
  - intros t' v'. unfold sha1_Round. by rewrite (var5_mod t' 0), (var5_mod t' 1), (var5_mod t' 2), (var5_mod t' 3), (var5_mod t' 4).
  - clear. intros t a b c d e Ht. do 5 (destruct t as [|t]; [unfold fips1_step; cbn -[Z.add u32 rol]; do 2 f_equal; lia|]). lia.
Qed.

(** The words the calls read *)
Fixpoint sha1_words (t n : nat) (w : list Z) : list Z :=
  match n with
  | O => []
  | S n => let w := if (t <? 16)%nat then w else sha1_schedule t w in w !!! (t mod 16)%nat :: sha1_words (S t) n w
  end.

Lemma sha1_rounds_roles calls : forall t w v, length v = 5%nat ->
  roles5 (t + length calls) (sha1_rounds t calls w v) = foldl fips1_step (roles5 t v) (combine calls (sha1_words t (length calls) w)).
Proof.
  induction calls as [|[f k] calls IH]; intros t w v Hv; cbn [sha1_rounds length sha1_words combine foldl]; [by rewrite Nat.add_0_r|].
  rewrite Nat.add_succ_r, <- Nat.add_succ_l, IH by (by rewrite length_sha1_Round). by rewrite sha1_Round_roles.
Qed.

Lemma sha1_words_late n : forall t w, (16 <= t)%nat -> length w = 16%nat -> sha1_words t n w = fips1_words n (rot t w).
Proof.
  induction n as [|n IH]; intros t w Ht Hw; [done|]. cbn [sha1_words fips1_words]. rewrite (proj2 (Nat.ltb_ge _ _)) by lia.
  assert (sha1_schedule t w = <[(t mod 16)%nat := fips1_next (rot t w)]> w) as ->.
  { unfold sha1_schedule, fips1_next, rot. cbn [map seq lookup_total list_lookup_total]. do 2 f_equal. rewrite !Z.lxor_assoc.
    rewrite (Z.lxor_comm (w !!! ((0 + t) mod 16)%nat)). by rewrite !Z.lxor_assoc. }
  rewrite IH, rot_step by (rewrite ?length_insert; lia). rewrite list_lookup_total_insert_eq; [done|]. rewrite Hw. apply Nat.mod_upper_bound. lia.
Qed.

Lemma sha1_words_early n m w : length w = 16%nat -> forall t, (t + n <= 16)%nat -> sha1_words t (n + m) w = take n (drop t w) ++ sha1_words (t + n) m w.
Proof.
  intros Hw. induction n as [|n IH]; intros t Ht; [by rewrite Nat.add_0_r|]. cbn [sha1_words plus]. rewrite (proj2 (Nat.ltb_lt _ _)) by lia.
  destruct (lookup_lt_is_Some_2 w t) as [x Hx]; [lia|]. rewrite (drop_S _ _ _ Hx), Nat.mod_small, (list_lookup_total_correct _ _ _ Hx) by lia.
  cbn [take app]. by rewrite IH, Nat.add_succ_r, Nat.add_succ_l by lia.
Qed.

Lemma sha1_words_all w : length w = 16%nat -> sha1_words 0 80 w = w ++ fips1_words 64 w.
Proof.
  intros Hw. change 80%nat with (16 + 64)%nat. rewrite (sha1_words_early 16 64 w Hw 0) by lia. rewrite drop_0, take_ge by lia. by rewrite sha1_words_late, rot_16 by (done || lia).
Qed.

(** Calls with equal functions *)
Lemma fips1_step_ext c1 c2 : Forall2 (fun x y => (forall b c d, x.1 b c d = y.1 b c d) /\ x.2 = y.2) c1 c2 ->
  forall ws v, foldl fips1_step v (combine c1 ws) = foldl fips1_step v (combine c2 ws).
Proof.
  induction 1 as [|[f k] [g k'] c1 c2 [Hf Hk] _ IH]; intros [|w ws] v; try done. cbn [combine foldl fst snd] in *. rewrite IH. f_equal. subst k'.
  destruct v as [|a [|b [|c [|d [|e [|? ?]]]]]]; try done. cbn [fips1_step]. by rewrite Hf.
Qed.

Lemma sha1_calls_fips : Forall2 (fun x y => (forall b c d, x.1 b c d = y.1 b c d) /\ x.2 = y.2) sha1_calls (map fips1_fk (seq 0 80)).
Proof.
  change (map fips1_fk (seq 0 80)) with (repeat (fips_Ch, 0x5a827999) 20 ++ repeat (fun x y z => Z.lxor x (Z.lxor y z), 0x6ed9eba1) 20 ++
    repeat (fips_Maj, 0x8f1bbcdc) 20 ++ repeat (fun x y z => Z.lxor x (Z.lxor y z), 0xca62c1d6) 20).
  assert (forall A (R : A -> A -> Prop) x y n, R x y -> Forall2 R (repeat x n) (repeat y n)) as Hr by (intros A R x y n Hxy; induction n; by constructor).
  unfold sha1_calls. repeat apply Forall2_app; apply Hr; (split; [|done]); intros b c d; cbn [fst];
    [apply Ch_fips|apply Z.lxor_assoc|apply Maj_fips|apply Z.lxor_assoc].
Qed.

Lemma sha1_Transform_fips s chunk : length s = 5%nat -> sha1_Transform s chunk = fips1_compress s (chunk_words chunk).
Proof.
  intros Hs. unfold sha1_Transform, fips1_compress. f_equal. set (w := chunk_words chunk). assert (length w = 16%nat) as Hw by done.
  pose proof (sha1_rounds_roles sha1_calls 0 w s Hs) as E. change (length sha1_calls) with 80%nat in E.
  rewrite roles5_whole, (roles5_whole 0), sha1_words_all, (fips1_step_ext _ _ sha1_calls_fips) in E; [done..| |done].
  clear -Hs. assert (forall calls t w v, length v = 5%nat -> length (sha1_rounds t calls w v) = 5%nat) as HL; [|by apply HL].
  induction calls as [|[f k] calls IH]; intros t w' v Hv; [done|]. cbn [sha1_rounds]. apply IH. by rewrite length_sha1_Round.
Qed.

Lemma length_sha1_Transform s chunk : length s = 5%nat -> length (sha1_Transform s chunk) = 5%nat.
Proof.
  intros Hs. rewrite sha1_Transform_fips by done. unfold fips1_compress, add_words. rewrite length_zip_with, Hs.
  generalize (combine (map fips1_fk (seq 0 80)) (chunk_words chunk ++ fips1_words 64 (chunk_words chunk))). intros l.
  enough (forall v, length v = 5%nat -> length (foldl fips1_step v l) = 5%nat) as -> by done. clear. induction l as [|[[f k] w] l IH]; intros v Hv; [done|]. cbn [foldl]. apply IH.
  by destruct (list5 v Hv) as (? & ? & ? & ? & ? & ->).
Qed.

Lemma md_hash_sha1 m : @md_hash SHA1_hash m = fips_sha1 m.
Proof.
  unfold md_hash, md_state, fips_sha1. change (@md_pad SHA1_hash m) with (fips_pad m). cbv zeta. change (@word_out SHA1_hash) with WriteBE32. do 2 f_equal.
  generalize (fips_pad m), (length (fips_pad m) / 64)%nat. clear m. intros m n.
  enough (forall s, length s = 5%nat -> @transform_blocks SHA1_hash n s m = fips1_blocks n s m) as H by (by apply (H sha1_Initialize)).
  revert m. induction n as [|n IH]; intros m s Hs; [done|]. cbn [transform_blocks fips1_blocks].
  change (@Transform SHA1_hash) with sha1_Transform. rewrite IH by (by apply length_sha1_Transform). by rewrite sha1_Transform_fips.
Qed.

(** However the data is cut into pieces, and whatever the buffer held
    before, [CSHA1] computes the hash the standard defines for their
    concatenation. *)
Theorem CSHA1_correct buf pieces : length buf = 64%nat ->
  @Finalize_loop SHA1_hash (foldl (@Write_loop SHA1_hash) (@hash_new SHA1_hash buf) pieces) = fips_sha1 (concat pieces).
Proof. intros Hb. by rewrite (@hash_streaming_loop SHA1_hash SHA1_laws buf pieces Hb), md_hash_sha1. Qed.

Lemma CSHA1_correct_witness :
  @Finalize_loop SHA1_hash (foldl (@Write_loop SHA1_hash) (@hash_new SHA1_hash (repeat 7 64)) [[97]; []; [98; 99]]) = fips_sha1 [97; 98; 99] /\
  take 4 (fips_sha1 [97; 98; 99]) = [0xa9; 0x99; 0x3e; 0x36].
Proof. split; [apply (CSHA1_correct (repeat 7 64) [[97]; []; [98; 99]]); reflexivity|vm_compute; reflexivity]. Defined.
