(* ===== verification/Ripemd160.v ===== *)
(** * Ripemd160: the transformation of RIPEMD-160
      (src/src/crypto/ripemd160.{h,cpp}) and the 160-bit hash (src/src/hash.h)

    Two lines of eighty calls on five variables each, interleaved in the source.
    [CRIPEMD160] is shown to compute the function as its authors define it, with
    the order of the message words given by two permutations. *)

From Stdlib Require Import ZArith Lia.
From stdpp Require Import base list numbers option.
From S2P Require Import Prelude Uint256 Serialize Interpreter HashBlock Sha256 Sha1.

(** [~x] *)
Definition not32 (x : Z) : Z := Z.lxor x 0xffffffff.
Definition rmd_f1 (x y z : Z) : Z := Z.lxor (Z.lxor x y) z.
Definition rmd_f2 (x y z : Z) : Z := Z.lor (Z.land x y) (Z.land (not32 x) z).
Definition rmd_f3 (x y z : Z) : Z := Z.lxor (Z.lor x (not32 y)) z.
Definition rmd_f4 (x y z : Z) : Z := Z.lor (Z.land x z) (Z.land y (not32 z)).
Definition rmd_f5 (x y z : Z) : Z := Z.lxor x (Z.lor y (not32 z)).

(** The first and the third parameter are references. *)
Definition rmd_Round (t : nat) (f : Z -> Z -> Z -> Z) (x k r : Z) (v : list Z) : list Z :=
  let p j := v !!! var5 t j in
  let v := <[var5 t 0 := u32 (rol (u32 (p 0%nat + f (p 1%nat) (p 2%nat) (p 3%nat) + x + k)) r + p 4%nat)]> v in
  <[var5 t 2 := rol (p 2%nat) 10]> v.

(** The functions and constants of [R11], ..., [R51] and of [R12], ..., [R52] *)
Definition rmd_R1 : list ((Z -> Z -> Z -> Z) * Z) :=
  [(rmd_f1, 0); (rmd_f2, 0x5A827999); (rmd_f3, 0x6ED9EBA1); (rmd_f4, 0x8F1BBCDC); (rmd_f5, 0xA953FD4E)].
Definition rmd_R2 : list ((Z -> Z -> Z -> Z) * Z) :=
  [(rmd_f5, 0x50A28BE6); (rmd_f4, 0x5C4DD124); (rmd_f3, 0x6D703EF3); (rmd_f2, 0x7A6D76E9); (rmd_f1, 0)].

(** The message word and the rotation of each call *)
Definition rmd_calls1 : list (nat * Z) :=
  [(0%nat, 11); (1%nat, 14); (2%nat, 15); (3%nat, 12); (4%nat, 5); (5%nat, 8); (6%nat, 7); (7%nat, 9)] ++
  [(8%nat, 11); (9%nat, 13); (10%nat, 14); (11%nat, 15); (12%nat, 6); (13%nat, 7); (14%nat, 9); (15%nat, 8)] ++
  [(7%nat, 7); (4%nat, 6); (13%nat, 8); (1%nat, 13); (10%nat, 11); (6%nat, 9); (15%nat, 7); (3%nat, 15)] ++
  [(12%nat, 7); (0%nat, 12); (9%nat, 15); (5%nat, 9); (2%nat, 11); (14%nat, 7); (11%nat, 13); (8%nat, 12)] ++
  [(3%nat, 11); (10%nat, 13); (14%nat, 6); (4%nat, 7); (9%nat, 14); (15%nat, 9); (8%nat, 13); (1%nat, 15)] ++
  [(2%nat, 14); (7%nat, 8); (0%nat, 13); (6%nat, 6); (13%nat, 5); (11%nat, 12); (5%nat, 7); (12%nat, 5)] ++
  [(1%nat, 11); (9%nat, 12); (11%nat, 14); (10%nat, 15); (0%nat, 14); (8%nat, 15); (12%nat, 9); (4%nat, 8)] ++
  [(13%nat, 9); (3%nat, 14); (7%nat, 5); (15%nat, 6); (14%nat, 8); (5%nat, 6); (6%nat, 5); (2%nat, 12)] ++
  [(4%nat, 9); (0%nat, 15); (5%nat, 5); (9%nat, 11); (7%nat, 6); (12%nat, 8); (2%nat, 13); (10%nat, 12)] ++
  [(14%nat, 5); (1%nat, 12); (3%nat, 13); (8%nat, 14); (11%nat, 11); (6%nat, 8); (15%nat, 5); (13%nat, 6)].
Definition rmd_calls2 : list (nat * Z) :=
  [(5%nat, 8); (14%nat, 9); (7%nat, 9); (0%nat, 11); (9%nat, 13); (2%nat, 15); (11%nat, 15); (4%nat, 5)] ++
  [(13%nat, 7); (6%nat, 7); (15%nat, 8); (8%nat, 11); (1%nat, 14); (10%nat, 14); (3%nat, 12); (12%nat, 6)] ++
  [(6%nat, 9); (11%nat, 13); (3%nat, 15); (7%nat, 7); (0%nat, 12); (13%nat, 8); (5%nat, 9); (10%nat, 11)] ++
  [(14%nat, 7); (15%nat, 7); (8%nat, 12); (12%nat, 7); (4%nat, 6); (9%nat, 15); (1%nat, 13); (2%nat, 11)] ++
  [(15%nat, 9); (5%nat, 7); (1%nat, 15); (3%nat, 11); (7%nat, 8); (14%nat, 6); (6%nat, 6); (9%nat, 14)] ++
  [(11%nat, 12); (8%nat, 13); (12%nat, 5); (2%nat, 14); (10%nat, 13); (0%nat, 13); (4%nat, 7); (13%nat, 5)] ++
  [(8%nat, 15); (6%nat, 5); (4%nat, 8); (1%nat, 11); (3%nat, 14); (11%nat, 14); (15%nat, 6); (0%nat, 14)] ++
  [(5%nat, 6); (12%nat, 9); (2%nat, 12); (13%nat, 9); (9%nat, 12); (7%nat, 5); (10%nat, 15); (14%nat, 8)] ++
  [(12%nat, 8); (15%nat, 5); (10%nat, 12); (4%nat, 9); (1%nat, 12); (5%nat, 5); (8%nat, 14); (7%nat, 6)] ++
  [(6%nat, 8); (2%nat, 13); (13%nat, 6); (14%nat, 5); (0%nat, 15); (3%nat, 13); (9%nat, 11); (11%nat, 11)].

Definition rmd_call (t : nat) (fk : (Z -> Z -> Z -> Z) * Z) (wr : nat * Z) (w v : list Z) : list Z :=
  rmd_Round t fk.1 (w !!! wr.1) fk.2 wr.2 v.

(** The calls of the two lines in turn; each function serves sixteen calls. *)
Fixpoint rmd_rounds (t : nat) (calls1 calls2 : list (nat * Z)) (w v1 v2 : list Z) : list Z * list Z :=
  match calls1, calls2 with
  | c1 :: calls1, c2 :: calls2 =>
      let v1 := rmd_call t (nth (t / 16) rmd_R1 (rmd_f1, 0)) c1 w v1 in
      let v2 := rmd_call t (nth (t / 16) rmd_R2 (rmd_f1, 0)) c2 w v2 in
      rmd_rounds (S t) calls1 calls2 w v1 v2
  | _, _ => (v1, v2)
  end.

Definition rmd_words (chunk : list Z) : list Z := map (fun i => ReadLE32 (drop (4 * i) chunk)) (seq 0 16).

(** The sums at the end *)
Definition rmd_combine (s v1 v2 : list Z) : list Z :=
  let add i j k := u32 (s !!! i + v1 !!! j + v2 !!! k) in
  [add 1%nat 2%nat 3%nat; add 2%nat 3%nat 4%nat; add 3%nat 4%nat 0%nat; add 4%nat 0%nat 1%nat; add 0%nat 1%nat 2%nat].

Definition rmd_Transform (s chunk : list Z) : list Z :=
  let '(v1, v2) := rmd_rounds 0 rmd_calls1 rmd_calls2 (rmd_words chunk) s s in
  rmd_combine s v1 v2.

(** [WriteLE64] *)
Definition RIPEMD160_hash : BlockHash := Build_BlockHash sha1_Initialize rmd_Transform (le_bytes 4) (le_bytes 8).
Lemma RIPEMD160_laws : @BlockHashLaws RIPEMD160_hash.
Proof. split. intros n. apply le_bytes_length. Qed.

(** ** RIPEMD-160 as its authors define it *)

Definition rho (i : nat) : nat := nth i [7; 4; 13; 1; 10; 6; 15; 3; 12; 0; 9; 5; 2; 14; 11; 8]%nat 0%nat.
Definition pi (i : nat) : nat := ((9 * i + 5) mod 16)%nat.
(** The message word of step [j] in the left and the right line *)
Definition spec_r (j : nat) : nat := Nat.iter (j / 16) rho (j mod 16)%nat.
Definition spec_r' (j : nat) : nat := Nat.iter (j / 16) rho (pi (j mod 16)%nat).
(** The rotation, by round and message word *)
Definition spec_shift (round word : nat) : Z :=
  nth word (nth round
    [[11; 14; 15; 12; 5; 8; 7; 9; 11; 13; 14; 15; 6; 7; 9; 8];
     [12; 13; 11; 15; 6; 9; 9; 7; 12; 15; 11; 13; 7; 8; 7; 7];
     [13; 15; 14; 11; 7; 7; 6; 8; 13; 14; 13; 12; 5; 5; 6; 9];
     [14; 11; 12; 14; 8; 6; 5; 5; 15; 12; 15; 14; 9; 9; 8; 6];
     [15; 12; 13; 13; 9; 5; 8; 6; 14; 11; 12; 11; 8; 6; 5; 5]] []) 0.
(** The functions [f(j, x, y, z)] and the constants [K(j)] and [K'(j)] *)
Definition spec_f (j : nat) : Z -> Z -> Z -> Z := nth (j / 16) [rmd_f1; rmd_f2; rmd_f3; rmd_f4; rmd_f5] rmd_f1.
Definition spec_K (j : nat) : Z := nth (j / 16) [0; 0x5a827999; 0x6ed9eba1; 0x8f1bbcdc; 0xa953fd4e] 0.
Definition spec_K' (j : nat) : Z := nth (j / 16) [0x50a28be6; 0x5c4dd124; 0x6d703ef3; 0x7a6d76e9; 0] 0.

Definition spec_step (f : Z -> Z -> Z -> Z) (x k s : Z) (v : list Z) : list Z :=
  match v with
  | [A; B; C; D; E] => [E; u32 (rol (u32 (A + f B C D + x + k)) s + E); B; rol C 10; D]
  | _ => v
  end.
Definition spec_left (X v : list Z) : list Z :=
  foldl (fun v j => spec_step (spec_f j) (X !!! spec_r j) (spec_K j) (spec_shift (j / 16) (spec_r j)) v) v (seq 0 80).
Definition spec_right (X v : list Z) : list Z :=
  foldl (fun v j => spec_step (spec_f (79 - j)) (X !!! spec_r' j) (spec_K' j) (spec_shift (j / 16) (spec_r' j)) v) v (seq 0 80).

Definition spec_compress (h X : list Z) : list Z :=
  match h, spec_left X h, spec_right X h with
  | [h0; h1; h2; h3; h4], [A; B; C; D; E], [A'; B'; C'; D'; E'] =>
      [u32 (h1 + C + D'); u32 (h2 + D + E'); u32 (h3 + E + A'); u32 (h4 + A + B'); u32 (h0 + B + C')]
  | _, _, _ => h
  end.
Fixpoint spec_blocks (n : nat) (h m : list Z) : list Z :=
  match n with
  | O => h
  | S n => spec_blocks n (spec_compress h (rmd_words (take 64 m))) (drop 64 m)
  end.
Definition spec_pad (m : list Z) : list Z :=
  m ++ 0x80 :: repeat 0 (Z.to_nat ((119 - Z.of_nat (length m)) mod 64)) ++ le_bytes 8 (8 * Z.of_nat (length m) mod 2^64).
Definition ripemd160_spec (m : list Z) : list Z :=
  let m := spec_pad m in
  concat (map (le_bytes 4) (spec_blocks (length m / 64) [0x67452301; 0xefcdab89; 0x98badcfe; 0x10325476; 0xc3d2e1f0] m)).

(** ** The unrolled code computes it *)

Lemma length_rmd_call t fk wr w v : length (rmd_call t fk wr w v) = length v.
Proof. unfold rmd_call, rmd_Round. by rewrite !length_insert. Qed.

Lemma rmd_call_roles t fk wr w v : length v = 5%nat ->
  roles5 (S t) (rmd_call t fk wr w v) = spec_step fk.1 (w !!! wr.1) fk.2 wr.2 (roles5 t v).
Proof.
  apply (round5_roles (fun t => rmd_call t fk wr w) (spec_step fk.1 (w !!! wr.1) fk.2 wr.2)).
  - intros t' v'. unfold rmd_call, rmd_Round. by rewrite (var5_mod t' 0), (var5_mod t' 1), (var5_mod t' 2), (var5_mod t' 3), (var5_mod t' 4).
  - clear. intros t a b c d e Ht. unfold rmd_call. generalize (w !!! wr.1). intros x. do 5 (destruct t as [|t]; [reflexivity|]). lia.
Qed.

(** One line on its own *)
Definition rmd_line (R : list ((Z -> Z -> Z -> Z) * Z)) (w v : list Z) (tc : nat * (nat * Z)) : list Z :=
  rmd_call tc.1 (nth (tc.1 / 16) R (rmd_f1, 0)) tc.2 w v.

Lemma rmd_rounds_lines calls1 : forall t calls2 w v1 v2, length calls1 = length calls2 ->
  rmd_rounds t calls1 calls2 w v1 v2 =
  (foldl (rmd_line rmd_R1 w) v1 (combine (seq t (length calls1)) calls1), foldl (rmd_line rmd_R2 w) v2 (combine (seq t (length calls2)) calls2)).
Proof.
  induction calls1 as [|c1 calls1 IH]; intros t [|c2 calls2] w v1 v2 Hl; try done. cbn [rmd_rounds length seq combine foldl].
  rewrite IH by (cbn in Hl; lia). done.
Qed.

Lemma rmd_line_roles R w step calls : forall t v, length v = 5%nat ->
  (forall j c v, (j, c) ∈ combine (seq t (length calls)) calls -> spec_step (nth (j / 16) R (rmd_f1, 0)).1 (w !!! c.1) (nth (j / 16) R (rmd_f1, 0)).2 c.2 v = step v j) ->
  roles5 (t + length calls) (foldl (rmd_line R w) v (combine (seq t (length calls)) calls)) = foldl step (roles5 t v) (seq t (length calls)) /\
  length (foldl (rmd_line R w) v (combine (seq t (length calls)) calls)) = 5%nat.
Proof.
  induction calls as [|c calls IH]; intros t v Hv Hs; cbn [length seq combine foldl]; [by rewrite Nat.add_0_r|].
  rewrite Nat.add_succ_r, <- Nat.add_succ_l. unfold rmd_line at 2 4. cbn [fst snd].
  destruct (IH (S t) (rmd_call t (nth (t / 16) R (rmd_f1, 0)) c w v)) as [-> Hl]; [by rewrite length_rmd_call|intros j c' v' Hin; apply Hs; by right|].
  split; [|done]. rewrite rmd_call_roles by done. f_equal. apply Hs. left.
Qed.

(** The tables of the source are the orders and rotations of the definition. *)
Lemma rmd_calls_spec : rmd_calls1 = map (fun j => (spec_r j, spec_shift (j / 16) (spec_r j))) (seq 0 80) /\
  rmd_calls2 = map (fun j => (spec_r' j, spec_shift (j / 16) (spec_r' j))) (seq 0 80).
Proof. split; vm_compute; reflexivity. Qed.
Lemma rmd_R_spec j : (j < 80)%nat -> nth (j / 16) rmd_R1 (rmd_f1, 0) = (spec_f j, spec_K j) /\ nth (j / 16) rmd_R2 (rmd_f1, 0) = (spec_f (79 - j), spec_K' j).
Proof.
  intros Hj. unfold spec_f, spec_K, spec_K'. assert ((79 - j) / 16 = 4 - j / 16)%nat as ->.
  { symmetry. apply (Nat.div_unique _ _ _ (15 - j mod 16)); pose proof (Nat.Div0.div_mod j 16); pose proof (Nat.mod_upper_bound j 16 ltac:(lia)); lia. }
  assert (j / 16 < 5)%nat as Hq by (apply Nat.Div0.div_lt_upper_bound; lia). generalize dependent (j / 16)%nat. intros q Hq. by do 5 (destruct q as [|q]; [done|]); lia.
Qed.

Lemma combine_seq_map {A} (g : nat -> A) n : forall t j c, (j, c) ∈ combine (seq t n) (map g (seq t n)) -> c = g j /\ (t <= j < t + n)%nat.
Proof.
  induction n as [|n IH]; intros t j c Hin; [by apply elem_of_nil in Hin|]. cbn in Hin. apply elem_of_cons in Hin as [[= -> ->]|Hin]; [split; [done|lia]|].
  destruct (IH _ _ _ Hin). split; [done|lia].
Qed.

Lemma spec_compress_lines h0 h1 h2 h3 h4 X A B C D E A' B' C' D' E' :
  spec_left X [h0; h1; h2; h3; h4] = [A; B; C; D; E] -> spec_right X [h0; h1; h2; h3; h4] = [A'; B'; C'; D'; E'] ->
  spec_compress [h0; h1; h2; h3; h4] X = [u32 (h1 + C + D'); u32 (h2 + D + E'); u32 (h3 + E + A'); u32 (h4 + A + B'); u32 (h0 + B + C')].
Proof.
  unfold spec_compress. generalize (spec_left X [h0; h1; h2; h3; h4]), (spec_right X [h0; h1; h2; h3; h4]). by intros ? ? -> ->.
Qed.

Lemma rmd_Transform_spec s chunk : length s = 5%nat -> rmd_Transform s chunk = spec_compress s (rmd_words chunk) /\ length (rmd_Transform s chunk) = 5%nat.
Proof.
  intros Hs. unfold rmd_Transform. rewrite rmd_rounds_lines by done. set (w := rmd_words chunk). destruct rmd_calls_spec as [E1 E2].
  destruct (rmd_line_roles rmd_R1 w (fun v j => spec_step (spec_f j) (w !!! spec_r j) (spec_K j) (spec_shift (j / 16) (spec_r j)) v) rmd_calls1 0 s Hs) as [F1 L1].
  { intros j c v Hin. rewrite E1 in Hin. apply combine_seq_map in Hin as [-> Hj]. cbn [fst snd]. by rewrite (proj1 (rmd_R_spec j ltac:(lia))). }
  destruct (rmd_line_roles rmd_R2 w (fun v j => spec_step (spec_f (79 - j)) (w !!! spec_r' j) (spec_K' j) (spec_shift (j / 16) (spec_r' j)) v) rmd_calls2 0 s Hs) as [F2 L2].
  { intros j c v Hin. rewrite E2 in Hin. apply combine_seq_map in Hin as [-> Hj]. cbn [fst snd]. by rewrite (proj2 (rmd_R_spec j ltac:(lia))). }
  rewrite roles5_whole, (roles5_whole 0) in F1, F2 by done. change (length rmd_calls1) with 80%nat in *. change (length rmd_calls2) with 80%nat in *.
  apply (eq_sym (y := spec_left w s)) in F1. apply (eq_sym (y := spec_right w s)) in F2.
  set (v1 := foldl (rmd_line rmd_R1 w) s (combine (seq 0 80) rmd_calls1)) in *. set (v2 := foldl (rmd_line rmd_R2 w) s (combine (seq 0 80) rmd_calls2)) in *. clearbody v1 v2.
  clearbody w. destruct (list5 s Hs) as (h0 & h1 & h2 & h3 & h4 & ->). destruct (list5 v1 L1) as (A & B & C & D & E & ->).
  destruct (list5 v2 L2) as (A' & B' & C' & D' & E' & ->). rewrite (spec_compress_lines _ _ _ _ _ _ _ _ _ _ _ _ _ _ _ _ F1 F2). split; reflexivity.
Qed.

Lemma md_hash_ripemd160 m : @md_hash RIPEMD160_hash m = ripemd160_spec m.
Proof.
  unfold md_hash, md_state, ripemd160_spec. change (@md_pad RIPEMD160_hash m) with (spec_pad m). cbv zeta. change (@word_out RIPEMD160_hash) with (le_bytes 4). do 2 f_equal.
  generalize (spec_pad m), (length (spec_pad m) / 64)%nat. clear m. intros m n.
  enough (forall s, length s = 5%nat -> @transform_blocks RIPEMD160_hash n s m = spec_blocks n s m) as H by (by apply (H sha1_Initialize)).
  revert m. induction n as [|n IH]; intros m s Hs; [done|]. cbn [transform_blocks spec_blocks].
  change (@Transform RIPEMD160_hash) with rmd_Transform. destruct (rmd_Transform_spec s (take 64 m) Hs) as [<- Hl]. by apply IH.
Qed.

(** However the data is cut into pieces, and whatever the buffer held
    before, [CRIPEMD160] computes the hash of their concatenation as the authors
    of RIPEMD-160 define it. *)
Theorem CRIPEMD160_correct buf pieces : length buf = 64%nat ->
  @Finalize_loop RIPEMD160_hash (foldl (@Write_loop RIPEMD160_hash) (@hash_new RIPEMD160_hash buf) pieces) = ripemd160_spec (concat pieces).
Proof. intros Hb. by rewrite (@hash_streaming_loop RIPEMD160_hash RIPEMD160_laws buf pieces Hb), md_hash_ripemd160. Qed.

Lemma CRIPEMD160_correct_witness :
  @Finalize_loop RIPEMD160_hash (foldl (@Write_loop RIPEMD160_hash) (@hash_new RIPEMD160_hash (repeat 7 64)) [[97]; []; [98; 99]]) = ripemd160_spec [97; 98; 99] /\
  take 4 (ripemd160_spec [97; 98; 99]) = [0x8e; 0xb2; 0x08; 0xf7].
Proof. split; [apply (CRIPEMD160_correct (repeat 7 64) [[97]; []; [98; 99]]); reflexivity|vm_compute; reflexivity]. Defined.

(** ** The hashes of the node *)

Lemma md_hash_digest_ok {B : BlockHash} n m : length Initialize = n -> (forall s c, length s = n -> length (Transform s c) = n) ->
  (forall x, length (word_out x) = 4%nat /\ Forall is_byte (word_out x)) -> digest_ok (n * 4) (md_hash m).
Proof.
  intros Hi Ht Hw. unfold md_hash, md_state. assert (forall k s c, length s = n -> length (transform_blocks k s c) = n) as HT.
  { induction k as [|k IH]; intros s c Hs; [done|]. cbn [transform_blocks]. by apply IH, Ht. }
  rewrite <- (HT (length (md_pad m) / 64)%nat Initialize (md_pad m) Hi). generalize (transform_blocks (length (md_pad m) / 64) Initialize (md_pad m)). clear -Hw.
  unfold digest_ok. induction l as [|x l [IH1 IH2]]; [split; [done|constructor]|]. destruct (Hw x) as [L1 L2]. cbn [map concat length]. rewrite length_app, L1, IH1.
  split; [lia|]. by apply Forall_app_2.
Qed.

(** Every use in the source makes a hasher, writes once and finalizes; the
    signatures are left open. *)
Definition node_crypto (ecdsa bls : list Z -> list Z -> list Z -> bool) (low_s : list Z -> bool) : Crypto :=
  Build_Crypto
    (fun b => @Finalize_loop RIPEMD160_hash (@Write_loop RIPEMD160_hash (@hash_new RIPEMD160_hash (repeat 0 64)) b))
    (fun b => @Finalize_loop SHA1_hash (@Write_loop SHA1_hash (@hash_new SHA1_hash (repeat 0 64)) b))
    (fun b => @Finalize SHA256_hash (@Write SHA256_hash (@hash_new SHA256_hash (repeat 0 64)) b))
    ecdsa bls low_s.

Section node.

Context (ecdsa bls : list Z -> list Z -> list Z -> bool) (low_s : list Z -> bool).

Lemma node_hashes (C := node_crypto ecdsa bls low_s) b :
  @RIPEMD160 C b = @md_hash RIPEMD160_hash b /\ @SHA1 C b = @md_hash SHA1_hash b /\ @SHA256 C b = @md_hash SHA256_hash b.
Proof.
  pose proof (@hash_streaming_loop RIPEMD160_hash RIPEMD160_laws (repeat 0 64) [b] eq_refl) as E1.
  pose proof (@hash_streaming_loop SHA1_hash SHA1_laws (repeat 0 64) [b] eq_refl) as E2.
  pose proof (@hash_streaming_lemma SHA256_hash SHA256_laws (repeat 0 64) [b] eq_refl) as E3.
  cbn [concat foldl] in E1, E2, E3. rewrite app_nil_r in E1, E2, E3. split; [exact E1|]. split; [exact E2|exact E3].
Qed.

#[global] Instance node_crypto_laws : @CryptoLaws (node_crypto ecdsa bls low_s).
Proof.
  assert (forall n x, length (le_bytes n x) = n /\ Forall is_byte (le_bytes n x)) as HL by (intros n x; split; [apply le_bytes_length|apply le_bytes_wf]).
  assert (forall x, length (WriteBE32 x) = 4%nat /\ Forall is_byte (WriteBE32 x)) as HB.
  { intros x. unfold WriteBE32. destruct (HL 4%nat x). split; [by rewrite length_rev|by apply Forall_rev]. }
  split; intros b; destruct (node_hashes b) as (E1 & E2 & E3).
  - rewrite E1. apply (@md_hash_digest_ok RIPEMD160_hash 5 b); [done|intros s c Hs; by apply rmd_Transform_spec|exact (HL 4%nat)].
  - rewrite E2. apply (@md_hash_digest_ok SHA1_hash 5 b); [done|apply length_sha1_Transform|exact HB].
  - rewrite E3. apply (@md_hash_digest_ok SHA256_hash 8 b); [done|intros s c Hs; exact (eq_trans (length_sha256_Transform s c) Hs)|exact HB].
Qed.

(** The hash opcodes and the addresses hash with the standard functions:
    [Hash160] is RIPEMD-160 of SHA-256 and [Hash256] is SHA-256 twice. *)
Lemma node_Hash160_exact b :
  @Hash160 (node_crypto ecdsa bls low_s) b = ripemd160_spec (fips_sha256 b) /\
  @Hash256 (node_crypto ecdsa bls low_s) b = fips_sha256 (fips_sha256 b).
Proof.
  unfold Hash160, Hash256. destruct (node_hashes b) as (_ & _ & E). rewrite E, md_hash_fips.
  destruct (node_hashes (fips_sha256 b)) as (E1 & _ & E3). by rewrite E1, E3, md_hash_ripemd160, md_hash_fips.
Qed.

End node.
