(* ===== verification/Standard.v ===== *)
(** * Standard: the templates of output scripts (src/src/script/standard.{h,cpp})

    [Solver] classifies the script of an output and takes it apart;
    [ExtractDestination] and [GetScriptForDestination] translate between scripts
    and addresses. The recogniser is shown to accept exactly the scripts of a
    grammar, [standard_form], and to return what the grammar says. *)

From Stdlib Require Import ZArith Lia.
From stdpp Require Import base list numbers option.
From S2P Require Import Prelude Uint256 Serialize Transaction Script Interpreter ScriptRules.

(** [TxoutType], the results of [Solver] *)
Inductive TxoutType : Type :=
| NONSTANDARD
| PUBKEY
| BLSPUBKEY
| PUBKEYHASH
| SCRIPTHASH
| MULTISIG
| NULL_DATA.

#[export] Instance TxoutType_eq_dec : EqDecision TxoutType.
Proof. solve_decision. Defined.

(** [CPubKey::ValidSize] *)
Definition ValidSize (vch : list Z) : bool :=
  if size vch =? BLS_PUBLIC_KEY_SIZE then true
  else
    match vch with
    | [] => false
    | c :: _ =>
        if ((c =? 0x02) || (c =? 0x03))%bool then size vch =? COMPRESSED_SIZE
        else if ((c =? 0x04) || (c =? 0x06) || (c =? 0x07))%bool then size vch =? PUBKEY_SIZE
        else false
    end.

(** [MatchPayToPubkey], [MatchPayToBLSPubkey], [MatchPayToPubkeyHash]: what the
    template carries *)
Definition MatchPayToPubkey (script : CScript) : option (list Z) :=
  if ((size script =? PUBKEY_SIZE + 2) && (byte_at script 0 =? PUBKEY_SIZE) && (back script =? OP_CHECKSIG))%bool then
    let pubkey := take 65 (drop 1 script) in
    if ValidSize pubkey then Some pubkey else None
  else if ((size script =? COMPRESSED_SIZE + 2) && (byte_at script 0 =? COMPRESSED_SIZE) && (back script =? OP_CHECKSIG))%bool then
    let pubkey := take 33 (drop 1 script) in
    if ValidSize pubkey then Some pubkey else None
  else None.
Definition MatchPayToBLSPubkey (script : CScript) : option (list Z) :=
  if ((size script =? BLS_PUBLIC_KEY_SIZE + 2) && (byte_at script 0 =? BLS_PUBLIC_KEY_SIZE) && (back script =? OP_CHECKSIG))%bool then
    let pubkey := take 48 (drop 1 script) in
    if ValidSize pubkey then Some pubkey else None
  else None.
Definition MatchPayToPubkeyHash (script : CScript) : option (list Z) :=
  if ((size script =? 25) && (byte_at script 0 =? OP_DUP) && (byte_at script 1 =? OP_HASH160) && (byte_at script 2 =? 20) &&
      (byte_at script 23 =? OP_EQUALVERIFY) && (byte_at script 24 =? OP_CHECKSIG))%bool
  then Some (take 20 (drop 3 script)) else None.

(** [IsSmallInteger], [IsPushdataOp], [IsValidMultisigKeyCount] *)
Definition IsSmallInteger (opcode : Z) : bool := ((opcode >=? OP_1) && (opcode <=? OP_16))%bool.
Definition IsPushdataOp (opcode : Z) : bool := ((opcode >? OP_FALSE) && (opcode <=? OP_PUSHDATA4))%bool.
Definition IsValidMultisigKeyCount (n_keys : Z) : bool := ((n_keys >? 0) && (n_keys <=? MAX_PUBKEYS_PER_MULTISIG))%bool.

(** [GetMultisigKeyCount]; the assertions of [DecodeOP_N] and [CheckMinimalPush]
    are on the opcode ranges tested here. *)
Definition GetMultisigKeyCount (opcode : Z) (data : list Z) : option Z :=
  if IsSmallInteger opcode then
    match DecodeOP_N opcode with
    | Ret count => if IsValidMultisigKeyCount count then Some count else None
    | Abort => None
    end
  else if IsPushdataOp opcode then
    match CheckMinimalPush data opcode with
    | Done true =>
        m_value ← CScriptNum data true nDefaultMaxNumSize;
        let count := getint m_value in
        if IsValidMultisigKeyCount count then Some count else None
    | _ => None
    end
  else None.

(** The loop over the keys: the keys, and the operation that ends them (none when
    the script has no further operation); every operation takes at least a byte. *)
Fixpoint multisig_keys (fuel : nat) (it : CScript) (pubkeys : list (list Z)) : list (list Z) * option (Z * list Z * CScript) :=
  match fuel with
  | O => (pubkeys, None)
  | S f =>
      match GetScriptOp it with
      | None => (pubkeys, None)
      | Some (opcode, data, it') =>
          if ValidSize data then multisig_keys f it' (pubkeys ++ [data]) else (pubkeys, Some (opcode, data, it'))
      end
  end.

(** [MatchMultisig]: the signatures required and the keys *)
Definition MatchMultisig (script : CScript) : option (Z * list (list Z)) :=
  if ((size script <? 1) || negb (back script =? OP_CHECKMULTISIG))%bool then None
  else
    '(opcode, data, it) ← GetScriptOp script;
    required_sigs ← GetMultisigKeyCount opcode data;
    let '(pubkeys, last) := multisig_keys (length script) it [] in
    '(opcode, data, it) ← last;
    num_keys ← GetMultisigKeyCount opcode data;
    if (negb (size pubkeys =? num_keys) || (num_keys <? required_sigs))%bool then None
    else if size it =? 1 then Some (required_sigs, pubkeys) else None.

(** [Solver]: the type and the solutions *)
Definition Solver (scriptPubKey : CScript) : TxoutType * list (list Z) :=
  if IsPayToScriptHash scriptPubKey then (SCRIPTHASH, [take 20 (drop 2 scriptPubKey)])
  else if ((size scriptPubKey >=? 1) && (byte_at scriptPubKey 0 =? OP_RETURN) && IsPushOnly (drop 1 scriptPubKey))%bool
  then (NULL_DATA, [])
  else
    match MatchPayToPubkey scriptPubKey with
    | Some data => (PUBKEY, [data])
    | None =>
        match MatchPayToBLSPubkey scriptPubKey with
        | Some data => (BLSPUBKEY, [data])
        | None =>
            match MatchPayToPubkeyHash scriptPubKey with
            | Some data => (PUBKEYHASH, [data])
            | None =>
                match MatchMultisig scriptPubKey with
                | Some (required, keys) => (MULTISIG, [u8 required] :: keys ++ [[u8 (size keys)]])
                | None => (NONSTANDARD, [])
                end
            end
        end
    end.

(** [CTxDestination]: no destination, a key, the hash of a key, the hash of a script *)
Inductive CTxDestination : Type :=
| NoDestination
| KeyDestination (pubkey : list Z)
| PKHash (hash : list Z)
| ScriptHash (hash : list Z).

#[export] Instance CTxDestination_eq_dec : EqDecision CTxDestination.
Proof. solve_decision. Defined.

Definition IsValidDestination (dest : CTxDestination) : bool :=
  match dest with NoDestination => false | _ => true end.

(** [CScriptVisitor] and [GetScriptForDestination] *)
Definition GetScriptForDestination (dest : CTxDestination) : CScript :=
  match dest with
  | NoDestination => []
  | KeyDestination pubkey => script_push pubkey ++ [OP_CHECKSIG]
  | PKHash keyID => [OP_DUP; OP_HASH160] ++ script_push keyID ++ [OP_EQUALVERIFY; OP_CHECKSIG]
  | ScriptHash scriptID => [OP_HASH160] ++ script_push scriptID ++ [OP_EQUAL]
  end.
Definition GetScriptForRawPubKey (pubKey : list Z) : CScript := script_push pubKey ++ [OP_CHECKSIG].
Definition GetScriptForMultisig (nRequired : Z) (keys : list (list Z)) : CScript :=
  push_int64 nRequired ++ concat (map script_push keys) ++ push_int64 (size keys) ++ [OP_CHECKMULTISIG].

Section destinations.

Context `{Crypto}.

(** [ExtractDestination]: the address, when there is one *)
Definition ExtractDestination (scriptPubKey : CScript) : outcome (option CTxDestination) :=
  let '(whichType, vSolutions) := Solver scriptPubKey in
  match whichType with
  | PUBKEY =>
      s ← deref (vSolutions !! 0%nat);
      let pubKey := CPubKey_Set s in
      Ret (if negb (CPubKey_IsValid pubKey) then None else Some (PKHash (Hash160 pubKey)))
  | BLSPUBKEY =>
      s ← deref (vSolutions !! 0%nat);
      let pubKey := CPubKey_Set s in
      Ret (if negb (CPubKey_IsValid pubKey) then None else Some (KeyDestination pubKey))
  | PUBKEYHASH => s ← deref (vSolutions !! 0%nat); Ret (Some (PKHash s))
  | SCRIPTHASH => s ← deref (vSolutions !! 0%nat); Ret (Some (ScriptHash s))
  | MULTISIG | NULL_DATA | NONSTANDARD => Ret None
  end.

(** The loop of [ExtractDestinations] over the keys of a multisig *)
Definition key_addresses (solutions : list (list Z)) : list CTxDestination :=
  omap (fun s => let pubKey := CPubKey_Set s in if negb (CPubKey_IsValid pubKey) then None else Some (PKHash (Hash160 pubKey))) solutions.

(** [ExtractDestinations]: the type; the addresses and the signatures required, when
    there is an address *)
Definition ExtractDestinations (scriptPubKey : CScript) : outcome (TxoutType * option (list CTxDestination * Z)) :=
  let '(typeRet, vSolutions) := Solver scriptPubKey in
  match typeRet with
  | NONSTANDARD | NULL_DATA => Ret (typeRet, None)
  | MULTISIG =>
      front ← deref (vSolutions !! 0%nat);
      nRequiredRet ← deref (front !! 0%nat);
      let addressRet := key_addresses (take (length vSolutions - 2) (drop 1 vSolutions)) in
      Ret (typeRet, match addressRet with [] => None | _ => Some (addressRet, nRequiredRet) end)
  | _ =>
      address ← ExtractDestination scriptPubKey;
      Ret (typeRet, match address with None => None | Some address => Some ([address], 1) end)
  end.

End destinations.

(** ** The grammar of standard scripts *)

(** [enc] is one operation that carries [data]. *)
Definition encodes (enc : CScript) (opcode : Z) (data : list Z) : Prop :=
  forall rest, GetScriptOp (enc ++ rest) = Some (opcode, data, rest).

(** Operations up to [OP_16] only *)
Inductive pushes_only : CScript -> Prop :=
| po_nil : pushes_only []
| po_op enc opcode data rest : encodes enc opcode data -> opcode <= OP_16 -> pushes_only rest -> pushes_only (enc ++ rest).

(** Keys, each pushed by one operation *)
Inductive key_pushes : CScript -> list (list Z) -> Prop :=
| kp_nil : key_pushes [] []
| kp_key enc opcode key s keys : encodes enc opcode key -> ValidSize key = true -> key_pushes s keys -> key_pushes (enc ++ s) (key :: keys).

(** The scripts of each type and what they carry *)
Inductive standard_form : CScript -> TxoutType -> list (list Z) -> Prop :=
| sf_scripthash h : length h = 20%nat -> standard_form (P2SH h) SCRIPTHASH [h]
| sf_nulldata s : pushes_only s -> standard_form (OP_RETURN :: s) NULL_DATA []
| sf_pubkey key : ValidSize key = true -> size key <> BLS_PUBLIC_KEY_SIZE -> standard_form (GetScriptForRawPubKey key) PUBKEY [key]
| sf_blspubkey key : size key = BLS_PUBLIC_KEY_SIZE -> standard_form (GetScriptForRawPubKey key) BLSPUBKEY [key]
| sf_pubkeyhash h : length h = 20%nat -> standard_form (P2PKH h) PUBKEYHASH [h]
| sf_multisig m s keys : 1 <= m <= size keys -> size keys <= MAX_PUBKEYS_PER_MULTISIG -> key_pushes s keys ->
    standard_form (push_int64 m ++ s ++ push_int64 (size keys) ++ [OP_CHECKMULTISIG]) MULTISIG ([m] :: keys ++ [[size keys]]).

(** ** Operations in context *)

Lemma ser_readdata_local n s x s' : ser_readdata n s = Some (x, s') ->
  exists pre, s = pre ++ s' /\ forall r, ser_readdata n (pre ++ r) = Some (x, r).
Proof.
  unfold ser_readdata. destruct (read_bytes n s) as [[b t]|] eqn:E; [|done]. cbn. intros [= <- <-].
  apply read_bytes_inv in E as [-> Hl]. exists b. split; [done|]. intros r. by rewrite (read_bytes_app n b r Hl).
Qed.

(** What is read of an operation does not depend on what follows it. *)
Lemma GetScriptOp_encodes pc opcode data rest : GetScriptOp pc = Some (opcode, data, rest) ->
  exists enc, pc = enc ++ rest /\ enc <> [] /\ encodes enc opcode data.
Proof.
  unfold GetScriptOp. destruct pc as [|b pc]; [done|]. destruct (b <=? OP_PUSHDATA4) eqn:Hb.
  2:{ intros [= <- <- <-]. exists [b]. split_and!; [done|done|]. intros r. cbn [app GetScriptOp]. by rewrite Hb. }
  set (len := fun pc : CScript => if b <? OP_PUSHDATA1 then Some (b, pc) else if b =? OP_PUSHDATA1 then ser_readdata8 pc
                                   else if b =? OP_PUSHDATA2 then ser_readdata16 pc else ser_readdata32 pc).
  change (if b <? OP_PUSHDATA1 then _ else _) with (len pc).
  assert (forall n pc', len pc = Some (n, pc') -> exists pre, pc = pre ++ pc' /\ forall r, len (pre ++ r) = Some (n, r)) as Hlen.
  { subst len. cbv beta. intros n pc' E. destruct (b <? OP_PUSHDATA1); [injection E as <- <-; by exists []|].
    destruct (b =? OP_PUSHDATA1); [by apply ser_readdata_local|]. destruct (b =? OP_PUSHDATA2); by apply ser_readdata_local. }
  destruct (len pc) as [[n pc']|] eqn:E; [|done]. cbn [mbind option_bind].
  destruct (Hlen n pc' eq_refl) as (pre & -> & Hpre). destruct (Z.ltb_spec (size pc') n) as [Hn|Hn]; [done|].
  destruct (read_bytes _ pc') as [[v t]|] eqn:Ev; [|done]. cbn [mbind option_bind]. intros [= <- <- <-].
  apply read_bytes_inv in Ev as [-> Hl]. exists (b :: pre ++ v). split_and!; [by rewrite app_assoc|done|].
  intros r. cbn [app GetScriptOp]. rewrite Hb, <- app_assoc. change (if b <? OP_PUSHDATA1 then _ else _) with (len (pre ++ v ++ r)). rewrite Hpre. cbn [mbind option_bind].
  rewrite read_bytes_app by done. rewrite (proj2 (Z.ltb_ge _ _)); [done|]. unfold size. rewrite length_app. lia.
Qed.

Lemma encodes_push b : size b < 2^32 -> encodes (script_push b) (push_opcode b) b.
Proof. intros Hb rest. by apply GetScriptOp_push. Qed.

Lemma encodes_nonempty enc opcode data : encodes enc opcode data -> enc <> [].
Proof. intros He ->. specialize (He []). done. Qed.

Lemma encodes_op opcode : OP_PUSHDATA4 < opcode -> encodes [opcode] opcode [].
Proof. intros Ho rest. cbn [app GetScriptOp]. by rewrite (proj2 (Z.leb_gt _ _) Ho). Qed.

Lemma pushes_only_spec s : IsPushOnly s = true <-> pushes_only s.
Proof.
  unfold IsPushOnly. assert (forall fuel t, (length t <= fuel)%nat -> push_only_loop fuel t = true <-> pushes_only t) as Hgen.
  { intros fuel. induction fuel as [|fuel IH]; intros t Ht.
    { destruct t; [|cbn in Ht; lia]. split; [constructor|done]. }
    destruct t as [|b t]; [split; [constructor|done]|]. cbn [push_only_loop].
    destruct (GetScriptOp (b :: t)) as [[[opcode data] rest]|] eqn:E.
    - pose proof (GetScriptOp_shorter _ _ _ _ E) as Hs. rewrite Z.gtb_ltb.
      split.
      + destruct (Z.ltb_spec OP_16 opcode); [done|]. intros Hp%IH; [|lia].
        apply GetScriptOp_encodes in E as (enc & -> & _ & He). by eapply po_op.
      + intros Hp. inversion Hp as [|enc op d r He Ho Hr Heq]; subst. pose proof (He r) as He'. rewrite Heq, E in He'. injection He' as -> -> ->.
        rewrite (proj2 (Z.ltb_ge _ _)) by done. apply IH; [lia|done].
    - split; [done|]. intros Hp. inversion Hp as [|enc op d r He Ho Hr Heq]; subst. specialize (He r). by rewrite Heq, E in He. }
  by apply Hgen.
Qed.

(** ** Scripts of fixed shape *)

Lemma shape_push (s : CScript) n : length s = (n + 2)%nat -> s = byte_at s 0 :: take n (drop 1 s) ++ [back s].
Proof.
  intros Hl. destruct (snoc_cases s) as [->|(l & t & ->)]; [cbn in Hl; lia|]. rewrite back_snoc.
  rewrite length_app in Hl. cbn in Hl. destruct l as [|b l]; [cbn in Hl; lia|]. cbn [length] in Hl.
  change (drop 1 ((b :: l) ++ [t])) with (l ++ [t]). rewrite take_app_le by lia. by rewrite take_ge by lia.
Qed.

Lemma ValidSize_cases key : ValidSize key = true -> size key = 33 \/ size key = 65 \/ size key = 48.
Proof.
  unfold ValidSize, BLS_PUBLIC_KEY_SIZE, COMPRESSED_SIZE, PUBKEY_SIZE. destruct (Z.eqb_spec (size key) 48); [lia|].
  destruct key as [|c key]; [done|]. destruct (_ || _)%bool; [|destruct (_ || _)%bool; [|done]]; intros E%Z.eqb_eq; lia.
Qed.

Lemma ValidSize_bls key : size key = BLS_PUBLIC_KEY_SIZE -> ValidSize key = true.
Proof. intros E. unfold ValidSize. by rewrite (proj2 (Z.eqb_eq _ _) E). Qed.

Lemma script_push_short b : size b < OP_PUSHDATA1 -> script_push b = size b :: b.
Proof. intros Hb. unfold script_push. by rewrite (proj2 (Z.ltb_lt _ _) Hb). Qed.

Lemma pay_to_key_shape s n : (n < 76)%nat -> size s = Z.of_nat n + 2 -> byte_at s 0 = Z.of_nat n -> back s = OP_CHECKSIG ->
  s = GetScriptForRawPubKey (take n (drop 1 s)) /\ size (take n (drop 1 s)) = Z.of_nat n.
Proof.
  intros Hn Hs H0 Hb. unfold size in Hs. rewrite (shape_push s n) at 1 by lia.
  assert (size (take n (drop 1 s)) = Z.of_nat n) as Hk by (unfold size; rewrite length_take, length_drop; lia).
  split; [|done]. unfold GetScriptForRawPubKey. rewrite script_push_short by (unfold OP_PUSHDATA1; lia). by rewrite H0, Hb, Hk.
Qed.

(** The recogniser of a key of length [n] *)
Lemma pay_to_key_match key n : (n < 76)%nat -> size key = Z.of_nat n ->
  let s := GetScriptForRawPubKey key in
  size s = Z.of_nat n + 2 /\ byte_at s 0 = Z.of_nat n /\ back s = OP_CHECKSIG /\ take n (drop 1 s) = key.
Proof.
  intros Hn Hk s. subst s. unfold GetScriptForRawPubKey. rewrite back_snoc, size_snoc, script_push_short by (unfold OP_PUSHDATA1; lia).
  split_and!; [|by rewrite Hk|done|].
  - rewrite <- Hk. unfold size. cbn [length]. lia.
  - change (drop 1 ((size key :: key) ++ [OP_CHECKSIG])) with (key ++ [OP_CHECKSIG]). apply take_app_length'. unfold size in Hk. lia.
Qed.

(** ** Multisig *)

(** The counts a multisig can carry are written in one way. *)
Lemma key_count_push n : 1 <= n <= MAX_PUBKEYS_PER_MULTISIG ->
  exists opcode data, encodes (push_int64 n) opcode data /\ GetMultisigKeyCount opcode data = Some n /\ ValidSize data = false.
Proof.
  unfold MAX_PUBKEYS_PER_MULTISIG. intros Hn. destruct (decide (n <= 16)) as [Hs|Hs].
  - exists (n + 80), []. assert (push_int64 n = [n + 80]) as ->.
    { unfold push_int64. by rewrite (proj2 (Z.geb_le n 1)), (proj2 (Z.leb_le n 16)), orb_true_r by lia. }
    split_and!; [apply encodes_op; unfold OP_PUSHDATA4; lia| |done]. unfold GetMultisigKeyCount, IsSmallInteger, DecodeOP_N, IsValidMultisigKeyCount.
    rewrite (proj2 (Z.geb_le (n + 80) OP_1)), (proj2 (Z.leb_le (n + 80) OP_16)), (proj2 (Z.eqb_neq (n + 80) OP_0)) by (unfold OP_1, OP_16, OP_0; lia).
    cbn [andb]. unfold OP_1, MAX_PUBKEYS_PER_MULTISIG. replace (n + 80 - (0x51 - 1)) with n by lia.
    by rewrite Z.gtb_ltb, (proj2 (Z.ltb_lt 0 n)), (proj2 (Z.leb_le n 20)) by lia.
  - assert (n = 17 \/ n = 18 \/ n = 19 \/ n = 20) as Hc by lia. exists 1, [n].
    destruct Hc as [->|[->|[->| ->]]]; (split; [|done]); by apply encodes_push.
Qed.

Lemma key_count_data opcode data n : Forall is_byte data -> IsSmallInteger opcode = false -> GetMultisigKeyCount opcode data = Some n ->
  16 < n <= MAX_PUBKEYS_PER_MULTISIG /\ data = [n] /\ opcode = 1.
Proof.
  intros Hb Hs. unfold GetMultisigKeyCount. rewrite Hs. destruct (IsPushdataOp opcode) eqn:Hp; [|done].
  destruct (CheckMinimalPush data opcode) as [[]| |] eqn:Hm; try done.
  destruct (CScriptNum data true nDefaultMaxNumSize) as [v|] eqn:Ev; [|done]. cbn [mbind option_bind].
  destruct (IsValidMultisigKeyCount (getint v)) eqn:Hv; [|done]. intros [= <-].
  apply CScriptNum_spec in Ev as (_ & Hval & Hmin & _); [|done|by unfold nDefaultMaxNumSize].
  assert (1 <= getint v <= 20) as Hr.
  { unfold IsValidMultisigKeyCount, MAX_PUBKEYS_PER_MULTISIG in Hv. rewrite Z.gtb_ltb in Hv. apply andb_prop in Hv as [?%Z.ltb_lt ?%Z.leb_le]. lia. }
  assert (getint v = v) as Eg by (unfold getint, INT_MAX in *; repeat case_match; lia). rewrite Eg in *.
  assert (data = num_serialize v) as Ed.
  { destruct (num_serialize_spec v) as (? & ? & ?); [lia|]. apply minimal_unique; try done; [by apply Hmin|congruence]. }
  assert (num_serialize v = [v]) as E1.
  { assert (exists k : nat, v = Z.of_nat k /\ (k <= 20)%nat) as (k & -> & Hk) by (exists (Z.to_nat v); lia).
    do 21 (destruct k as [|k]; [reflexivity || lia|]). lia. }
  rewrite Ed, E1 in Hm. revert Hm. unfold CheckMinimalPush. destruct (negb _); [done|].
  change (size [v]) with 1. change (byte_at [v] 0) with v. cbn [Z.eqb Pos.eqb andb].
  destruct (Z.leb_spec v 16) as [Hl|Hl].
  { by rewrite (proj2 (Z.geb_le v 1)) by lia. }
  rewrite andb_false_r, (proj2 (Z.eqb_neq v 129)) by lia. change (1 <=? 75) with true. cbv iota.
  intros [= Ho%Z.eqb_eq]. unfold MAX_PUBKEYS_PER_MULTISIG. split_and!; [lia|lia|congruence|done].
Qed.

Lemma key_count_encodes enc opcode data n : Forall is_byte enc -> encodes enc opcode data -> GetMultisigKeyCount opcode data = Some n ->
  1 <= n <= MAX_PUBKEYS_PER_MULTISIG /\ enc = push_int64 n.
Proof.
  intros Hb He Hc. pose proof (He []) as E. rewrite app_nil_r in E. pose proof (GetScriptOp_inv _ _ _ _ E) as (pre & Henc & Hpre).
  rewrite app_nil_r in Henc. destruct (IsSmallInteger opcode) eqn:Hs.
  - unfold GetMultisigKeyCount in Hc. rewrite Hs in Hc. unfold IsSmallInteger, OP_1, OP_16 in Hs.
    apply andb_prop in Hs as [H1%Z.geb_le H2%Z.leb_le]. unfold DecodeOP_N, OP_0, OP_1, OP_16 in Hc.
    rewrite (proj2 (Z.eqb_neq opcode 0)), (proj2 (Z.geb_le opcode _) H1), (proj2 (Z.leb_le opcode _) H2) in Hc by lia. cbn [andb] in Hc.
    destruct (IsValidMultisigKeyCount _); [|done]. injection Hc as <-. unfold OP_PUSHDATA4 in Hpre. destruct Hpre as [-> ->]; [lia|].
    split; [unfold MAX_PUBKEYS_PER_MULTISIG; lia|]. rewrite Henc. unfold push_int64, OP_1.
    rewrite (proj2 (Z.geb_le _ 1)), (proj2 (Z.leb_le _ 16)), orb_true_r by lia. cbn [app andb]. f_equal. lia.
  - assert (Forall is_byte data) as Hd by (rewrite Henc in Hb; by apply Forall_app in Hb as [_ ?]).
    apply key_count_data in Hc as (Hn & -> & ->); [|done|done]. split; [lia|].
    unfold MAX_PUBKEYS_PER_MULTISIG in Hn. assert (n = 17 \/ n = 18 \/ n = 19 \/ n = 20) as Hc by lia.
    assert (enc = [1; n]) as ->; [|by destruct Hc as [->|[->|[->| ->]]]].
    rewrite Henc in E |- *. cbn [app GetScriptOp] in E. change (1 <=? OP_PUSHDATA4) with true in E. change (1 <? OP_PUSHDATA1) with true in E.
    cbn [mbind option_bind] in E. destruct (_ <? 1); [done|]. destruct (read_bytes _ _) as [[w r]|] eqn:Er; [|done]. cbn [mbind option_bind] in E.
    injection E as -> ->. apply read_bytes_inv in Er as [Er _]. rewrite app_nil_r in Er. cbn [app]. by rewrite Er.
Qed.

Lemma multisig_keys_sound fuel : forall it acc ks opcode data rest, multisig_keys fuel it acc = (ks, Some (opcode, data, rest)) ->
  exists keys s enc, ks = acc ++ keys /\ it = s ++ enc ++ rest /\ key_pushes s keys /\ encodes enc opcode data /\ ValidSize data = false.
Proof.
  induction fuel as [|fuel IH]; intros it acc ks opcode data rest; [done|]. cbn [multisig_keys].
  destruct (GetScriptOp it) as [[[op d] it']|] eqn:E; [|done]. apply GetScriptOp_encodes in E as (enc & -> & _ & He).
  destruct (ValidSize d) eqn:Hv.
  - intros (keys & s & enc' & -> & -> & Hk & He' & Hv')%IH. exists (d :: keys), (enc ++ s), enc'.
    rewrite <- !app_assoc. split_and!; try done. by eapply kp_key.
  - intros [= <- <- <- <-]. exists [], [], enc. rewrite app_nil_r. split_and!; try done. constructor.
Qed.

Lemma multisig_keys_complete s keys : key_pushes s keys -> forall fuel acc enc opcode data rest,
  encodes enc opcode data -> ValidSize data = false -> (length (s ++ enc ++ rest) <= fuel)%nat ->
  multisig_keys fuel (s ++ enc ++ rest) acc = (acc ++ keys, Some (opcode, data, rest)).
Proof.
  induction 1 as [|enc' op key s keys He' Hv' Hk IH]; intros fuel acc enc opcode data rest He Hv Hf.
  - pose proof (encodes_nonempty _ _ _ He). destruct enc as [|b enc]; [done|]. destruct fuel as [|fuel]; [cbn in Hf; lia|].
    cbn [app] in *. cbn [multisig_keys]. change (b :: enc ++ rest) with ((b :: enc) ++ rest). by rewrite He, Hv, app_nil_r.
  - pose proof (encodes_nonempty _ _ _ He') as Hne. rewrite <- app_assoc in *. rewrite length_app in Hf.
    destruct enc' as [|b enc']; [done|]. cbn [length] in Hf. destruct fuel as [|fuel]; [lia|]. cbn [multisig_keys].
    rewrite He', Hv', (IH fuel (acc ++ [key]) enc opcode data rest) by (done || lia). by rewrite <- app_assoc.
Qed.

(** [MatchMultisig] reads exactly the multisig scripts. *)
Lemma MatchMultisig_exact script m keys : Forall is_byte script ->
  MatchMultisig script = Some (m, keys) <->
  1 <= m <= size keys /\ size keys <= MAX_PUBKEYS_PER_MULTISIG /\
  exists s, key_pushes s keys /\ script = push_int64 m ++ s ++ push_int64 (size keys) ++ [OP_CHECKMULTISIG].
Proof.
  intros Hb. unfold MatchMultisig. split.
  - destruct (Z.ltb_spec (size script) 1) as [|Hs]; [done|]. destruct (Z.eqb_spec (back script) OP_CHECKMULTISIG) as [Hl|]; [|done]. cbn [orb negb].
    destruct (GetScriptOp script) as [[[op d] it]|] eqn:E; [|done]. apply GetScriptOp_encodes in E as (enc & -> & _ & He). cbn [mbind option_bind].
    destruct (GetMultisigKeyCount op d) as [m'|] eqn:Hm; [|done]. cbn [mbind option_bind].
    destruct (multisig_keys _ it []) as [ks [[[op2 d2] it2]|]] eqn:El; [|done]. cbn [mbind option_bind].
    apply multisig_keys_sound in El as (keys' & s & enc2 & -> & -> & Hk & He2 & _).
    destruct (GetMultisigKeyCount op2 d2) as [n|] eqn:Hn; [|done]. cbn [mbind option_bind app].
    destruct (Z.eqb_spec (size keys') n) as [<-|]; [|done]. destruct (Z.ltb_spec (size keys') m') as [|Hle]; [done|]. cbn [orb negb].
    destruct (Z.eqb_spec (size it2) 1) as [H1|]; [|done]. intros [= -> ->].
    rewrite !Forall_app in Hb. destruct Hb as (Hb1 & Hb2 & Hb3 & Hb4).
    destruct (key_count_encodes _ _ _ _ Hb1 He Hm) as [Hm' ->]. destruct (key_count_encodes _ _ _ _ Hb3 He2 Hn) as [Hn' ->].
    split; [lia|]. split; [lia|]. exists s. split; [done|].
    destruct it2 as [|b [|? ?]]; [done| |unfold size in H1; cbn in H1; lia]. rewrite !app_assoc, back_snoc in Hl. by rewrite Hl.
  - intros (Hm & Hn & s & Hk & ->).
    destruct (key_count_push m) as (op & d & He & Hc & _); [lia|]. destruct (key_count_push (size keys)) as (op2 & d2 & He2 & Hc2 & Hv2); [lia|].
    rewrite (proj2 (Z.ltb_ge _ 1)).
    2:{ pose proof (encodes_nonempty _ _ _ He) as Hne. destruct (push_int64 m); [done|]. unfold size. cbn [app length]. lia. }
    rewrite !app_assoc, back_snoc, Z.eqb_refl. cbn [orb negb]. rewrite <- !app_assoc, He. cbn [mbind option_bind]. rewrite Hc. cbn [mbind option_bind].
    rewrite (multisig_keys_complete s keys Hk _ [] _ op2 d2) by (done || rewrite !length_app; lia). cbn [mbind option_bind app]. rewrite Hc2. cbn [mbind option_bind].
    by rewrite Z.eqb_refl, (proj2 (Z.ltb_ge (size keys) m)) by lia.
Qed.

(** ** What the other recognisers accept *)

Lemma IsPayToScriptHash_exact s : IsPayToScriptHash s = true <-> exists h, length h = 20%nat /\ s = P2SH h.
Proof.
  unfold IsPayToScriptHash. rewrite !andb_true_iff, Nat.eqb_eq, !Z.eqb_eq. split.
  - intros [[[Hl H0] H1] H22]. exists (take 20 (drop 2 s)). assert (length (take 20 (drop 2 s)) = 20%nat) as Hh by (rewrite length_take, length_drop; lia).
    split; [done|]. unfold P2SH. rewrite script_push_20 by done.
    do 23 (destruct s as [|? s]; [done|]). destruct s; [|done]. cbn in H0, H1, H22 |- *. congruence.
  - intros (h & Hh & ->). unfold P2SH. rewrite script_push_20 by done. do 20 (destruct h as [|? h]; [done|]). by destruct h.
Qed.

Lemma MatchPayToPubkeyHash_exact s h : MatchPayToPubkeyHash s = Some h <-> length h = 20%nat /\ s = P2PKH h.
Proof.
  unfold MatchPayToPubkeyHash. split.
  - destruct (_ && _)%bool eqn:E; [|done]. rewrite !andb_true_iff, !Z.eqb_eq in E. destruct E as [[[[[Hl H0] H1] H2] H23] H24]. intros [= <-].
    unfold size in Hl. assert (length (take 20 (drop 3 s)) = 20%nat) as Hh by (rewrite length_take, length_drop; lia).
    split; [done|]. unfold P2PKH. rewrite script_push_20 by done.
    do 25 (destruct s as [|? s]; [cbn in Hl; lia|]). destruct s; [|cbn in Hl; lia]. cbn in H0, H1, H2, H23, H24 |- *. congruence.
  - intros [Hh ->]. unfold P2PKH. rewrite script_push_20 by done. do 20 (destruct h as [|? h]; [done|]). by destruct h.
Qed.

Lemma MatchPayToPubkey_exact s key : MatchPayToPubkey s = Some key <->
  ValidSize key = true /\ size key <> BLS_PUBLIC_KEY_SIZE /\ s = GetScriptForRawPubKey key.
Proof.
  unfold MatchPayToPubkey, PUBKEY_SIZE, COMPRESSED_SIZE, BLS_PUBLIC_KEY_SIZE. split.
  - destruct (_ && _)%bool eqn:E; [|clear E; destruct (_ && _)%bool eqn:E; [|done]];
      rewrite !andb_true_iff, !Z.eqb_eq in E; destruct E as [[Hl H0] Hb].
    + destruct (pay_to_key_shape s 65) as [Hs Hk]; [lia|done..|]. destruct (ValidSize _) eqn:Hv; [|done]. intros [= <-]. split_and!; [done|lia|done].
    + destruct (pay_to_key_shape s 33) as [Hs Hk]; [lia|done..|]. destruct (ValidSize _) eqn:Hv; [|done]. intros [= <-]. split_and!; [done|lia|done].
  - intros (Hv & Hn & ->). destruct (ValidSize_cases key Hv) as [Hk|[Hk|Hk]]; [| |done].
    + destruct (pay_to_key_match key 33) as (Hs & H0 & Hb & Ht); [lia|done|]. rewrite Hs, H0, Hb, Ht, Hv. done.
    + destruct (pay_to_key_match key 65) as (Hs & H0 & Hb & Ht); [lia|done|]. rewrite Hs, H0, Hb, Ht, Hv. done.
Qed.

Lemma MatchPayToBLSPubkey_exact s key : MatchPayToBLSPubkey s = Some key <-> size key = BLS_PUBLIC_KEY_SIZE /\ s = GetScriptForRawPubKey key.
Proof.
  unfold MatchPayToBLSPubkey. split.
  - destruct (_ && _)%bool eqn:E; [|done]. rewrite !andb_true_iff, !Z.eqb_eq in E; destruct E as [[Hl H0] Hb].
    destruct (pay_to_key_shape s 48) as [Hs Hk]; [lia|done..|]. destruct (ValidSize _) eqn:Hv; [|done]. by intros [= <-].
  - intros (Hk & ->). destruct (pay_to_key_match key 48) as (Hs & H0 & Hb & Ht); [lia|done|]. rewrite Hs, H0, Hb, Ht, ValidSize_bls by done. done.
Qed.

(** The solutions of the templates that carry one value *)
Lemma Solver_solutions s :
  match Solver s with
  | (PUBKEY, l) | (BLSPUBKEY, l) => exists key, l = [key]
  | (PUBKEYHASH, l) | (SCRIPTHASH, l) => exists h, l = [h] /\ length h = 20%nat
  | _ => True
  end.
Proof.
  unfold Solver. destruct (IsPayToScriptHash s) eqn:E1.
  { eexists. split; [done|]. apply IsPayToScriptHash_exact in E1 as (h & Hh & ->). unfold P2SH. rewrite script_push_20 by done.
    rewrite length_take, length_drop. cbn [app length]. rewrite length_app. cbn [length]. lia. }
  destruct (_ && _)%bool; [done|]. destruct (MatchPayToPubkey s); [eauto|]. destruct (MatchPayToBLSPubkey s); [eauto|].
  destruct (MatchPayToPubkeyHash s) as [h|] eqn:E; [apply MatchPayToPubkeyHash_exact in E as [? _]; eauto|]. by destruct (MatchMultisig s) as [[]|].
Qed.

(** ** The types are disjoint *)

Lemma P2SH_ends h : byte_at (P2SH h) 0 = OP_HASH160 /\ back (P2SH h) = OP_EQUAL.
Proof. split; [done|]. unfold P2SH. by rewrite app_assoc, back_snoc. Qed.

Lemma P2SH_hash h : length h = 20%nat -> take 20 (drop 2 (P2SH h)) = h.
Proof. intros Hh. unfold P2SH. rewrite script_push_20 by done. cbn [app]. rewrite !skipn_cons. by apply take_app_length'. Qed.

Lemma P2PKH_ends h : byte_at (P2PKH h) 0 = OP_DUP /\ back (P2PKH h) = OP_CHECKSIG.
Proof.
  split; [done|]. unfold P2PKH. change [OP_EQUALVERIFY; OP_CHECKSIG] with ([OP_EQUALVERIFY] ++ [OP_CHECKSIG]). by rewrite !app_assoc, back_snoc.
Qed.

Lemma pay_to_key_ends key : ValidSize key = true ->
  byte_at (GetScriptForRawPubKey key) 0 = size key /\ back (GetScriptForRawPubKey key) = OP_CHECKSIG /\ 33 <= size key <= 65.
Proof.
  intros Hv%ValidSize_cases. unfold GetScriptForRawPubKey. rewrite back_snoc, script_push_short by (unfold OP_PUSHDATA1; lia).
  split_and!; [done|done|lia|lia].
Qed.

Lemma multisig_ends m s n : 1 <= m <= MAX_PUBKEYS_PER_MULTISIG ->
  let script := push_int64 m ++ s ++ push_int64 n ++ [OP_CHECKMULTISIG] in
  byte_at script 0 <> OP_HASH160 /\ byte_at script 0 <> OP_RETURN /\ back script = OP_CHECKMULTISIG.
Proof.
  unfold MAX_PUBKEYS_PER_MULTISIG. intros Hm. cbv zeta.
  assert (exists b r, push_int64 m = b :: r /\ b <= 96) as (b & r & -> & Hb).
  { destruct (Z.leb_spec m 16).
    - exists (m + 80), []. unfold push_int64. rewrite (proj2 (Z.geb_le m 1)), (proj2 (Z.leb_le m 16)), orb_true_r by lia. split; [done|lia].
    - assert (m = 17 \/ m = 18 \/ m = 19 \/ m = 20) as Hc by lia. exists 1, [m]. by destruct Hc as [->|[->|[->| ->]]]. }
  rewrite !app_assoc, back_snoc. unfold byte_at, OP_HASH160, OP_RETURN. cbn. split_and!; [lia|lia|done].
Qed.

(** A test that accepts only scripts of one form fails on the others. *)
Lemma not_P2SH s : byte_at s 0 <> OP_HASH160 -> IsPayToScriptHash s = false.
Proof. intros Hs. apply not_true_iff_false. intros (h & _ & ->)%IsPayToScriptHash_exact. by destruct (P2SH_ends h). Qed.
Lemma not_P2PK s : back s <> OP_CHECKSIG -> MatchPayToPubkey s = None /\ MatchPayToBLSPubkey s = None /\ MatchPayToPubkeyHash s = None.
Proof.
  intros Hs. split_and!.
  - destruct (MatchPayToPubkey s) as [key|] eqn:E; [|done]. apply MatchPayToPubkey_exact in E as (Hv & _ & ->). by destruct (pay_to_key_ends key Hv) as (_ & ? & _).
  - destruct (MatchPayToBLSPubkey s) as [key|] eqn:E; [|done]. apply MatchPayToBLSPubkey_exact in E as (Hv%ValidSize_bls & ->). by destruct (pay_to_key_ends key Hv) as (_ & ? & _).
  - destruct (MatchPayToPubkeyHash s) as [h|] eqn:E; [|done]. apply MatchPayToPubkeyHash_exact in E as (_ & ->). by destruct (P2PKH_ends h).
Qed.

Lemma not_nulldata s : byte_at s 0 <> OP_RETURN -> ((size s >=? 1) && (byte_at s 0 =? OP_RETURN) && IsPushOnly (drop 1 s))%bool = false.
Proof. intros Hs. by rewrite (proj2 (Z.eqb_neq _ _) Hs), andb_false_r. Qed.

Lemma GetScriptForRawPubKey_inj a b : ValidSize a = true -> ValidSize b = true -> GetScriptForRawPubKey a = GetScriptForRawPubKey b -> a = b.
Proof.
  intros Ha%ValidSize_cases Hb%ValidSize_cases. unfold GetScriptForRawPubKey. rewrite !script_push_short by (unfold OP_PUSHDATA1; lia).
  cbn [app]. intros E. apply (f_equal (drop 1)) in E. by apply app_inj_tail in E as [-> _].
Qed.

Lemma Solver_forms s t solutions : Forall is_byte s -> t <> NONSTANDARD ->
  Solver s = (t, solutions) <-> standard_form s t solutions.
Proof.
  intros Hb Ht. split.
  - unfold Solver. destruct (IsPayToScriptHash s) eqn:E1.
    { apply IsPayToScriptHash_exact in E1 as (h & Hh & ->). rewrite P2SH_hash by done. intros [= <- <-]. by apply (sf_scripthash h). }
    destruct (_ && _)%bool eqn:E2.
    { rewrite !andb_true_iff, Z.geb_le, Z.eqb_eq in E2. destruct E2 as [[Hs H0] Hp]. intros [= <- <-].
      destruct s as [|b s]; [done|]. cbn in H0. rewrite H0. apply sf_nulldata. by apply pushes_only_spec. }
    destruct (MatchPayToPubkey s) as [key|] eqn:E3.
    { apply MatchPayToPubkey_exact in E3 as (Hv & Hn & ->). intros [= <- <-]. by constructor. }
    destruct (MatchPayToBLSPubkey s) as [key|] eqn:E4.
    { apply MatchPayToBLSPubkey_exact in E4 as (Hv & ->). intros [= <- <-]. by constructor. }
    destruct (MatchPayToPubkeyHash s) as [h|] eqn:E5.
    { apply MatchPayToPubkeyHash_exact in E5 as (Hh & ->). intros [= <- <-]. by constructor. }
    destruct (MatchMultisig s) as [[m keys]|] eqn:E6; [|by intros [= <- <-]].
    apply MatchMultisig_exact in E6 as (Hm & Hn & s' & Hk & ->); [|done]. intros [= <- <-]. unfold MAX_PUBKEYS_PER_MULTISIG, u8 in *.
    rewrite !Z.mod_small by lia. by constructor.
  - intros Hf. unfold Solver. inversion Hf as [h Hh|r Hp|key Hv Hn|key Hn|h Hh|m r keys Hm Hn Hk]; subst.
    + rewrite (proj2 (IsPayToScriptHash_exact _)) by eauto. by rewrite P2SH_hash.
    + rewrite not_P2SH by done. change (drop 1 (OP_RETURN :: r)) with r. rewrite (proj2 (pushes_only_spec r) Hp).
      rewrite (proj2 (Z.geb_le _ 1)); [done|]. unfold size. cbn [length]. lia.
    + destruct (pay_to_key_ends key Hv) as (H0 & Hl & Hs). rewrite not_P2SH, not_nulldata by (rewrite H0; unfold OP_HASH160, OP_RETURN; lia).
      by rewrite (proj2 (MatchPayToPubkey_exact _ key)).
    + pose proof (ValidSize_bls key Hn) as Hv. destruct (pay_to_key_ends key Hv) as (H0 & Hl & Hs).
      rewrite not_P2SH, not_nulldata by (rewrite H0; unfold OP_HASH160, OP_RETURN; lia).
      destruct (MatchPayToPubkey _) as [key'|] eqn:E.
      { apply MatchPayToPubkey_exact in E as (Hv' & Hn' & E). apply GetScriptForRawPubKey_inj in E as ->; done. }
      by rewrite (proj2 (MatchPayToBLSPubkey_exact _ key)).
    + destruct (P2PKH_ends h) as (H0 & Hl). rewrite not_P2SH, not_nulldata by (by rewrite H0).
      destruct (MatchPayToPubkey _) as [key'|] eqn:E.
      { apply MatchPayToPubkey_exact in E as (Hv' & Hn' & E). destruct (pay_to_key_ends key' Hv') as (H0' & _ & ?). rewrite <- E, H0 in H0'. unfold OP_DUP in H0'. lia. }
      destruct (MatchPayToBLSPubkey _) as [key'|] eqn:E'.
      { apply MatchPayToBLSPubkey_exact in E' as (Hv'%ValidSize_bls & E'). destruct (pay_to_key_ends key' Hv') as (H0' & _ & ?). rewrite <- E', H0 in H0'. unfold OP_DUP in H0'. lia. }
      by rewrite (proj2 (MatchPayToPubkeyHash_exact _ h)).
    + destruct (multisig_ends m r (size keys)) as (H0 & H1 & Hl); [lia|]. rewrite not_P2SH, not_nulldata by done.
      destruct (not_P2PK _ ltac:(by rewrite Hl)) as (-> & -> & ->).
      rewrite (proj2 (MatchMultisig_exact _ m keys Hb)) by eauto. unfold MAX_PUBKEYS_PER_MULTISIG, u8 in *. by rewrite !Z.mod_small by lia.
Qed.

(** C33: [Solver] recognises exactly the standard scripts. It gives a script a
    type other than nonstandard just when the script has the form of that type in
    the grammar: a script hash, pushed data after OP_RETURN, a key of one of the
    three sizes, a key hash, or m-of-n keys with 1 <= m <= n <= 20 and both
    counts in their only minimal form; and the solutions are what the form
    carries. So a script has at most one type, and the order of the tests does
    not matter. *)
Theorem Solver_exact s t solutions : Forall is_byte s -> t <> NONSTANDARD ->
  Solver s = (t, solutions) <-> standard_form s t solutions.
Proof. apply Solver_forms. Qed.

Definition demo_key (b : Z) : list Z := 2 :: repeat b 32.

Lemma Solver_exact_witness :
  standard_form (GetScriptForMultisig 1 [demo_key 7; demo_key 8]) MULTISIG [[1]; demo_key 7; demo_key 8; [2]].
Proof.
  apply (Solver_exact (GetScriptForMultisig 1 [demo_key 7; demo_key 8]) MULTISIG).
  - apply (bool_decide_unpack _). vm_compute. exact I.
  - done.
  - vm_compute. reflexivity.
Defined.

(** ** Scripts that are built are recognised *)

Lemma key_pushes_script keys : Forall (fun key => ValidSize key = true) keys -> key_pushes (concat (map script_push keys)) keys.
Proof.
  induction 1 as [|key keys Hv _ IH]; [constructor|]. cbn [map concat]. eapply kp_key; [|done|done].
  apply encodes_push. apply ValidSize_cases in Hv. lia.
Qed.

(** Destinations that have a script of their own: hashes and BLS keys *)
Definition own_script (dest : CTxDestination) : Prop :=
  match dest with
  | NoDestination => False
  | KeyDestination key => size key = BLS_PUBLIC_KEY_SIZE
  | PKHash h | ScriptHash h => length h = 20%nat
  end.
Definition dest_bytes (dest : CTxDestination) : list Z :=
  match dest with NoDestination => [] | KeyDestination b | PKHash b | ScriptHash b => b end.

Lemma script_push_bytes b : Forall is_byte b -> size b < 2^32 -> Forall is_byte (script_push b).
Proof.
  intros Hb Hs. unfold script_push. apply Forall_app. split; [|done]. pose proof (size_nonneg b).
  unfold OP_PUSHDATA1, OP_PUSHDATA2, OP_PUSHDATA4, ser_writedata16, ser_writedata32.
  destruct (Z.ltb_spec (size b) 0x4c); [|destruct (Z.leb_spec (size b) 0xff); [|destruct (Z.leb_spec (size b) 0xffff)]];
    repeat first [apply le_bytes_wf | apply Forall_nil_2 | apply Forall_cons_2; [unfold is_byte; lia|]].
Qed.

Lemma CPubKey_Set_valid key : ValidSize key = true -> CPubKey_Set key = key /\ CPubKey_IsValid key = true.
Proof. intros Hv%ValidSize_cases. unfold CPubKey_Set, CPubKey_IsValid. by destruct Hv as [->|[->| ->]]. Qed.

Lemma count_bytes n : 1 <= n <= MAX_PUBKEYS_PER_MULTISIG -> Forall is_byte (push_int64 n).
Proof.
  unfold MAX_PUBKEYS_PER_MULTISIG. intros Hn. unfold push_int64. destruct (Z.leb_spec n 16).
  - rewrite (proj2 (Z.geb_le n 1)), orb_true_r by lia. cbn [andb]. apply Forall_cons_2; [unfold is_byte, OP_1; lia|constructor].
  - assert (n = 17 \/ n = 18 \/ n = 19 \/ n = 20) as Hc by lia. destruct Hc as [->|[->|[->| ->]]]; by apply (bool_decide_unpack _).
Qed.

(** C34: addresses and scripts translate back and forth. The script built for a
    key hash, a script hash or a BLS key gives that address back; the address
    taken from a script gives the script back, unless the script pays to a
    secp256k1 key, whose address is the hash of the key; and the m-of-n script
    built from valid keys is recognised with these keys and counts. *)
Theorem addresses_roundtrip `{Crypto} :
  (forall dest, own_script dest -> Forall is_byte (dest_bytes dest) -> ExtractDestination (GetScriptForDestination dest) = Ret (Some dest)) /\
  (forall s dest, Forall is_byte s -> ExtractDestination s = Ret (Some dest) ->
     GetScriptForDestination dest = s \/ exists key, s = GetScriptForRawPubKey key /\ dest = PKHash (Hash160 key)) /\
  (forall s, exists r, ExtractDestination s = Ret r) /\
  (forall m keys, 1 <= m <= size keys -> size keys <= MAX_PUBKEYS_PER_MULTISIG -> Forall (fun key => ValidSize key = true /\ Forall is_byte key) keys ->
     Solver (GetScriptForMultisig m keys) = (MULTISIG, [m] :: keys ++ [[size keys]])).
Proof.
  split_and!.
  - intros dest Ho Hb. unfold ExtractDestination.
    assert (exists t, Solver (GetScriptForDestination dest) = (t, [dest_bytes dest]) /\
              t = match dest with NoDestination => NONSTANDARD | KeyDestination _ => BLSPUBKEY | PKHash _ => PUBKEYHASH | ScriptHash _ => SCRIPTHASH end) as (t & -> & ->).
    { eexists. split; [|done]. destruct dest as [|key|h|h]; [done|..]; cbn [own_script dest_bytes GetScriptForDestination] in *.
      - apply Solver_forms; [|done|by apply (sf_blspubkey key)]. apply Forall_app. split; [apply script_push_bytes; [done|unfold BLS_PUBLIC_KEY_SIZE in Ho; lia]|].
        by apply (bool_decide_unpack _).
      - apply Solver_forms; [|done|by apply (sf_pubkeyhash h)]. rewrite !Forall_app. split_and!; [by apply (bool_decide_unpack _)|apply script_push_bytes; [done|unfold size; lia]|by apply (bool_decide_unpack _)].
      - apply Solver_forms; [|done|by apply (sf_scripthash h)]. rewrite !Forall_app. split_and!; [by apply (bool_decide_unpack _)|apply script_push_bytes; [done|unfold size; lia]|by apply (bool_decide_unpack _)]. }
    destruct dest as [|key|h|h]; [done| |done|done]. cbn [own_script dest_bytes] in *. cbn [lookup list_lookup deref mbind outcome_bind].
    by destruct (CPubKey_Set_valid key (ValidSize_bls key Ho)) as [-> ->].
  - intros s dest Hb. unfold ExtractDestination. destruct (Solver s) as [t sols] eqn:E.
    destruct (decide (t = NONSTANDARD)) as [->|Hn]; [done|]. apply Solver_forms in E; [|done|done].
    inversion E as [h Hh|r Hp|key Hv Hn'|key Hn'|h Hh|m r keys Hm Hn' Hk]; subst; cbn [lookup list_lookup deref mbind outcome_bind]; [|done|..].
    + intros [= <-]. by left.
    + destruct (CPubKey_Set_valid key Hv) as [-> ->]. intros [= <-]. right. by exists key.
    + destruct (CPubKey_Set_valid key (ValidSize_bls key Hn')) as [-> ->]. intros [= <-]. by left.
    + intros [= <-]. by left.
    + done.
  - intros s. unfold ExtractDestination, Solver. repeat case_match; simplify_eq; cbn; eauto.
  - intros m keys Hm Hn Hk. apply Solver_forms; [|done|].
    + unfold GetScriptForMultisig. rewrite !Forall_app. split_and!; [apply count_bytes; lia| |apply count_bytes; lia|by apply (bool_decide_unpack _)].
      apply Forall_concat, Forall_map. eapply List.Forall_impl; [|exact Hk]. cbn beta. intros key [Hv%ValidSize_cases Hb]. apply script_push_bytes; [done|lia].
    + apply (sf_multisig m); [done|done|]. apply key_pushes_script. eapply List.Forall_impl; [|exact Hk]. cbn beta. by intros ? [? _].
Qed.

Lemma addresses_roundtrip_witness :
  let c := {| RIPEMD160 := fun _ => repeat 5 20; SHA1 := fun _ => repeat 5 20; SHA256 := fun _ => repeat 6 32;
              ecdsa_verify := fun _ _ _ => false; bls_verify := fun _ _ _ => false; CheckLowS := fun _ => true |} in
  ExtractDestination (GetScriptForDestination (KeyDestination (repeat 9 48))) = Ret (Some (KeyDestination (repeat 9 48))) /\
  Solver (GetScriptForMultisig 2 [demo_key 7; demo_key 8]) = (MULTISIG, [[2]; demo_key 7; demo_key 8; [2]]).
Proof.
  intros c. destruct (@addresses_roundtrip c) as (Hd & _ & _ & Hm). split.
  - apply Hd; [done|]. apply (bool_decide_unpack _). vm_compute. exact I.
  - apply (Hm 2 [demo_key 7; demo_key 8]); [vm_compute; by split|by vm_compute|]. apply (bool_decide_unpack _). vm_compute. exact I.
Defined.
