(* ===== verification/Merkle.v ===== *)
(** * Merkle: Merkle roots (src/src/consensus/merkle.cpp, SHA256D64 of
      src/src/crypto/sha256.cpp)

    A level of the tree is hashed in place: the digests are written over the
    bytes that were hashed, several blocks at a time where the processor allows.
    The root is shown to be that of the tree, and, with no mutation reported, to
    bind the list of hashes. *)

From Stdlib Require Import ZArith Lia.
From stdpp Require Import base list numbers option sets.
From S2P Require Import Prelude Uint256 Serialize Transaction HashBlock Sha256.

(** ** [SHA256D64] *)

(** [TransformD64_8way], [TransformD64_4way], [TransformD64_2way] and
    [TransformD64]; the first three may be absent. *)
Record d64_ways : Type := mkWays {
  way8 : option (list Z -> list Z); way4 : option (list Z -> list Z); way2 : option (list Z -> list Z);
  way1 : list Z -> list Z;
}.

(** The memory and the positions of [out] and [in] in it, and [blocks] *)
Record d64_state : Type := mkD64 { d_mem : list Z; d_out : nat; d_in : nat; d_blocks : nat }.

(** [while (blocks >= n)], for a transformation of [n] blocks *)
Fixpoint d64_while (fuel n : nat) (f : list Z -> list Z) (s : d64_state) : d64_state :=
  match fuel with
  | O => s
  | S fuel =>
      if (n <=? d_blocks s)%nat then
        d64_while fuel n f
          (mkD64 (memcpy_at (d_mem s) (d_out s) (f (take (64 * n) (drop (d_in s) (d_mem s)))))
            (d_out s + 32 * n) (d_in s + 64 * n) (d_blocks s - n))
      else s
  end.
Definition d64_maybe (n : nat) (f : option (list Z -> list Z)) (s : d64_state) : d64_state :=
  match f with Some f => d64_while (d_blocks s) n f s | None => s end.

Definition SHA256D64 (ways : d64_ways) (mem : list Z) (out inp blocks : nat) : list Z :=
  let s := mkD64 mem out inp blocks in
  let s := d64_maybe 8 (way8 ways) s in
  let s := d64_maybe 4 (way4 ways) s in
  let s := d64_maybe 2 (way2 ways) s in
  d_mem (d64_while (d_blocks s) 1 (way1 ways) s).

(** The first [k] pieces of [n] bytes *)
Fixpoint cut (n k : nat) (l : list Z) : list (list Z) :=
  match k with O => [] | S k => take n l :: cut n k (drop n l) end.

(** ** [ComputeMerkleRoot] *)

(** The test for equal neighbours *)
Fixpoint equal_pair (hashes : list uint256) : bool :=
  match hashes with
  | a :: b :: hashes => bool_decide (a = b) || equal_pair hashes
  | _ => false
  end.

(** The loop; each turn shortens a list of more than one hash. *)
Fixpoint merkle_loop (ways : d64_ways) (fuel : nat) (hashes : list uint256) (mutation : bool) : list uint256 * bool :=
  match fuel with
  | O => (hashes, mutation)
  | S fuel =>
      if (1 <? length hashes)%nat then
        let mutation := mutation || equal_pair hashes in
        let hashes := if Nat.odd (length hashes) then hashes ++ [List.last hashes []] else hashes in
        let n := (length hashes / 2)%nat in
        merkle_loop ways fuel (cut 32 n (SHA256D64 ways (concat hashes) 0 0 n)) mutation
      else (hashes, mutation)
  end.

(** The root and [*mutated] *)
Definition ComputeMerkleRoot (ways : d64_ways) (hashes : list uint256) : uint256 * bool :=
  let '(hashes, mutation) := merkle_loop ways (length hashes) hashes false in
  (match hashes with [] => uint256_zero | h :: _ => h end, mutation).


(** ** In-place hashing *)

(** A transformation of [n] blocks hashes each of them. *)
Definition way_ok (n : nat) (f : list Z -> list Z) : Prop :=
  forall l, length l = (64 * n)%nat -> f l = concat (map TransformD64 (cut 64 n l)).
Definition ways_ok (ways : d64_ways) : Prop :=
  (forall f, way8 ways = Some f -> way_ok 8 f) /\ (forall f, way4 ways = Some f -> way_ok 4 f) /\
  (forall f, way2 ways = Some f -> way_ok 2 f) /\ way_ok 1 (way1 ways).

Lemma length_TransformD64 inp : length (TransformD64 inp) = 32%nat.
Proof. unfold TransformD64. rewrite length_digest. unfold add_words. by rewrite length_zip_with, length_rounds, !length_rounds_with. Qed.

Lemma length_cut n k : forall l, length (cut n k l) = k.
Proof. induction k as [|k IH]; intros l; cbn; [done|]. by rewrite IH. Qed.
Lemma cut_app n k : forall j l, cut n (k + j) l = cut n k l ++ cut n j (drop (n * k) l).
Proof. induction k as [|k IH]; intros j l; cbn; [by rewrite Nat.mul_0_r|]. rewrite IH, drop_drop. do 4 f_equal. lia. Qed.
Lemma cut_take n k : forall j l, (n * k <= j)%nat -> cut n k (take j l) = cut n k l.
Proof.
  induction k as [|k IH]; intros j l Hj; cbn [cut]; [done|]. rewrite take_take, Nat.min_l by lia. f_equal.
  rewrite skipn_firstn_comm. apply IH. lia.
Qed.
Lemma cut_concat n l : Forall (fun x => length x = n) l -> cut n (length l) (concat l) = l.
Proof.
  induction 1 as [|x l Hx Hl IH]; [done|]. cbn [length concat cut]. by rewrite take_app_length', drop_app_length', IH by done.
Qed.
Lemma length_digests l : length (concat (map TransformD64 l)) = (32 * length l)%nat.
Proof. induction l as [|x l IH]; [done|]. cbn [map concat length]. rewrite length_app, IH, length_TransformD64. lia. Qed.

(** After [k] of [b] blocks: the digests in front, the rest of the input as it was *)
Record d64_inv (mem0 : list Z) (b k : nat) (s : d64_state) : Prop := {
  di_len : length (d_mem s) = length mem0;
  di_out : d_out s = (32 * k)%nat;
  di_in : d_in s = (64 * k)%nat;
  di_blocks : (d_blocks s + k = b)%nat;
  di_digests : take (32 * k) (d_mem s) = concat (map TransformD64 (cut 64 k mem0));
  di_rest : drop (64 * k) (d_mem s) = drop (64 * k) mem0;
}.

Lemma d64_step mem0 b k n f s : way_ok n f -> (64 * b <= length mem0)%nat -> (n <= d_blocks s)%nat -> d64_inv mem0 b k s ->
  d64_inv mem0 b (k + n) (mkD64 (memcpy_at (d_mem s) (d_out s) (f (take (64 * n) (drop (d_in s) (d_mem s)))))
            (d_out s + 32 * n) (d_in s + 64 * n) (d_blocks s - n)).
Proof.
  intros Hf Hb Hn [Hl Ho Hi Hk Hd Hr]. rewrite Ho, Hi, Hr.
  assert (length (take (64 * n) (drop (64 * k) mem0)) = 64 * n)%nat as Ht by (rewrite length_take, length_drop; lia).
  rewrite (Hf _ Ht), cut_take by lia. set (D := concat _). assert (length D = 32 * n)%nat as HD by (unfold D; by rewrite length_digests, length_cut).
  assert (length (take (32 * k) (d_mem s)) = 32 * k)%nat as Hk' by (rewrite length_take; lia).
  unfold memcpy_at. rewrite HD. split; cbn [d_mem d_out d_in d_blocks]; try lia.
  - rewrite !length_app, length_drop. lia.
  - rewrite app_assoc, take_app_length' by (rewrite length_app; lia). by rewrite Hd, cut_app, map_app, concat_app.
  - rewrite (drop_app_ge _ (D ++ _)) by lia. rewrite drop_app_ge by lia. rewrite drop_drop.
    assert (forall l : list Z, drop (64 * (k + n)) l = drop (64 * n) (drop (64 * k) l)) as Hdd by (intros l; rewrite drop_drop; f_equal; lia).
    rewrite (Hdd mem0), <- Hr, <- Hdd. f_equal. lia.
Qed.

Lemma d64_while_inv mem0 b n f : way_ok n f -> (64 * b <= length mem0)%nat -> forall fuel s k, d64_inv mem0 b k s ->
  exists k', d64_inv mem0 b k' (d64_while fuel n f s) /\ (n = 1 -> (d_blocks s <= fuel)%nat -> k' = b)%nat.
Proof.
  intros Hf Hb fuel. induction fuel as [|fuel IH]; intros s k Hk; cbn [d64_while].
  - exists k. split; [done|]. intros _ H0. destruct Hk. lia.
  - destruct (Nat.leb_spec n (d_blocks s)) as [Hn|Hn].
    + destruct (IH _ _ (d64_step _ _ _ _ _ _ Hf Hb Hn Hk)) as (k' & Hk' & He). exists k'. split; [done|]. intros -> Hs. apply He; [done|]. cbn. lia.
    + exists k. split; [done|]. intros -> _. destruct Hk. lia.
Qed.

Lemma d64_maybe_inv mem0 b n f k s : (forall g, f = Some g -> way_ok n g) -> (64 * b <= length mem0)%nat -> d64_inv mem0 b k s ->
  exists k', d64_inv mem0 b k' (d64_maybe n f s).
Proof.
  intros Hf Hb Hk. destruct f as [f|]; cbn; [|eauto]. destruct (d64_while_inv mem0 b n f (Hf f eq_refl) Hb (d_blocks s) s k Hk) as (k' & ? & _). eauto.
Qed.

(** Hashing in place leaves the digests of the blocks in front. *)
Lemma SHA256D64_in_place ways mem b : ways_ok ways -> (64 * b <= length mem)%nat ->
  take (32 * b) (SHA256D64 ways mem 0 0 b) = concat (map TransformD64 (cut 64 b mem)).
Proof.
  intros (H8 & H4 & H2 & H1) Hb. unfold SHA256D64.
  assert (d64_inv mem b 0 (mkD64 mem 0 0 b)) as H0 by (split; cbn; lia || done).
  destruct (d64_maybe_inv mem b 8 _ _ _ H8 Hb H0) as (k8 & I8). destruct (d64_maybe_inv mem b 4 _ _ _ H4 Hb I8) as (k4 & I4).
  destruct (d64_maybe_inv mem b 2 _ _ _ H2 Hb I4) as (k2 & I2). set (s := d64_maybe 2 _ _) in *.
  destruct (d64_while_inv mem b 1 _ H1 Hb (d_blocks s) s k2 I2) as (k & Ik & He). rewrite (He eq_refl (Nat.le_refl _)) in Ik. apply (di_digests _ _ _ _ Ik).
Qed.

(** ** The tree *)

(** [CHash256]: the hash of the hash; [Reset] leaves the buffer as it is. *)
Definition CHash256_Finalize (sha : hasher) : uint256 := Finalize (Write (hash_new (hs_buf sha)) (Finalize sha)).
(** [Hash(in1)] and [Hash(in1, in2)] *)
Definition Hash1 (in1 : list Z) : uint256 := CHash256_Finalize (Write (hash_new (repeat 0 64)) in1).
Definition Hash2 (in1 in2 : uint256) : uint256 := CHash256_Finalize (Write (Write (hash_new (repeat 0 64)) in1) in2).

Lemma CHash256_pieces pieces : CHash256_Finalize (foldl Write (hash_new (repeat 0 64)) pieces) = md_hash (md_hash (concat pieces)).
Proof.
  unfold CHash256_Finalize. rewrite (hash_streaming_lemma _ pieces) by done.
  pose proof (foldl_absorbed pieces _ _ (new_absorbed (repeat 0 64) eq_refl)) as (k & full & tail & _ & _ & _ & _ & Hb & _).
  pose proof (hash_streaming_lemma (hs_buf (foldl Write (hash_new (repeat 0 64)) pieces)) [md_hash (concat pieces)] Hb) as Hs.
  cbn [foldl concat] in Hs. by rewrite app_nil_r in Hs.
Qed.
Lemma Hash1_double a : Hash1 a = md_hash (md_hash a).
Proof. pose proof (CHash256_pieces [a]) as H. cbn [concat] in H. by rewrite app_nil_r in H. Qed.
Lemma Hash2_double a b : Hash2 a b = md_hash (md_hash (a ++ b)).
Proof. pose proof (CHash256_pieces [a; b]) as H. cbn [concat] in H. by rewrite app_nil_r in H. Qed.

(** [CTransaction::ComputeHash]: [SerializeHash] writes the transaction to the hasher. *)
Definition ComputeHash (tx : CTransaction) : uint256 := Hash1 (tx_Serialize tx).
Definition BlockMerkleRoot (ways : d64_ways) (vtx : list CTransaction) : uint256 * bool :=
  ComputeMerkleRoot ways (map ComputeHash vtx).

#[global] Opaque Hash1 Hash2.

Notation hash32 := (Forall (fun h : uint256 => length h = 32%nat)).

Lemma Hash2_D64 a b : length a = 32%nat -> length b = 32%nat -> Hash2 a b = TransformD64 (a ++ b).
Proof. intros Ha Hb. rewrite Hash2_double, TransformD64_double; [done|]. rewrite length_app. lia. Qed.

(** The level above, and the root: the tree without its layout in memory *)
Fixpoint level (l : list uint256) : list uint256 :=
  match l with
  | a :: b :: l => Hash2 a b :: level l
  | [a] => [Hash2 a a]
  | [] => []
  end.
Fixpoint levels (fuel : nat) (l : list uint256) (mutation : bool) : list uint256 * bool :=
  match fuel with
  | O => (l, mutation)
  | S fuel => if (1 <? length l)%nat then levels fuel (level l) (mutation || equal_pair l) else (l, mutation)
  end.

Lemma pair_ind {A} (P : list A -> Prop) : P [] -> (forall a, P [a]) -> (forall a b l, P l -> P (a :: b :: l)) -> forall l, P l.
Proof.
  intros H0 H1 H2 l. enough (P l /\ forall a, P (a :: l)) by tauto. induction l as [|x l [IH1 IH2]]; [eauto|]. split; [apply IH2|]. intros a. by apply H2.
Qed.

Definition padded (l : list uint256) : list uint256 := if Nat.odd (length l) then l ++ [List.last l []] else l.

Lemma padded_cons a b l : padded (a :: b :: l) = a :: b :: padded l.
Proof.
  unfold padded. cbn [length]. change (Nat.odd (S (S (length l)))) with (Nat.odd (length l)). destruct (Nat.odd (length l)) eqn:E; [|done].
  destruct l; [done|]. done.
Qed.

Lemma padded_level l : hash32 l -> exists n, length (padded l) = (2 * n)%nat /\ hash32 (padded l) /\
  map TransformD64 (cut 64 n (concat (padded l))) = level l.
Proof.
  induction l as [|a|a b l IH] using pair_ind; intros Hl.
  - exists 0%nat. split; [done|]. by split.
  - apply Forall_cons_1 in Hl as [Ha _]. exists 1%nat. split; [done|]. split; [by repeat apply Forall_cons_2|].
    change (concat (padded [a])) with (a ++ a ++ []). rewrite app_nil_r. cbn [cut map level]. rewrite Hash2_D64 by done.
    by rewrite take_ge by (rewrite length_app; lia).
  - apply Forall_cons_1 in Hl as [Ha [Hb Hl]%Forall_cons_1]. destruct (IH Hl) as (n & Hn & Hp & E). exists (S n). rewrite padded_cons.
    split; [cbn [length]; lia|]. split; [by repeat apply Forall_cons_2|].
    cbn [concat cut map level]. rewrite app_assoc, take_app_length', drop_app_length' by (rewrite length_app; lia). by rewrite E, Hash2_D64.
Qed.

Lemma level_hash32 l : hash32 (level l).
Proof.
  assert (forall a b, length (Hash2 a b) = 32%nat) as HH.
  { intros a b. rewrite Hash2_double. unfold md_hash at 1. change word_out with WriteBE32. rewrite length_digest. unfold md_state.
    enough (forall n s m, length s = 8%nat -> length (transform_blocks n s m) = 8%nat) as -> by done.
    induction n as [|n IH]; intros s m Hs; [done|]. cbn [transform_blocks]. apply IH. by rewrite length_sha256_Transform. }
  induction l as [|a|a b l IH] using pair_ind; cbn; repeat apply Forall_cons_2; auto using Forall_nil_2.
Qed.

Lemma merkle_loop_levels ways : ways_ok ways -> forall fuel l m, hash32 l -> merkle_loop ways fuel l m = levels fuel l m.
Proof.
  intros Hw fuel. induction fuel as [|fuel IH]; intros l m Hl; [done|]. cbn [merkle_loop levels]. destruct (1 <? length l)%nat; [|done].
  fold (padded l). destruct (padded_level l Hl) as (n & Hn & Hp & E).
  assert (forall l : list uint256, hash32 l -> length (concat l) = 32 * length l)%nat as Hc.
  { clear. induction 1 as [|x l Hx Hl IH]; [done|]. cbn [concat length]. rewrite length_app. lia. }
  rewrite Hn, Nat.mul_comm, Nat.div_mul by lia.
  assert (cut 32 n (SHA256D64 ways (concat (padded l)) 0 0 n) = level l) as ->; [|apply IH, level_hash32].
  rewrite <- (cut_take 32 n (32 * n)) by lia. rewrite SHA256D64_in_place; [|done|rewrite Hc by done; lia]. rewrite E.
  assert (length (level l) = n) as <- by (rewrite <- E, length_map, length_cut; done). apply cut_concat, level_hash32.
Qed.

(** ** What a root binds *)

(** The pairs a level hashes, and those the whole tree hashes *)
Fixpoint pairs (l : list uint256) : list (uint256 * uint256) :=
  match l with
  | a :: b :: l => (a, b) :: pairs l
  | [a] => [(a, a)]
  | [] => []
  end.
Fixpoint tree_pairs (fuel : nat) (l : list uint256) : list (uint256 * uint256) :=
  match fuel with
  | O => []
  | S fuel => if (1 <? length l)%nat then pairs l ++ tree_pairs fuel (level l) else []
  end.

(** No two different pairs of the list have the same hash. *)
Definition collision_free (ps : list (uint256 * uint256)) : Prop :=
  Forall (fun p => Forall (fun q => Hash2 p.1 p.2 = Hash2 q.1 q.2 -> p = q) ps) ps.

Lemma collision_free_inj ps p q : collision_free ps -> p ∈ ps -> q ∈ ps -> Hash2 p.1 p.2 = Hash2 q.1 q.2 -> p = q.
Proof.
  intros H Hp Hq. unfold collision_free in H. rewrite Forall_forall in H. specialize (H p Hp). rewrite Forall_forall in H. by apply H.
Qed.

Lemma collision_free_twice a b : collision_free [(a, b); (a, b)].
Proof. repeat constructor. Qed.
Lemma collision_free_two p q : Hash2 p.1 p.2 <> Hash2 q.1 q.2 -> collision_free [p; q].
Proof. intros H. repeat constructor; intros E; by destruct H. Qed.

Lemma level_pairs l : level l = map (fun p => Hash2 p.1 p.2) (pairs l).
Proof. induction l as [|a|a b l IH] using pair_ind; [done|done|]. cbn [level pairs map fst snd]. by rewrite IH. Qed.

Lemma level_pairs_inj ps l1 : collision_free ps -> forall l2, l1 ⊆ ps -> l2 ⊆ ps ->
  map (fun p => Hash2 p.1 p.2) l1 = map (fun p => Hash2 p.1 p.2) l2 -> l1 = l2.
Proof.
  intros Hc. induction l1 as [|p l1 IH]; intros [|q l2] S1 S2 E; [done..|]. cbn [map] in E. injection E as E E'.
  f_equal; [apply (collision_free_inj ps); set_solver|apply IH; [set_solver..|done]].
Qed.

Lemma pairs_inj l1 : forall l2, equal_pair l1 = false -> equal_pair l2 = false -> pairs l1 = pairs l2 -> l1 = l2.
Proof.
  induction l1 as [|a|a b l1 IH] using pair_ind; intros l2 P1 P2 E; destruct l2 as [|c [|d l2]]; try done; cbn [pairs equal_pair] in *.
  - congruence.
  - apply orb_false_iff in P2 as [P2%bool_decide_eq_false _]. congruence.
  - apply orb_false_iff in P1 as [P1%bool_decide_eq_false _]. congruence.
  - apply orb_false_iff in P1 as [_ P1], P2 as [_ P2]. injection E as -> -> E. by rewrite (IH l2).
Qed.

Lemma length_level l : length (level l) = ((length l + 1) / 2)%nat.
Proof.
  induction l as [|a|a b l IH] using pair_ind; [done|done|]. cbn [level length]. rewrite IH.
  replace (S (S (length l)) + 1)%nat with (length l + 1 + 1 * 2)%nat by lia. rewrite Nat.div_add by lia. lia.
Qed.

Lemma log2_up_half n : (1 < n)%nat -> Nat.log2_up n = S (Nat.log2_up ((n + 1) / 2)).
Proof.
  intros Hn. set (m := ((n + 1) / 2)%nat). pose proof (Nat.Div0.div_mod (n + 1) 2) as Hd. fold m in Hd. pose proof (Nat.mod_upper_bound (n + 1) 2 ltac:(lia)) as Hm.
  destruct (decide (m = 1%nat)) as [E|N].
  - rewrite E. assert (n = 2)%nat as -> by lia. reflexivity.
  - destruct (Nat.log2_up_spec m) as [H1 H2]; [lia|]. apply Nat.log2_up_unique; [lia|]. cbn [Nat.pred]. rewrite Nat.pow_succ_r'. split; [|lia].
    assert (Nat.log2_up m <> 0)%nat by (intros E0; apply Nat.log2_up_null in E0; lia). replace (Nat.log2_up m) with (S (Nat.pred (Nat.log2_up m))) by lia.
    rewrite Nat.pow_succ_r'. lia.
Qed.

Lemma levels_mutated fuel : forall l, (levels fuel l true).2 = true.
Proof. induction fuel as [|f IH]; intros l; cbn [levels]; [done|]. destruct (1 <? length l)%nat; [apply IH|done]. Qed.

Lemma levels_binding ps f1 : collision_free ps -> forall f2 l1 l2, l1 <> [] -> l2 <> [] -> (length l1 <= f1)%nat -> (length l2 <= f2)%nat ->
  Nat.log2_up (length l1) = Nat.log2_up (length l2) -> (levels f1 l1 false).2 = false -> (levels f2 l2 false).2 = false ->
  tree_pairs f1 l1 ⊆ ps -> tree_pairs f2 l2 ⊆ ps -> head (levels f1 l1 false).1 = head (levels f2 l2 false).1 -> l1 = l2.
Proof.
  intros Hc. induction f1 as [|f1 IH]; intros f2 l1 l2 N1 N2 L1 L2 Hh M1 M2 S1 S2 E; [by destruct l1; cbn in L1; try lia|].
  destruct f2 as [|f2]; [destruct l2; [done|cbn in L2; lia]|]. cbn [levels tree_pairs] in *.
  destruct (Nat.ltb_spec 1 (length l1)) as [G1|G1], (Nat.ltb_spec 1 (length l2)) as [G2|G2].
  - destruct (equal_pair l1) eqn:P1; [by rewrite levels_mutated in M1|]. destruct (equal_pair l2) eqn:P2; [by rewrite levels_mutated in M2|]. cbn [orb] in *.
    rewrite (log2_up_half (length l1)), (log2_up_half (length l2)) in Hh by done. apply Nat.succ_inj in Hh. rewrite <- !length_level in Hh.
    assert (forall l : list uint256, (1 < length l)%nat -> level l <> [] /\ (length (level l) < length l)%nat) as Hlt.
    { intros l Hl. rewrite length_level. pose proof (Nat.Div0.div_mod (length l + 1) 2). pose proof (Nat.mod_upper_bound (length l + 1) 2 ltac:(lia)). split; [|lia].
      destruct l as [|? [|? ?]]; done || (cbn in Hl; lia). }
    destruct (Hlt l1 G1), (Hlt l2 G2).
    assert (level l1 = level l2) as El by (apply (IH f2); auto; try lia; set_solver).
    apply pairs_inj; [done..|]. rewrite !level_pairs in El. apply (level_pairs_inj ps); [done|set_solver..|done].
  - apply Nat.log2_up_pos in G1. destruct l2 as [|h [|? ?]]; [done| |cbn in G2; lia]. cbn in Hh. lia.
  - apply Nat.log2_up_pos in G2. destruct l1 as [|h [|? ?]]; [done| |cbn in G1; lia]. cbn in Hh. lia.
  - destruct l1 as [|h [|? ?]]; [done| |cbn in G1; lia]. destruct l2 as [|h' [|? ?]]; [done| |cbn in G2; lia]. cbn in E. congruence.
Qed.

Lemma ComputeMerkleRoot_levels ways l : ways_ok ways -> hash32 l ->
  ComputeMerkleRoot ways l = (default uint256_zero (head (levels (length l) l false).1), (levels (length l) l false).2).
Proof.
  intros Hw Hl. unfold ComputeMerkleRoot. rewrite merkle_loop_levels by done. destruct (levels _ _ _) as [[|h t] m]; done.
Qed.

Lemma levels_root fuel : forall l m, l <> [] -> exists r, head (levels fuel l m).1 = Some r.
Proof.
  induction fuel as [|f IH]; intros l m Hl; cbn [levels]; [destruct l; [done|]; cbn; eauto|].
  destruct (1 <? length l)%nat; [apply IH; destruct l as [|? [|? ?]]; done|destruct l; [done|]; cbn; eauto].
Qed.

(** C30: a Merkle root with no mutation reported binds the hashes. Two non-empty
    lists of 32-byte hashes that give trees of the same depth and the same root,
    both without a pair of equal neighbours, are the same list, where no two of
    the pairs that the two trees hash collide. The double hash of one block is
    the portable code; of the code that hashes two, four or eight blocks at a
    time with vector instructions, which is not modelled, it is assumed that it
    hashes each block as the portable code does. *)
Theorem ComputeMerkleRoot_binding ways l1 l2 : ways_ok ways -> hash32 l1 -> hash32 l2 -> l1 <> [] -> l2 <> [] ->
  Nat.log2_up (length l1) = Nat.log2_up (length l2) ->
  (ComputeMerkleRoot ways l1).2 = false -> (ComputeMerkleRoot ways l2).2 = false ->
  collision_free (tree_pairs (length l1) l1 ++ tree_pairs (length l2) l2) ->
  (ComputeMerkleRoot ways l1).1 = (ComputeMerkleRoot ways l2).1 -> l1 = l2.
Proof.
  intros Hw H1 H2 N1 N2 Hh M1 M2 Hc E. rewrite !ComputeMerkleRoot_levels in * by done.
  apply (levels_binding _ (length l1) Hc (length l2)); auto; [set_solver..|]. cbn [fst] in E.
  destruct (levels_root (length l1) l1 false N1) as (r1 & E1). destruct (levels_root (length l2) l2 false N2) as (r2 & E2).
  rewrite E1, E2 in *. cbn in E. by subst.
Qed.

(** The portable build, with the transformation of two blocks at a time *)
Definition portable_ways : d64_ways :=
  mkWays None None (Some (fun l => TransformD64 (take 64 l) ++ TransformD64 (drop 64 l))) TransformD64.
Lemma cut_two (tr : list Z -> list Z) l : length l = 128%nat -> tr (take 64 l) ++ tr (drop 64 l) = concat (map tr (cut 64 2 l)).
Proof. intros Hl. cbn [cut map concat]. rewrite (take_ge (drop 64 l)), app_nil_r; [done|rewrite length_drop; lia]. Qed.
Lemma cut_one (tr : list Z -> list Z) l : length l = 64%nat -> tr l = concat (map tr (cut 64 1 l)).
Proof. intros Hl. cbn [cut map concat]. by rewrite take_ge, app_nil_r by lia. Qed.
Lemma portable_ways_ok : ways_ok portable_ways.
Proof.
  unfold ways_ok, portable_ways. cbn [way8 way4 way2 way1]. split; [intros f E; discriminate E|]. split; [intros f E; discriminate E|]. split.
  - intros f E. apply Some_inj in E as <-. exact (cut_two TransformD64).
  - exact (cut_one TransformD64).
Qed.

(** Two lists that differ in their last hash have different roots.  A repeated
    last hash leaves the root as it is and is reported. *)
Lemma ComputeMerkleRoot_binding_witness :
  let l x := [repeat 1 32; repeat 2 32; repeat x 32] in
  (ComputeMerkleRoot portable_ways [repeat 1 32; repeat 2 32]).1 <> (ComputeMerkleRoot portable_ways [repeat 1 32; repeat 3 32]).1 /\
  ComputeMerkleRoot portable_ways (l 3 ++ [repeat 3 32]) = ((ComputeMerkleRoot portable_ways (l 3)).1, true).
Proof.
  intros l. split; [|vm_compute; reflexivity]. intros E.
  assert ([repeat 1 32; repeat 2 32] = [repeat 1 32; repeat 3 32]) as Hl; [|discriminate Hl].
  apply (ComputeMerkleRoot_binding portable_ways _ _ portable_ways_ok); [by repeat constructor|by repeat constructor|done|done|done| | | |exact E].
  - vm_compute. reflexivity.
  - vm_compute. reflexivity.
  - apply (collision_free_two (repeat 1 32, repeat 2 32) (repeat 1 32, repeat 3 32)). vm_compute. discriminate.
Defined.
