(* ===== verification/Compact.v ===== *)
(** * Compact: the compact encoding of targets (src/src/arith_uint256.cpp)

    A 32-bit word holds an exponent in its top byte, a sign bit and a 23-bit
    mantissa.  [SetCompact] decodes it, [GetCompact] encodes a number, rounding
    down.  The overflow flag of [SetCompact] is shown to be exact, [GetCompact]
    never to fail its assertions, and the two to be inverse on canonical words. *)

From Stdlib Require Import ZArith Lia.
From stdpp Require Import base list numbers option.
From S2P Require Import Prelude Arith256.

(** ** Definitions *)

(** [arith_uint256::SetCompact]: the value, [*pfNegative] and [*pfOverflow] *)
Definition SetCompact (nCompact : Z) : list Z * bool * bool :=
  let nSize := Z.shiftr nCompact 24 in
  let nWord := Z.land nCompact 0x007fffff in
  let '(this, nWord) :=
    if nSize <=? 3 then
      let nWord := Z.shiftr nWord (8 * (3 - nSize)) in
      (bu_of_u64 nWord, nWord)
    else
      (bu_shl (bu_of_u64 nWord) (Z.to_nat (8 * (nSize - 3))), nWord) in
  (this,
   (negb (nWord =? 0) && negb (Z.land nCompact 0x00800000 =? 0))%bool,
   (negb (nWord =? 0) && ((nSize >? 34) || ((nWord >? 0xff) && (nSize >? 33))
                          || ((nWord >? 0xffff) && (nSize >? 32))))%bool).

(** [arith_uint256::GetCompact]; [None] is a failed [assert]. *)
Definition GetCompact (this : list Z) (fNegative : bool) : option Z :=
  let nSize := (bu_bits this + 7) / 8 in
  let nCompact :=
    if nSize <=? 3 then u32 (u64 (Z.shiftl (bu_GetLow64 this) (8 * (3 - nSize))))
    else u32 (bu_GetLow64 (bu_shr this (Z.to_nat (8 * (nSize - 3))))) in
  let '(nCompact, nSize) :=
    if negb (Z.land nCompact 0x00800000 =? 0)
    then (Z.shiftr nCompact 8, nSize + 1) else (nCompact, nSize) in
  if negb (Z.land nCompact (2^32 - 1 - 0x007fffff) =? 0) then None
  else if negb (nSize <? 256) then None
  else
    let nCompact := Z.lor nCompact (u32 (Z.shiftl nSize 24)) in
    Some (Z.lor nCompact
            (if (fNegative && negb (Z.land nCompact 0x007fffff =? 0))%bool then 0x00800000 else 0)).

(** ** The mathematical reading of a compact word *)

Definition cw_size (c : Z) : Z := c / 2^24.
Definition cw_word (c : Z) : Z := c mod 2^23.
Definition cw_sign (c : Z) : bool := Z.testbit c 23.

(** The unbounded number [mantissa * 256^(size - 3)], rounded down below 3. *)
Definition cw_num (c : Z) : Z :=
  if cw_size c <=? 3 then cw_word c / 2^(8 * (3 - cw_size c))
  else cw_word c * 2^(8 * (cw_size c - 3)).

(** ** Lemmas *)

Lemma land_mantissa c : Z.land c 0x007fffff = cw_word c.
Proof. change 0x007fffff with (Z.ones 23). now apply Z.land_ones. Qed.

Lemma land_sign c : (Z.land c 0x00800000 =? 0) = negb (cw_sign c).
Proof. change 0x00800000 with (Z.shiftl 1 23). now apply land_pow2_testbit. Qed.

Lemma cw_ranges c : is_u32 c -> 0 <= cw_size c < 2^8 /\ 0 <= cw_word c < 2^23.
Proof.
  unfold is_u32, cw_size, cw_word. intros Hc. split.
  - split; [apply Z.div_pos; lia|apply Z.div_lt_upper_bound; lia].
  - apply Z.mod_pos_bound. lia.
Qed.

Lemma cw_num_nonneg c : is_u32 c -> 0 <= cw_num c.
Proof.
  intros Hc. destruct (cw_ranges c Hc). unfold cw_num. bool_cases.
  - apply Z.div_pos; lia.
  - nia.
Qed.

(** The three-way overflow test of the source is exactly "2^256 or more". *)
Lemma overflow_exact w s :
  0 < w < 2^23 -> 3 < s < 2^8 ->
  ((s >? 34) || ((w >? 0xff) && (s >? 33)) || ((w >? 0xffff) && (s >? 32)))%bool
  = (2^256 <=? w * 2^(8 * (s - 3))).
Proof.
  intros Hw Hs. symmetry. rewrite !Z.gtb_ltb.
  assert (Hpow : forall n, 3 < n -> n <= s -> 2^(8 * (n - 3)) <= 2^(8 * (s - 3)))
    by (intros; apply Z.pow_le_mono_r; lia).
  assert (Hpow' : forall n, s <= n -> 2^(8 * (s - 3)) <= 2^(8 * (n - 3)))
    by (intros; apply Z.pow_le_mono_r; lia).
  destruct (Z.ltb_spec 34 s) as [H34|H34]; simpl orb.
  { apply Z.leb_le. specialize (Hpow 35 ltac:(lia) ltac:(lia)). simpl in Hpow. nia. }
  destruct (Z.ltb_spec 0xff w) as [Hff|Hff]; simpl andb.
  - destruct (Z.ltb_spec 33 s) as [H33|H33]; simpl orb.
    { apply Z.leb_le. specialize (Hpow 34 ltac:(lia) ltac:(lia)). simpl in Hpow. nia. }
    destruct (Z.ltb_spec 0xffff w) as [Hffff|Hffff]; simpl andb.
    + destruct (Z.ltb_spec 32 s).
      { apply Z.leb_le. specialize (Hpow 33 ltac:(lia) ltac:(lia)). simpl in Hpow. nia. }
      apply Z.leb_gt. specialize (Hpow' 32 ltac:(lia)). simpl in Hpow'. nia.
    + apply Z.leb_gt. specialize (Hpow' 33 ltac:(lia)). simpl in Hpow'. nia.
  - destruct (Z.ltb_spec 0xffff w); [lia|]. simpl.
    apply Z.leb_gt. specialize (Hpow' 34 ltac:(lia)). simpl in Hpow'. nia.
Qed.

(** What [SetCompact] returns, on every word. *)
Lemma SetCompact_spec c :
  is_u32 c ->
  exists t, SetCompact c = (t, (negb (cw_num c =? 0) && cw_sign c)%bool, 2^256 <=? cw_num c) /\
            bu_wf t /\ val t = cw_num c mod 2^256.
Proof.
  intros Hc. destruct (cw_ranges c Hc) as [Hs Hw].
  unfold SetCompact. rewrite land_mantissa, land_sign, negb_involutive.
  rewrite (Z.shiftr_div_pow2 c) by lia. fold (cw_size c). unfold cw_num.
  destruct (Z.leb_spec (cw_size c) 3) as [H3|H3].
  - rewrite Z.shiftr_div_pow2 by lia. set (w := cw_word c / _).
    assert (Hw' : 0 <= w < 2^23).
    { split; [apply Z.div_pos; lia|]. apply Z.div_lt_upper_bound; [lia|].
      assert (0 < 2^(8 * (3 - cw_size c))) by lia. nia. }
    exists (bu_of_u64 w). split; [|split; [apply bu_of_u64_wf|rewrite val_of_u64 by (unfold is_u64; lia);
      symmetry; apply Z.mod_small; lia]].
    f_equal. rewrite (proj2 (Z.leb_gt (2^256) w)) by lia.
    rewrite !Z.gtb_ltb.
    rewrite (proj2 (Z.ltb_ge 34 _)), (proj2 (Z.ltb_ge 33 _)), (proj2 (Z.ltb_ge 32 _)) by lia.
    by rewrite !andb_false_r.
  - set (n := cw_word c * 2^(8 * (cw_size c - 3))).
    destruct (bu_shl_spec (bu_of_u64 (cw_word c)) (Z.to_nat (8 * (cw_size c - 3))) (bu_of_u64_wf _)) as [Hwf Hv].
    rewrite Z2Nat.id, val_of_u64 in Hv by (unfold is_u64; lia).
    eexists. split; [|split; [exact Hwf|exact Hv]].
    destruct (Z.eqb_spec (cw_word c) 0) as [E|E].
    + assert (n = 0) as -> by (unfold n; rewrite E; lia). done.
    + assert (n <> 0) by (unfold n; nia). rewrite (proj2 (Z.eqb_neq n 0)) by done.
      rewrite overflow_exact by lia. done.
Qed.

(** ** Encoding *)

(** The exponent and mantissa of the encoding, on numbers. *)
Definition gc_size (v : Z) : Z := (bit_length v + 7) / 8.
Definition gc_raw (v : Z) : Z :=
  if gc_size v <=? 3 then v * 2^(8 * (3 - gc_size v)) else v / 2^(8 * (gc_size v - 3)).
Definition gc_pair (v : Z) : Z * Z :=
  if 2^23 <=? gc_raw v then (gc_raw v / 2^8, gc_size v + 1) else (gc_raw v, gc_size v).
Definition gc_word (v : Z) : Z := let '(m, s) := gc_pair v in m + s * 2^24.

Lemma gc_size_bounds v :
  0 < v < 2^256 -> 1 <= gc_size v <= 32 /\ 2^(8 * (gc_size v - 1)) <= v < 2^(8 * gc_size v).
Proof.
  intros Hv. destruct (bit_length_bounds v) as [Hb [Hlo Hhi]]; [lia|].
  pose proof (bit_length_le v 256 ltac:(lia) ltac:(lia)).
  unfold gc_size. pose proof (Z.div_mod (bit_length v + 7) 8).
  pose proof (Z.mod_pos_bound (bit_length v + 7) 8). split; [lia|].
  split.
  - etransitivity; [|exact Hlo]. apply Z.pow_le_mono_r; lia.
  - eapply Z.lt_le_trans; [exact Hhi|]. apply Z.pow_le_mono_r; lia.
Qed.

Lemma gc_raw_bounds v : 0 < v < 2^256 -> 2^16 <= gc_raw v < 2^24.
Proof.
  intros Hv. destruct (gc_size_bounds v Hv) as [Hs [Hlo Hhi]]. unfold gc_raw. bool_cases.
  - assert (E1 : 2^24 = 2^(8 * gc_size v) * 2^(8 * (3 - gc_size v))) by (rewrite <- Z.pow_add_r by lia; f_equal; lia).
    assert (E2 : 2^16 = 2^(8 * (gc_size v - 1)) * 2^(8 * (3 - gc_size v))) by (rewrite <- Z.pow_add_r by lia; f_equal; lia).
    nia.
  - assert (E1 : 2^(8 * gc_size v) = 2^(8 * (gc_size v - 3)) * 2^24) by (rewrite <- Z.pow_add_r by lia; f_equal; lia).
    assert (E2 : 2^(8 * (gc_size v - 1)) = 2^(8 * (gc_size v - 3)) * 2^16) by (rewrite <- Z.pow_add_r by lia; f_equal; lia).
    split; [apply Z.div_le_lower_bound|apply Z.div_lt_upper_bound]; lia.
Qed.

Lemma gc_pair_bounds v :
  0 < v < 2^256 -> let '(m, s) := gc_pair v in 2^15 <= m < 2^23 /\ 1 <= s <= 33.
Proof.
  intros Hv. pose proof (gc_raw_bounds v Hv). destruct (gc_size_bounds v Hv) as [Hs _].
  unfold gc_pair. destruct (Z.leb_spec (2^23) (gc_raw v)).
  - split; [|lia]. split; [apply Z.div_le_lower_bound; lia|apply Z.div_lt_upper_bound; lia].
  - lia.
Qed.

Lemma testbit_23 x : 0 <= x < 2^24 -> Z.testbit x 23 = (2^23 <=? x).
Proof.
  intros Hx.
  destruct (Z.leb_spec (2^23) x) as [H|H].
  - apply Z.testbit_true; [lia|].
    replace (x / 2^23) with 1; [done|]. apply Z.div_unique with (x - 2^23); lia.
  - apply Z.testbit_false; [lia|]. rewrite Z.div_small by lia. done.
Qed.

Lemma GetCompact_spec a fNegative :
  bu_wf a ->
  GetCompact a fNegative =
  Some (gc_word (val a) + (if (fNegative && negb (val a =? 0))%bool then 2^23 else 0)).
Proof.
  intros Ha. pose proof (val_bound_256 _ Ha) as Hv.
  unfold GetCompact. rewrite bu_bits_spec by done. fold (gc_size (val a)).
  destruct (Z.eq_dec (val a) 0) as [E0|E0].
  { rewrite bu_GetLow64_spec, E0 by done. by destruct fNegative. }
  pose proof (gc_raw_bounds (val a) ltac:(lia)) as Hraw.
  destruct (gc_size_bounds (val a) ltac:(lia)) as [Hsz [Hlo Hhi]].
  match goal with |- (let '(_, _) := if negb (Z.land ?n _ =? 0) then _ else _ in _) = _ =>
    replace n with (gc_raw (val a)) end.
  2:{ unfold gc_raw in *. destruct (Z.leb_spec (gc_size (val a)) 3) as [H3|H3].
      - rewrite bu_GetLow64_spec by done.
        assert (2^(8 * gc_size (val a)) <= 2^24) by (apply Z.pow_le_mono_r; lia).
        rewrite (Z.mod_small (val a)), Z.shiftl_mul_pow2 by lia.
        rewrite u64_id, u32_id by (unfold is_u64, is_u32; lia). done.
      - destruct (bu_shr_spec a (Z.to_nat (8 * (gc_size (val a) - 3))) Ha) as [Hw Ev].
        rewrite bu_GetLow64_spec, Ev, Z2Nat.id, Z.mod_small by (try done; lia).
        rewrite u32_id by (unfold is_u32; lia). done. }
  rewrite land_sign, negb_involutive. unfold cw_sign. rewrite testbit_23 by lia.
  pose proof (gc_pair_bounds (val a) ltac:(lia)) as Hp. unfold gc_word, gc_pair in *.
  assert (Hfin : forall m s, 2^15 <= m < 2^23 -> 1 <= s <= 33 ->
    (if negb (Z.land m (2^32 - 1 - 0x007fffff) =? 0) then None
     else if negb (s <? 256) then None
     else let n := Z.lor m (u32 (Z.shiftl s 24)) in
          Some (Z.lor n (if (fNegative && negb (Z.land n 0x007fffff =? 0))%bool then 0x00800000 else 0)))
    = Some (m + s * 2^24 + (if (fNegative && negb (val a =? 0))%bool then 2^23 else 0))).
  { intros m s Hm Hs. change (2^32 - 1 - 0x007fffff) with ((2^9 - 1) * 2^23).
    rewrite land_disjoint, (proj2 (Z.ltb_lt s 256)) by lia. simpl negb. cbv iota zeta.
    rewrite u32_id by (unfold is_u32; rewrite Z.shiftl_mul_pow2 by lia; lia).
    rewrite Z.shiftl_mul_pow2, lor_disjoint_add, land_mantissa by lia. unfold cw_word.
    replace (m + s * 2^24) with (m + (s * 2) * 2^23) by lia. rewrite Z.mod_add, Z.mod_small by lia.
    rewrite (proj2 (Z.eqb_neq m 0)), (proj2 (Z.eqb_neq (val a) 0)) by lia.
    apply (f_equal Some). destruct fNegative; simpl andb; cbv iota; [|rewrite Z.lor_0_r; lia].
    replace (m + s * 2 * 2^23) with (m + s * 2^24) by lia.
    rewrite <- (lor_disjoint_add m s 24), <- Z.lor_assoc, (Z.lor_comm _ 8388608), Z.lor_assoc by lia.
    replace (Z.lor m 8388608) with (m + 1 * 2^23) by (symmetry; apply (lor_disjoint_add m 1 23); lia).
    rewrite !lor_disjoint_add by lia. lia. }
  destruct (Z.leb_spec (2^23) (gc_raw (val a))).
  - rewrite Z.shiftr_div_pow2 by lia. apply Hfin; lia.
  - apply Hfin; lia.
Qed.

(** Decoding an encoding rounds the number down to the mantissa's grid. *)
Lemma gc_word_fields v :
  0 < v < 2^256 -> let '(m, s) := gc_pair v in
  is_u32 (gc_word v) /\ cw_size (gc_word v) = s /\ cw_word (gc_word v) = m /\ cw_sign (gc_word v) = false.
Proof.
  intros Hv. pose proof (gc_pair_bounds v Hv) as Hp. unfold gc_word.
  destruct (gc_pair v) as [m s]. destruct Hp as [Hm Hs]. split_and!.
  - unfold is_u32. lia.
  - unfold cw_size. rewrite Z.div_add, Z.div_small by lia. lia.
  - unfold cw_word. replace (m + s * 2^24) with (m + (s * 2) * 2^23) by lia.
    rewrite Z.mod_add, Z.mod_small by lia. done.
  - unfold cw_sign. apply Z.testbit_false; [lia|].
    replace (m + s * 2^24) with (m + (s * 2) * 2^23) by lia.
    rewrite Z.div_add, Z.div_small, Z.add_0_l by lia. rewrite Z.mod_mul; lia.
Qed.

(** The size of the grid: the mantissa keeps everything above it. *)
Definition gc_grid (v : Z) : Z := 2^(8 * Z.max 0 (snd (gc_pair v) - 3)).

Lemma gc_word_num v : 0 < v < 2^256 -> cw_num (gc_word v) = v - v mod gc_grid v.
Proof.
  intros Hv. pose proof (gc_word_fields v Hv) as Hf. pose proof (gc_raw_bounds v Hv) as Hraw.
  destruct (gc_size_bounds v Hv) as [Hs _].
  unfold cw_num, gc_grid. unfold gc_pair in *. unfold gc_raw in *.
  destruct (Z.leb_spec (gc_size v) 3) as [H3|H3];
    match type of Hf with context [2^23 <=? ?r] => destruct (Z.leb_spec (2^23) r) as [Hbig|Hsmall] end;
    destruct Hf as (_ & -> & -> & _); simpl snd.
  - destruct (Z.leb_spec (gc_size v + 1) 3) as [H2|H2].
    + replace (Z.max 0 (gc_size v + 1 - 3)) with 0 by lia. rewrite Z.mod_1_r.
      rewrite Z.div_div by lia. rewrite <- Z.pow_add_r by lia.
      replace (8 + 8 * (3 - (gc_size v + 1))) with (8 * (3 - gc_size v)) by lia.
      rewrite Z.div_mul by lia. lia.
    + assert (gc_size v = 3) as -> by lia.
      change (2^(8 * (3 - 3))) with 1. change (8 * (3 + 1 - 3)) with 8. change (8 * Z.max 0 (3 + 1 - 3)) with 8.
      rewrite Z.mul_1_r. pose proof (Z.div_mod v (2^8)). lia.
  - rewrite (proj2 (Z.leb_le (gc_size v) 3)) by lia. replace (Z.max 0 (gc_size v - 3)) with 0 by lia.
    rewrite Z.mod_1_r, Z.div_mul by lia. lia.
  - rewrite (proj2 (Z.leb_gt (gc_size v + 1) 3)) by lia.
    rewrite Z.div_div by lia. rewrite <- Z.pow_add_r by lia.
    replace (8 * (gc_size v - 3) + 8) with (8 * (gc_size v + 1 - 3)) by lia.
    replace (Z.max 0 (gc_size v + 1 - 3)) with (gc_size v + 1 - 3) by lia.
    pose proof (Z.div_mod v (2^(8 * (gc_size v + 1 - 3)))). lia.
  - rewrite (proj2 (Z.leb_gt (gc_size v) 3)) by lia.
    replace (Z.max 0 (gc_size v - 3)) with (gc_size v - 3) by lia.
    pose proof (Z.div_mod v (2^(8 * (gc_size v - 3)))). lia.
Qed.

(** A canonical word encodes the number it stands for. *)
Definition canonical (c : Z) : Prop :=
  2^15 <= cw_word c /\ cw_sign c = false /\ 3 <= cw_size c /\ cw_num c < 2^256.

Lemma cw_decompose c : is_u32 c -> cw_sign c = false -> c = cw_word c + cw_size c * 2^24.
Proof.
  intros Hc Hs. unfold cw_word, cw_size. unfold cw_sign in Hs.
  apply Z.testbit_false in Hs; [|lia].
  change (2^24) with (2^23 * 2) in *. rewrite <- Z.div_div by lia.
  pose proof (Z.div_mod c (2^23)). pose proof (Z.div_mod (c / 2^23) 2). lia.
Qed.

Lemma byte_length_unique v n :
  1 <= n -> 2^(8 * (n - 1)) <= v < 2^(8 * n) -> v < 2^256 -> gc_size v = n.
Proof.
  intros Hn Hv Hlt. assert (0 < v) by lia.
  destruct (gc_size_bounds v ltac:(lia)) as [Hs Hb].
  destruct (Z.lt_trichotomy (gc_size v) n) as [H1|[H1|H1]]; [|done|].
  - assert (2^(8 * gc_size v) <= 2^(8 * (n - 1))) by (apply Z.pow_le_mono_r; lia). lia.
  - assert (2^(8 * n) <= 2^(8 * (gc_size v - 1))) by (apply Z.pow_le_mono_r; lia). lia.
Qed.

Lemma gc_word_canonical c : is_u32 c -> canonical c -> gc_word (cw_num c) = c.
Proof.
  intros Hc (Hm & Hsg & Hs & Hlt). destruct (cw_ranges c Hc) as [Hsz Hw].
  rewrite (cw_decompose c Hc Hsg) at 2.
  set (m := cw_word c) in *. set (s := cw_size c) in *.
  assert (En : cw_num c = m * 2^(8 * (s - 3))).
  { unfold cw_num. fold s m. destruct (Z.leb_spec s 3); [|done].
    assert (s = 3) as -> by lia. simpl. rewrite Z.div_1_r. lia. }
  rewrite En in *. set (v := m * 2^(8 * (s - 3))) in *.
  assert (P1 : 0 < 2^(8 * (s - 3))) by lia.
  assert (Es : gc_size v = if 2^16 <=? m then s else s - 1).
  { destruct (Z.leb_spec (2^16) m).
    - apply byte_length_unique; [lia| |done].
      replace (8 * (s - 1)) with (16 + 8 * (s - 3)) by lia. replace (8 * s) with (24 + 8 * (s - 3)) by lia.
      rewrite !Z.pow_add_r by lia. unfold v. nia.
    - apply byte_length_unique; [lia| |done].
      replace (8 * (s - 1 - 1)) with (8 + 8 * (s - 3)) by lia. replace (8 * (s - 1)) with (16 + 8 * (s - 3)) by lia.
      rewrite !Z.pow_add_r by lia. unfold v. nia. }
  assert (Er : gc_raw v = if 2^16 <=? m then m else m * 2^8).
  { unfold gc_raw. rewrite Es. destruct (Z.leb_spec (2^16) m).
    - destruct (Z.leb_spec s 3); [|apply Z.div_mul; lia].
      assert (s = 3) as E3 by lia. unfold v. rewrite E3. simpl. lia.
    - destruct (Z.leb_spec (s - 1) 3).
      + assert (s = 3 \/ s = 4) as [E3|E3] by lia; unfold v; rewrite E3; simpl; lia.
      + unfold v. replace (8 * (s - 3)) with (8 + 8 * (s - 1 - 3)) by lia.
        rewrite Z.pow_add_r, Z.mul_assoc, Z.div_mul by lia. done. }
  unfold gc_word, gc_pair. rewrite Er, Es. destruct (Z.leb_spec (2^16) m).
  - rewrite (proj2 (Z.leb_gt (2^23) m)) by lia. done.
  - rewrite (proj2 (Z.leb_le (2^23) (m * 2^8))) by lia. rewrite Z.div_mul by lia. lia.
Qed.

(** The rounding error is below one part in 2^15. *)
Lemma gc_grid_small v : 0 < v < 2^256 -> gc_grid v * 2^15 <= v \/ gc_grid v = 1.
Proof.
  intros Hv. pose proof (gc_word_num v Hv) as Hn. pose proof (gc_word_fields v Hv) as Hf.
  pose proof (gc_pair_bounds v Hv) as Hp. unfold gc_grid in *. unfold cw_num in Hn.
  destruct (gc_pair v) as [m s]. destruct Hf as (_ & E1 & E2 & _). rewrite E1, E2 in Hn. simpl snd in *.
  destruct (Z.leb_spec s 3); [right; by replace (Z.max 0 (s - 3)) with 0 by lia|left].
  replace (Z.max 0 (s - 3)) with (s - 3) in * by lia.
  pose proof (Z.mod_pos_bound v (2^(8 * (s - 3))) ltac:(lia)). nia.
Qed.

(** ** Usable targets

    The callers refuse negative, overflowing and zero targets. *)
Definition compact_target (c : Z) : option Z :=
  if ((cw_num c =? 0) || cw_sign c || (2^256 <=? cw_num c))%bool then None else Some (cw_num c).

Lemma cw_num_not_ones c : is_u32 c -> cw_num c <> 2^256 - 1.
Proof.
  intros Hc. destruct (cw_ranges c Hc) as [Hs Hw]. unfold cw_num.
  destruct (Z.leb_spec (cw_size c) 3).
  - assert (cw_word c / 2^(8 * (3 - cw_size c)) < 2^23); [|lia].
    apply Z.div_lt_upper_bound; [lia|]. assert (0 < 2^(8 * (3 - cw_size c))) by lia. nia.
  - replace (8 * (cw_size c - 3)) with (1 + (8 * (cw_size c - 3) - 1)) by lia.
    rewrite Z.pow_add_r by lia. lia.
Qed.

Lemma SetCompact_target c : is_u32 c ->
  exists t fNegative fOverflow, SetCompact c = (t, fNegative, fOverflow) /\ bu_wf t /\
    match compact_target c with
    | None => (fNegative || fOverflow || bu_EqualTo t 0)%bool = true
    | Some v => (fNegative || fOverflow || bu_EqualTo t 0)%bool = false /\
                fNegative = false /\ fOverflow = false /\ val t = v /\ 0 < v < 2^256 - 1
    end.
Proof.
  intros Hc. destruct (SetCompact_spec c Hc) as (t & E & Hwf & Hv).
  pose proof (cw_num_nonneg c Hc) as Hnn. pose proof (cw_num_not_ones c Hc) as Hones.
  do 3 eexists. split; [exact E|]. split; [done|].
  rewrite bu_EqualTo_spec by (done || unfold is_u64; lia). rewrite Hv. unfold compact_target.
  destruct (Z.eqb_spec (cw_num c) 0) as [->|H0]; simpl; [done|].
  destruct (cw_sign c); simpl; [done|].
  destruct (Z.leb_spec (2^256) (cw_num c)); simpl; [done|].
  rewrite Z.mod_small by lia. split_and!; try done; try lia.
Qed.

Lemma compact_target_bounds c v : is_u32 c -> compact_target c = Some v -> 0 < v < 2^256 - 1.
Proof.
  intros Hc Hv. destruct (SetCompact_target c Hc) as (? & ? & ? & _ & _ & H). rewrite Hv in H. tauto.
Qed.

(** ** Properties *)

(** [SetCompact] decodes every 32-bit word to the number it denotes: the
    value is [mantissa * 256^(size-3)] reduced modulo 2^256, the overflow flag is
    set exactly when that number does not fit in 256 bits, the value is not
    truncated when the flag is clear, and the negative flag is set exactly for a
    non-zero number with the sign bit. *)
Theorem SetCompact_exact (c : Z) :
  is_u32 c ->
  let '(t, fNegative, fOverflow) := SetCompact c in
  bu_wf t /\ val t = cw_num c mod 2^256 /\
  (fOverflow = true <-> 2^256 <= cw_num c) /\
  (fOverflow = false -> val t = cw_num c) /\
  (fNegative = true <-> cw_num c <> 0 /\ Z.testbit c 23 = true).
Proof.
  intros Hc. destruct (SetCompact_spec c Hc) as (t & -> & Hwf & Hv).
  pose proof (cw_num_nonneg c Hc). split_and!; [done|done| | |].
  - apply Z.leb_le.
  - intros Hov. apply Z.leb_gt in Hov. rewrite Hv. apply Z.mod_small. lia.
  - rewrite andb_true_iff, negb_true_iff, Z.eqb_neq. done.
Qed.

Lemma SetCompact_exact_witness :
  is_u32 0x1d00ffff /\ snd (SetCompact 0x1d00ffff) = false /\
  val (fst (fst (SetCompact 0x1d00ffff))) = 0xffff * 2^208.
Proof.
  assert (H : is_u32 0x1d00ffff) by (unfold is_u32; lia).
  pose proof (SetCompact_exact 0x1d00ffff H) as P.
  split; [exact H|]. split; [reflexivity|].
  destruct P as (_ & _ & _ & P & _). exact (P eq_refl).
Defined.

(** Encoding then decoding a target rounds it down, by less than one part in
    2^15: [GetCompact] never fails its assertions, the word it returns decodes
    with neither flag set, and the decoded value [t] satisfies
    [t <= v] and [(v - t) * 2^15 <= v]. *)
Theorem GetCompact_rounds_down (a : list Z) :
  bu_wf a ->
  exists c t, GetCompact a false = Some c /\ is_u32 c /\ SetCompact c = (t, false, false) /\
              bu_wf t /\ val t <= val a /\ (val a - val t) * 2^15 <= val a.
Proof.
  intros Ha. rewrite GetCompact_spec by done. simpl andb. cbv iota. rewrite Z.add_0_r.
  pose proof (val_bound_256 _ Ha) as Hv. destruct (Z.eq_dec (val a) 0) as [E|E].
  { rewrite E. exists 0, (bu_of_u64 0). split_and!; auto with word; done. }
  pose proof (gc_word_fields (val a) ltac:(lia)) as Hf.
  destruct (gc_pair (val a)) as [m s]. destruct Hf as (Hu & _ & _ & Hsg).
  destruct (SetCompact_spec _ Hu) as (t & Et & Hwf & Evt).
  rewrite gc_word_num, Hsg, andb_false_r in * by lia.
  assert (0 < gc_grid (val a)) by (unfold gc_grid; lia).
  pose proof (Z.mod_pos_bound (val a) (gc_grid (val a)) ltac:(lia)).
  pose proof (Z.mod_le (val a) (gc_grid (val a)) ltac:(lia) ltac:(lia)).
  rewrite (proj2 (Z.leb_gt (2^256) _)) in Et by lia. rewrite Z.mod_small in Evt by lia.
  eexists _, t. split_and!; try done; [lia|].
  destruct (gc_grid_small (val a)) as [|E1]; [lia|lia|]. rewrite E1, Z.mod_1_r in Evt. lia.
Qed.

Lemma GetCompact_rounds_down_witness :
  bu_wf (bu_of_u64 0x12345678) /\
  exists c t, GetCompact (bu_of_u64 0x12345678) false = Some c /\ is_u32 c /\
              SetCompact c = (t, false, false) /\ bu_wf t /\ val t <= val (bu_of_u64 0x12345678) /\
              (val (bu_of_u64 0x12345678) - val t) * 2^15 <= val (bu_of_u64 0x12345678).
Proof.
  split; [apply bu_of_u64_wf|]. exact (GetCompact_rounds_down _ (bu_of_u64_wf 0x12345678)).
Defined.

(** On canonical words (a positive mantissa that uses its top 9 bits, no sign
    bit, a size of at least 3 and a value below 2^256) encoding the decoded
    number gives back the same word, so a difficulty survives the round trip. *)
Theorem compact_roundtrip (c : Z) :
  is_u32 c -> canonical c -> GetCompact (fst (fst (SetCompact c))) false = Some c.
Proof.
  intros Hc Hcan. destruct (SetCompact_spec c Hc) as (t & -> & Hwf & Hv). simpl fst.
  rewrite GetCompact_spec by done. simpl andb. cbv iota. rewrite Z.add_0_r, Hv.
  destruct Hcan as (H1 & H2 & H3 & H4). rewrite Z.mod_small by (pose proof (cw_num_nonneg c Hc); lia).
  rewrite gc_word_canonical; done.
Qed.

Lemma compact_roundtrip_witness :
  canonical 0x1d00ffff /\ GetCompact (fst (fst (SetCompact 0x1d00ffff))) false = Some 0x1d00ffff.
Proof.
  assert (H : canonical 0x1d00ffff) by (unfold canonical; vm_compute; repeat split; discriminate).
  split; [exact H|]. apply compact_roundtrip; [unfold is_u32; lia|exact H].
Defined.
