(* ===== verification/Coins.v ===== *)
(** * Coins: the layered view of the coin set
      (src/src/coins.{h,cpp}, CCoinsViewDB of src/src/txdb.cpp)

    A view answers lookups and takes batches of changes. A cache is a view on
    top of another view, so caches stack; reading through a cache fills it and
    the caches below. The class [CoinsView] is the virtual interface of the
    source, [CoinsViewLaws] what every view promises, and the cache discharges
    the laws from those of the view under it. The memory a script takes is an
    argument. *)

From Stdlib Require Import ZArith Lia.
From stdpp Require Import base list numbers option gmap fin_maps.
From S2P Require Import Prelude Arith256 Uint256 Serialize Transaction Script.

(** [Coin()], also the result of [Coin::Clear] *)
Definition coinEmpty : Coin := mkCoin (mkTxOut (-1) []) false 0 false.

(** [CCoinsCacheEntry] *)
Definition DIRTY : Z := 1.
Definition FRESH : Z := 2.
Record CCoinsCacheEntry : Type := mkEntry { ce_coin : Coin; ce_flags : Z }.
Definition is_dirty (e : CCoinsCacheEntry) : bool := negb (Z.land (ce_flags e) DIRTY =? 0).
Definition is_fresh (e : CCoinsCacheEntry) : bool := negb (Z.land (ce_flags e) FRESH =? 0).

Notation CCoinsMap := (gmap COutPoint CCoinsCacheEntry).

(** [CCoinsView]: a lookup, which says whether it found an unspent coin, and a
    batch write, which takes the map of the view above, erases its elements on
    request and says whether it succeeded. Both return the view's new state. *)
Class CoinsView (V : Type) : Type := {
  view_GetCoin : V -> COutPoint -> bool * Coin * V;
  view_GetBestBlock : V -> uint256 * V;
  view_BatchWrite : V -> CCoinsMap -> uint256 -> bool -> outcome (bool * CCoinsMap * V);
}.

(** [Coin::DynamicMemoryUsage]: the heap memory of the script; a cleared coin,
    whose script is shrunk to nothing, has none. *)
Class MemoryUsage : Type := {
  DynamicMemoryUsage : Coin -> Z;
  usage_empty : DynamicMemoryUsage coinEmpty = 0;
}.

(** [CCoinsViewCache] *)
Record CCoinsViewCache (V : Type) : Type := mkCache {
  base : V;
  hashBlock : uint256;
  cacheCoins : CCoinsMap;
  cachedCoinsUsage : Z;
}.
Arguments mkCache {V}.
Arguments base {V}.
Arguments hashBlock {V}.
Arguments cacheCoins {V}.
Arguments cachedCoinsUsage {V}.

Section cache.

Context {V : Type} `{CoinsView V} `{MemoryUsage}.

Implicit Types c : CCoinsViewCache V.

(** [CCoinsViewCache(base)] *)
Definition new_cache (b : V) : CCoinsViewCache V := mkCache b uint256_zero ∅ 0.

(** [FetchCoin]: the entry, if there is one now *)
Definition FetchCoin c (o : COutPoint) : option CCoinsCacheEntry * CCoinsViewCache V :=
  match cacheCoins c !! o with
  | Some e => (Some e, c)
  | None =>
      let '(found, tmp, b) := view_GetCoin (base c) o in
      if negb found then (None, mkCache b (hashBlock c) (cacheCoins c) (cachedCoinsUsage c))
      else
        let e := mkEntry tmp (if IsSpent tmp then FRESH else 0) in
        (Some e, mkCache b (hashBlock c) (<[o := e]> (cacheCoins c)) (u64 (cachedCoinsUsage c + DynamicMemoryUsage tmp)))
  end.

(** [GetCoin] *)
Definition cache_GetCoin c (o : COutPoint) : bool * Coin * CCoinsViewCache V :=
  match FetchCoin c o with
  | (Some e, c) => (negb (IsSpent (ce_coin e)), ce_coin e, c)
  | (None, c) => (false, coinEmpty, c)
  end.

(** [AddCoin] *)
Definition AddCoin c (o : COutPoint) (coin : Coin) (possible_overwrite : bool) : outcome (CCoinsViewCache V) :=
  if IsSpent coin then Abort
  else if IsUnspendable (scriptPubKey (coin_out coin)) then Ret c
  else
    let inserted := bool_decide (cacheCoins c !! o = None) in
    let it := default (mkEntry coinEmpty 0) (cacheCoins c !! o) in
    let usage := if negb inserted then u64 (cachedCoinsUsage c - DynamicMemoryUsage (ce_coin it)) else cachedCoinsUsage c in
    if (negb possible_overwrite && negb (IsSpent (ce_coin it)))%bool then Abort
    else
      let fresh := if negb possible_overwrite then negb (is_dirty it) else false in
      let flags := Z.lor (ce_flags it) (Z.lor DIRTY (if fresh then FRESH else 0)) in
      Ret (mkCache (base c) (hashBlock c) (<[o := mkEntry coin flags]> (cacheCoins c)) (u64 (usage + DynamicMemoryUsage coin))).

(** [EmplaceCoinInternalDANGER] *)
Definition EmplaceCoinInternalDANGER c (o : COutPoint) (coin : Coin) : CCoinsViewCache V :=
  let m := match cacheCoins c !! o with Some _ => cacheCoins c | None => <[o := mkEntry coin DIRTY]> (cacheCoins c) end in
  mkCache (base c) (hashBlock c) m (u64 (cachedCoinsUsage c + DynamicMemoryUsage coin)).

(** [SpendCoin]: whether there was an entry, and the coin moved out of it *)
Definition SpendCoin c (o : COutPoint) : option Coin * CCoinsViewCache V :=
  match FetchCoin c o with
  | (None, c) => (None, c)
  | (Some it, c) =>
      let usage := u64 (cachedCoinsUsage c - DynamicMemoryUsage (ce_coin it)) in
      let m := if is_fresh it then delete o (cacheCoins c)
               else <[o := mkEntry coinEmpty (Z.lor (ce_flags it) DIRTY)]> (cacheCoins c) in
      (Some (ce_coin it), mkCache (base c) (hashBlock c) m usage)
  end.

(** [AccessCoin], [HaveCoin], [HaveCoinInCache] *)
Definition AccessCoin c (o : COutPoint) : Coin * CCoinsViewCache V :=
  match FetchCoin c o with (Some e, c) => (ce_coin e, c) | (None, c) => (coinEmpty, c) end.
Definition HaveCoin c (o : COutPoint) : bool * CCoinsViewCache V :=
  match FetchCoin c o with (Some e, c) => (negb (IsSpent (ce_coin e)), c) | (None, c) => (false, c) end.
Definition HaveCoinInCache c (o : COutPoint) : bool :=
  match cacheCoins c !! o with Some e => negb (IsSpent (ce_coin e)) | None => false end.

(** [GetBestBlock], [SetBestBlock] *)
Definition cache_GetBestBlock c : uint256 * CCoinsViewCache V :=
  if IsNull (hashBlock c) then
    let '(h, b) := view_GetBestBlock (base c) in (h, mkCache b h (cacheCoins c) (cachedCoinsUsage c))
  else (hashBlock c, c).
Definition SetBestBlock c (h : uint256) : CCoinsViewCache V := mkCache (base c) h (cacheCoins c) (cachedCoinsUsage c).

(** The body of the loop of [BatchWrite] on one entry of the child *)
Definition batch_entry c (o : COutPoint) (it : CCoinsCacheEntry) : outcome (CCoinsViewCache V) :=
  if negb (is_dirty it) then Ret c
  else
    match cacheCoins c !! o with
    | None =>
        if (is_fresh it && IsSpent (ce_coin it))%bool then Ret c
        else
          let flags := if is_fresh it then Z.lor DIRTY FRESH else DIRTY in
          Ret (mkCache (base c) (hashBlock c) (<[o := mkEntry (ce_coin it) flags]> (cacheCoins c))
                 (u64 (cachedCoinsUsage c + DynamicMemoryUsage (ce_coin it))))
    | Some us =>
        if (is_fresh it && negb (IsSpent (ce_coin us)))%bool then Abort
        else if (is_fresh us && IsSpent (ce_coin it))%bool then
          Ret (mkCache (base c) (hashBlock c) (delete o (cacheCoins c))
                 (u64 (cachedCoinsUsage c - DynamicMemoryUsage (ce_coin us))))
        else
          Ret (mkCache (base c) (hashBlock c) (<[o := mkEntry (ce_coin it) (Z.lor (ce_flags us) DIRTY)]> (cacheCoins c))
                 (u64 (u64 (cachedCoinsUsage c - DynamicMemoryUsage (ce_coin us)) + DynamicMemoryUsage (ce_coin it))))
    end.

(** The loop; the elements are visited in some order and erased on the way. *)
Fixpoint batch_loop (erase : bool) (l : list (COutPoint * CCoinsCacheEntry)) (m : CCoinsMap) c
    : outcome (CCoinsMap * CCoinsViewCache V) :=
  match l with
  | [] => Ret (m, c)
  | (o, it) :: l' =>
      c ← batch_entry c o it;
      batch_loop erase l' (if erase then delete o m else m) c
  end.

(** [BatchWrite] *)
Definition cache_BatchWrite c (mapCoins : CCoinsMap) (hashBlockIn : uint256) (erase : bool)
    : outcome (bool * CCoinsMap * CCoinsViewCache V) :=
  r ← batch_loop erase (map_to_list mapCoins) mapCoins c;
  Ret (true, r.1, SetBestBlock r.2 hashBlockIn).

(** [Flush], with [ReallocateCache] *)
Definition Flush c : outcome (bool * CCoinsViewCache V) :=
  r ← view_BatchWrite (base c) (cacheCoins c) (hashBlock c) true;
  let '(fOk, m, b) := (r : bool * CCoinsMap * V) in
  if fOk then
    if bool_decide (m = ∅) then Ret (true, mkCache b (hashBlock c) ∅ 0) else Abort
  else Ret (false, mkCache b (hashBlock c) m 0).

(** [Sync]; the usage of the spent coins that are dropped is subtracted one by one. *)
Definition sync_entry (e : CCoinsCacheEntry) : option CCoinsCacheEntry :=
  if IsSpent (ce_coin e) then None else Some (mkEntry (ce_coin e) 0).
Definition sync_usage (m : CCoinsMap) (usage : Z) : Z :=
  foldr (fun kv u => if IsSpent (ce_coin kv.2) then u64 (u - DynamicMemoryUsage (ce_coin kv.2)) else u) usage (map_to_list m).
Definition Sync c : outcome (bool * CCoinsViewCache V) :=
  r ← view_BatchWrite (base c) (cacheCoins c) (hashBlock c) false;
  let '(fOk, m, b) := (r : bool * CCoinsMap * V) in
  Ret (fOk, mkCache b (hashBlock c) (omap sync_entry m) (sync_usage m (cachedCoinsUsage c))).

(** [Uncache] *)
Definition Uncache c (o : COutPoint) : CCoinsViewCache V :=
  match cacheCoins c !! o with
  | Some e =>
      if ce_flags e =? 0
      then mkCache (base c) (hashBlock c) (delete o (cacheCoins c)) (u64 (cachedCoinsUsage c - DynamicMemoryUsage (ce_coin e)))
      else c
  | None => c
  end.

(** [HaveInputs] *)
Fixpoint have_inputs_loop (ins : list CTxIn) c : bool * CCoinsViewCache V :=
  match ins with
  | [] => (true, c)
  | i :: ins' => let '(have, c) := HaveCoin c (prevout i) in if negb have then (false, c) else have_inputs_loop ins' c
  end.
Definition cache_HaveInputs c (tx : CTransaction) : bool * CCoinsViewCache V :=
  if negb (IsCoinBase tx) then have_inputs_loop (vin tx) c else (true, c).

(** [GetValueIn] *)
Fixpoint value_in_loop (ins : list CTxIn) (nResult : Z) c : Z * CCoinsViewCache V :=
  match ins with
  | [] => (nResult, c)
  | i :: ins' => let '(coin, c) := AccessCoin c (prevout i) in value_in_loop ins' (nResult + nValue (coin_out coin)) c
  end.
Definition GetValueIn c (tx : CTransaction) : Z * CCoinsViewCache V :=
  if IsCoinBase tx then (0, c) else value_in_loop (vin tx) 0 c.

(** [AddCoins], given the hash of the transaction *)
Fixpoint add_coins_loop (txid : uint256) (outs : list CTxOut) (i : Z) (nHeight : Z) (fCoinbase fCoinstake check_for_overwrite : bool) c
    : outcome (CCoinsViewCache V) :=
  match outs with
  | [] => Ret c
  | out :: outs' =>
      let o := mkOutPoint txid (u32 i) in
      let '(overwrite, c) := if check_for_overwrite then HaveCoin c o else (fCoinbase, c) in
      c ← AddCoin c o (mkCoin out fCoinbase (nHeight mod 2^31) fCoinstake) overwrite;
      add_coins_loop txid outs' (i + 1) nHeight fCoinbase fCoinstake check_for_overwrite c
  end.
Definition AddCoins c (txid : uint256) (tx : CTransaction) (nHeight : Z) (check_for_overwrite : bool) : outcome (CCoinsViewCache V) :=
  add_coins_loop txid (vout tx) 0 nHeight (IsCoinBase tx) (IsCoinStake tx) check_for_overwrite c.

(** [SanityCheck] *)
Definition attr (e : CCoinsCacheEntry) : Z :=
  (if is_dirty e then 1 else 0) + (if is_fresh e then 2 else 0) + (if IsSpent (ce_coin e) then 4 else 0).
Definition recomputed_usage (m : CCoinsMap) : Z :=
  foldr (fun kv u => u64 (u + DynamicMemoryUsage (ce_coin kv.2))) 0 (map_to_list m).
Definition SanityCheck c : bool :=
  (forallb (fun kv => negb (attr kv.2 =? 2) && negb (attr kv.2 =? 4) && negb (attr kv.2 =? 7))%bool (map_to_list (cacheCoins c)) &&
   (recomputed_usage (cacheCoins c) =? cachedCoinsUsage c))%bool.

(** A cache is a view. *)
#[export] Instance cache_view : CoinsView (CCoinsViewCache V) := {
  view_GetCoin := cache_GetCoin;
  view_GetBestBlock := cache_GetBestBlock;
  view_BatchWrite := cache_BatchWrite;
}.

End cache.

(** ** What a view promises *)

(** The coin an entry shows *)
Definition shown (e : CCoinsCacheEntry) : option Coin := if IsSpent (ce_coin e) then None else Some (ce_coin e).

(** A coin set after a batch: the dirty entries replace what was there. *)
Definition written (u : COutPoint -> option Coin) (m : CCoinsMap) (o : COutPoint) : option Coin :=
  match m !! o with Some e => if is_dirty e then shown e else u o | None => u o end.

(** FRESH entries are not in the coin set below. *)
Definition batch_ok (u : COutPoint -> option Coin) (m : CCoinsMap) : Prop :=
  forall o e, m !! o = Some e -> is_fresh e = true -> u o = None.

Class CoinsViewLaws (V : Type) `{CoinsView V} : Type := {
  (** the coins the view holds, the block they belong to, its invariant *)
  utxo : V -> COutPoint -> option Coin;
  best : V -> uint256;
  view_ok : V -> Prop;
  utxo_unspent v o coin : view_ok v -> utxo v o = Some coin -> IsSpent coin = false;
  (** a lookup answers from the coin set and changes nothing that can be seen *)
  get_coin_law v o : view_ok v -> exists found coin v', view_GetCoin v o = (found, coin, v') /\
    utxo v o = (if found then Some coin else None) /\
    view_ok v' /\ (forall p, utxo v' p = utxo v p) /\ best v' = best v;
  best_law v : view_ok v -> exists v', view_GetBestBlock v = (best v, v') /\
    view_ok v' /\ (forall p, utxo v' p = utxo v p) /\ best v' = best v;
  (** a batch is written and, on request, the map emptied *)
  batch_law v m h erase : view_ok v -> IsNull h = false -> batch_ok (utxo v) m ->
    exists v', view_BatchWrite v m h erase = Ret (true, (if erase then ∅ else m), v') /\
      view_ok v' /\ (forall p, utxo v' p = written (utxo v) m p) /\ best v' = h;
}.

Lemma is_dirty_testbit e : is_dirty e = Z.testbit (ce_flags e) 0.
Proof.
  unfold is_dirty, DIRTY. change 1 with (Z.ones 1). rewrite Z.land_ones by lia. change (2^1) with 2. rewrite <- Z.bit0_mod.
  by destruct (Z.testbit (ce_flags e) 0).
Qed.

Lemma is_fresh_testbit e : is_fresh e = Z.testbit (ce_flags e) 1.
Proof.
  unfold is_fresh, FRESH. destruct (Z.eqb_spec (Z.land (ce_flags e) 2) 0) as [E|E]; cbn [negb].
  - pose proof (Z.land_spec (ce_flags e) 2 1) as T. rewrite E, Z.bits_0 in T. change (Z.testbit 2 1) with true in T.
    by rewrite andb_true_r in T.
  - destruct (Z.testbit (ce_flags e) 1) eqn:T; [done|]. destruct E. apply Z.bits_inj'. intros n Hn.
    rewrite Z.land_spec, Z.bits_0. destruct (decide (n = 1)) as [->|Hne]; [by rewrite T|].
    replace (Z.testbit 2 n) with false; [apply andb_false_r|]. symmetry. change 2 with (2^1). by apply Z.pow2_bits_false.
Qed.

Lemma flags_dirty coin f : is_dirty (mkEntry coin (Z.lor f DIRTY)) = true.
Proof. rewrite is_dirty_testbit. cbn [ce_flags]. rewrite Z.lor_spec. by rewrite orb_true_r. Qed.

Lemma flags_dirty_fresh coin f (b : bool) : let e := mkEntry coin (Z.lor f (Z.lor DIRTY (if b then FRESH else 0))) in
  is_dirty e = true /\ is_fresh e = (Z.testbit f 1 || b)%bool.
Proof.
  cbv zeta. rewrite is_dirty_testbit, is_fresh_testbit. cbn [ce_flags]. rewrite !Z.lor_spec.
  destruct b; split; try done; change (Z.testbit DIRTY 0) with true; by rewrite ?orb_true_r, ?orb_false_r.
Qed.

Lemma flags_keep_fresh coin f : is_fresh (mkEntry coin (Z.lor f DIRTY)) = Z.testbit f 1.
Proof. rewrite is_fresh_testbit. cbn [ce_flags]. rewrite Z.lor_spec. by rewrite orb_false_r. Qed.

(** ** The cache keeps the promise *)

Section cache_laws.

Context {V : Type} `{CoinsView V} `{!CoinsViewLaws V} `{MemoryUsage}.

Implicit Types c : CCoinsViewCache V.

(** The memory of the coins of a map *)
Definition total (m : CCoinsMap) : Z := sum_of (fun kv => DynamicMemoryUsage (ce_coin kv.2)) (map_to_list m).

Lemma total_insert m o e : m !! o = None -> total (<[o := e]> m) = DynamicMemoryUsage (ce_coin e) + total m.
Proof. intros Hm. unfold total. rewrite (sum_of_perm _ _ _ (map_to_list_insert m o e Hm)). done. Qed.

Lemma total_delete m o e : m !! o = Some e -> total m = DynamicMemoryUsage (ce_coin e) + total (delete o m).
Proof. intros Hm. rewrite <- (total_insert (delete o m) o e) by apply lookup_delete_eq. by rewrite insert_delete_id. Qed.

Lemma total_replace m o e e' : m !! o = Some e ->
  total (<[o := e']> m) = total m - DynamicMemoryUsage (ce_coin e) + DynamicMemoryUsage (ce_coin e').
Proof.
  intros Hm. rewrite <- insert_delete_eq, total_insert by apply lookup_delete_eq. rewrite (total_delete m o e Hm). lia.
Qed.

Lemma recomputed_usage_eq m : recomputed_usage m = u64 (total m).
Proof.
  unfold recomputed_usage, total, u64. induction (map_to_list m) as [|[o e] l IH]; [done|].
  cbn [foldr snd]. rewrite sum_of_cons, IH. cbn [snd]. rewrite Zplus_mod_idemp_l. f_equal. lia.
Qed.

(** What an entry may claim about the view below *)
Definition entry_ok (u : option Coin) (e : CCoinsCacheEntry) : Prop :=
  (is_fresh e = true -> u = None) /\ (is_dirty e = false -> shown e = u) /\
  attr e <> 2 /\ attr e <> 4 /\ attr e <> 7.

Record cache_ok c : Prop := {
  co_base : view_ok (base c);
  co_entries : forall o e, cacheCoins c !! o = Some e -> entry_ok (utxo (base c) o) e;
  co_usage : cachedCoinsUsage c = u64 (total (cacheCoins c));
}.

Definition cache_utxo c (o : COutPoint) : option Coin :=
  match cacheCoins c !! o with Some e => shown e | None => utxo (base c) o end.
Definition cache_best c : uint256 := if IsNull (hashBlock c) then best (base c) else hashBlock c.

Lemma new_cache_ok b : view_ok b -> cache_ok (new_cache b).
Proof. intros Hb. split; [done|cbn; intros o e; by rewrite lookup_empty|done]. Qed.

Lemma cache_ok_sanity c : cache_ok c -> SanityCheck c = true.
Proof.
  intros [_ He Hu]. unfold SanityCheck. rewrite recomputed_usage_eq, Hu, Z.eqb_refl, andb_true_r.
  apply forallb_forall. intros [o e] Hin%list_elem_of_In. apply elem_of_map_to_list in Hin. cbn [snd].
  destruct (He o e Hin) as (_ & _ & H2 & H4 & H7). by rewrite !(proj2 (Z.eqb_neq _ _)).
Qed.

(** A change of the view below that cannot be seen *)
Lemma cache_ok_rebase c b m us : cache_ok c -> view_ok b -> (forall p, utxo b p = utxo (base c) p) ->
  (forall o e, m !! o = Some e -> cacheCoins c !! o = Some e \/ entry_ok (utxo (base c) o) e) ->
  us = u64 (total m) -> cache_ok (mkCache b (hashBlock c) m us).
Proof.
  intros [Hb He Hu] Hvb Hsame Hm Hus. split; cbn [base cacheCoins cachedCoinsUsage]; [done| |done].
  intros o e Ho. rewrite Hsame. destruct (Hm o e Ho) as [Hc|]; [by apply He|done].
Qed.

Lemma attr_clean coin : IsSpent coin = false -> attr (mkEntry coin 0) = 0.
Proof. intros E. unfold attr. cbn. by rewrite E. Qed.

Lemma shown_unspent coin f : IsSpent coin = false -> shown (mkEntry coin f) = Some coin.
Proof. intros E. unfold shown. cbn. by rewrite E. Qed.

Lemma FetchCoin_spec c o : cache_ok c -> exists e c', FetchCoin c o = (e, c') /\ cache_ok c' /\
  hashBlock c' = hashBlock c /\ (forall p, cache_utxo c' p = cache_utxo c p) /\ best (base c') = best (base c) /\
  cacheCoins c' !! o = e /\ (e ≫= shown) = cache_utxo c o /\ (e = None -> cache_utxo c o = None).
Proof.
  intros Hok. unfold FetchCoin. destruct (cacheCoins c !! o) as [e|] eqn:Ho.
  { exists (Some e), c. split_and!; try done. unfold cache_utxo. by rewrite Ho. }
  destruct (get_coin_law (base c) o (co_base c Hok)) as (found & coin & b & E & Hu & Hvb & Hsame & Hbest). rewrite E.
  destruct found; cbn [negb].
  - pose proof (utxo_unspent _ _ _ (co_base c Hok) Hu) as Hsp. rewrite Hsp.
    eexists _, _. split; [reflexivity|]. split_and!; cbn [hashBlock base cacheCoins]; try done.
    + apply cache_ok_rebase; try done.
      * intros p e [[<- <-]|[_ Hp]]%lookup_insert_Some; [|by left]. right. unfold entry_ok. rewrite attr_clean by done.
        split_and!; try done. intros _. rewrite Hu. by apply shown_unspent.
      * rewrite total_insert, (co_usage c Hok) by done. unfold u64. cbn [ce_coin]. rewrite Zplus_mod_idemp_l. f_equal. lia.
    + intros p. unfold cache_utxo. cbn [cacheCoins base]. destruct (decide (o = p)) as [<-|Hne].
      * rewrite lookup_insert_eq, Ho, Hu. by apply shown_unspent.
      * by rewrite lookup_insert_ne, Hsame by done.
    + apply lookup_insert_eq.
    + unfold cache_utxo. rewrite Ho, Hu. cbn. by apply shown_unspent.
  - eexists _, _. split; [reflexivity|]. split_and!; cbn [hashBlock base cacheCoins]; try done.
    + apply cache_ok_rebase; try done; [intros; by left|apply co_usage, Hok].
    + intros p. unfold cache_utxo. cbn [cacheCoins base]. by rewrite Hsame.
    + unfold cache_utxo. by rewrite Ho, Hu.
    + intros _. unfold cache_utxo. by rewrite Ho, Hu.
Qed.

(** Writing one entry, and dropping one *)
Lemma cache_ok_insert c o e us : cache_ok c -> entry_ok (utxo (base c) o) e ->
  us = u64 (total (<[o := e]> (cacheCoins c))) -> cache_ok (mkCache (base c) (hashBlock c) (<[o := e]> (cacheCoins c)) us).
Proof.
  intros Hok He Hus. apply cache_ok_rebase; try done; [apply co_base, Hok|].
  intros p e' [[<- <-]|[_ Hp]]%lookup_insert_Some; [by right|by left].
Qed.

Lemma cache_ok_delete c o e : cache_ok c -> cacheCoins c !! o = Some e ->
  cache_ok (mkCache (base c) (hashBlock c) (delete o (cacheCoins c)) (u64 (cachedCoinsUsage c - DynamicMemoryUsage (ce_coin e)))).
Proof.
  intros Hok Ho. apply cache_ok_rebase; try done; [apply co_base, Hok| |].
  - intros p e' [_ Hp]%lookup_delete_Some. by left.
  - rewrite (co_usage c Hok), (total_delete _ o e Ho). unfold u64. rewrite Zminus_mod_idemp_l. f_equal. lia.
Qed.

(** The coin set with one outpoint changed *)
Definition set_coin (u : COutPoint -> option Coin) (o : COutPoint) (x : option Coin) (p : COutPoint) : option Coin :=
  if decide (p = o) then x else u p.

Lemma cache_utxo_insert c o e us p :
  cache_utxo (mkCache (base c) (hashBlock c) (<[o := e]> (cacheCoins c)) us) p = set_coin (cache_utxo c) o (shown e) p.
Proof.
  unfold cache_utxo, set_coin. cbn [cacheCoins base]. destruct (decide (p = o)) as [->|Hne]; [by rewrite lookup_insert_eq|].
  by rewrite lookup_insert_ne by done.
Qed.

Lemma cache_utxo_delete c o us p :
  cache_utxo (mkCache (base c) (hashBlock c) (delete o (cacheCoins c)) us) p = set_coin (cache_utxo c) o (utxo (base c) o) p.
Proof.
  unfold cache_utxo, set_coin. cbn [cacheCoins base]. destruct (decide (p = o)) as [->|Hne]; [by rewrite lookup_delete_eq|].
  by rewrite lookup_delete_ne by done.
Qed.

Lemma usage_replace c o e e' : cache_ok c -> cacheCoins c !! o = Some e ->
  u64 (u64 (cachedCoinsUsage c - DynamicMemoryUsage (ce_coin e)) + DynamicMemoryUsage (ce_coin e')) =
  u64 (total (<[o := e']> (cacheCoins c))).
Proof.
  intros Hok Ho. rewrite (total_replace _ o e e' Ho), (co_usage c Hok). unfold u64.
  rewrite Zplus_mod_idemp_l, <- Zplus_mod_idemp_l, Zminus_mod_idemp_l, Zplus_mod_idemp_l. done.
Qed.

Lemma usage_add c o e : cache_ok c -> cacheCoins c !! o = None ->
  u64 (cachedCoinsUsage c + DynamicMemoryUsage (ce_coin e)) = u64 (total (<[o := e]> (cacheCoins c))).
Proof.
  intros Hok Ho. rewrite total_insert, (co_usage c Hok) by done. unfold u64. rewrite Zplus_mod_idemp_l. f_equal. lia.
Qed.

(** A coin moved out, unless it was spent *)
Definition moved (r : option Coin) : option Coin := coin ← r; if IsSpent coin then None else Some coin.

Lemma SpendCoin_spec c o : cache_ok c -> exists r c', SpendCoin c o = (r, c') /\ cache_ok c' /\
  hashBlock c' = hashBlock c /\ moved r = cache_utxo c o /\ (forall p, cache_utxo c' p = set_coin (cache_utxo c) o None p).
Proof.
  intros Hok. unfold SpendCoin.
  destruct (FetchCoin_spec c o Hok) as (e & c1 & E & Hok1 & Hh & Hsame & Hbest & Hin & Hshow & Hnone). rewrite E.
  destruct e as [it|]; cycle 1.
  { eexists _, _. split; [reflexivity|]. split_and!; try done. intros p. unfold set_coin. rewrite Hsame.
    case_decide; [subst; auto|done]. }
  destruct (co_entries c1 Hok1 o it Hin) as (Hf & Hd & H2 & H4 & H7).
  eexists _, _. split; [reflexivity|]. destruct (is_fresh it) eqn:Hfr.
  - split_and!; [by apply cache_ok_delete|done|done|].
    intros p. rewrite cache_utxo_delete, (Hf eq_refl). unfold set_coin. by rewrite Hsame.
  - split_and!; [|done|done|].
    + apply cache_ok_insert; [done| |].
      * unfold entry_ok, attr. rewrite flags_dirty, flags_keep_fresh, <- is_fresh_testbit, Hfr. cbn. split_and!; done.
      * rewrite <- (usage_replace c1 o it) by done. cbn [ce_coin]. rewrite usage_empty. unfold u64.
        by rewrite Z.add_0_r, Zmod_mod.
    + intros p. rewrite cache_utxo_insert. unfold set_coin. by rewrite Hsame.
Qed.

Lemma AddCoin_spec c o coin over : cache_ok c -> IsSpent coin = false -> (over = true \/ cache_utxo c o = None) ->
  exists c', AddCoin c o coin over = Ret c' /\ cache_ok c' /\ hashBlock c' = hashBlock c /\
    (forall p, cache_utxo c' p = if IsUnspendable (scriptPubKey (coin_out coin)) then cache_utxo c p
                                else set_coin (cache_utxo c) o (Some coin) p).
Proof.
  intros Hok Hsp Hov. unfold AddCoin. rewrite Hsp. destruct (IsUnspendable _); [by exists c|].
  set (it := default (mkEntry coinEmpty 0) (cacheCoins c !! o)).
  assert (Hit : (cacheCoins c !! o = None /\ it = mkEntry coinEmpty 0) \/ cacheCoins c !! o = Some it)
    by (unfold it; destruct (cacheCoins c !! o); [by right|by left]).
  assert (Hnew : over = true \/ utxo (base c) o = None \/ is_dirty it = true).
  { destruct Hov as [|Hn]; [by left|]. right. unfold cache_utxo in Hn. destruct Hit as [[Hc _]|Hc]; rewrite Hc in Hn; [by left|].
    destruct (is_dirty it) eqn:Hd; [by right|left]. by rewrite <- (proj1 (proj2 (co_entries c Hok o it Hc)) Hd). }
  assert ((negb over && negb (IsSpent (ce_coin it)))%bool = false) as ->.
  { destruct Hov as [->|Hn]; [done|]. unfold cache_utxo in Hn. destruct Hit as [[_ ->]|Hc]; [by rewrite andb_false_r|].
    rewrite Hc in Hn. unfold shown in Hn. destruct (IsSpent (ce_coin it)); [by rewrite andb_false_r|done]. }
  set (fresh := if negb over then negb (is_dirty it) else false).
  destruct (flags_dirty_fresh coin (ce_flags it) fresh) as [Hd Hf]. cbv zeta in Hd, Hf.
  set (e' := mkEntry coin _) in *.
  eexists. split; [reflexivity|]. split; [|split; [done|]].
  - apply cache_ok_insert; [done| |].
    + unfold entry_ok, attr. rewrite Hd, Hf. cbn [ce_coin e']. rewrite Hsp. split_and!; [|done|by destruct (_ || _)%bool..].
      intros [Hb|Hb]%orb_true_iff.
      * destruct Hit as [[_ E]|Hc]; [by rewrite E in Hb|]. apply (co_entries c Hok o it Hc). by rewrite is_fresh_testbit.
      * unfold fresh in Hb. destruct over; [done|]. destruct Hnew as [|[|Hdi]]; [done|done|]. by rewrite Hdi in Hb.
    + destruct Hit as [[Hc _]|Hc]; rewrite Hc.
      * rewrite bool_decide_eq_true_2 by done. cbn [negb]. by apply (usage_add c o e').
      * rewrite bool_decide_eq_false_2 by done. cbn [negb]. by apply (usage_replace c o it e').
  - intros p. rewrite cache_utxo_insert. unfold e'. by rewrite shown_unspent.
Qed.

Lemma Uncache_spec c o : cache_ok c -> cache_ok (Uncache c o) /\ hashBlock (Uncache c o) = hashBlock c /\
  (forall p, cache_utxo (Uncache c o) p = cache_utxo c p).
Proof.
  intros Hok. unfold Uncache. destruct (cacheCoins c !! o) as [e|] eqn:Ho; [|done].
  destruct (Z.eqb_spec (ce_flags e) 0) as [Hz|]; [|done].
  split_and!; [by apply cache_ok_delete|done|]. intros p. rewrite cache_utxo_delete. unfold set_coin.
  destruct (decide (p = o)) as [->|]; [|done]. unfold cache_utxo. rewrite Ho. symmetry.
  apply (co_entries c Hok o e Ho). by rewrite is_dirty_testbit, Hz, Z.bits_0.
Qed.

(** One entry of the child written to the parent *)
Lemma batch_entry_spec c o it : cache_ok c -> (is_fresh it = true -> cache_utxo c o = None) ->
  exists c', batch_entry c o it = Ret c' /\ cache_ok c' /\ base c' = base c /\ hashBlock c' = hashBlock c /\
    (forall p, cache_utxo c' p = if is_dirty it then set_coin (cache_utxo c) o (shown it) p else cache_utxo c p).
Proof.
  intros Hok Hfresh. unfold batch_entry. destruct (is_dirty it); cbn [negb]; [|by exists c].
  assert (Hutxo : cache_utxo c o = match cacheCoins c !! o with Some e => shown e | None => utxo (base c) o end) by done.
  destruct (cacheCoins c !! o) as [us|] eqn:Ho.
  - destruct (co_entries c Hok o us Ho) as (Hf & Hd & H2 & H4 & H7).
    assert ((is_fresh it && negb (IsSpent (ce_coin us)))%bool = false) as ->.
    { destruct (is_fresh it); [|done]. specialize (Hfresh eq_refl). rewrite Hutxo in Hfresh. unfold shown in Hfresh.
      by destruct (IsSpent (ce_coin us)). }
    destruct (is_fresh us && IsSpent (ce_coin it))%bool eqn:Hdel.
    + apply andb_true_iff in Hdel as [Hfu Hsi]. eexists. split; [reflexivity|]. split_and!; [by apply cache_ok_delete|done|done|].
      intros p. rewrite cache_utxo_delete, Hf by done. unfold shown. by rewrite Hsi.
    + eexists. split; [reflexivity|]. split_and!; try done.
      * apply cache_ok_insert; [done| |by apply (usage_replace c o us (mkEntry (ce_coin it) _))].
        unfold entry_ok, attr. rewrite flags_dirty, flags_keep_fresh, <- is_fresh_testbit. cbn [ce_coin].
        split_and!; [done|done|..]; destruct (is_fresh us), (IsSpent (ce_coin it)); done.
      * intros p. by rewrite cache_utxo_insert.
  - destruct (is_fresh it && IsSpent (ce_coin it))%bool eqn:Hdrop.
    + apply andb_true_iff in Hdrop as [Hfi Hsi]. exists c. split_and!; try done. intros p. unfold set_coin. case_decide as Hp; [|done]. subst p.
      rewrite Hfresh by done. unfold shown. by rewrite Hsi.
    + eexists. split; [reflexivity|]. split_and!; try done.
      * apply cache_ok_insert; [done| |by apply (usage_add c o (mkEntry (ce_coin it) _))].
        unfold entry_ok, attr. destruct (is_fresh it); cbn [andb] in Hdrop.
        -- cbn [ce_coin]. rewrite Hdrop. split_and!; try done. intros _. rewrite <- Hutxo. by apply Hfresh.
        -- cbn [ce_coin]. by destruct (IsSpent (ce_coin it)).
      * intros p. by rewrite cache_utxo_insert.
Qed.

Lemma batch_loop_spec erase : forall l m c, NoDup l.*1 -> cache_ok c ->
  (forall o e, (o, e) ∈ l -> is_fresh e = true -> cache_utxo c o = None) ->
  exists c', batch_loop erase l m c = Ret (if erase then foldl (fun m o => delete o m) m l.*1 else m, c') /\ cache_ok c' /\
    base c' = base c /\
    (forall p, cache_utxo c' p = match (list_to_map l : CCoinsMap) !! p with
                                 | Some e => if is_dirty e then shown e else cache_utxo c p
                                 | None => cache_utxo c p end).
Proof.
  induction l as [|[o it] l IH]; intros m c Hnd Hok Hfr; cbn [batch_loop].
  { exists c. split; [by destruct erase|]. done. }
  cbn [fmap list_fmap] in Hnd. apply NoDup_cons in Hnd as [Hni Hnd].
  destruct (batch_entry_spec c o it Hok) as (c1 & E & Hok1 & Hb & Hh & Hu1); [apply Hfr; by left|].
  rewrite E. cbn [mbind outcome_bind].
  destruct (IH (if erase then delete o m else m) c1 Hnd Hok1) as (c' & E' & Hok' & Hb' & Hu').
  { intros p e Hpe Hf. rewrite Hu1. assert (p <> o) as Hne by (intros ->; apply Hni, list_elem_of_fmap; by exists (o, e)).
    unfold set_coin. rewrite decide_False by done. replace (if is_dirty it then _ else _) with (cache_utxo c p) by (by destruct (is_dirty it)).
    apply (Hfr p e); [by right|done]. }
  exists c'. split; [rewrite E'; cbn [fmap list_fmap foldl fst]; by destruct erase|]. split_and!; [done|congruence|].
  intros p. rewrite Hu'. cbn [list_to_map foldr]. change (foldr _ _ l) with (list_to_map l : CCoinsMap). destruct (decide (p = o)) as [->|Hne].
  - cbn. rewrite lookup_insert_eq. rewrite (not_elem_of_list_to_map_1 l o) by done. rewrite Hu1. unfold set_coin. by rewrite decide_True.
  - cbn. rewrite lookup_insert_ne by done. rewrite Hu1. unfold set_coin. rewrite decide_False by done. by destruct (is_dirty it).
Qed.

Lemma foldl_delete_lookup (ks : list COutPoint) (m : CCoinsMap) o :
  foldl (fun m o => delete o m) m ks !! o = if decide (o ∈ ks) then None else m !! o.
Proof.
  revert m. induction ks as [|k ks IH]; intros m; cbn [foldl]; [done|]. rewrite IH.
  destruct (decide (o ∈ ks)); [by rewrite decide_True by (by right)|].
  destruct (decide (o = k)) as [->|Hne]; [rewrite decide_True by (by left); apply lookup_delete_eq|].
  rewrite decide_False by (rewrite elem_of_cons; tauto). by rewrite lookup_delete_ne by done.
Qed.

Lemma erase_all (m : CCoinsMap) : foldl (fun m o => delete o m) m (map_to_list m).*1 = ∅.
Proof.
  apply map_empty. intros o. rewrite foldl_delete_lookup. case_decide as Ho; [done|].
  destruct (m !! o) as [e|] eqn:E; [|done]. destruct Ho. apply list_elem_of_fmap. exists (o, e). split; [done|]. by apply elem_of_map_to_list.
Qed.

Lemma cache_unspent c o coin : cache_ok c -> cache_utxo c o = Some coin -> IsSpent coin = false.
Proof.
  intros Hok. unfold cache_utxo. destruct (cacheCoins c !! o) as [e|].
  - unfold shown. destruct (IsSpent (ce_coin e)) eqn:E; [done|]. by intros [= <-].
  - intros Hu. by eapply utxo_unspent; [apply co_base|].
Qed.

Lemma cache_get_coin c o : cache_ok c -> exists found coin c', cache_GetCoin c o = (found, coin, c') /\
  cache_utxo c o = (if found then Some coin else None) /\
  cache_ok c' /\ (forall p, cache_utxo c' p = cache_utxo c p) /\ cache_best c' = cache_best c.
Proof.
  intros Hok. unfold cache_GetCoin.
  destruct (FetchCoin_spec c o Hok) as (e & c1 & E & Hok1 & Hh & Hsame & Hbest & Hin & Hshow & Hnone). rewrite E.
  assert (cache_best c1 = cache_best c) as Hcb by (unfold cache_best; by rewrite Hh, Hbest).
  destruct e as [e|]; eexists _, _, _; (split; [reflexivity|]); (split; [|done]); [|by apply Hnone].
  rewrite <- Hshow. cbn. unfold shown. by destruct (IsSpent (ce_coin e)).
Qed.

Lemma cache_get_best c : cache_ok c -> exists c', cache_GetBestBlock c = (cache_best c, c') /\
  cache_ok c' /\ (forall p, cache_utxo c' p = cache_utxo c p) /\ cache_best c' = cache_best c.
Proof.
  intros Hok. unfold cache_GetBestBlock, cache_best. destruct (IsNull (hashBlock c)) eqn:En.
  - destruct (best_law (base c) (co_base c Hok)) as (b & E & Hvb & Hsame & Hbest). rewrite E.
    eexists. split; [reflexivity|]. split_and!; cbn [hashBlock base].
    + apply (cache_ok_rebase (SetBestBlock c (best (base c)))); try done.
      * destruct Hok as [Hb He Hu]. by split.
      * intros; by left.
      * apply co_usage, Hok.
    + intros p. unfold cache_utxo. cbn [cacheCoins base]. by rewrite Hsame.
    + rewrite Hbest. destruct (IsNull (best (base c))); done.
  - exists c. by rewrite En.
Qed.

Lemma cache_batch c m h erase : cache_ok c -> IsNull h = false -> batch_ok (cache_utxo c) m ->
  exists c', cache_BatchWrite c m h erase = Ret (true, (if erase then ∅ else m), c') /\
    cache_ok c' /\ (forall p, cache_utxo c' p = written (cache_utxo c) m p) /\ cache_best c' = h.
Proof.
  intros Hok Hh Hb. unfold cache_BatchWrite.
  destruct (batch_loop_spec erase (map_to_list m) m c) as (c1 & E & [Hvb He Hu] & Hbase & Hw); [apply NoDup_fst_map_to_list|done| |].
  { intros o e Ho. apply Hb. by apply elem_of_map_to_list. }
  rewrite E. cbn [mbind outcome_bind fst snd]. rewrite erase_all. eexists. split; [reflexivity|]. split_and!; [by split| |].
  - intros p. change (cache_utxo (SetBestBlock c1 h) p) with (cache_utxo c1 p). rewrite Hw, list_to_map_to_list. done.
  - unfold cache_best. cbn [SetBestBlock hashBlock]. by rewrite Hh.
Qed.

(** A cache on a view that keeps the laws keeps them. *)
#[export] Instance cache_laws : CoinsViewLaws (CCoinsViewCache V) := {|
  utxo := cache_utxo;
  best := cache_best;
  view_ok := cache_ok;
  utxo_unspent := cache_unspent;
  get_coin_law := cache_get_coin;
  best_law := cache_get_best;
  batch_law := cache_batch;
|}.

Lemma cache_batch_ok c : cache_ok c -> batch_ok (utxo (base c)) (cacheCoins c).
Proof. intros Hok o e Ho Hf. by apply (co_entries c Hok o e Ho). Qed.

Lemma cache_written c o : cache_ok c -> written (utxo (base c)) (cacheCoins c) o = cache_utxo c o.
Proof.
  intros Hok. unfold written, cache_utxo. destruct (cacheCoins c !! o) as [e|] eqn:Ho; [|done].
  destruct (is_dirty e) eqn:Hd; [done|]. symmetry. by apply (co_entries c Hok o e Ho).
Qed.

(** Flushing moves the whole coin set to the view below and empties the cache. *)
Lemma Flush_spec c : cache_ok c -> IsNull (hashBlock c) = false ->
  exists c', Flush c = Ret (true, c') /\ cache_ok c' /\ cacheCoins c' = ∅ /\ hashBlock c' = hashBlock c /\
    (forall p, utxo (base c') p = cache_utxo c p) /\ best (base c') = hashBlock c /\
    (forall p, cache_utxo c' p = cache_utxo c p).
Proof.
  intros Hok Hh. unfold Flush.
  destruct (batch_law (base c) (cacheCoins c) (hashBlock c) true (co_base c Hok) Hh (cache_batch_ok c Hok))
    as (b & E & Hvb & Hw & Hbest). rewrite E. cbn [mbind outcome_bind].
  eexists. split; [by rewrite bool_decide_eq_true_2|]. split_and!; cbn [cacheCoins hashBlock base]; try done.
  - intros p. rewrite Hw. by apply cache_written.
  - intros p. rewrite <- (cache_written c p Hok), <- Hw. unfold cache_utxo. cbn [cacheCoins base]. by rewrite lookup_empty.
Qed.

(** *** Sync *)

Definition spent_usage (l : list (COutPoint * CCoinsCacheEntry)) : Z :=
  sum_of (fun kv => if IsSpent (ce_coin kv.2) then DynamicMemoryUsage (ce_coin kv.2) else 0) l.

Lemma sync_usage_eq m us : u64 us = us -> sync_usage m us = u64 (us - spent_usage (map_to_list m)).
Proof.
  intros Hus. unfold sync_usage. generalize (map_to_list m) as l. induction l as [|[o e] l IH]; cbn [foldr snd].
  - unfold spent_usage. rewrite sum_of_nil, Z.sub_0_r. done.
  - unfold spent_usage in *. rewrite sum_of_cons. cbn [snd]. destruct (IsSpent (ce_coin e)); rewrite IH; [|f_equal; lia].
    unfold u64. rewrite Zminus_mod_idemp_l. f_equal. lia.
Qed.

Lemma total_sync (m : CCoinsMap) : total (omap sync_entry m) = total m - spent_usage (map_to_list m).
Proof.
  induction m as [|o e m Ho IH] using map_ind; [done|].
  assert (spent_usage (map_to_list (<[o := e]> m)) =
    (if IsSpent (ce_coin e) then DynamicMemoryUsage (ce_coin e) else 0) + spent_usage (map_to_list m)) as ->.
  { unfold spent_usage. by rewrite (sum_of_perm _ _ _ (map_to_list_insert m o e Ho)). }
  rewrite total_insert by done. destruct (sync_entry e) as [e'|] eqn:E; unfold sync_entry in E;
    destruct (IsSpent (ce_coin e)) eqn:Es; try done.
  - injection E as <-. rewrite (omap_insert_Some sync_entry m o e (mkEntry (ce_coin e) 0)) by (unfold sync_entry; by rewrite Es).
    rewrite total_insert by (by rewrite lookup_omap, Ho). cbn [ce_coin]. lia.
  - rewrite omap_insert_None by (unfold sync_entry; by rewrite Es).
    rewrite delete_id by (by rewrite lookup_omap, Ho). lia.
Qed.

(** After [Sync] the view below has the whole coin set, and the cache keeps what is unspent. *)
Lemma Sync_spec c : cache_ok c -> IsNull (hashBlock c) = false ->
  exists c', Sync c = Ret (true, c') /\ cache_ok c' /\ hashBlock c' = hashBlock c /\
    (forall p, utxo (base c') p = cache_utxo c p) /\ best (base c') = hashBlock c /\
    (forall p, cache_utxo c' p = cache_utxo c p).
Proof.
  intros Hok Hh. unfold Sync.
  destruct (batch_law (base c) (cacheCoins c) (hashBlock c) false (co_base c Hok) Hh (cache_batch_ok c Hok))
    as (b & E & Hvb & Hw & Hbest). rewrite E. cbn [mbind outcome_bind].
  assert (Hbw : forall p, utxo b p = cache_utxo c p) by (intros p; rewrite Hw; by apply cache_written).
  assert (Hkeep : forall o e, omap sync_entry (cacheCoins c) !! o = Some e ->
    exists e0, cacheCoins c !! o = Some e0 /\ IsSpent (ce_coin e0) = false /\ e = mkEntry (ce_coin e0) 0).
  { intros o e. rewrite lookup_omap. destruct (cacheCoins c !! o) as [e0|]; [|done]. cbn. unfold sync_entry.
    destruct (IsSpent (ce_coin e0)) eqn:Es; [done|]. intros [= <-]. by exists e0. }
  eexists. split; [reflexivity|]. split; [|split; [done|split; [exact Hbw|split; [done|]]]].
  - split; cbn [base cacheCoins cachedCoinsUsage]; [done| |].
    + intros o e (e0 & Ho & Es & ->)%Hkeep. unfold entry_ok. rewrite attr_clean by done. split_and!; try done.
      intros _. rewrite Hbw. unfold cache_utxo. rewrite Ho. unfold shown. cbn [ce_coin]. done.
    + rewrite sync_usage_eq, total_sync by (rewrite (co_usage c Hok); unfold u64; by rewrite Zmod_mod).
      rewrite (co_usage c Hok). unfold u64. by rewrite Zminus_mod_idemp_l.
  - intros p. unfold cache_utxo at 1. cbn [cacheCoins base].
    destruct (omap sync_entry (cacheCoins c) !! p) as [e|] eqn:Ho; [|exact (Hbw p)].
    apply Hkeep in Ho as (e0 & Ho & Es & ->). unfold cache_utxo. rewrite Ho. unfold shown. by cbn [ce_coin].
Qed.

(** *** Sequences of operations *)

(** What callers do to a cache *)
Inductive coin_op : Type :=
| OpGet (o : COutPoint)
| OpHave (o : COutPoint)
| OpAdd (o : COutPoint) (coin : Coin) (possible_overwrite : bool)
| OpSpend (o : COutPoint)
| OpUncache (o : COutPoint)
| OpBest (h : uint256)
| OpSync
| OpFlush.

(** What an operation answers: a coin, if there is an unspent one *)
Definition run_op c (op : coin_op) : outcome (option Coin * CCoinsViewCache V) :=
  match op with
  | OpGet o => let '(found, coin, c) := cache_GetCoin c o in Ret (if found then Some coin else None, c)
  | OpHave o => let '(have, c) := HaveCoin c o in Ret (if have : bool then Some coinEmpty else None, c)
  | OpAdd o coin over => c ← AddCoin c o coin over; Ret (None, c)
  | OpSpend o => let '(r, c) := SpendCoin c o in Ret (moved r, c)
  | OpUncache o => Ret (None, Uncache c o)
  | OpBest h => Ret (None, SetBestBlock c h)
  | OpSync => r ← Sync c; Ret (None, r.2)
  | OpFlush => r ← Flush c; Ret (None, r.2)
  end.

Fixpoint run_ops c (ops : list coin_op) : outcome (list (option Coin) * CCoinsViewCache V) :=
  match ops with
  | [] => Ret ([], c)
  | op :: ops' =>
      r ← run_op c op;
      r' ← run_ops r.2 ops';
      Ret (r.1 :: r'.1, r'.2)
  end.

(** The coin set and the block hash the cache stands for, without layers *)
Definition coin_state : Type := (COutPoint -> option Coin) * uint256.

Definition spec_op (s : coin_state) (op : coin_op) : option Coin * coin_state :=
  match op with
  | OpGet o => (s.1 o, s)
  | OpHave o => ((fun _ => coinEmpty) <$> s.1 o, s)
  | OpAdd o coin _ => (None, (if IsUnspendable (scriptPubKey (coin_out coin)) then s.1 else set_coin s.1 o (Some coin), s.2))
  | OpSpend o => (s.1 o, (set_coin s.1 o None, s.2))
  | OpBest h => (None, (s.1, h))
  | OpUncache _ | OpSync | OpFlush => (None, s)
  end.

Fixpoint spec_ops (s : coin_state) (ops : list coin_op) : list (option Coin) * coin_state :=
  match ops with
  | [] => ([], s)
  | op :: ops' => let '(x, s) := spec_op s op in let '(xs, s) := spec_ops s ops' in (x :: xs, s)
  end.

(** The callers' obligations: a coin that is added is unspent and, unless an
    overwrite is announced, new; a block is known before a write. *)
Definition legal_op (s : coin_state) (op : coin_op) : Prop :=
  match op with
  | OpAdd o coin over => IsSpent coin = false /\ (over = true \/ s.1 o = None)
  | OpSync | OpFlush => IsNull s.2 = false
  | _ => True
  end.

Fixpoint legal_ops (s : coin_state) (ops : list coin_op) : Prop :=
  match ops with [] => True | op :: ops' => legal_op s op /\ legal_ops (spec_op s op).2 ops' end.

Definition stands_for c (s : coin_state) : Prop := (forall p, cache_utxo c p = s.1 p) /\ hashBlock c = s.2.

Lemma run_op_spec c s op : cache_ok c -> stands_for c s -> legal_op s op ->
  exists c', run_op c op = Ret ((spec_op s op).1, c') /\ cache_ok c' /\ stands_for c' (spec_op s op).2.
Proof.
  intros Hok [Hu Hh] Hleg. destruct s as [u h]. cbn [fst snd] in *.
  assert (Hstay : forall c', cache_ok c' -> hashBlock c' = hashBlock c -> (forall p, cache_utxo c' p = cache_utxo c p) ->
    cache_ok c' /\ stands_for c' (u, h)).
  { intros c' Ho' Hb' Hu'. split; [done|]. split; cbn; [intros p; by rewrite Hu'|congruence]. }
  destruct op as [o|o|o coin over|o|o|h'| |]; cbn [run_op spec_op legal_op fst snd] in *.
  - destruct (FetchCoin_spec c o Hok) as (e & c' & E & Hok' & Hh' & Hsame & _ & _ & Hshow & Hnone).
    unfold cache_GetCoin. rewrite E. exists c'. split; [|by apply Hstay].
    rewrite <- Hu, <- Hshow. destruct e as [e|]; [|done]. cbn. unfold shown. by destruct (IsSpent (ce_coin e)).
  - destruct (FetchCoin_spec c o Hok) as (e & c' & E & Hok' & Hh' & Hsame & _ & _ & Hshow & Hnone).
    unfold HaveCoin. rewrite E. exists c'. split; [|by apply Hstay].
    rewrite <- Hu, <- Hshow. destruct e as [e|]; [|done]. cbn. unfold shown. by destruct (IsSpent (ce_coin e)).
  - destruct Hleg as [Hsp Hov]. destruct (AddCoin_spec c o coin over Hok Hsp) as (c' & E & Hok' & Hh' & Hu'); [by rewrite Hu|].
    rewrite E. exists c'. split; [done|]. split; [done|]. split; cbn; [|congruence].
    intros p. rewrite Hu'. destruct (IsUnspendable _); [done|]. unfold set_coin. by rewrite Hu.
  - destruct (SpendCoin_spec c o Hok) as (r & c' & E & Hok' & Hh' & Hm & Hu'). rewrite E. exists c'.
    split; [by rewrite Hm, Hu|]. split; [done|]. split; cbn; [|congruence]. intros p. rewrite Hu'. unfold set_coin. by rewrite Hu.
  - destruct (Uncache_spec c o Hok) as (Hok' & Hh' & Hu'). exists (Uncache c o). split; [done|]. by apply Hstay.
  - exists (SetBestBlock c h'). split; [done|]. split; [destruct Hok; by split|]. by split.
  - destruct (Sync_spec c Hok) as (c' & E & Hok' & Hh' & _ & _ & Hu'); [by rewrite Hh|]. rewrite E. exists c'.
    split; [done|]. by apply Hstay.
  - destruct (Flush_spec c Hok) as (c' & E & Hok' & _ & Hh' & _ & _ & Hu'); [by rewrite Hh|]. rewrite E. exists c'.
    split; [done|]. by apply Hstay.
Qed.

Lemma run_ops_spec : forall ops c s, cache_ok c -> stands_for c s -> legal_ops s ops ->
  exists c', run_ops c ops = Ret ((spec_ops s ops).1, c') /\ cache_ok c' /\ stands_for c' (spec_ops s ops).2.
Proof.
  induction ops as [|op ops IH]; intros c s Hok Hs Hl; cbn [run_ops spec_ops legal_ops] in *; [by exists c|].
  destruct Hl as [Hop Hl]. destruct (run_op_spec c s op Hok Hs Hop) as (c1 & E & Hok1 & Hs1). rewrite E. cbn [mbind outcome_bind fst snd].
  destruct (spec_op s op) as [x s1]. cbn [fst snd] in *. destruct (IH c1 s1 Hok1 Hs1 Hl) as (c2 & E2 & Hok2 & Hs2). rewrite E2.
  cbn [mbind outcome_bind fst snd]. destruct (spec_ops s1 ops) as [xs s2]. by exists c2.
Qed.

End cache_laws.

(** ** The coin database

    The key-value store keeps a coin per outpoint, the best block, and while a
    batch is being written the pair of blocks the store is between. A batch of
    store operations is written atomically; a large change is split over
    several batches. *)

Record CCoinsViewDB : Type := mkDB {
  db_coins : gmap COutPoint Coin;
  db_best : option uint256;
  db_heads : option (list uint256);
}.

Inductive db_op : Type :=
| WriteCoin (o : COutPoint) (coin : Coin)
| EraseCoin (o : COutPoint)
| WriteBest (h : uint256)
| EraseBest
| WriteHeads (hs : list uint256)
| EraseHeads.

Definition apply_op (db : CCoinsViewDB) (op : db_op) : CCoinsViewDB :=
  match op with
  | WriteCoin o coin => mkDB (<[o := coin]> (db_coins db)) (db_best db) (db_heads db)
  | EraseCoin o => mkDB (delete o (db_coins db)) (db_best db) (db_heads db)
  | WriteBest h => mkDB (db_coins db) (Some h) (db_heads db)
  | EraseBest => mkDB (db_coins db) None (db_heads db)
  | WriteHeads hs => mkDB (db_coins db) (db_best db) (Some hs)
  | EraseHeads => mkDB (db_coins db) (db_best db) None
  end.

(** [CDBWrapper::WriteBatch] *)
Definition WriteBatch (db : CCoinsViewDB) (batch : list db_op) : CCoinsViewDB := foldl apply_op db batch.

(** [GetCoin], [GetBestBlock], [GetHeadBlocks] *)
Definition db_GetCoin (db : CCoinsViewDB) (o : COutPoint) : bool * Coin * CCoinsViewDB :=
  match db_coins db !! o with Some coin => (true, coin, db) | None => (false, coinEmpty, db) end.
Definition db_GetBestBlock (db : CCoinsViewDB) : uint256 * CCoinsViewDB := (default uint256_zero (db_best db), db).
Definition GetHeadBlocks (db : CCoinsViewDB) : outcome (list uint256) :=
  match db_heads db with
  | None => Ret []
  | Some [] => Abort
  | Some hs => Ret hs
  end.

Section database.

(** [CDBBatch::SizeEstimate] and [-dbbatchsize] *)
Context (SizeEstimate : list db_op -> Z) (batch_size : Z).

(** The loop over the entries, with the store after each partial batch *)
Fixpoint db_loop (erase : bool) (l : list (COutPoint * CCoinsCacheEntry)) (m : CCoinsMap) (batch : list db_op)
    (db : CCoinsViewDB) (trace : list CCoinsViewDB) : CCoinsMap * list db_op * CCoinsViewDB * list CCoinsViewDB :=
  match l with
  | [] => (m, batch, db, trace)
  | (o, it) :: l' =>
      let batch := if is_dirty it
                   then batch ++ [if IsSpent (ce_coin it) then EraseCoin o else WriteCoin o (ce_coin it)]
                   else batch in
      let m := if erase then delete o m else m in
      if SizeEstimate batch >? batch_size
      then db_loop erase l' m [] (WriteBatch db batch) (trace ++ [WriteBatch db batch])
      else db_loop erase l' m batch db trace
  end.

(** The tip the store is moving from *)
Definition old_tip (db : CCoinsViewDB) (h : uint256) : outcome uint256 :=
  let tip := (db_GetBestBlock db).1 in
  if IsNull tip then
    old_heads ← GetHeadBlocks db;
    match old_heads with
    | [h0; h1] => if bool_decide (h0 = h) then Ret h1 else Abort
    | _ => Ret tip
    end
  else Ret tip.

(** [BatchWrite]: the result and every state of the store on the way, in which
    the process may be interrupted *)
Definition db_write (db : CCoinsViewDB) (mapCoins : CCoinsMap) (h : uint256) (erase : bool)
    : outcome (CCoinsMap * CCoinsViewDB * list CCoinsViewDB) :=
  if IsNull h then Abort
  else
    tip ← old_tip db h;
    let '(m, batch, db, trace) := db_loop erase (map_to_list mapCoins) mapCoins [EraseBest; WriteHeads [h; tip]] db [] in
    Ret (m, WriteBatch db (batch ++ [EraseHeads; WriteBest h]), trace).

Definition db_BatchWrite (db : CCoinsViewDB) (mapCoins : CCoinsMap) (h : uint256) (erase : bool)
    : outcome (bool * CCoinsMap * CCoinsViewDB) :=
  r ← db_write db mapCoins h erase;
  Ret (true, r.1.1, r.1.2).

#[export] Instance db_view : CoinsView CCoinsViewDB := {
  view_GetCoin := db_GetCoin;
  view_GetBestBlock := db_GetBestBlock;
  view_BatchWrite := db_BatchWrite;
}.

(** The coins of a store, and the two shapes of a store between writes *)
Definition coins_ok (db : CCoinsViewDB) : Prop := forall o coin, db_coins db !! o = Some coin -> IsSpent coin = false.
Definition consistent (db : CCoinsViewDB) : Prop :=
  coins_ok db /\ db_heads db = None /\ (forall h, db_best db = Some h -> IsNull h = false).

(** A store in the middle of a move from [tip] to [h] *)
Definition between (db : CCoinsViewDB) (tip h : uint256) : Prop :=
  coins_ok db /\ db_best db = None /\ db_heads db = Some [h; tip].

Definition batch_op (o : COutPoint) (it : CCoinsCacheEntry) : db_op :=
  if IsSpent (ce_coin it) then EraseCoin o else WriteCoin o (ce_coin it).

Lemma WriteBatch_app db a b : WriteBatch db (a ++ b) = WriteBatch (WriteBatch db a) b.
Proof. unfold WriteBatch. apply foldl_app. Qed.

(** What is in the store, once the pending batch is written *)
Lemma apply_op_coin db o it p : db_coins (apply_op db (batch_op o it)) !! p =
  if decide (p = o) then shown it else db_coins db !! p.
Proof.
  unfold batch_op, shown. destruct (IsSpent (ce_coin it)); cbn [apply_op db_coins]; case_decide as E; subst;
    rewrite ?lookup_delete_eq, ?lookup_insert_eq, ?lookup_delete_ne, ?lookup_insert_ne by done; done.
Qed.

Lemma apply_op_between db o it tip h : between db tip h -> between (apply_op db (batch_op o it)) tip h.
Proof.
  intros (Hc & Hb & Hh). split; [|unfold batch_op; destruct (IsSpent (ce_coin it)); done].
  intros p coin. rewrite apply_op_coin. case_decide; [|apply Hc].
  unfold shown. destruct (IsSpent (ce_coin it)) eqn:E; [done|]. by intros [= <-].
Qed.

(** The coins after the entries of [l] are written over [u] *)
Definition written_list (u : COutPoint -> option Coin) (l : list (COutPoint * CCoinsCacheEntry)) (p : COutPoint) : option Coin :=
  written u (list_to_map l) p.

Lemma written_list_cons u o it l p : o ∉ l.*1 ->
  written_list u ((o, it) :: l) p =
  written_list (fun q => if decide (q = o) then (if is_dirty it then shown it else u q) else u q) l p.
Proof.
  intros Hni. unfold written_list, written. cbn [list_to_map foldr]. change (foldr _ _ l) with (list_to_map l : CCoinsMap). cbn [uncurry fst snd].
  destruct (decide (p = o)) as [->|Hne].
  - rewrite lookup_insert_eq, (not_elem_of_list_to_map_1 l o) by done. done.
  - by rewrite lookup_insert_ne by done.
Qed.

Lemma written_list_ext u u' l p : u p = u' p -> written_list u l p = written_list u' l p.
Proof. intros E. unfold written_list, written. by rewrite E. Qed.

Lemma db_loop_spec erase tip h : forall l m batch db trace, NoDup l.*1 -> between (WriteBatch db batch) tip h ->
  let cur p := db_coins (WriteBatch db batch) !! p in
  exists m' batch' db' extra, db_loop erase l m batch db trace = (m', batch', db', trace ++ extra) /\
    m' = (if erase then foldl (fun m o => delete o m) m l.*1 else m) /\
    between (WriteBatch db' batch') tip h /\
    (forall p, db_coins (WriteBatch db' batch') !! p = written_list cur l p) /\
    (forall s, s ∈ extra -> between s tip h /\
       forall p, db_coins s !! p = cur p \/ db_coins s !! p = written_list cur l p).
Proof.
  induction l as [|[o it] l IH]; intros m batch db trace Hnd Hb cur; cbn [db_loop].
  { exists m, batch, db, []. rewrite app_nil_r. split_and!; try done; [by destruct erase|]. by intros s ?%not_elem_of_nil. }
  cbn [fmap list_fmap fst] in Hnd. apply NoDup_cons in Hnd as [Hni Hnd].
  change (if IsSpent (ce_coin it) then EraseCoin o else WriteCoin o (ce_coin it)) with (batch_op o it).
  set (batch1 := if is_dirty it then batch ++ [batch_op o it] else batch).
  set (cur1 := fun p => if decide (p = o) then (if is_dirty it then shown it else cur p) else cur p).
  assert (between (WriteBatch db batch1) tip h /\ forall p, db_coins (WriteBatch db batch1) !! p = cur1 p) as [Hb1 Hc1].
  { unfold batch1, cur1. destruct (is_dirty it).
    - rewrite WriteBatch_app. cbn [WriteBatch foldl]. split; [by apply apply_op_between|]. intros p. by rewrite apply_op_coin.
    - split; [done|]. intros p. by case_decide. }
  assert (Hfin : forall p, written_list cur1 l p = written_list cur ((o, it) :: l) p) by (intros p; by rewrite written_list_cons).
  assert (Hmid : forall p, cur1 p = cur p \/ cur1 p = written_list cur ((o, it) :: l) p).
  { intros p. unfold cur1 at 1. destruct (decide (p = o)) as [->|]; [|by left]. right. rewrite <- Hfin.
    unfold written_list, written. rewrite (not_elem_of_list_to_map_1 l o) by done. unfold cur1. by rewrite decide_True. }
  assert (Hext : forall (extra : list CCoinsViewDB) (f : COutPoint -> option Coin), (forall p, f p = cur1 p) ->
    (forall s, s ∈ extra -> between s tip h /\ forall p, db_coins s !! p = f p \/ db_coins s !! p = written_list f l p) ->
    forall s, s ∈ extra -> between s tip h /\
       forall p, db_coins s !! p = cur p \/ db_coins s !! p = written_list cur ((o, it) :: l) p).
  { intros extra f Hf Hex s Hs. destruct (Hex s Hs) as [Hbs Hps]. split; [done|]. intros p.
    destruct (Hps p) as [E|E]; [rewrite E, Hf; apply Hmid|]. right.
    rewrite E, <- Hfin. by apply written_list_ext. }
  destruct (SizeEstimate batch1 >? batch_size).
  - destruct (IH (if erase then delete o m else m) [] (WriteBatch db batch1) (trace ++ [WriteBatch db batch1]) Hnd Hb1)
      as (m' & b' & db' & extra & E & Hm & Hb' & Hc' & Hex). cbv zeta in Hc', Hex.
    change (WriteBatch (WriteBatch db batch1) []) with (WriteBatch db batch1) in *.
    exists m', b', db', (WriteBatch db batch1 :: extra). rewrite E, <- app_assoc. split_and!; try done.
    + rewrite Hm. cbn [fmap list_fmap fst foldl]. by destruct erase.
    + intros p. rewrite Hc', <- Hfin. by apply written_list_ext.
    + intros s [->|Hs]%elem_of_cons; [|exact (Hext extra _ Hc1 Hex s Hs)]. split; [done|]. intros p. rewrite Hc1. apply Hmid.
  - destruct (IH (if erase then delete o m else m) batch1 db trace Hnd Hb1)
      as (m' & b' & db' & extra & E & Hm & Hb' & Hc' & Hex). cbv zeta in Hc', Hex.
    exists m', b', db', extra. split_and!; try done.
    + rewrite Hm. cbn [fmap list_fmap fst foldl]. by destruct erase.
    + intros p. rewrite Hc', <- Hfin. by apply written_list_ext.
    + exact (Hext extra _ Hc1 Hex).
Qed.

(** A whole write, from any store that can take it *)
Lemma db_write_spec db m h erase tip : coins_ok db -> IsNull h = false -> old_tip db h = Ret tip ->
  let u p := db_coins db !! p in
  exists db' trace, db_write db m h erase = Ret ((if erase then ∅ else m), db', trace) /\
    consistent db' /\ db_best db' = Some h /\ (forall p, db_coins db' !! p = written u m p) /\
    (forall s, s ∈ trace -> between s tip h /\ forall p, db_coins s !! p = u p \/ db_coins s !! p = written u m p).
Proof.
  intros Hok Hh Ht u. unfold db_write. rewrite Hh, Ht. cbn [mbind outcome_bind].
  destruct (db_loop_spec erase tip h (map_to_list m) m [EraseBest; WriteHeads [h; tip]] db [])
    as (m' & b' & db' & extra & E & Hm & (Hc' & Hb' & Hh') & Hw & Hex); [apply NoDup_fst_map_to_list|done|].
  cbv zeta in Hw, Hex. rewrite E. cbn [app]. unfold written_list in *. rewrite list_to_map_to_list in *.
  exists (WriteBatch db' (b' ++ [EraseHeads; WriteBest h])), extra. rewrite WriteBatch_app. cbn [WriteBatch foldl apply_op].
  fold (WriteBatch db' b'). split; [rewrite Hm, erase_all; done|]. split_and!; try done.
  split; [exact Hc'|]. split; [done|]. by intros h' [= <-].
Qed.

Lemma consistent_tip db h : consistent db -> old_tip db h = Ret (default uint256_zero (db_best db)).
Proof.
  intros (_ & Hh & _). unfold old_tip, GetHeadBlocks, db_GetBestBlock. cbn [fst]. rewrite Hh.
  by destruct (IsNull (default uint256_zero (db_best db))).
Qed.

Lemma between_tip db tip h : between db tip h -> old_tip db h = Ret tip.
Proof.
  intros (_ & Hb & Hh). unfold old_tip, GetHeadBlocks, db_GetBestBlock. rewrite Hb, Hh. cbn [fst default].
  change (IsNull (default uint256_zero None)) with true. cbn. by rewrite bool_decide_eq_true_2.
Qed.

Lemma db_get_coin db o : consistent db -> exists found coin db', db_GetCoin db o = (found, coin, db') /\
  db_coins db !! o = (if found then Some coin else None) /\
  consistent db' /\ (forall p, db_coins db' !! p = db_coins db !! p) /\
  default uint256_zero (db_best db') = default uint256_zero (db_best db).
Proof. intros Hok. unfold db_GetCoin. destruct (db_coins db !! o) as [coin|]; eexists _, _, db; by split_and!. Qed.

Lemma db_batch db m h erase : consistent db -> IsNull h = false -> batch_ok (fun o => db_coins db !! o) m ->
  exists db', db_BatchWrite db m h erase = Ret (true, (if erase then ∅ else m), db') /\
    consistent db' /\ (forall p, db_coins db' !! p = written (fun o => db_coins db !! o) m p) /\
    default uint256_zero (db_best db') = h.
Proof.
  intros Hok Hh _. destruct (db_write_spec db m h erase _ (proj1 Hok) Hh (consistent_tip db h Hok)) as (db' & tr & E & Hc & Hb & Hw & _).
  exists db'. unfold db_BatchWrite. rewrite E. split_and!; try done. by rewrite Hb.
Qed.

(** The database keeps the laws of a view, so every stack of caches on it does. *)
#[export] Instance db_laws : CoinsViewLaws CCoinsViewDB := {|
  utxo db o := db_coins db !! o;
  best db := default uint256_zero (db_best db);
  view_ok := consistent;
  utxo_unspent db o coin Hok := proj1 Hok o coin;
  get_coin_law := db_get_coin;
  best_law db Hok := ex_intro _ db (conj eq_refl (conj Hok (conj (fun _ => eq_refl) eq_refl)));
  batch_law := db_batch;
|}.

End database.

(** ** Properties *)

(** C21: a coin cache over any view that keeps the laws of a view (a database or
    another cache) is indistinguishable from one plain coin set: whatever legal
    sequence of lookups, additions, spends, evictions, syncs and flushes it is
    given, it never aborts, answers what the plain set answers, and its
    self-check passes; after the sequence, a flush leaves exactly the plain set
    in the view below. *)
Theorem coins_cache_refines (V : Type) `{CoinsView V} `{!CoinsViewLaws V} `{MemoryUsage} (b : V) (ops : list coin_op) :
  view_ok b -> legal_ops (utxo b, uint256_zero) ops ->
  exists c, run_ops (new_cache b) ops = Ret ((spec_ops (utxo b, uint256_zero) ops).1, c) /\
    (forall p, cache_utxo c p = (spec_ops (utxo b, uint256_zero) ops).2.1 p) /\
    SanityCheck c = true /\
    (IsNull (spec_ops (utxo b, uint256_zero) ops).2.2 = false ->
       exists c', Flush c = Ret (true, c') /\ cacheCoins c' = ∅ /\ view_ok (base c') /\
         best (base c') = (spec_ops (utxo b, uint256_zero) ops).2.2 /\
         (forall p, utxo (base c') p = (spec_ops (utxo b, uint256_zero) ops).2.1 p)).
Proof.
  intros Hb Hl. destruct (run_ops_spec ops (new_cache b) (utxo b, uint256_zero) (new_cache_ok b Hb)) as (c & E & Hok & Hu & Hh).
  - split; [|done]. intros p. unfold cache_utxo, new_cache. cbn [cacheCoins base]. by rewrite lookup_empty.
  - done.
  - exists c. split_and!; [done|done|by apply cache_ok_sanity|]. intros Hn.
    destruct (Flush_spec c Hok) as (c' & Ef & Hok' & He & _ & Hp & Hbest & _); [by rewrite Hh|].
    exists c'. split_and!; [done|done|apply co_base, Hok'|congruence|]. intros p. by rewrite Hp.
Qed.

(** C22: a write to the coin database can be interrupted anywhere: in every state
    the store passes through, the best block is absent, the heads name the
    target and the tip the write started from, and each coin is either the old
    or the new one; repeating the write from such a state, as from the state
    before, ends with the target as best block, no heads and exactly the
    written coins. *)
Theorem db_write_crash_safe (SizeEstimate : list db_op -> Z) (batch_size : Z) (db : CCoinsViewDB) (m : CCoinsMap) (h : uint256) (erase : bool) :
  consistent db -> IsNull h = false ->
  let u o := db_coins db !! o in
  exists db' trace, db_write SizeEstimate batch_size db m h erase = Ret ((if erase then ∅ else m), db', trace) /\
    consistent db' /\ db_best db' = Some h /\ (forall p, db_coins db' !! p = written u m p) /\
    (forall s, s ∈ trace ->
       db_best s = None /\ db_heads s = Some [h; default uint256_zero (db_best db)] /\
       (forall p, db_coins s !! p = u p \/ db_coins s !! p = written u m p) /\
       exists s' trace', db_write SizeEstimate batch_size s m h erase = Ret ((if erase then ∅ else m), s', trace') /\
         db_best s' = Some h /\ db_heads s' = None /\ (forall p, db_coins s' !! p = written u m p)).
Proof.
  intros Hok Hh u.
  destruct (db_write_spec SizeEstimate batch_size db m h erase _ (proj1 Hok) Hh (consistent_tip db h Hok)) as (db' & tr & E & Hc & Hb & Hw & Htr).
  exists db', tr. split_and!; try done. intros s Hs. destruct (Htr s Hs) as [Hbt Hp]. split_and!; [apply Hbt|apply Hbt|done|].
  destruct (db_write_spec SizeEstimate batch_size s m h erase _ (proj1 Hbt) Hh (between_tip s _ h Hbt)) as (s' & tr' & E' & Hc' & Hb' & Hw' & _).
  exists s', tr'. split_and!; [done|done|apply Hc'|]. intros p. rewrite Hw'. unfold written. fold u.
  destruct (m !! p) as [e|] eqn:Hm; [destruct (is_dirty e) eqn:Hd; [done|]|]; destruct (Hp p) as [Ep|Ep]; rewrite Ep; try done;
    unfold written; by rewrite Hm, ?Hd.
Qed.

(** *** A small store, and two caches over it *)

#[export] Instance demo_usage : MemoryUsage := {| DynamicMemoryUsage coin := Z.of_nat (length (scriptPubKey (coin_out coin))); usage_empty := eq_refl |}.
Definition demo_estimate (batch : list db_op) : Z := Z.of_nat (length batch).
#[export] Instance demo_view : CoinsView CCoinsViewDB := db_view demo_estimate 2.
#[export] Instance demo_laws : CoinsViewLaws CCoinsViewDB := db_laws demo_estimate 2.

Definition demo_out (n : Z) : COutPoint := mkOutPoint (repeat n 32) 0.
Definition demo_coin (n : Z) : Coin := mkCoin (mkTxOut (n * 1000) [0x51; n]) false (10 + n) false.
Definition demo_db : CCoinsViewDB :=
  mkDB (<[demo_out 1 := demo_coin 1]> (<[demo_out 2 := demo_coin 2]> ∅)) (Some (repeat 9 32)) None.

Lemma demo_db_consistent : consistent demo_db.
Proof.
  split; [|split; [done|by intros h [= <-]]]. intros o coin. cbn [demo_db db_coins]. rewrite !lookup_insert_Some.
  intros [[_ <-]|[_ [[_ <-]|[_ []%lookup_empty_Some]]]]; done.
Qed.

Definition demo_ops : list coin_op :=
  [OpBest (repeat 8 32); OpGet (demo_out 1); OpSpend (demo_out 1); OpAdd (demo_out 3) (demo_coin 3) false; OpSync;
   OpHave (demo_out 1); OpSpend (demo_out 3); OpAdd (demo_out 1) (demo_coin 4) false; OpFlush; OpGet (demo_out 1)].

Lemma coins_cache_refines_witness :
  exists c, run_ops (new_cache (new_cache demo_db)) demo_ops =
      Ret ([None; Some (demo_coin 1); Some (demo_coin 1); None; None; None; Some (demo_coin 3); None; None; Some (demo_coin 4)], c) /\
    SanityCheck c = true.
Proof.
  destruct (coins_cache_refines (CCoinsViewCache CCoinsViewDB) (new_cache demo_db) demo_ops) as (c & E & _ & Hs & _).
  - apply new_cache_ok. exact demo_db_consistent.
  - repeat split; try reflexivity; right; vm_compute; reflexivity.
  - exists c. split; [|exact Hs]. exact E.
Defined.

Definition demo_batch : CCoinsMap :=
  <[demo_out 1 := mkEntry coinEmpty DIRTY]> (<[demo_out 5 := mkEntry (demo_coin 5) (Z.lor DIRTY FRESH)]> ∅).

Lemma db_write_crash_safe_witness :
  exists db' trace, db_write demo_estimate 2 demo_db demo_batch (repeat 8 32) true = Ret (∅, db', trace) /\
    db_best db' = Some (repeat 8 32) /\ length trace = 1%nat.
Proof.
  destruct (db_write_crash_safe demo_estimate 2 demo_db demo_batch (repeat 8 32) true demo_db_consistent eq_refl)
    as (db' & trace & E & _ & Hb & _).
  exists db', trace. split; [exact E|]. split; [exact Hb|].
  assert (Hlen : match db_write demo_estimate 2 demo_db demo_batch (repeat 8 32) true with
    Ret r => length r.2 | Abort => 0%nat end = 1%nat) by (vm_compute; reflexivity).
  rewrite E in Hlen. exact Hlen.
Defined.
