(* ===== verification/Undo.v ===== *)
(** * Undo: connecting and disconnecting the coins of a block
      (UpdateCoins, ApplyTxInUndo and the coin loops of ConnectBlock and
       DisconnectBlock in src/src/validation.cpp; src/src/undo.h)

    Connecting a transaction spends its inputs, keeping the spent coins as undo
    data, and adds its outputs; disconnecting takes the outputs back and restores
    the inputs from the undo data. The optional address and spent indexes are off,
    and the hash of a transaction is an argument. *)

From Stdlib Require Import ZArith Lia.
From stdpp Require Import base list numbers option gmap fin_maps.
From S2P Require Import Prelude Arith256 Uint256 Serialize Transaction Script Coins.

(** [DisconnectResult] *)
Inductive DisconnectResult : Type := DISCONNECT_OK | DISCONNECT_UNCLEAN | DISCONNECT_FAILED.

(** [CTxUndo] and [CBlockUndo]: the coins each transaction spent *)
Definition CTxUndo : Type := list Coin.
Definition CBlockUndo : Type := list CTxUndo.

(** [MAX_OUTPUTS_PER_BLOCK]: the block size over the nine bytes of an empty output *)
Definition MAX_OUTPUTS_PER_BLOCK : Z := Z.quot 2000000 9.

Section undo.

Context {V : Type} `{CoinsView V} `{MemoryUsage}.
Context (GetHash : CTransaction -> uint256).

Implicit Types c : CCoinsViewCache V.

(** [AccessByTxid] *)
Fixpoint access_by_txid_loop (fuel : nat) (txid : uint256) (n : Z) c : Coin * CCoinsViewCache V :=
  match fuel with
  | O => (coinEmpty, c)
  | S fuel' =>
      let '(alternate, c) := AccessCoin c (mkOutPoint txid n) in
      if negb (IsSpent alternate) then (alternate, c) else access_by_txid_loop fuel' txid (n + 1) c
  end.
Definition AccessByTxid c (txid : uint256) : Coin * CCoinsViewCache V :=
  access_by_txid_loop (Z.to_nat MAX_OUTPUTS_PER_BLOCK) txid 0 c.

(** [UpdateCoins] *)
Fixpoint spend_loop (ins : list CTxIn) (txundo : CTxUndo) c : outcome (CTxUndo * CCoinsViewCache V) :=
  match ins with
  | [] => Ret (txundo, c)
  | i :: ins' =>
      let '(r, c) := SpendCoin c (prevout i) in
      coin ← deref r;
      spend_loop ins' (txundo ++ [coin]) c
  end.
Definition UpdateCoins (tx : CTransaction) c (nHeight : Z) : outcome (CTxUndo * CCoinsViewCache V) :=
  r ← (if negb (IsCoinBase tx) then spend_loop (vin tx) [] c else Ret ([], c));
  c ← AddCoins r.2 (GetHash tx) tx nHeight false;
  Ret (r.1, c).

(** The coins of [ConnectBlock]: the undo data of the first transaction is dropped. *)
Fixpoint connect_rest (txs : list CTransaction) (nHeight : Z) (blockundo : CBlockUndo) c : outcome (CBlockUndo * CCoinsViewCache V) :=
  match txs with
  | [] => Ret (blockundo, c)
  | tx :: txs' =>
      r ← UpdateCoins tx c nHeight;
      connect_rest txs' nHeight (blockundo ++ [r.1]) r.2
  end.
Definition connect_coins (vtx : list CTransaction) (nHeight : Z) c : outcome (CBlockUndo * CCoinsViewCache V) :=
  match vtx with
  | [] => Ret ([], c)
  | tx :: txs =>
      r ← UpdateCoins tx c nHeight;
      connect_rest txs nHeight [] r.2
  end.

(** [ApplyTxInUndo] *)
Definition ApplyTxInUndo (undo : Coin) c (out : COutPoint) : outcome (DisconnectResult * CCoinsViewCache V) :=
  let '(have, c) := HaveCoin c out in
  let fClean := negb have in
  let '(found, undo, c) :=
    if coin_nHeight undo =? 0 then
      let '(alternate, c) := AccessByTxid c (op_hash out) in
      if negb (IsSpent alternate)
      then (true, mkCoin (coin_out undo) (fCoinBase alternate) (coin_nHeight alternate) (fCoinStake alternate), c)
      else (false, undo, c)
    else (true, undo, c) in
  if negb found then Ret (DISCONNECT_FAILED, c)
  else
    c ← AddCoin c out undo (negb fClean);
    Ret (if fClean then DISCONNECT_OK else DISCONNECT_UNCLEAN, c).

(** The check that every output is there and is the block's own *)
Fixpoint take_outputs (txid : uint256) (outs : list CTxOut) (o : Z) (nHeight : Z) (is_coinbase is_coinstake : bool) (fClean : bool) c
    : bool * CCoinsViewCache V :=
  match outs with
  | [] => (fClean, c)
  | out :: outs' =>
      if negb (IsUnspendable (scriptPubKey out)) then
        let '(r, c) := SpendCoin c (mkOutPoint txid (u32 o)) in
        let mismatch :=
          match r with
          | None => true
          | Some coin =>
              (negb (bool_decide (out = coin_out coin)) || negb (nHeight =? coin_nHeight coin) ||
               negb (Bool.eqb is_coinbase (fCoinBase coin)) || negb (Bool.eqb is_coinstake (fCoinStake coin)))%bool
          end in
        take_outputs txid outs' (o + 1) nHeight is_coinbase is_coinstake (if mismatch then false else fClean) c
      else take_outputs txid outs' (o + 1) nHeight is_coinbase is_coinstake fClean c
  end.

(** The inputs, from the last to the first *)
Fixpoint restore_inputs (l : list (CTxIn * Coin)) (fClean : bool) c : outcome (option bool * CCoinsViewCache V) :=
  match l with
  | [] => Ret (Some fClean, c)
  | (i, undo) :: l' =>
      r ← ApplyTxInUndo undo c (prevout i);
      match (r : DisconnectResult * CCoinsViewCache V).1 with
      | DISCONNECT_FAILED => Ret (None, r.2)
      | DISCONNECT_UNCLEAN => restore_inputs l' false r.2
      | DISCONNECT_OK => restore_inputs l' fClean r.2
      end
  end.

(** One transaction; the first of the block has no undo data. [None] is a failure. *)
Definition disconnect_tx (tx : CTransaction) (txundo : option CTxUndo) (nHeight : Z) (fClean : bool) c
    : outcome (option bool * CCoinsViewCache V) :=
  let '(fClean, c) := take_outputs (GetHash tx) (vout tx) 0 nHeight (IsCoinBase tx) (IsCoinStake tx) fClean c in
  match txundo with
  | None => Ret (Some fClean, c)
  | Some undo =>
      if negb (length undo =? length (vin tx))%nat then Ret (None, c)
      else restore_inputs (rev (combine (vin tx) undo)) fClean c
  end.

(** The loop over the transactions, from the last to the first *)
Fixpoint disconnect_loop (l : list (CTransaction * option CTxUndo)) (nHeight : Z) (fClean : bool) c
    : outcome (option bool * CCoinsViewCache V) :=
  match l with
  | [] => Ret (Some fClean, c)
  | (tx, undo) :: l' =>
      r ← disconnect_tx tx undo nHeight fClean c;
      match (r : option bool * CCoinsViewCache V).1 with
      | None => Ret (None, r.2)
      | Some fClean => disconnect_loop l' nHeight fClean r.2
      end
  end.

(** The coins of [DisconnectBlock] *)
Definition disconnect_coins (vtx : list CTransaction) (blockUndo : CBlockUndo) (nHeight : Z) (prevHash : uint256) c
    : outcome (DisconnectResult * CCoinsViewCache V) :=
  if negb (length blockUndo + 1 =? length vtx)%nat then Ret (DISCONNECT_FAILED, c)
  else
    r ← disconnect_loop (rev (combine vtx (None :: map Some blockUndo))) nHeight true c;
    match (r : option bool * CCoinsViewCache V).1 with
    | None => Ret (DISCONNECT_FAILED, r.2)
    | Some fClean => Ret (if fClean then DISCONNECT_OK else DISCONNECT_UNCLEAN, SetBestBlock r.2 prevHash)
    end.

End undo.

(** ** The coin set before and after *)

Section laws.

Context {V : Type} `{CoinsView V} `{!CoinsViewLaws V} `{MemoryUsage}.
Context (GetHash : CTransaction -> uint256).

Implicit Types c : CCoinsViewCache V.
Implicit Types u : COutPoint -> option Coin.

(** The coins that [outs] create, the first of them at index [i] *)
Definition created (txid : uint256) (mk : CTxOut -> Coin) (outs : list CTxOut) (i : Z) (p : COutPoint) : option Coin :=
  if decide (op_hash p = txid /\ i <= op_n p) then
    out ← outs !! Z.to_nat (op_n p - i);
    if IsUnspendable (scriptPubKey out) then None else Some (mk out)
  else None.

Lemma created_nil txid mk i p : created txid mk [] i p = None.
Proof. unfold created. by case_decide. Qed.

Lemma created_cons txid mk out outs i p : created txid mk (out :: outs) i p =
  if decide (p = mkOutPoint txid i) then (if IsUnspendable (scriptPubKey out) then None else Some (mk out))
  else created txid mk outs (i + 1) p.
Proof.
  unfold created. destruct p as [h n]. cbn [op_hash op_n].
  destruct (decide (mkOutPoint h n = mkOutPoint txid i)) as [[= -> ->]|Hne].
  - rewrite decide_True by (split; [done|lia]). by rewrite Z.sub_diag.
  - destruct (decide (h = txid /\ i + 1 <= n)) as [[-> Hn]|Hno].
    + rewrite decide_True by (split; [done|lia]). replace (Z.to_nat (n - i)) with (S (Z.to_nat (n - (i + 1)))) by lia. done.
    + rewrite decide_False; [done|]. intros [-> Hn]. apply Hno. split; [done|]. assert (n <> i) by (intros ->; done). lia.
Qed.

Definition or_else (x y : option Coin) : option Coin := match x with Some a => Some a | None => y end.

Lemma add_coins_loop_spec txid nHeight cb cs : forall outs i c, cache_ok c -> 0 <= i -> i + Z.of_nat (length outs) <= 2^32 ->
  let mk out := mkCoin out cb (nHeight mod 2^31) cs in
  Forall (fun o => nValue o <> -1) outs ->
  (forall n, i <= n -> cache_utxo c (mkOutPoint txid n) = None) ->
  exists c', add_coins_loop txid outs i nHeight cb cs false c = Ret c' /\ cache_ok c' /\
    (forall p, cache_utxo c' p = or_else (created txid mk outs i p) (cache_utxo c p)).
Proof.
  induction outs as [|out outs IH]; intros i c Hok Hi Hlen mk Hv Hnew; cbn [add_coins_loop].
  { exists c. split_and!; try done. intros p. by rewrite created_nil. }
  apply Forall_cons in Hv as [Hv Hvs]. cbn [length] in Hlen.
  assert (u32 i = i) as -> by (apply u32_id; unfold is_u32; lia).
  destruct (AddCoin_spec c (mkOutPoint txid i) (mk out) cb Hok) as (c1 & E & Hok1 & _ & Hu1).
  { unfold IsSpent, txout_IsNull. cbn. by apply Z.eqb_neq. }
  { right. apply Hnew. lia. }
  unfold mk in E. rewrite E. cbn [mbind outcome_bind].
  destruct (IH (i + 1) c1 Hok1) as (c' & E' & Hok' & Hu'); [lia|lia|done| |].
  { intros n Hn. rewrite Hu1. cbn. destruct (IsUnspendable _); [|unfold set_coin; rewrite decide_False by (intros [= ->]; lia)]; apply Hnew; lia. }
  exists c'. split_and!; try done. intros p. rewrite Hu', Hu1, created_cons. cbn.
  destruct (decide (p = mkOutPoint txid i)) as [->|Hne].
  - assert (created txid mk outs (i + 1) (mkOutPoint txid i) = None) as En by (unfold created; cbn; by rewrite decide_False by (intros [_ ?]; lia)).
    fold mk. rewrite En. destruct (IsUnspendable _); [done|]. unfold set_coin. by rewrite decide_True.
  - destruct (IsUnspendable _); [done|]. unfold set_coin. by rewrite decide_False.
Qed.

Lemma spend_loop_spec : forall ins acc c, cache_ok c -> NoDup (map prevout ins) ->
  Forall (fun i => is_Some (cache_utxo c (prevout i))) ins ->
  exists coins c', spend_loop ins acc c = Ret (acc ++ coins, c') /\ cache_ok c' /\
    map (fun i => cache_utxo c (prevout i)) ins = map Some coins /\
    (forall p, cache_utxo c' p = if decide (p ∈ map prevout ins) then None else cache_utxo c p).
Proof.
  induction ins as [|i ins IH]; intros acc c Hok Hnd Hin; cbn [spend_loop map].
  { exists [], c. rewrite app_nil_r. split_and!; done. }
  apply NoDup_cons in Hnd as [Hni Hnd]. apply Forall_cons in Hin as [[coin Hc] Hin].
  destruct (SpendCoin_spec c (prevout i) Hok) as (r & c1 & E & Hok1 & _ & Hm & Hu1). rewrite E.
  rewrite Hc in Hm. destruct r as [coin'|]; [|done]. unfold moved in Hm. cbn in Hm. destruct (IsSpent coin'); [done|].
  injection Hm as ->. cbn [deref mbind outcome_bind].
  assert (Hrest : forall j, j ∈ ins -> cache_utxo c1 (prevout j) = cache_utxo c (prevout j)).
  { intros j Hj. rewrite Hu1. unfold set_coin. rewrite decide_False; [done|]. intros E'. apply Hni. rewrite <- E'.
    apply list_elem_of_fmap. by exists j. }
  destruct (IH (acc ++ [coin]) c1 Hok1 Hnd) as (coins & c' & E' & Hok' & Hf & Hu').
  { rewrite List.Forall_forall in *. intros j Hj. rewrite Hrest by (by apply list_elem_of_In). auto. }
  exists (coin :: coins), c'. rewrite E', <- app_assoc. split_and!; try done.
  - cbn [map]. rewrite Hc, <- Hf. f_equal. apply map_ext_in. intros j Hj. symmetry. apply Hrest. by apply list_elem_of_In.
  - intros p. rewrite Hu', Hu1. unfold set_coin. destruct (decide (p ∈ map prevout ins)) as [Hp|Hp].
    + rewrite decide_True by (by right). done.
    + destruct (decide (p = prevout i)) as [->|Hne]; [rewrite decide_True by (by left); done|].
      rewrite decide_False by (rewrite elem_of_cons; tauto). done.
Qed.

Lemma take_outputs_spec txid nHeight cb cs clean : forall outs i c, cache_ok c -> 0 <= i -> i + Z.of_nat (length outs) <= 2^32 ->
  0 <= nHeight < 2^31 ->
  let mk out := mkCoin out cb (nHeight mod 2^31) cs in
  (forall p x, created txid mk outs i p = Some x -> cache_utxo c p = Some x) ->
  exists c', take_outputs txid outs i nHeight cb cs clean c = (clean, c') /\ cache_ok c' /\
    (forall p, cache_utxo c' p = match created txid mk outs i p with Some _ => None | None => cache_utxo c p end).
Proof.
  induction outs as [|out outs IH]; intros i c Hok Hi Hlen Hh mk Hthere; cbn [take_outputs].
  { exists c. split_and!; try done. intros p. by rewrite created_nil. }
  cbn [length] in Hlen. assert (u32 i = i) as -> by (apply u32_id; unfold is_u32; lia).
  assert (Hlast : created txid mk outs (i + 1) (mkOutPoint txid i) = None) by (unfold created; cbn; by rewrite decide_False by (intros [_ ?]; lia)).
  assert (Hother : forall p x, created txid mk outs (i + 1) p = Some x -> p <> mkOutPoint txid i /\ cache_utxo c p = Some x).
  { intros p x Hx. assert (p <> mkOutPoint txid i) as Hne by (intros ->; congruence). split; [done|]. apply Hthere. by rewrite created_cons, decide_False. }
  destruct (IsUnspendable (scriptPubKey out)) eqn:Hun; cbn [negb].
  - destruct (IH (i + 1) c Hok) as (c' & E & Hok' & Hu'); [lia|lia|done|intros p x Hx; by apply Hother|].
    exists c'. split_and!; try done. intros p. rewrite Hu', created_cons, Hun. fold mk. destruct (decide (p = mkOutPoint txid i)) as [->|]; [by rewrite Hlast|done].
  - destruct (SpendCoin_spec c (mkOutPoint txid i) Hok) as (r & c1 & E & Hok1 & _ & Hm & Hu1). rewrite E.
    rewrite (Hthere (mkOutPoint txid i) (mk out)) in Hm by (by rewrite created_cons, decide_True, Hun).
    destruct r as [coin|]; [|done]. unfold moved in Hm. cbn in Hm. destruct (IsSpent coin); [done|]. injection Hm as ->.
    cbn [mk coin_out coin_nHeight fCoinBase fCoinStake]. rewrite bool_decide_eq_true_2, Z.mod_small, Z.eqb_refl, !eqb_reflx by done. cbn [negb orb].
    destruct (IH (i + 1) c1 Hok1) as (c' & E' & Hok' & Hu'); [lia|lia|done| |].
    { intros p x Hx. apply Hother in Hx as [Hne Hx]. rewrite Hu1. unfold set_coin. by rewrite decide_False. }
    exists c'. split_and!; try done. intros p. rewrite Hu', Hu1, created_cons, Hun. fold mk. unfold set_coin.
    destruct (decide (p = mkOutPoint txid i)) as [->|]; [by rewrite Hlast|done].
Qed.

(** A coin that can be restored *)
Definition restorable (coin : Coin) : Prop :=
  IsSpent coin = false /\ IsUnspendable (scriptPubKey (coin_out coin)) = false /\ coin_nHeight coin <> 0.

Lemma ApplyTxInUndo_spec c coin o : cache_ok c -> restorable coin -> cache_utxo c o = None ->
  exists c', ApplyTxInUndo coin c o = Ret (DISCONNECT_OK, c') /\ cache_ok c' /\ (forall p, cache_utxo c' p = set_coin (cache_utxo c) o (Some coin) p).
Proof.
  intros Hok (Hs & Hun & Hh) Hno. unfold ApplyTxInUndo, HaveCoin.
  destruct (FetchCoin_spec c o Hok) as (e & c1 & E & Hok1 & _ & Hsame & _ & _ & Hshow & _). rewrite E, (proj2 (Z.eqb_neq _ _) Hh).
  assert ((match e with Some e0 => (negb (IsSpent (ce_coin e0)), c1) | None => (false, c1) end) = (false, c1)) as ->.
  { destruct e as [e|]; [|done]. rewrite Hno in Hshow. cbn in Hshow. unfold shown in Hshow. by destruct (IsSpent (ce_coin e)). }
  cbn [negb]. destruct (AddCoin_spec c1 o coin false Hok1 Hs) as (c' & E' & Hok' & _ & Hu'); [right; by rewrite Hsame|].
  rewrite E'. exists c'. split_and!; try done. intros p. rewrite Hu', Hun. unfold set_coin. by rewrite Hsame.
Qed.

Lemma restore_inputs_spec clean : forall l c, cache_ok c -> NoDup (map (fun x => prevout x.1) l) ->
  Forall (fun x => restorable x.2 /\ cache_utxo c (prevout x.1) = None) l ->
  exists c', restore_inputs l clean c = Ret (Some clean, c') /\ cache_ok c' /\
    (forall x, x ∈ l -> cache_utxo c' (prevout x.1) = Some x.2) /\
    (forall p, p ∉ map (fun x => prevout x.1) l -> cache_utxo c' p = cache_utxo c p).
Proof.
  induction l as [|[i coin] l IH]; intros c Hok Hnd Hl; cbn [restore_inputs map].
  { exists c. split_and!; try done. by intros x ?%not_elem_of_nil. }
  cbn [map fst] in Hnd. apply NoDup_cons in Hnd as [Hni Hnd]. apply Forall_cons in Hl as [[Hr Hn] Hl]. cbn [fst snd] in *.
  destruct (ApplyTxInUndo_spec c coin (prevout i) Hok Hr Hn) as (c1 & E & Hok1 & Hu1). rewrite E. cbn [mbind outcome_bind fst snd].
  destruct (IH c1 Hok1 Hnd) as (c' & E' & Hok' & Hin & Hout).
  { rewrite List.Forall_forall in *. intros x Hx. destruct (Hl x Hx) as [Hrx Hnx]. split; [done|]. rewrite Hu1. unfold set_coin.
    rewrite decide_False; [done|]. intros Ep. apply Hni. rewrite <- Ep. apply list_elem_of_fmap. exists x. split; [done|]. by apply list_elem_of_In. }
  exists c'. split_and!; try done.
  - intros x [->|Hx]%elem_of_cons; [|by apply Hin]. cbn [fst snd]. rewrite Hout, Hu1 by done. unfold set_coin. by rewrite decide_True.
  - intros p [Hne Hp]%not_elem_of_cons. rewrite Hout, Hu1 by done. unfold set_coin. by rewrite decide_False.
Qed.

(** What the rules checked before a transaction is connected: its inputs are
    distinct and there, its outputs are new and have amounts. *)
Record tx_connectable u (tx : CTransaction) : Prop := {
  tc_in : IsCoinBase tx = false -> NoDup (map prevout (vin tx)) /\ Forall (fun i => is_Some (u (prevout i))) (vin tx);
  tc_new : forall n, u (mkOutPoint (GetHash tx) n) = None;
  tc_out : Forall (fun o => nValue o <> -1) (vout tx);
  tc_count : Z.of_nat (length (vout tx)) <= 2^32;
}.

(** The coin set after the inputs are spent *)
Definition spend_inputs u (tx : CTransaction) (p : COutPoint) : option Coin :=
  if IsCoinBase tx then u p else if decide (p ∈ map prevout (vin tx)) then None else u p.

(** The coin set after a transaction *)
Definition connect_tx u (tx : CTransaction) (nHeight : Z) (p : COutPoint) : option Coin :=
  or_else (created (GetHash tx) (fun out => mkCoin out (IsCoinBase tx) (nHeight mod 2^31) (IsCoinStake tx)) (vout tx) 0 p)
          (spend_inputs u tx p).

(** The undo data of a transaction *)
Definition undo_of u (tx : CTransaction) (undo : CTxUndo) : Prop :=
  if IsCoinBase tx then undo = [] else map (fun i => u (prevout i)) (vin tx) = map Some undo.

Lemma tx_connectable_ext u u' tx : (forall p, u p = u' p) -> tx_connectable u tx -> tx_connectable u' tx.
Proof.
  intros E [Hi Hn Ho Hc]. split; try done; [|intros n; by rewrite <- E].
  intros Hcb. destruct (Hi Hcb) as [? Hf]. split; [done|]. eapply Forall_impl; [exact Hf|]. intros i Hs. cbn in *. by rewrite <- E.
Qed.

Lemma UpdateCoins_spec c u tx nHeight : cache_ok c -> (forall p, cache_utxo c p = u p) -> tx_connectable u tx ->
  exists undo c', UpdateCoins GetHash tx c nHeight = Ret (undo, c') /\ cache_ok c' /\ undo_of u tx undo /\
    (forall p, cache_utxo c' p = connect_tx u tx nHeight p).
Proof.
  intros Hok Hu [Hi Hn Ho Hc]. unfold UpdateCoins.
  assert (exists undo c1, (if negb (IsCoinBase tx) then spend_loop (vin tx) [] c else Ret (([] : CTxUndo), c)) = Ret (undo, c1) /\ cache_ok c1 /\
    undo_of u tx undo /\ (forall p, cache_utxo c1 p = spend_inputs u tx p)) as (undo & c1 & E & Hok1 & Hundo & Hu1).
  { unfold undo_of, spend_inputs. destruct (IsCoinBase tx); cbn [negb]; [by exists [], c|].
    destruct (Hi eq_refl) as [Hnd Hf]. destruct (spend_loop_spec (vin tx) [] c Hok Hnd) as (coins & c1 & E & Hok1 & Hm & Hu1).
    { eapply Forall_impl; [exact Hf|]. intros i Hs. cbn in *. by rewrite Hu. }
    exists coins, c1. split_and!; try done.
    - rewrite <- Hm. apply map_ext. intros i. by rewrite Hu.
    - intros p. by rewrite Hu1, Hu. }
  match goal with |- context [mbind _ ?x] => replace x with (Ret (undo, c1)) by (symmetry; exact E) end.
  cbn [mbind outcome_bind fst snd]. unfold AddCoins.
  destruct (add_coins_loop_spec (GetHash tx) nHeight (IsCoinBase tx) (IsCoinStake tx) (vout tx) 0 c1 Hok1) as (c' & E' & Hok' & Hu');
    [lia|lia|done| |].
  { intros n _. rewrite Hu1. unfold spend_inputs. rewrite Hn. destruct (IsCoinBase tx); [done|by case_decide]. }
  rewrite E'. exists undo, c'. split_and!; try done. intros p. rewrite Hu'. unfold connect_tx. by rewrite Hu1.
Qed.

(** Coins below the block can all be restored. *)
Definition coins_restorable u : Prop := forall p coin, u p = Some coin -> restorable coin.

Lemma undo_of_coins u tx undo : coins_restorable u -> IsCoinBase tx = false -> undo_of u tx undo ->
  length undo = length (vin tx) /\ (forall i coin, (i, coin) ∈ combine (vin tx) undo -> u (prevout i) = Some coin /\ restorable coin) /\
  map (fun x => prevout x.1) (combine (vin tx) undo) = map prevout (vin tx).
Proof.
  intros Hu Hcb. unfold undo_of. rewrite Hcb. revert undo. induction (vin tx) as [|i ins IH]; intros [|coin undo] E; try done; cbn [map combine length] in *.
  - split_and!; try done. by intros i coin ?%not_elem_of_nil.
  - injection E as Ei E. destruct (IH undo E) as (Hl & Hin & Hm). split_and!; [lia| |by rewrite Hm].
    intros j x [[= -> ->]|Hx]%elem_of_cons; [split; [done|by apply Hu in Ei]|by apply Hin].
Qed.

(** Disconnecting a transaction right after it was connected gives the coin set back. *)
Lemma disconnect_tx_spec c u tx undo nHeight clean : coins_restorable u -> tx_connectable u tx -> 0 < nHeight < 2^31 ->
  cache_ok c -> (forall p, cache_utxo c p = connect_tx u tx nHeight p) -> undo_of u tx undo ->
  exists c', disconnect_tx GetHash tx (if IsCoinBase tx then None else Some undo) nHeight clean c = Ret (Some clean, c') /\
    cache_ok c' /\ (forall p, cache_utxo c' p = u p).
Proof.
  intros Hu Hc Hh Hok Hcu Hundo. unfold disconnect_tx.
  set (mk := fun out => mkCoin out (IsCoinBase tx) (nHeight mod 2^31) (IsCoinStake tx)).
  destruct (take_outputs_spec (GetHash tx) nHeight (IsCoinBase tx) (IsCoinStake tx) clean (vout tx) 0 c Hok) as (c1 & E & Hok1 & Hu1);
    [lia|pose proof (tc_count _ _ Hc); lia|lia| |].
  { intros p x Hx. rewrite Hcu. unfold connect_tx. by rewrite Hx. }
  rewrite E. fold mk in Hu1.
  assert (Hspent : forall p, cache_utxo c1 p = spend_inputs u tx p).
  { intros p. rewrite Hu1, Hcu. unfold connect_tx. fold mk. destruct (created _ mk (vout tx) 0 p) as [x|] eqn:Ex; [|done].
    assert (u p = None) as Hp.
    { unfold created in Ex. case_decide as Hd; [|done]. destruct Hd as [Hd _]. destruct p as [h n]. cbn [op_hash] in Hd. subst h. apply (tc_new _ _ Hc n). }
    unfold spend_inputs. rewrite Hp. destruct (IsCoinBase tx); [done|by case_decide]. }
  unfold spend_inputs in Hspent. destruct (IsCoinBase tx) eqn:Hcb; [by exists c1|].
  destruct (undo_of_coins u tx undo Hu Hcb Hundo) as (Hlen & Hin & Hmap). rewrite Hlen, Nat.eqb_refl. cbn [negb].
  destruct (tc_in _ _ Hc Hcb) as [Hnd Hav].
  destruct (restore_inputs_spec clean (rev (combine (vin tx) undo)) c1 Hok1) as (c' & E' & Hok' & Hback & Hsame).
  { rewrite map_rev, Hmap. by rewrite <- Permutation_rev. }
  { apply List.Forall_forall. intros [i coin] Hx%in_rev%list_elem_of_In. destruct (Hin i coin Hx) as [_ Hr]. split; [done|]. cbn [fst].
    rewrite Hspent, decide_True; [done|]. rewrite <- Hmap. apply list_elem_of_fmap. by exists (i, coin). }
  exists c'. split_and!; try done. intros p. rewrite map_rev, Hmap in Hsame.
  destruct (decide (p ∈ map prevout (vin tx))) as [Hp|Hp].
  - rewrite <- Hmap in Hp. apply list_elem_of_fmap in Hp as ([i coin] & -> & Hx). cbn [fst].
    pose proof (Hback (i, coin)) as Hb. cbn [fst snd] in Hb. rewrite Hb by (by rewrite <- Permutation_rev). symmetry. by apply Hin.
  - rewrite Hsame, Hspent by (by rewrite <- Permutation_rev). by rewrite decide_False.
Qed.

(** A created coin can be restored. *)
Lemma connect_tx_restorable u tx nHeight : coins_restorable u -> tx_connectable u tx -> 0 < nHeight < 2^31 ->
  coins_restorable (connect_tx u tx nHeight).
Proof.
  intros Hu Hc Hh p coin. unfold connect_tx, spend_inputs. destruct (created _ _ (vout tx) 0 p) as [x|] eqn:Ex; cbn [or_else].
  - intros [= <-]. unfold created in Ex. case_decide; [|done]. apply bind_Some in Ex as (out & Ho & Ex).
    destruct (IsUnspendable (scriptPubKey out)) eqn:Hun; [done|]. injection Ex as <-. split_and!; [|done|cbn; rewrite Z.mod_small; lia].
    unfold IsSpent, txout_IsNull. cbn. apply Z.eqb_neq. pose proof (tc_out _ _ Hc) as Hf. rewrite List.Forall_forall in Hf.
    apply Hf, list_elem_of_In. by eapply list_elem_of_lookup_2.
  - destruct (IsCoinBase tx); [apply Hu|]. case_decide; [done|apply Hu].
Qed.

(** The transactions of a block after the first, on the coin set they meet *)
Fixpoint rest_connectable u (txs : list CTransaction) (nHeight : Z) : Prop :=
  match txs with
  | [] => True
  | tx :: txs' => IsCoinBase tx = false /\ tx_connectable u tx /\ rest_connectable (connect_tx u tx nHeight) txs' nHeight
  end.

(** The coin set after a list of transactions *)
Fixpoint connect_txs u (txs : list CTransaction) (nHeight : Z) : COutPoint -> option Coin :=
  match txs with [] => u | tx :: txs' => connect_txs (connect_tx u tx nHeight) txs' nHeight end.

(** Undo data that matches the transactions *)
Fixpoint undos_of u (txs : list CTransaction) (nHeight : Z) (undos : CBlockUndo) : Prop :=
  match txs, undos with
  | [], [] => True
  | tx :: txs', undo :: undos' => undo_of u tx undo /\ undos_of (connect_tx u tx nHeight) txs' nHeight undos'
  | _, _ => False
  end.

Lemma connect_rest_spec nHeight : forall txs acc c u, cache_ok c -> (forall p, cache_utxo c p = u p) -> rest_connectable u txs nHeight ->
  exists undos c', connect_rest GetHash txs nHeight acc c = Ret (acc ++ undos, c') /\ cache_ok c' /\
    undos_of u txs nHeight undos /\ (forall p, cache_utxo c' p = connect_txs u txs nHeight p).
Proof.
  induction txs as [|tx txs IH]; intros acc c u Hok Hu Hb; cbn [connect_rest connect_txs].
  { exists [], c. rewrite app_nil_r. by split_and!. }
  destruct Hb as (Hcb & Hc & Hb). destruct (UpdateCoins_spec c u tx nHeight Hok Hu Hc) as (undo & c1 & E & Hok1 & Hundo & Hu1).
  rewrite E. cbn [mbind outcome_bind fst snd]. destruct (IH (acc ++ [undo]) c1 _ Hok1 Hu1 Hb) as (undos & c' & E' & Hok' & Hundos & Hu').
  exists (undo :: undos), c'. rewrite E', <- app_assoc. by split_and!.
Qed.

Lemma undos_of_length u txs nHeight undos : undos_of u txs nHeight undos -> length undos = length txs.
Proof. revert u undos. induction txs as [|tx txs IH]; intros u [|undo undos]; cbn; try done. intros [_ Hr]. by rewrite (IH _ _ Hr). Qed.

Lemma disconnect_loop_app l k nHeight clean c : disconnect_loop GetHash (l ++ k) nHeight clean c =
  r ← disconnect_loop GetHash l nHeight clean c;
  match r.1 with None => Ret (None, r.2) | Some clean => disconnect_loop GetHash k nHeight clean r.2 end.
Proof.
  revert clean c. induction l as [|[tx undo] l IH]; intros clean c; [done|]. cbn [app disconnect_loop].
  destruct (disconnect_tx GetHash tx undo nHeight clean c) as [[[cl|] c1]|]; [|done|done]. cbn [mbind outcome_bind fst snd]. apply IH.
Qed.

Lemma disconnect_rest_spec nHeight : 0 < nHeight < 2^31 -> forall txs undos u c, coins_restorable u -> rest_connectable u txs nHeight ->
  undos_of u txs nHeight undos -> cache_ok c -> (forall p, cache_utxo c p = connect_txs u txs nHeight p) ->
  exists c', disconnect_loop GetHash (rev (combine txs (map Some undos))) nHeight true c = Ret (Some true, c') /\
    cache_ok c' /\ (forall p, cache_utxo c' p = u p).
Proof.
  intros Hh. induction txs as [|tx txs IH]; intros [|undo undos] u c Hr Hb Hundo Hok Hu; cbn [undos_of] in Hundo; try done.
  { by exists c. }
  destruct Hb as (Hcb & Hc & Hb). destruct Hundo as [Hundo Hundos]. cbn [map combine rev]. rewrite disconnect_loop_app.
  destruct (IH undos (connect_tx u tx nHeight) c) as (c1 & E & Hok1 & Hu1); try done; [by apply connect_tx_restorable|].
  rewrite E. cbn [mbind outcome_bind fst snd disconnect_loop].
  destruct (disconnect_tx_spec c1 u tx undo nHeight true Hr Hc Hh Hok1 Hu1 Hundo) as (c' & E' & Hok' & Hu').
  rewrite Hcb in E'. rewrite E'. cbn [mbind outcome_bind fst snd]. by exists c'.
Qed.

End laws.

(** ** Properties *)

(** The block's own rules, on the coin set it meets *)
Definition block_connectable (GetHash : CTransaction -> uint256) (u : COutPoint -> option Coin) (vtx : list CTransaction) (nHeight : Z) : Prop :=
  match vtx with
  | [] => False
  | tx :: txs => IsCoinBase tx = true /\ tx_connectable GetHash u tx /\ rest_connectable GetHash (connect_tx GetHash u tx nHeight) txs nHeight
  end.

(** C23: connecting the transactions of a block and disconnecting them again with
    the undo data the connection left gives back exactly the coin set from
    before, through any stack of caches: neither step aborts, the connection
    leaves the coin set of spending every input and creating every spendable
    output in order, and the disconnection reports a clean result and the
    previous block as best. *)
Theorem disconnect_connect_coins (V : Type) `{CoinsView V} `{!CoinsViewLaws V} `{MemoryUsage} (GetHash : CTransaction -> uint256)
    (c : CCoinsViewCache V) (vtx : list CTransaction) (nHeight : Z) (prevHash : uint256) :
  cache_ok c -> coins_restorable (cache_utxo c) -> 0 < nHeight < 2^31 -> block_connectable GetHash (cache_utxo c) vtx nHeight ->
  exists undo c1 c2, connect_coins GetHash vtx nHeight c = Ret (undo, c1) /\
    (forall p, cache_utxo c1 p = connect_txs GetHash (cache_utxo c) vtx nHeight p) /\
    disconnect_coins GetHash vtx undo nHeight prevHash c1 = Ret (DISCONNECT_OK, c2) /\
    (forall p, cache_utxo c2 p = cache_utxo c p) /\ hashBlock c2 = prevHash /\ SanityCheck c2 = true.
Proof.
  intros Hok Hr Hh Hb. destruct vtx as [|tx txs]; [done|]. destruct Hb as (Hcb & Hc & Hb). cbn [connect_coins connect_txs].
  destruct (UpdateCoins_spec GetHash c (cache_utxo c) tx nHeight Hok (fun _ => eq_refl) Hc) as (undo0 & c0 & E0 & Hok0 & Hundo0 & Hu0).
  rewrite E0. cbn [mbind outcome_bind fst snd].
  destruct (connect_rest_spec GetHash nHeight txs [] c0 _ Hok0 Hu0 Hb) as (undos & c1 & E1 & Hok1 & Hundos & Hu1). rewrite E1. cbn [app].
  unfold disconnect_coins.
  destruct (disconnect_rest_spec GetHash nHeight Hh txs undos (connect_tx GetHash (cache_utxo c) tx nHeight) c1) as (c2 & E2 & Hok2 & Hu2);
    try done; [by apply connect_tx_restorable|].
  destruct (disconnect_tx_spec GetHash c2 (cache_utxo c) tx undo0 nHeight true Hr Hc Hh Hok2 Hu2 Hundo0) as (c3 & E3 & Hok3 & Hu3).
  exists undos, c1, (SetBestBlock c3 prevHash). split_and!; try done.
  - rewrite (undos_of_length GetHash _ _ _ _ Hundos). cbn [length]. rewrite Nat.add_1_r, Nat.eqb_refl. cbn [negb].
    cbn [map combine rev]. rewrite disconnect_loop_app, E2. cbn [mbind outcome_bind fst snd disconnect_loop].
    rewrite Hcb in E3. rewrite E3. done.
  - apply cache_ok_sanity. destruct Hok3. by split.
Qed.

(** A block that spends one coin of the demo store and an output of its own *)
Definition demo_hash (tx : CTransaction) : uint256 := repeat (100 + nLockTime tx) 32.
Definition demo_coinbase : CTransaction :=
  mkTx [mkTxIn (mkOutPoint uint256_zero NULL_INDEX) [1] 0] [mkTxOut 50 [0x51]] 2 0 0 [].
Definition demo_spend1 : CTransaction := mkTx [mkTxIn (demo_out 1) [] 0] [mkTxOut 900 [0x51]; mkTxOut 0 [OP_RETURN; 1]] 2 0 1 [].
Definition demo_spend2 : CTransaction := mkTx [mkTxIn (mkOutPoint (repeat 101 32) 0) [] 0; mkTxIn (demo_out 2) [] 0] [mkTxOut 2000 [0x51]] 2 0 2 [].

Definition demo_block : list CTransaction := [demo_coinbase; demo_spend1; demo_spend2].
Definition demo_cache : CCoinsViewCache CCoinsViewDB := new_cache demo_db.

Lemma demo_cache_coins p coin : cache_utxo demo_cache p = Some coin ->
  (p = demo_out 2 /\ coin = demo_coin 2) \/ (p = demo_out 1 /\ coin = demo_coin 1).
Proof.
  unfold cache_utxo, demo_cache, new_cache. cbn [cacheCoins base]. rewrite lookup_empty.
  cbn [utxo demo_laws db_laws demo_db db_coins]. rewrite !lookup_insert_Some.
  intros [[<- <-]|[_ [[<- <-]|[_ []%lookup_empty_Some]]]]; auto.
Qed.

(** Outpoints of other transactions that are absent stay absent. *)
Lemma connect_tx_absent GetHash u tx nHeight p : op_hash p <> GetHash tx -> u p = None -> connect_tx GetHash u tx nHeight p = None.
Proof.
  intros Hne Hu. unfold connect_tx, created, spend_inputs. rewrite decide_False by tauto. cbn [or_else]. rewrite Hu.
  destruct (IsCoinBase tx); [done|by case_decide].
Qed.

Lemma demo_absent k n : 100 <= k -> k < 200 -> cache_utxo demo_cache (mkOutPoint (repeat k 32) n) = None.
Proof.
  intros H1 H2. destruct (cache_utxo demo_cache _) as [coin|] eqn:E; [|done].
  apply demo_cache_coins in E as [[E _]|[E _]]; injection E as E; lia.
Qed.

Lemma demo_block_connectable : block_connectable demo_hash (cache_utxo demo_cache) demo_block 20.
Proof.
  unfold demo_block, block_connectable. split; [reflexivity|]. split.
  { split; [done|intros n; by apply (demo_absent 100)|repeat constructor; discriminate|vm_compute; discriminate]. }
  split; [reflexivity|]. split.
  { split.
    - intros _. split; [apply NoDup_singleton|]. repeat constructor. vm_compute. by eexists.
    - intros n. apply connect_tx_absent; [discriminate|]. by apply (demo_absent 101).
    - repeat constructor; discriminate.
    - vm_compute. discriminate. }
  split; [reflexivity|]. split; [|exact I]. split.
  - intros _. split; [apply NoDup_cons; split; [intros E%list_elem_of_singleton; discriminate|apply NoDup_singleton]|].
    repeat constructor; vm_compute; by eexists.
  - intros n. apply connect_tx_absent; [discriminate|]. apply connect_tx_absent; [discriminate|]. by apply (demo_absent 102).
  - repeat constructor; discriminate.
  - vm_compute. discriminate.
Qed.

Lemma disconnect_connect_coins_witness :
  exists undo c1 c2, connect_coins demo_hash demo_block 20 demo_cache = Ret (undo, c1) /\
    undo = [[demo_coin 1]; [mkCoin (mkTxOut 900 [0x51]) false 20 false; demo_coin 2]] /\
    disconnect_coins demo_hash demo_block undo 20 (repeat 9 32) c1 = Ret (DISCONNECT_OK, c2).
Proof.
  destruct (disconnect_connect_coins CCoinsViewDB demo_hash demo_cache demo_block 20 (repeat 9 32)) as (undo & c1 & c2 & E1 & _ & E2 & _).
  - apply new_cache_ok. exact demo_db_consistent.
  - intros p coin [[_ ->]|[_ ->]]%demo_cache_coins; repeat split; discriminate.
  - lia.
  - exact demo_block_connectable.
  - exists undo, c1, c2. split; [exact E1|]. split; [|exact E2].
    assert (Hu : match connect_coins demo_hash demo_block 20 demo_cache with Ret r => r.1 | Abort => [] end =
      [[demo_coin 1]; [mkCoin (mkTxOut 900 [0x51]) false 20 false; demo_coin 2]]) by (vm_compute; reflexivity).
    rewrite E1 in Hu. exact Hu.
Defined.
