(* ===== verification/Compressor.v ===== *)
(** * Compressor: the compact form of coins on disk
      (src/src/compressor.{h,cpp}, Coin::Serialize of src/src/coins.h,
       TxInUndoFormatter of src/src/undo.h)

    Amounts are written with their trailing zeros counted, and the common
    scripts as a tag and a hash or key. The curve operations on public keys are
    arguments. *)

From Stdlib Require Import ZArith Lia.
From stdpp Require Import base list numbers option.
From S2P Require Import Prelude Arith256 Uint256 Serialize Transaction Script Coins.

(** ** Amounts *)

(** The loop that divides by ten, at most [k] times *)
Fixpoint strip_zeros (k : nat) (n e : Z) : Z * Z :=
  match k with
  | O => (n, e)
  | S k' => if n mod 10 =? 0 then strip_zeros k' (n / 10) (e + 1) else (n, e)
  end.

(** [CompressAmount] *)
Definition CompressAmount (n : Z) : Z :=
  if n =? 0 then 0
  else
    let '(n, e) := strip_zeros 9 n 0 in
    if e <? 9 then
      let d := n mod 10 in
      u64 (1 + u64 (u64 (n / 10 * 9) + d - 1) * 10 + e)
    else u64 (1 + u64 (n - 1) * 10 + 9).

(** The loop that multiplies by ten, [e] times *)
Fixpoint add_zeros (e : nat) (n : Z) : Z :=
  match e with O => n | S e' => add_zeros e' (u64 (n * 10)) end.

(** [DecompressAmount] *)
Definition DecompressAmount (x : Z) : Z :=
  if x =? 0 then 0
  else
    let x := x - 1 in
    let e := x mod 10 in
    let x := x / 10 in
    let n := if e <? 9 then u64 (x / 9 * 10 + (x mod 9 + 1)) else x + 1 in
    add_zeros (Z.to_nat e) n.

(** ** Scripts *)

(** Bytes [a] to [b - 1] of a script *)
Definition slice (a b : nat) (s : list Z) : list Z := take (b - a) (drop a s).

Section scripts.

(** [CPubKey::IsFullyValid] and [CPubKey::Decompress] *)
Context (IsFullyValid : list Z -> bool) (Decompress : list Z -> option (list Z)).

(** [IsToKeyID], [IsToScriptID], [IsToPubKey] *)
Definition IsToKeyID (s : CScript) : option (list Z) :=
  if ((length s =? 25)%nat && (byte_at s 0 =? OP_DUP) && (byte_at s 1 =? OP_HASH160) && (byte_at s 2 =? 20) &&
      (byte_at s 23 =? OP_EQUALVERIFY) && (byte_at s 24 =? OP_CHECKSIG))%bool
  then Some (slice 3 23 s) else None.
Definition IsToScriptID (s : CScript) : option (list Z) :=
  if ((length s =? 23)%nat && (byte_at s 0 =? OP_HASH160) && (byte_at s 1 =? 20) && (byte_at s 22 =? OP_EQUAL))%bool
  then Some (slice 2 22 s) else None.
Definition IsToPubKey (s : CScript) : option (list Z) :=
  if ((length s =? 35)%nat && (byte_at s 0 =? 33) && (byte_at s 34 =? OP_CHECKSIG) &&
      ((byte_at s 1 =? 0x02) || (byte_at s 1 =? 0x03)))%bool
  then Some (slice 1 34 s)
  else if ((length s =? 67)%nat && (byte_at s 0 =? 65) && (byte_at s 66 =? OP_CHECKSIG) && (byte_at s 1 =? 0x04))%bool
  then if IsFullyValid (slice 1 66 s) then Some (slice 1 66 s) else None
  else None.

(** [CompressScript] *)
Definition CompressScript (s : CScript) : option (list Z) :=
  match IsToKeyID s with
  | Some h => Some (0x00 :: h)
  | None =>
      match IsToScriptID s with
      | Some h => Some (0x01 :: h)
      | None =>
          match IsToPubKey s with
          | Some k =>
              if ((byte_at k 0 =? 0x02) || (byte_at k 0 =? 0x03))%bool then Some (byte_at k 0 :: slice 1 33 k)
              else if byte_at k 0 =? 0x04 then Some (Z.lor 0x04 (Z.land (byte_at k 64) 0x01) :: slice 1 33 k)
              else None
          | None => None
          end
      end
  end.

(** [GetSpecialScriptSize] *)
Definition GetSpecialScriptSize (nSize : Z) : nat :=
  if ((nSize =? 0) || (nSize =? 1))%bool then 20
  else if ((nSize =? 2) || (nSize =? 3) || (nSize =? 4) || (nSize =? 5))%bool then 32
  else 0.

(** [DecompressScript]; [None] leaves the script alone *)
Definition DecompressScript (nSize : Z) (v : list Z) : option CScript :=
  if nSize =? 0x00 then Some ([OP_DUP; OP_HASH160; 20] ++ take 20 v ++ [OP_EQUALVERIFY; OP_CHECKSIG])
  else if nSize =? 0x01 then Some ([OP_HASH160; 20] ++ take 20 v ++ [OP_EQUAL])
  else if ((nSize =? 0x02) || (nSize =? 0x03))%bool then Some ([33; nSize] ++ take 32 v ++ [OP_CHECKSIG])
  else if ((nSize =? 0x04) || (nSize =? 0x05))%bool then
    match Decompress ((nSize - 2) :: take 32 v) with
    | None => None
    | Some k => Some ([65] ++ k ++ [OP_CHECKSIG])
    end
  else None.

Definition nSpecialScripts : Z := 6.

(** [ScriptCompression] *)
Definition script_Ser (s : CScript) : list Z :=
  match CompressScript s with
  | Some compr => compr
  | None => WriteVarInt (u32 (Z.of_nat (length s) + nSpecialScripts)) ++ s
  end.
Definition script_Unser (s : stream) : option (CScript * stream) :=
  '(nSize, s) ← ReadVarInt (2^32 - 1) s;
  if nSize <? nSpecialScripts then
    '(vch, s) ← read_bytes (GetSpecialScriptSize nSize) s;
    Some (default [] (DecompressScript nSize vch), s)
  else
    let nSize := nSize - nSpecialScripts in
    if nSize >? MAX_SCRIPT_SIZE then
      '(_, s) ← read_bytes (Z.to_nat nSize) s;
      Some ([OP_RETURN], s)
    else read_bytes (Z.to_nat nSize) s.

(** [AmountCompression] and [TxOutCompression] *)
Definition amount_Ser (v : Z) : list Z := WriteVarInt (CompressAmount (u64 v)).
Definition amount_Unser (s : stream) : option (Z * stream) :=
  '(v, s) ← ReadVarInt (2^64 - 1) s; Some (i64 (DecompressAmount v), s).
Definition txout_Ser (o : CTxOut) : list Z := amount_Ser (nValue o) ++ script_Ser (scriptPubKey o).
Definition txout_Unser (s : stream) : option (CTxOut * stream) :=
  '(v, s) ← amount_Unser s; '(sc, s) ← script_Unser s; Some (mkTxOut v sc, s).

(** [Coin::Serialize] and [Coin::Unserialize] *)
Definition coin_Serialize (c : Coin) : outcome (list Z) :=
  if IsSpent c then Abort
  else Ret (WriteVarInt (u32 (coin_nHeight c * 2 + b2z (fCoinBase c))) ++ txout_Ser (coin_out c) ++ WriteVarInt (b2z (fCoinStake c))).
Definition coin_Unserialize (s : stream) : option (Coin * stream) :=
  '(code, s) ← ReadVarInt (2^32 - 1) s;
  '(out, s) ← txout_Unser s;
  '(nFlag, s) ← ReadVarInt (2^32 - 1) s;
  Some (mkCoin out (negb (Z.land code 1 =? 0)) (Z.shiftr code 1) (negb (Z.land nFlag 1 =? 0)), s).

(** [TxInUndoFormatter] *)
Definition undo_Ser (c : Coin) : list Z :=
  WriteVarInt (u32 (coin_nHeight c * 4 + b2z (fCoinBase c) + (if fCoinStake c then 2 else 0))) ++
  (if coin_nHeight c >? 0 then [0] else []) ++ txout_Ser (coin_out c).
Definition undo_Unser (s : stream) : option (Coin * stream) :=
  '(nCode, s) ← ReadVarInt (2^32 - 1) s;
  let nHeight := Z.shiftr nCode 2 in
  s ← (if nHeight >? 0 then '(_, s) ← ReadVarInt (2^32 - 1) s; Some s else Some s);
  '(out, s) ← txout_Unser s;
  Some (mkCoin out (negb (Z.land nCode 1 =? 0)) nHeight (negb (Z.land nCode 2 =? 0)), s).

End scripts.

(** ** Amounts round trip *)

Lemma strip_zeros_spec k : forall n e, 0 < n -> exists m j, strip_zeros k n e = (m, e + Z.of_nat j) /\
  n = m * 10 ^ Z.of_nat j /\ 0 < m /\ (j <= k)%nat /\ ((j < k)%nat -> m mod 10 <> 0).
Proof.
  induction k as [|k IH]; intros n e Hn; cbn [strip_zeros].
  { exists n, 0%nat. split_and!; try done; [f_equal; lia|cbn; lia|lia]. }
  destruct (Z.eqb_spec (n mod 10) 0) as [E|E].
  - assert (n = 10 * (n / 10)) as Hd by (apply Z.div_exact; lia).
    destruct (IH (n / 10) (e + 1)) as (m & j & Es & Em & Hm & Hj & Hlast); [lia|].
    exists m, (S j). split_and!; [rewrite Es; f_equal; lia| |done|lia|intros; apply Hlast; lia].
    rewrite Hd, Em, Nat2Z.inj_succ, Z.pow_succ_r by lia. lia.
  - exists n, 0%nat. split_and!; try done; [f_equal; lia|cbn; lia|lia].
Qed.

Lemma add_zeros_spec j : forall m, 0 <= m -> m * 10 ^ Z.of_nat j < 2^64 -> add_zeros j m = m * 10 ^ Z.of_nat j.
Proof.
  induction j as [|j IH]; intros m Hm Hlt; cbn [add_zeros]; [lia|].
  rewrite Nat2Z.inj_succ, Z.pow_succ_r in Hlt |- * by lia.
  assert (0 < 10 ^ Z.of_nat j) by (apply Z.pow_pos_nonneg; lia).
  rewrite u64_id by (unfold is_u64; nia). rewrite IH by nia. lia.
Qed.

(** The codes of amounts below [2^60], with nothing lost to the word size *)
Lemma CompressAmount_spec n : 0 <= n < 2^60 -> 0 <= CompressAmount n < 2^64 /\ DecompressAmount (CompressAmount n) = n.
Proof.
  intros Hn. unfold CompressAmount. destruct (Z.eqb_spec n 0) as [->|Hnz]; [done|].
  destruct (strip_zeros_spec 9 n 0 ltac:(lia)) as (m & j & E & Em & Hm & Hj & Hlast). rewrite E. rewrite Z.add_0_l.
  assert (0 < 10 ^ Z.of_nat j) as Hp by (apply Z.pow_pos_nonneg; lia).
  assert (m <= n) as Hmn by nia.
  pose proof (Z.div_mod m 10 ltac:(lia)) as Hdm. pose proof (Z.mod_pos_bound m 10 ltac:(lia)) as Hmb. pose proof (Z.div_pos m 10 ltac:(lia) ltac:(lia)).
  destruct (Z.ltb_spec (Z.of_nat j) 9) as [Hlt|Hge].
  - assert (m mod 10 <> 0) as Hd by (apply Hlast; lia).
    rewrite (u64_id (m / 10 * 9)) by (unfold is_u64; lia). rewrite (u64_id (_ + m mod 10 - 1)) by (unfold is_u64; lia).
    rewrite u64_id by (unfold is_u64; lia).
    set (q := m / 10) in *. set (d := m mod 10) in *.
    split; [lia|]. unfold DecompressAmount. rewrite (proj2 (Z.eqb_neq _ 0)) by lia.
    replace (1 + (q * 9 + d - 1) * 10 + Z.of_nat j - 1) with (Z.of_nat j + (q * 9 + d - 1) * 10) by lia.
    rewrite Z.mod_add, Z.div_add, (Z.mod_small (Z.of_nat j)), (Z.div_small (Z.of_nat j)) by lia.
    rewrite (proj2 (Z.ltb_lt _ 9)) by lia. rewrite Z.add_0_l.
    replace (q * 9 + d - 1) with ((d - 1) + q * 9) by lia. rewrite Z.mod_add, Z.div_add, (Z.mod_small (d - 1)), (Z.div_small (d - 1)) by lia.
    replace ((0 + q) * 10 + (d - 1 + 1)) with m by lia. rewrite u64_id by (unfold is_u64; lia).
    rewrite Nat2Z.id, add_zeros_spec by lia. done.
  - assert (j = 9%nat) as -> by lia. rewrite (u64_id (m - 1)) by (unfold is_u64; lia). rewrite u64_id by (unfold is_u64; lia).
    split; [lia|]. unfold DecompressAmount. rewrite (proj2 (Z.eqb_neq _ 0)) by lia.
    replace (1 + (m - 1) * 10 + 9 - 1) with (9 + (m - 1) * 10) by lia. rewrite Z.mod_add, Z.div_add by lia.
    change (9 mod 10) with 9. change (9 / 10) with 0. change (9 <? 9) with false. cbv iota.
    replace (0 + (m - 1) + 1) with m by lia. change (Z.to_nat 9) with 9%nat. rewrite add_zeros_spec by lia. done.
Qed.

Lemma amount_roundtrip v s : 0 <= v < 2^60 -> amount_Unser (amount_Ser v ++ s) = Some (v, s).
Proof.
  intros Hv. unfold amount_Unser, amount_Ser. rewrite (u64_id v) by (unfold is_u64; lia).
  destruct (CompressAmount_spec v Hv) as [Hr E]. rewrite ReadVarInt_app by lia. cbn [mbind option_bind]. rewrite E.
  unfold i64. rewrite Z.mod_small by lia. do 2 f_equal. lia.
Qed.

(** ** Scripts round trip *)

Lemma drop_byte n (s : list Z) : (n < length s)%nat -> drop n s = byte_at s n :: drop (S n) s.
Proof.
  intros Hn. destruct (lookup_lt_is_Some_2 s n Hn) as [x Hx]. unfold byte_at. rewrite (list_lookup_total_correct _ _ _ Hx).
  by apply drop_S.
Qed.

Lemma drop_slice a b (s : list Z) : (a <= b)%nat -> drop a s = slice a b s ++ drop b s.
Proof.
  intros Hab. unfold slice. rewrite <- (take_drop (b - a) (drop a s)) at 1. f_equal. rewrite drop_drop. f_equal. lia.
Qed.

Lemma slice_length a b (s : list Z) : (b <= length s)%nat -> length (slice a b s) = (b - a)%nat.
Proof. intros Hb. unfold slice. rewrite length_take, length_drop. lia. Qed.

Lemma WriteVarInt_small t : 0 <= t < 128 -> WriteVarInt t = [t].
Proof.
  intros Ht. unfold WriteVarInt. change (varint_digits 10 t true) with
    (if t <=? 0x7f then [Z.lor (Z.land t 0x7f) 0] else Z.lor (Z.land t 0x7f) 0 :: varint_digits 9 (Z.shiftr t 7 - 1) false).
  rewrite (proj2 (Z.leb_le _ _)) by lia. rewrite digit_first, Z.mod_small by lia. done.
Qed.

Section script_laws.

Context (IsFullyValid : list Z -> bool) (Decompress : list Z -> option (list Z)).
(** An uncompressed key on the curve is recovered from its first coordinate and
    the parity of the second. *)
Context (Hkeys : forall k, length k = 65%nat -> byte_at k 0 = 4 -> IsFullyValid k = true ->
  Decompress ((2 + Z.land (byte_at k 64) 1) :: slice 1 33 k) = Some k).

Lemma slice_0 (s : list Z) a b c : (a + c <= b)%nat -> slice 0 c (slice a b s) = slice a (a + c) s.
Proof. intros Hl. unfold slice. rewrite drop_0, take_take. f_equal. lia. Qed.

Lemma special_unser t v script s : 0 <= t < 6 -> length v = GetSpecialScriptSize t -> DecompressScript Decompress t v = Some script ->
  script_Unser Decompress ((t :: v) ++ s) = Some (script, s).
Proof.
  intros Ht Hv E. unfold script_Unser. change ((t :: v) ++ s) with ([t] ++ v ++ s). rewrite <- (WriteVarInt_small t) by lia.
  rewrite ReadVarInt_app by lia. cbn [mbind option_bind]. unfold nSpecialScripts. rewrite (proj2 (Z.ltb_lt _ _)) by lia.
  rewrite read_bytes_app by done. cbn [mbind option_bind]. by rewrite E.
Qed.

Lemma plain_unser script s : Z.of_nat (length script) <= MAX_SCRIPT_SIZE ->
  script_Unser Decompress ((WriteVarInt (u32 (Z.of_nat (length script) + nSpecialScripts)) ++ script) ++ s) = Some (script, s).
Proof.
  unfold MAX_SCRIPT_SIZE, nSpecialScripts. intros Hl. unfold script_Unser, nSpecialScripts, MAX_SCRIPT_SIZE. rewrite u32_id by (unfold is_u32; lia).
  rewrite <- app_assoc, ReadVarInt_app by lia. cbn [mbind option_bind]. rewrite (proj2 (Z.ltb_ge _ _)) by lia.
  rewrite Z.gtb_ltb, (proj2 (Z.ltb_ge _ _)) by lia. rewrite read_bytes_app; [done|]. lia.
Qed.

(** Each special form, taken apart and put together again *)
Lemma IsToKeyID_spec script h : IsToKeyID script = Some h ->
  length h = 20%nat /\ script = [OP_DUP; OP_HASH160; 20] ++ h ++ [OP_EQUALVERIFY; OP_CHECKSIG].
Proof.
  unfold IsToKeyID. destruct (_ && _)%bool eqn:E; [|done]. intros [= <-]. bool_hyps. apply Nat.eqb_eq in H.
  split; [by rewrite slice_length by lia|]. rewrite <- (drop_0 script) at 1.
  rewrite (drop_byte 0), (drop_byte 1), (drop_byte 2), (drop_slice 3 23), (drop_byte 23), (drop_byte 24), (drop_ge script 25) by lia.
  cbn [app]. congruence.
Qed.

Lemma IsToScriptID_spec script h : IsToScriptID script = Some h ->
  length h = 20%nat /\ script = [OP_HASH160; 20] ++ h ++ [OP_EQUAL].
Proof.
  unfold IsToScriptID. destruct (_ && _)%bool eqn:E; [|done]. intros [= <-]. bool_hyps. apply Nat.eqb_eq in H.
  split; [by rewrite slice_length by lia|]. rewrite <- (drop_0 script) at 1.
  rewrite (drop_byte 0), (drop_byte 1), (drop_slice 2 22), (drop_byte 22), (drop_ge script 23) by lia.
  cbn [app]. congruence.
Qed.

Lemma byte_slice a b i (s : list Z) : (a + i < b)%nat -> (b <= length s)%nat -> byte_at (slice a b s) i = byte_at s (a + i).
Proof.
  intros Hi Hb. unfold byte_at, slice. destruct (lookup_lt_is_Some_2 s (a + i) ltac:(lia)) as [x Hx].
  rewrite (list_lookup_total_correct s (a + i) x Hx). apply list_lookup_total_correct.
  rewrite lookup_take_lt by lia. by rewrite lookup_drop.
Qed.

Lemma IsToPubKey_spec script k : IsToPubKey IsFullyValid script = Some k ->
  ((byte_at k 0 = 2 \/ byte_at k 0 = 3) /\ length k = 33%nat /\ script = [33] ++ k ++ [OP_CHECKSIG]) \/
  (byte_at k 0 = 4 /\ length k = 65%nat /\ IsFullyValid k = true /\ script = [65] ++ k ++ [OP_CHECKSIG]).
Proof.
  unfold IsToPubKey. destruct (_ && _)%bool eqn:E.
  - intros [= <-]. left. apply andb_true_iff in E as [E Ek]. bool_hyps. apply Nat.eqb_eq in H. rewrite byte_slice by lia. cbn [Nat.add].
    split; [by destruct Ek; bool_hyps; [left|right]|]. split; [by rewrite slice_length by lia|]. rewrite <- (drop_0 script) at 1.
    rewrite (drop_byte 0), (drop_slice 1 34), (drop_byte 34), (drop_ge script 35) by lia. cbn [app]. congruence.
  - clear E. destruct (_ && _)%bool eqn:E; [|done]. destruct (IsFullyValid _) eqn:Hv; [|done]. intros [= <-]. right.
    bool_hyps. apply Nat.eqb_eq in H. rewrite byte_slice by lia. cbn [Nat.add].
    split; [done|]. split; [by rewrite slice_length by lia|]. split; [done|]. rewrite <- (drop_0 script) at 1.
    rewrite (drop_byte 0), (drop_slice 1 66), (drop_byte 66), (drop_ge script 67) by lia. cbn [app]. congruence.
Qed.

Lemma script_roundtrip script s : Z.of_nat (length script) <= MAX_SCRIPT_SIZE ->
  script_Unser Decompress (script_Ser IsFullyValid script ++ s) = Some (script, s).
Proof.
  intros Hl. unfold script_Ser, CompressScript.
  destruct (IsToKeyID script) as [h|] eqn:E1.
  { apply IsToKeyID_spec in E1 as [Hh ->]. apply special_unser; [lia|done|]. unfold DecompressScript. cbn [Z.eqb]. by rewrite take_ge by lia. }
  destruct (IsToScriptID script) as [h|] eqn:E2.
  { apply IsToScriptID_spec in E2 as [Hh ->]. apply special_unser; [lia|done|]. unfold DecompressScript. cbn [Z.eqb Pos.eqb]. by rewrite take_ge by lia. }
  destruct (IsToPubKey IsFullyValid script) as [k|] eqn:E3; [|by apply plain_unser].
  apply IsToPubKey_spec in E3 as [(Ht & Hk & ->)|(Ht & Hk & Hv & ->)].
  - assert (Htag : forall t, byte_at k 0 = t -> (t = 2 \/ t = 3) -> k = t :: slice 1 33 k).
    { intros t <- _. rewrite <- (drop_0 k) at 1. rewrite (drop_byte 0), (drop_slice 1 33), (drop_ge k 33) by lia. by rewrite app_nil_r. }
    destruct Ht as [Ht|Ht]; rewrite Ht; cbn [Z.eqb Pos.eqb orb]; (apply special_unser; [lia|by rewrite slice_length by lia|]);
      unfold DecompressScript; cbn [Z.eqb Pos.eqb orb]; rewrite take_ge by (rewrite slice_length; lia);
      pose proof (Htag _ Ht ltac:(auto)) as Ek; rewrite Ek at 2; done.
  - rewrite Ht. cbn [Z.eqb Pos.eqb orb].
    pose proof (Hkeys k Hk Ht Hv) as Hd.
    assert (Hpar : Z.land (byte_at k 64) 1 = 0 \/ Z.land (byte_at k 64) 1 = 1).
    { pose proof (Z.land_ones (byte_at k 64) 1 ltac:(lia)) as El. change (Z.ones 1) with 1 in El. change (2^1) with 2 in El.
      rewrite El. pose proof (Z.mod_pos_bound (byte_at k 64) 2 ltac:(lia)). lia. }
    assert (length (slice 1 33 k) = 32%nat) as Hs by (rewrite slice_length by lia; done).
    destruct Hpar as [Hp|Hp]; rewrite Hp in Hd |- *;
      [change (Z.lor 4 0) with 4; change (2 + 0) with 2 in Hd|change (Z.lor 4 1) with 5; change (2 + 1) with 3 in Hd];
      (apply special_unser; [lia|done|]); unfold DecompressScript; cbn [Z.eqb Pos.eqb orb]; rewrite take_ge by lia;
      [change (4 - 2) with 2|change (5 - 2) with 3]; by rewrite Hd.
Qed.

(** Coins that fit the formats *)
Definition coin_fits (c : Coin) : Prop :=
  0 <= nValue (coin_out c) < 2^60 /\ Z.of_nat (length (scriptPubKey (coin_out c))) <= MAX_SCRIPT_SIZE.

Lemma txout_roundtrip o s : 0 <= nValue o < 2^60 -> Z.of_nat (length (scriptPubKey o)) <= MAX_SCRIPT_SIZE ->
  txout_Unser Decompress (txout_Ser IsFullyValid o ++ s) = Some (o, s).
Proof.
  intros Hv Hl. unfold txout_Unser, txout_Ser. rewrite <- app_assoc, amount_roundtrip by done. cbn [mbind option_bind].
  rewrite script_roundtrip by done. cbn [mbind option_bind]. by destruct o.
Qed.

(** The word that holds a height and flags *)
Lemma code_flag h b : 0 <= h -> Z.land (h * 2 + b2z b) 1 = b2z b /\ Z.shiftr (h * 2 + b2z b) 1 = h.
Proof.
  intros Hh. change 1 with (Z.ones 1) at 1. rewrite Z.land_ones, Z.shiftr_div_pow2 by lia. change (2^1) with 2.
  rewrite Z.add_comm, Z.mod_add, Z.div_add by lia. destruct b; cbn [b2z]; split; try done; lia.
Qed.

Lemma undo_code_flags h b d : 0 <= h -> let n := h * 4 + b2z b + (if d : bool then 2 else 0) in
  negb (Z.land n 1 =? 0) = b /\ negb (Z.land n 2 =? 0) = d /\ Z.shiftr n 2 = h.
Proof.
  intros Hh n. assert (n = (h * 2 + b2z d) * 2 + b2z b) as En by (subst n; destruct d; cbn [b2z]; lia).
  destruct (code_flag (h * 2 + b2z d) b) as [E1 E2]; [destruct d; cbn [b2z]; lia|]. destruct (code_flag h d Hh) as [E3 E4].
  rewrite <- En in E1, E2. rewrite E1. split; [by destruct b|]. split.
  - assert (Z.land n 2 = Z.shiftl (Z.land (Z.shiftr n 1) 1) 1) as E.
    { apply Z.bits_inj'. intros i Hi. rewrite Z.shiftl_spec, !Z.land_spec by done. destruct (Z.eq_dec i 0) as [->|Hz]; [by rewrite andb_false_r|].
      rewrite Z.shiftr_spec by lia. replace (i - 1 + 1) with i by lia. f_equal. change 2 with (Z.shiftl 1 1). by rewrite Z.shiftl_spec. }
    rewrite E, E2, E3. by destruct d.
  - change 2 with (1 + 1). rewrite <- Z.shiftr_shiftr, E2 by lia. done.
Qed.

(** C24: coins survive the disk. For an amount below [2^60] and a script that
    the interpreter could run, reading back what [Coin::Serialize] wrote gives
    the coin, for any height the word has room for, and reading back what the
    undo formatter wrote gives it for any height below [2^30]; both leave the
    rest of the stream where it was. *)
Theorem coin_disk_roundtrip c s : coin_fits c ->
  (0 <= coin_nHeight c < 2^31 -> exists bytes, coin_Serialize IsFullyValid c = Ret bytes /\
     coin_Unserialize Decompress (bytes ++ s) = Some (c, s)) /\
  (0 <= coin_nHeight c < 2^30 -> undo_Unser Decompress (undo_Ser IsFullyValid c ++ s) = Some (c, s)).
Proof.
  intros [Hv Hl]. destruct c as [o b h d]. cbn [coin_nHeight coin_out] in *. split.
  - intros Hh. unfold coin_Serialize, IsSpent, txout_IsNull. cbn [coin_nHeight coin_out fCoinBase fCoinStake].
    rewrite (proj2 (Z.eqb_neq _ _)) by lia. eexists. split; [done|].
    assert (0 <= b2z b <= 1) by (destruct b; cbn; lia). assert (0 <= b2z d <= 1) by (destruct d; cbn; lia).
    rewrite u32_id by (unfold is_u32; lia). unfold coin_Unserialize. rewrite <- !app_assoc, ReadVarInt_app by lia. cbn [mbind option_bind].
    rewrite txout_roundtrip by done. cbn [mbind option_bind]. rewrite ReadVarInt_app by lia. cbn [mbind option_bind].
    destruct (code_flag h b) as [-> ->]; [lia|]. by destruct b, d.
  - intros Hh. unfold undo_Ser. cbn [coin_nHeight coin_out fCoinBase fCoinStake].
    destruct (undo_code_flags h b d) as (E1 & E2 & E3); [lia|]. cbv zeta in E1, E2, E3.
    rewrite u32_id by (unfold is_u32; destruct b, d; cbn [b2z]; lia). set (n := h * 4 + _ + _) in *.
    unfold undo_Unser. rewrite <- !app_assoc, ReadVarInt_app by (subst n; destruct b, d; cbn [b2z]; lia). cbn [mbind option_bind]. rewrite E1, E2, E3.
    destruct (Z.gtb_spec h 0).
    + change [0] with (WriteVarInt 0). rewrite ReadVarInt_app by lia. cbn [mbind option_bind]. by rewrite txout_roundtrip by done.
    + cbn [app mbind option_bind]. by rewrite txout_roundtrip by done.
Qed.

End script_laws.


(** A key of zero coordinates: the only uncompressed key the example accepts *)
Definition demo_key : list Z := 4 :: repeat 0 64.
Definition demo_valid (k : list Z) : bool := bool_decide (k = demo_key).
Definition demo_decompress (k : list Z) : option (list Z) :=
  if bool_decide (k = 2 :: repeat 0 32) then Some demo_key else None.
Definition demo_coin : Coin := mkCoin (mkTxOut 1234500000 ([65] ++ demo_key ++ [OP_CHECKSIG])) false 712345 true.

Lemma demo_keys k : length k = 65%nat -> byte_at k 0 = 4 -> demo_valid k = true ->
  demo_decompress ((2 + Z.land (byte_at k 64) 1) :: slice 1 33 k) = Some k.
Proof. intros _ _ Hv. apply bool_decide_eq_true in Hv. subst k. vm_compute. reflexivity. Qed.

Lemma coin_disk_roundtrip_witness :
  match coin_Serialize demo_valid demo_coin with Ret b => length b | Abort => 0%nat end = 40%nat /\
  (exists bytes, coin_Serialize demo_valid demo_coin = Ret bytes /\ coin_Unserialize demo_decompress (bytes ++ [7]) = Some (demo_coin, [7])) /\
  undo_Unser demo_decompress (undo_Ser demo_valid demo_coin ++ [7]) = Some (demo_coin, [7]).
Proof.
  split; [vm_compute; reflexivity|].
  destruct (coin_disk_roundtrip demo_valid demo_decompress demo_keys demo_coin [7]) as [H1 H2].
  - split; [cbn [coin_out demo_coin nValue]; lia|vm_compute; discriminate].
  - split; [apply H1|apply H2]; cbn [coin_nHeight demo_coin]; lia.
Defined.
