(* ===== verification/Chain.v ===== *)
(** * Chain: the block index tree and the active chain (src/src/chain.{h,cpp})

    The block index is the map [m_block_index] from hashes to entries; a
    [CBlockIndex*] is the hash it is stored under.  [GetAncestor] jumps along
    skip pointers; [CChain] is an array of entries by height. *)

From Stdlib Require Import ZArith Lia.
From stdpp Require Import base list numbers option gmap sorting.
From S2P Require Import Prelude Arith256 Uint256 Compact Transaction.

(** ** Data *)

Definition BLOCK_VALID_UNKNOWN : Z := 0.
Definition BLOCK_VALID_RESERVED : Z := 1.
Definition BLOCK_VALID_TREE : Z := 2.
Definition BLOCK_VALID_TRANSACTIONS : Z := 3.
Definition BLOCK_VALID_CHAIN : Z := 4.
Definition BLOCK_VALID_SCRIPTS : Z := 5.
Definition BLOCK_VALID_MASK : Z :=
  Z.lor (Z.lor (Z.lor (Z.lor BLOCK_VALID_RESERVED BLOCK_VALID_TREE) BLOCK_VALID_TRANSACTIONS)
    BLOCK_VALID_CHAIN) BLOCK_VALID_SCRIPTS.
Definition BLOCK_HAVE_DATA : Z := 8.
Definition BLOCK_HAVE_UNDO : Z := 16.
Definition BLOCK_FAILED_VALID : Z := 32.
Definition BLOCK_FAILED_CHILD : Z := 64.
Definition BLOCK_FAILED_MASK : Z := Z.lor BLOCK_FAILED_VALID BLOCK_FAILED_CHILD.
Definition BLOCK_CONFLICT_CHAINLOCK : Z := 128.
Definition BLOCK_ASSUMED_VALID : Z := 256.

Record CBlockIndex : Type := mkBlockIndex {
  pprev : option uint256;
  pskip : option uint256;
  nHeight : Z;
  nFile : Z;
  nDataPos : Z;
  nUndoPos : Z;
  nChainWork : list Z;
  nTx : Z;
  nChainTx : Z;
  nStatus : Z;
  nVersion : Z;
  hashMerkleRoot : uint256;
  nTime : Z;
  nBits : Z;
  nNonce : Z;
  nSequenceId : Z;
  nTimeMax : Z;
  nMint : Z;
  nMoneySupply : Z;
  nStakeModifier : uint256;
  prevoutStake : COutPoint;
  hashProof : uint256;
}.

(** [GetBlockTime], [GetPastTimeLimit], [GetBlockTimeMax], [IsProofOfStake] *)
Definition GetBlockTime (b : CBlockIndex) : Z := nTime b.
Definition GetPastTimeLimit (b : CBlockIndex) : Z := GetBlockTime b.
Definition GetBlockTimeMax (b : CBlockIndex) : Z := nTimeMax b.
Definition IsProofOfStake (b : CBlockIndex) : bool := nNonce b =? 0.
Definition IsProofOfWork (b : CBlockIndex) : bool := negb (IsProofOfStake b).
Definition HaveTxsDownloaded (b : CBlockIndex) : bool := negb (nChainTx b =? 0).

(** [IsValid]: the [assert] admits validity levels only. *)
Definition IsValid (status nUpTo : Z) : outcome bool :=
  if negb (Z.ldiff nUpTo BLOCK_VALID_MASK =? 0) then Abort
  else if negb (Z.land status BLOCK_FAILED_MASK =? 0) then Ret false
  else Ret (Z.land status BLOCK_VALID_MASK >=? nUpTo).

(** [RaiseValidity]: the new [nStatus] and whether it changed *)
Definition RaiseValidity (status nUpTo : Z) : outcome (Z * bool) :=
  if negb (Z.ldiff nUpTo BLOCK_VALID_MASK =? 0) then Abort
  else if negb (Z.land status BLOCK_FAILED_MASK =? 0) then Ret (status, false)
  else if Z.land status BLOCK_VALID_MASK <? nUpTo then
    let status :=
      if (negb (Z.land status BLOCK_ASSUMED_VALID =? 0) && (nUpTo >=? BLOCK_VALID_SCRIPTS))%bool
      then Z.ldiff status BLOCK_ASSUMED_VALID else status in
    Ret (Z.lor (Z.ldiff status BLOCK_VALID_MASK) nUpTo, true)
  else Ret (status, false).

(** ** Skip list *)

(** [InvertLowestOne] *)
Definition InvertLowestOne (n : Z) : Z := Z.land n (n - 1).

(** [GetSkipHeight] *)
Definition GetSkipHeight (height : Z) : Z :=
  if height <? 2 then 0
  else if negb (Z.land height 1 =? 0)
       then InvertLowestOne (InvertLowestOne (height - 1)) + 1
       else InvertLowestOne height.

(** The loop of [GetAncestor]; every iteration lowers [heightWalk]. *)
Fixpoint GetAncestor_loop (fuel : nat) (bi : gmap uint256 CBlockIndex)
    (pindexWalk : uint256) (heightWalk height : Z) : outcome uint256 :=
  if heightWalk >? height then
    match fuel with
    | O => Abort
    | S fuel =>
        let heightSkip := GetSkipHeight heightWalk in
        let heightSkipPrev := GetSkipHeight (heightWalk - 1) in
        w ← deref (bi !! pindexWalk);
        match pskip w with
        | Some skip =>
            if ((heightSkip =? height) ||
                ((heightSkip >? height) &&
                 negb ((heightSkipPrev <? heightSkip - 2) && (heightSkipPrev >=? height))))%bool
            then GetAncestor_loop fuel bi skip heightSkip height
            else p ← deref (pprev w); GetAncestor_loop fuel bi p (heightWalk - 1) height
        | None => p ← deref (pprev w); GetAncestor_loop fuel bi p (heightWalk - 1) height
        end
    end
  else Ret pindexWalk.

(** [CBlockIndex::GetAncestor]; the inner [None] is [nullptr]. *)
Definition GetAncestor (bi : gmap uint256 CBlockIndex) (this : uint256) (height : Z) : outcome (option uint256) :=
  b ← deref (bi !! this);
  if ((height >? nHeight b) || (height <? 0))%bool then Ret None
  else r ← GetAncestor_loop (Z.to_nat (nHeight b - height)) bi this (nHeight b) height;
       Ret (Some r).

(** [CBlockIndex::BuildSkip]: the value it stores in [pskip] *)
Definition BuildSkip (bi : gmap uint256 CBlockIndex) (pprev : option uint256) (nHeight : Z) : outcome (option uint256) :=
  match pprev with
  | Some p => GetAncestor bi p (GetSkipHeight nHeight)
  | None => Ret None
  end.

(** ** Median time *)

Fixpoint collect_times (n : nat) (bi : gmap uint256 CBlockIndex) (p : option uint256) : list Z :=
  match n, p with
  | S n, Some h =>
      match bi !! h with
      | Some b => GetBlockTime b :: collect_times n bi (pprev b)
      | None => []
      end
  | _, _ => []
  end.

Definition nMedianTimeSpan : nat := 11.

(** [CBlockIndex::GetMedianTimePast] *)
Definition GetMedianTimePast (bi : gmap uint256 CBlockIndex) (this : uint256) : Z :=
  let times := merge_sort Z.le (rev (collect_times nMedianTimeSpan bi (Some this))) in
  limb times (length times / 2).

(** ** Work *)

(** [GetBlockProof]; a division by zero would be the exception [uint_error]. *)
Definition GetBlockProof (b : CBlockIndex) : outcome (list Z) :=
  let '(bnTarget, fNegative, fOverflow) := SetCompact (nBits b) in
  if (fNegative || fOverflow || bu_EqualTo bnTarget 0)%bool then Ret bu_zero
  else if IsProofOfStake b then
    q ← deref (bu_div (bu_not bnTarget) (bu_add bnTarget (bu_of_u64 1)));
    Ret (bu_add q (bu_of_u64 1))
  else Ret (bu_of_u64 1).

(** [GetBlockProofEquivalentTime] *)
Definition GetBlockProofEquivalentTime (to from tip : CBlockIndex) (nPowTargetSpacing : Z) : outcome Z :=
  let '(r, sign) := if bu_gt (nChainWork to) (nChainWork from)
                    then (bu_sub (nChainWork to) (nChainWork from), 1)
                    else (bu_sub (nChainWork from) (nChainWork to), -1) in
  proof ← GetBlockProof tip;
  r ← deref (bu_div (bu_mul r (bu_of_u64 (u64 nPowTargetSpacing))) proof);
  if bu_bits r >? 63 then Ret (sign * INT64_MAX)
  else Ret (i64 (u64 (sign * bu_GetLow64 r))).

(** ** Reference: following [pprev] *)

Fixpoint walk (bi : gmap uint256 CBlockIndex) (n : nat) (p : uint256) : option uint256 :=
  match n with
  | O => Some p
  | S n => b ← bi !! p; q ← pprev b; walk bi n q
  end.

(** A block index in which heights count the steps to a root and skip
    pointers lead to the ancestor at [GetSkipHeight]. *)
Record entry_wf (bi : gmap uint256 CBlockIndex) (h : uint256) (b : CBlockIndex) : Prop := {
  ew_height : 0 <= nHeight b;
  ew_prev : match pprev b with
            | None => nHeight b = 0
            | Some p => exists pb, bi !! p = Some pb /\ nHeight pb = nHeight b - 1
            end;
  ew_skip : forall s, pskip b = Some s ->
            walk bi (Z.to_nat (nHeight b - GetSkipHeight (nHeight b))) h = Some s;
}.

Definition tree_wf (bi : gmap uint256 CBlockIndex) : Prop :=
  forall h b, bi !! h = Some b -> entry_wf bi h b.

Lemma InvertLowestOne_bounds n : 0 <= n -> 0 <= InvertLowestOne n <= n /\ (0 < n -> InvertLowestOne n < n).
Proof.
  intros Hn. unfold InvertLowestOne.
  assert (0 <= Z.land n (n - 1)) by (apply Z.land_nonneg; lia).
  destruct (Z.eq_dec n 0) as [->|Hne]; [rewrite Z.land_0_l; lia|].
  pose proof (land_le_r n (n - 1) ltac:(lia)). lia.
Qed.

Lemma GetSkipHeight_bounds h : 0 < h -> 0 <= GetSkipHeight h < h.
Proof.
  intros Hh. unfold GetSkipHeight. destruct (Z.ltb_spec h 2); [lia|].
  destruct (Z.eqb_spec (Z.land h 1) 0); simpl.
  - pose proof (InvertLowestOne_bounds h ltac:(lia)). lia.
  - pose proof (InvertLowestOne_bounds (h - 1) ltac:(lia)) as H1.
    pose proof (InvertLowestOne_bounds (InvertLowestOne (h - 1)) ltac:(lia)). lia.
Qed.

Lemma walk_add bi n m p : walk bi (n + m) p = walk bi n p ≫= walk bi m.
Proof.
  revert p. induction n as [|n IH]; intros p; [done|]. simpl.
  destruct (bi !! p) as [b|]; [|done]. simpl. destruct (pprev b); simpl; auto.
Qed.

Section tree.
Context (bi : gmap uint256 CBlockIndex) (Hwf : tree_wf bi).

Lemma pprev_height h b p :
  bi !! h = Some b -> pprev b = Some p -> exists pb, bi !! p = Some pb /\ nHeight pb = nHeight b - 1.
Proof. intros Hb Hp. pose proof (ew_prev _ _ _ (Hwf _ _ Hb)) as H. now rewrite Hp in H. Qed.

Lemma pprev_none_height h b : bi !! h = Some b -> pprev b = None -> nHeight b = 0.
Proof. intros Hb Hp. pose proof (ew_prev _ _ _ (Hwf _ _ Hb)) as H. now rewrite Hp in H. Qed.

Lemma height_nonneg h b : bi !! h = Some b -> 0 <= nHeight b.
Proof. intros Hb. apply (ew_height _ _ _ (Hwf _ _ Hb)). Qed.

Lemma pprev_some h b : bi !! h = Some b -> 0 < nHeight b ->
  exists p pb, pprev b = Some p /\ bi !! p = Some pb /\ nHeight pb = nHeight b - 1.
Proof.
  intros Hb Hpos. destruct (pprev b) as [p|] eqn:E.
  - destruct (pprev_height _ _ _ Hb E) as (pb & ? & ?). eauto.
  - pose proof (pprev_none_height _ _ Hb E). lia.
Qed.

(** The walk is defined down to height 0 and lowers the height by one a step. *)
Lemma walk_total n : forall h b, bi !! h = Some b -> Z.of_nat n <= nHeight b ->
  exists q qb, walk bi n h = Some q /\ bi !! q = Some qb /\ nHeight qb = nHeight b - Z.of_nat n.
Proof.
  induction n as [|n IH]; intros h b Hb Hn.
  - exists h, b. split_and!; [done|done|lia].
  - destruct (pprev_some h b Hb) as (p & pb & Hp & Hpb & Hh); [lia|].
    destruct (IH p pb Hpb) as (q & qb & Hw & Hq & Hqh); [lia|].
    exists q, qb. simpl. rewrite Hb. simpl. rewrite Hp. simpl. split_and!; [done|done|lia].
Qed.

Lemma walk_height n h b q : bi !! h = Some b -> walk bi n h = Some q ->
  exists qb, bi !! q = Some qb /\ nHeight qb = nHeight b - Z.of_nat n.
Proof.
  revert h b. induction n as [|n IH]; intros h b Hb Hw.
  - injection Hw as <-. exists b. split; [done|lia].
  - simpl in Hw. rewrite Hb in Hw. simpl in Hw. destruct (pprev b) as [p|] eqn:Hp; [|done].
    destruct (pprev_height _ _ _ Hb Hp) as (pb & Hpb & Hh).
    destruct (IH p pb Hpb Hw) as (qb & ? & ?). exists qb. split; [done|lia].
Qed.

(** One step along [pskip] or [pprev] stays on the walk. *)
Lemma walk_via k d h q : (k <= d)%nat -> walk bi k h = Some q -> walk bi d h = walk bi (d - k) q.
Proof. intros Hk Hw. replace d with (k + (d - k))%nat at 1 by lia. now rewrite walk_add, Hw. Qed.

Lemma GetAncestor_loop_walk fuel : forall h b height, bi !! h = Some b ->
  0 <= height <= nHeight b -> (Z.to_nat (nHeight b - height) <= fuel)%nat ->
  GetAncestor_loop fuel bi h (nHeight b) height
  = deref (walk bi (Z.to_nat (nHeight b - height)) h).
Proof.
  induction fuel as [|fuel IH]; intros h b height Hb Hh Hf; cbn [GetAncestor_loop];
    rewrite Z.gtb_ltb; destruct (Z.ltb_spec height (nHeight b)); try lia;
    try (replace (nHeight b - height) with 0 by lia; done).
  outcome_step.
  assert (Hprev : (p ← deref (pprev b); GetAncestor_loop fuel bi p (nHeight b - 1) height)
                  = deref (walk bi (Z.to_nat (nHeight b - height)) h)).
  { destruct (pprev_some h b Hb) as (p & pb & Hp & Hpb & Hph); [lia|].
    rewrite Hp. cbn [deref mbind outcome_bind].
    rewrite <- Hph, IH by (done || lia). symmetry. f_equal.
    rewrite (walk_via 1 _ h p) by (lia || (simpl; rewrite Hb; simpl; now rewrite Hp)).
    f_equal. lia. }
  destruct (pskip b) as [s|] eqn:Hs; [|done].
  match goal with |- context [if ?c then _ else _] => destruct c eqn:Hc end; [|done].
  pose proof (GetSkipHeight_bounds (nHeight b) ltac:(lia)) as Hsk.
  assert (height <= GetSkipHeight (nHeight b)).
  { bool_hyps. destruct Hc as [Hc|Hc]; bool_hyps; lia. }
  pose proof (ew_skip _ _ _ (Hwf _ _ Hb) _ Hs) as Hw.
  destruct (walk_height _ _ _ _ Hb Hw) as (sb & Hsb & Hsh).
  replace (GetSkipHeight (nHeight b)) with (nHeight sb) by lia.
  rewrite IH by (done || lia). f_equal. symmetry.
  rewrite (fun H => walk_via _ (Z.to_nat (nHeight b - height)) _ _ H Hw) by lia. f_equal. lia.
Qed.

Lemma GetAncestor_walk h b height : bi !! h = Some b ->
  GetAncestor bi h height
  = Ret (if (0 <=? height) && (height <=? nHeight b)
         then walk bi (Z.to_nat (nHeight b - height)) h else None).
Proof.
  intros Hb. unfold GetAncestor. outcome_step.
  rewrite Z.gtb_ltb, Z.leb_antisym, Z.leb_antisym.
  destruct (Z.ltb_spec (nHeight b) height), (Z.ltb_spec height 0); simpl; try done.
  rewrite GetAncestor_loop_walk by (done || lia).
  destruct (walk_total (Z.to_nat (nHeight b - height)) h b Hb) as (q & qb & -> & _); [lia|done].
Qed.
End tree.

(** ** Work of a block *)

Definition block_proof (b : CBlockIndex) : Z :=
  match compact_target (nBits b) with
  | None => 0
  | Some t => if IsProofOfStake b then 2^256 / (t + 1) else 1
  end.

Lemma GetBlockProof_spec b : is_u32 (nBits b) ->
  exists w, GetBlockProof b = Ret w /\ bu_wf w /\ val w = block_proof b.
Proof.
  intros Hb. unfold GetBlockProof, block_proof.
  destruct (SetCompact_target _ Hb) as (t & neg & ov & -> & Ht & H).
  destruct (compact_target (nBits b)) as [v|].
  2:{ rewrite H. exists bu_zero. split_and!; [done|auto with word|done]. }
  destruct H as (-> & _ & _ & Hv & Hr).
  assert (Hone : bu_wf (bu_of_u64 1)) by apply bu_of_u64_wf.
  assert (H1 : val (bu_of_u64 1) = 1) by (apply val_of_u64; unfold is_u64; lia).
  destruct (IsProofOfStake b); [|exists (bu_of_u64 1); done].
  destruct (bu_add_spec t (bu_of_u64 1) Ht Hone) as [Haw Hav].
  rewrite H1, Hv, Z.mod_small in Hav by lia.
  destruct (bu_not_spec t Ht) as [Hnw Hnv].
  destruct (bu_div_spec (bu_not t) (bu_add t (bu_of_u64 1)) Hnw Haw) as (q & -> & Hqw & Hqv); [lia|].
  cbn [deref mbind outcome_bind]. eexists. split; [done|].
  destruct (bu_add_spec q (bu_of_u64 1) Hqw Hone) as [Hrw Hrv]. split; [done|].
  rewrite Hrv, H1, Hqv, Hnv, Hav, Hv.
  replace (2^256) with (2^256 - 1 - v + 1 * (v + 1)) at 3 by lia.
  rewrite Z.div_add by lia. apply Z.mod_small. split; [|].
  - pose proof (Z.div_pos (2^256 - 1 - v) (v + 1)). lia.
  - assert ((2^256 - 1 - v) / (v + 1) < 2^256 - 1); [|lia]. apply Z.div_lt_upper_bound; [lia|]. nia.
Qed.

(** ** Deciding well-formedness of a concrete index *)

Definition entry_wfb (bi : gmap uint256 CBlockIndex) (h : uint256) (b : CBlockIndex) : bool :=
  ((0 <=? nHeight b) &&
   match pprev b with
   | None => nHeight b =? 0
   | Some p => match bi !! p with Some pb => nHeight pb =? nHeight b - 1 | None => false end
   end &&
   match pskip b with
   | None => true
   | Some s => bool_decide (walk bi (Z.to_nat (nHeight b - GetSkipHeight (nHeight b))) h = Some s)
   end)%bool.

Definition tree_wfb (bi : gmap uint256 CBlockIndex) : bool :=
  forallb (fun e => entry_wfb bi e.1 e.2) (map_to_list bi).

Lemma tree_wfb_sound bi : tree_wfb bi = true -> tree_wf bi.
Proof.
  intros H h b Hb. unfold tree_wfb in H. rewrite forallb_forall in H.
  specialize (H (h, b)). rewrite <- list_elem_of_In, elem_of_map_to_list in H.
  specialize (H Hb). unfold entry_wfb in H. simpl in H. bool_hyps. split.
  - done.
  - destruct (pprev b) as [p|]; [|now bool_hyps].
    destruct (bi !! p) as [pb|]; [|done]. exists pb. bool_hyps. done.
  - intros s Hs. rewrite Hs in *. now apply bool_decide_eq_true in H0.
Qed.

(** A small index: a chain of heights 0 to 5 and a fork at height 3. *)
Definition demo_hash (k : Z) : uint256 := repeat k 32.
Definition demo_entry (pprev pskip : option Z) (height nonce bits time : Z) : CBlockIndex :=
  mkBlockIndex (demo_hash <$> pprev) (demo_hash <$> pskip) height 0 0 0 (bu_of_u64 (height + 1)) 0 0 0 1
    (demo_hash 0) time bits nonce 0 time 0 0 (demo_hash 0) (mkOutPoint (demo_hash 0) 0) (demo_hash 0).
Definition demo_index : gmap uint256 CBlockIndex :=
  list_to_map [
    (demo_hash 1, demo_entry None None 0 1 0x207fffff 1000);
    (demo_hash 2, demo_entry (Some 1) (Some 1) 1 0 0x1e0fffff 1010);
    (demo_hash 3, demo_entry (Some 2) (Some 1) 2 0 0x1e0fffff 1020);
    (demo_hash 4, demo_entry (Some 3) (Some 2) 3 0 0x1e0fffff 1030);
    (demo_hash 5, demo_entry (Some 4) (Some 1) 4 0 0x1e0fffff 1040);
    (demo_hash 6, demo_entry (Some 5) (Some 2) 5 0 0x1e0fffff 1050);
    (demo_hash 7, demo_entry (Some 3) (Some 2) 3 0 0x1e0fffff 1060)].

Lemma demo_index_wf : tree_wf demo_index.
Proof. apply tree_wfb_sound. vm_compute. reflexivity. Qed.

(** ** Properties *)

(** [GetAncestor], which jumps along skip pointers, returns exactly the
    block that [nHeight - height] steps along [pprev] lead to, and that block
    has the requested height; it returns null exactly for a height outside
    [0, nHeight], and never fails its assertion. *)
Theorem GetAncestor_correct (bi : gmap uint256 CBlockIndex) (h : uint256) (b : CBlockIndex) (height : Z) :
  tree_wf bi -> bi !! h = Some b ->
  (0 <= height <= nHeight b ->
   exists q qb, GetAncestor bi h height = Ret (Some q) /\
                walk bi (Z.to_nat (nHeight b - height)) h = Some q /\
                bi !! q = Some qb /\ nHeight qb = height) /\
  (~ 0 <= height <= nHeight b -> GetAncestor bi h height = Ret None).
Proof.
  intros Hwf Hb. rewrite (GetAncestor_walk bi Hwf h b) by done. split; intros Hh.
  - rewrite !(proj2 (Z.leb_le _ _)) by lia. cbn [andb].
    destruct (walk_total bi Hwf (Z.to_nat (nHeight b - height)) h b Hb) as (q & qb & Hq & Hqb & Hqh); [lia|].
    exists q, qb. rewrite Hq. split_and!; [done|done|done|lia].
  - destruct (Z.leb_spec 0 height), (Z.leb_spec height (nHeight b)); done || lia.
Qed.

Lemma GetAncestor_correct_witness :
  exists q qb, GetAncestor demo_index (demo_hash 6) 1 = Ret (Some q) /\ q = demo_hash 2 /\
               demo_index !! q = Some qb /\ nHeight qb = 1.
Proof.
  assert (Hb : demo_index !! demo_hash 6 = Some (demo_entry (Some 5) (Some 2) 5 0 0x1e0fffff 1050))
    by (vm_compute; reflexivity).
  destruct (GetAncestor_correct demo_index (demo_hash 6) _ 1 demo_index_wf Hb) as [H _].
  destruct H as (q & qb & Hq & Hw & Hqb & Hh); [simpl; lia|].
  exists q, qb. split_and!; [done| |done|done].
  vm_compute in Hw. injection Hw as <-. reflexivity.
Defined.

(** [GetBlockProof] never divides by zero: the work of a block is 0 when
    its target is negative, zero or overflows, 1 for a proof-of-work block, and
    the exact quotient of 2^256 by target+1 for a proof-of-stake block. *)
Theorem GetBlockProof_exact (b : CBlockIndex) :
  is_u32 (nBits b) ->
  exists w, GetBlockProof b = Ret w /\ bu_wf w /\
    val w = match compact_target (nBits b) with
            | None => 0
            | Some t => if IsProofOfStake b then 2^256 / (t + 1) else 1
            end.
Proof. apply GetBlockProof_spec. Qed.

Lemma GetBlockProof_exact_witness :
  exists w, GetBlockProof (demo_entry (Some 1) (Some 1) 1 0 0x1e0fffff 1010) = Ret w /\ val w = 0x100001.
Proof.
  destruct (GetBlockProof_exact (demo_entry (Some 1) (Some 1) 1 0 0x1e0fffff 1010)) as (w & Hw & _ & Hv);
    [unfold is_u32; simpl; lia|].
  exists w. split; [exact Hw|]. rewrite Hv. vm_compute. reflexivity.
Defined.
