(* ===== verification/ActiveChain.v ===== *)
(** * ActiveChain: [CChain], forks and locators (src/src/chain.{h,cpp})

    The active chain is the array of the ancestors of its tip.  [SetTip]
    stops at the first entry that is already in place, so its correctness
    rests on the array being coherent before. *)

From Stdlib Require Import ZArith Lia.
From stdpp Require Import base list numbers option gmap.
From S2P Require Import Prelude Arith256 Uint256 Chain.

(** ** CChain *)

(** [operator[]] *)
Definition chain_at (vChain : list (option uint256)) (h : Z) : option uint256 :=
  if ((h <? 0) || (h >=? Z.of_nat (length vChain)))%bool then None
  else mjoin (vChain !! Z.to_nat h).

(** [Height], [Tip], [Genesis] *)
Definition chain_Height (vChain : list (option uint256)) : Z := Z.of_nat (length vChain) - 1.
Definition chain_Tip (vChain : list (option uint256)) : option uint256 := mjoin (last vChain).
Definition chain_Genesis (vChain : list (option uint256)) : option uint256 := mjoin (head vChain).

(** [Contains] *)
Definition chain_Contains (bi : gmap uint256 CBlockIndex) (vChain : list (option uint256)) (p : uint256) : bool :=
  match bi !! p with
  | Some b => bool_decide (chain_at vChain (nHeight b) = Some p)
  | None => false
  end.

(** [Next] *)
Definition chain_Next (bi : gmap uint256 CBlockIndex) (vChain : list (option uint256)) (p : uint256) : option uint256 :=
  match bi !! p with
  | Some b => if chain_Contains bi vChain p then chain_at vChain (nHeight b + 1) else None
  | None => None
  end.

(** [SetTip]: the loop [while (pindex && vChain[pindex->nHeight] != pindex)] *)
Fixpoint SetTip_loop (fuel : nat) (bi : gmap uint256 CBlockIndex)
    (vChain : list (option uint256)) (p : option uint256) : outcome (list (option uint256)) :=
  match p with
  | None => Ret vChain
  | Some h =>
      b ← deref (bi !! h);
      slot ← deref (vChain !! Z.to_nat (nHeight b));
      if bool_decide (slot = Some h) then Ret vChain
      else match fuel with
           | O => Abort
           | S fuel => SetTip_loop fuel bi (<[Z.to_nat (nHeight b) := Some h]> vChain) (pprev b)
           end
  end.

(** [vChain.resize(n)]: cut, or extend with null pointers *)
Definition vec_resize {A} (n : nat) (x : A) (l : list A) : list A :=
  take n l ++ replicate (n - length l) x.

Definition SetTip (bi : gmap uint256 CBlockIndex) (vChain : list (option uint256)) (p : option uint256)
    : outcome (list (option uint256)) :=
  match p with
  | None => Ret []
  | Some h =>
      b ← deref (bi !! h);
      SetTip_loop (S (Z.to_nat (nHeight b))) bi (vec_resize (Z.to_nat (nHeight b + 1)) None vChain) (Some h)
  end.

(** [FindFork]: the loop [while (pindex && !Contains(pindex))] *)
Fixpoint FindFork_loop (fuel : nat) (bi : gmap uint256 CBlockIndex)
    (vChain : list (option uint256)) (p : option uint256) : outcome (option uint256) :=
  match p with
  | None => Ret None
  | Some h =>
      if chain_Contains bi vChain h then Ret p
      else match fuel with
           | O => Abort
           | S fuel => b ← deref (bi !! h); FindFork_loop fuel bi vChain (pprev b)
           end
  end.

Definition FindFork (bi : gmap uint256 CBlockIndex) (vChain : list (option uint256)) (p : option uint256)
    : outcome (option uint256) :=
  match p with
  | None => Ret None
  | Some h =>
      b ← deref (bi !! h);
      q ← (if nHeight b >? chain_Height vChain then GetAncestor bi h (chain_Height vChain) else Ret p);
      FindFork_loop (S (Z.to_nat (nHeight b))) bi vChain q
  end.

(** [FindEarliestAtLeast]: [std::lower_bound], halving the range
    [first, first + len) on the comparison [below]. *)
Fixpoint lower_bound_loop {A} (fuel : nat) (below : A -> bool) (l : list A) (first len : nat) : nat :=
  match fuel, len with
  | S fuel, S _ =>
      let half := Nat.div2 len in
      match l !! (first + half)%nat with
      | Some x => if below x then lower_bound_loop fuel below l (first + half + 1) (len - half - 1)
                  else lower_bound_loop fuel below l first half
      | None => first
      end
  | _, _ => first
  end.

Definition lower_bound {A} (below : A -> bool) (l : list A) : nat :=
  lower_bound_loop (length l) below l 0 (length l).

Definition earlier_than (bi : gmap uint256 CBlockIndex) (nTime height : Z) (p : option uint256) : bool :=
  match p ≫= (bi !!.) with
  | Some b => ((GetBlockTimeMax b <? nTime) || (nHeight b <? height))%bool
  | None => false
  end.

Definition FindEarliestAtLeast (bi : gmap uint256 CBlockIndex) (vChain : list (option uint256))
    (nTime height : Z) : option uint256 :=
  mjoin (vChain !! lower_bound (earlier_than bi nTime height) vChain).

(** [LastCommonAncestor]: the loop [while (pa != pb && pa && pb)], then
    [assert(pa == pb)] *)
Fixpoint LastCommonAncestor_loop (fuel : nat) (bi : gmap uint256 CBlockIndex)
    (pa pb : option uint256) : outcome (option uint256) :=
  match pa, pb with
  | Some a, Some b =>
      if bool_decide (a = b) then Ret pa
      else match fuel with
           | O => Abort
           | S fuel => ba ← deref (bi !! a); bb ← deref (bi !! b);
                       LastCommonAncestor_loop fuel bi (pprev ba) (pprev bb)
           end
  | _, _ => if bool_decide (pa = pb) then Ret pa else Abort
  end.

Definition LastCommonAncestor (bi : gmap uint256 CBlockIndex) (pa pb : uint256) : outcome (option uint256) :=
  a ← deref (bi !! pa);
  b ← deref (bi !! pb);
  let start := LastCommonAncestor_loop (S (Z.to_nat (Z.min (nHeight a) (nHeight b)))) bi in
  if nHeight a >? nHeight b then pa' ← GetAncestor bi pa (nHeight b); start pa' (Some pb)
  else if nHeight b >? nHeight a then pb' ← GetAncestor bi pb (nHeight a); start (Some pa) pb'
  else start (Some pa) (Some pb).

(** [LocatorEntries]; the step is an [int], whose doubling may not exceed
    [INT_MAX]. *)
Fixpoint LocatorEntries_loop (fuel : nat) (bi : gmap uint256 CBlockIndex)
    (index : option uint256) (step : Z) (have : list uint256) : outcome (list uint256) :=
  match index with
  | None => Ret have
  | Some h =>
      b ← deref (bi !! h);
      let have := have ++ [h] in
      if nHeight b =? 0 then Ret have
      else match fuel with
           | O => Abort
           | S fuel =>
               let height := Z.max (nHeight b - step) 0 in
               next ← GetAncestor bi h height;
               if 10 <? Z.of_nat (length have) then
                 if step * 2 >? INT_MAX then Abort
                 else LocatorEntries_loop fuel bi next (step * 2) have
               else LocatorEntries_loop fuel bi next step have
           end
  end.

Definition LocatorEntries (bi : gmap uint256 CBlockIndex) (index : option uint256) : outcome (list uint256) :=
  match index with
  | None => Ret []
  | Some h => b ← deref (bi !! h); LocatorEntries_loop (Z.to_nat (nHeight b)) bi index 1 []
  end.

Definition chain_GetLocator (bi : gmap uint256 CBlockIndex) (vChain : list (option uint256)) : outcome (list uint256) :=
  LocatorEntries bi (chain_Tip vChain).

(** ** Coherence of the array *)

Definition prev_slot (v : list (option uint256)) (i : nat) : option uint256 :=
  match i with O => None | S j => mjoin (v !! j) end.

(** Slot [i] holds a block of height [i] whose predecessor is [prev]. *)
Definition slot_ok (bi : gmap uint256 CBlockIndex) (v : list (option uint256)) (i : nat) (prev : option uint256) : Prop :=
  exists h b, v !! i = Some (Some h) /\ bi !! h = Some b /\ nHeight b = Z.of_nat i /\ pprev b = prev.

Definition chain_wf (bi : gmap uint256 CBlockIndex) (v : list (option uint256)) : Prop :=
  forall i, (i < length v)%nat -> slot_ok bi v i (prev_slot v i).

Section active.
Context (bi : gmap uint256 CBlockIndex) (Hwf : tree_wf bi).

Lemma slot_ok_ext v v' i prev : v !! i = v' !! i -> slot_ok bi v i prev -> slot_ok bi v' i prev.
Proof. intros E (h & b & H & ?). exists h, b. now rewrite <- E. Qed.

(** Invariant of [SetTip]'s loop: slots from [m] up are done, the block to
    place next is [p] at height [m - 1], slots below are the old ones. *)
Record settip_inv (v0 v : list (option uint256)) (m : nat) (p : option uint256) : Prop := {
  si_len : (m <= length v)%nat;
  si_next : match p with
            | None => m = 0%nat
            | Some h => exists b, bi !! h = Some b /\ nHeight b = Z.of_nat m - 1
            end;
  si_done : forall i, (m <= i < length v)%nat -> slot_ok bi v i (if decide (i = m) then p else prev_slot v i);
  si_low : forall i, (i < m)%nat -> v !! i = Some (mjoin (v0 !! i));
}.

Lemma settip_inv_stop v0 v m h :
  chain_wf bi v0 -> settip_inv v0 v (S m) (Some h) -> v !! m = Some (Some h) -> chain_wf bi v.
Proof.
  intros Hv0 [Hlen Hnext Hdone Hlow] Hm i Hi.
  assert (Hin : (m < length v0)%nat).
  { rewrite Hlow in Hm by lia. injection Hm as Hm. destruct (v0 !! m) eqn:E; [|done].
    now apply lookup_lt_Some in E. }
  assert (Hsame : forall j, (j <= m)%nat -> v0 !! j = v !! j).
  { intros j Hj. rewrite Hlow by lia. destruct (Hv0 j) as (x & b & -> & _); [lia|done]. }
  destruct (decide (i <= m)%nat) as [Hle|Hgt].
  - apply (slot_ok_ext v0); [now apply Hsame|].
    replace (prev_slot v i) with (prev_slot v0 i); [apply Hv0; lia|].
    destruct i; simpl; [done|]. now rewrite Hsame by lia.
  - specialize (Hdone i). case_decide as Hd; [|apply Hdone; lia].
    subst i. simpl. rewrite Hm. apply Hdone. lia.
Qed.

Lemma settip_inv_step v0 v m h b :
  settip_inv v0 v (S m) (Some h) -> bi !! h = Some b -> nHeight b = Z.of_nat m ->
  settip_inv v0 (<[m := Some h]> v) m (pprev b).
Proof.
  intros [Hlen Hnext Hdone Hlow] Hb Hm. split.
  - rewrite length_insert. lia.
  - destruct (pprev b) as [q|] eqn:Hp.
    + destruct (pprev_height bi Hwf _ _ _ Hb Hp) as (pb & ? & ?). exists pb. split; [done|lia].
    + pose proof (pprev_none_height bi Hwf _ _ Hb Hp). lia.
  - rewrite length_insert. intros i Hi. case_decide as Hd.
    + subst i. exists h, b. split_and!; try done. now apply list_lookup_insert_eq.
    + apply (slot_ok_ext v); [symmetry; apply list_lookup_insert_ne; lia|].
      specialize (Hdone i ltac:(lia)). destruct i as [|i]; [lia|]. simpl.
      case_decide as Hd'.
      * assert (i = m) as -> by lia. rewrite list_lookup_insert_eq by lia. done.
      * rewrite list_lookup_insert_ne by lia. done.
  - intros i Hi. rewrite list_lookup_insert_ne by lia. apply Hlow. lia.
Qed.

Lemma SetTip_loop_spec v0 : chain_wf bi v0 -> forall m fuel v p, (m <= fuel)%nat ->
  settip_inv v0 v m p ->
  exists v', SetTip_loop fuel bi v p = Ret v' /\ chain_wf bi v' /\ length v' = length v /\
             (forall i, (m <= i)%nat -> v' !! i = v !! i) /\
             (forall h, p = Some h -> mjoin (v' !! Nat.pred m) = Some h).
Proof.
  intros Hv0. induction m as [|m IH]; intros fuel v p Hf Hinv.
  - pose proof (si_next _ _ _ _ Hinv) as Hp. destruct p as [h|].
    { destruct Hp as (b & Hb & Hh). pose proof (height_nonneg bi Hwf _ _ Hb). lia. }
    exists v. split_and!; try done; [destruct fuel; done|].
    intros i Hi. pose proof (si_done _ _ _ _ Hinv i ltac:(lia)) as H.
    case_decide; [subst i|]; done.
  - pose proof (si_next _ _ _ _ Hinv) as Hp. destruct p as [h|]; [|lia].
    destruct Hp as (b & Hb & Hh). pose proof (si_len _ _ _ _ Hinv) as Hlen.
    assert (Hn : Z.to_nat (nHeight b) = m) by lia.
    destruct (lookup_lt_is_Some_2 v m ltac:(lia)) as [slot Hslot].
    assert (Hunf : SetTip_loop fuel bi v (Some h) =
              if bool_decide (slot = Some h) then Ret v else
              match fuel with O => Abort | S fuel => SetTip_loop fuel bi (<[m := Some h]> v) (pprev b) end).
    { destruct fuel; cbn [SetTip_loop]; rewrite Hb; cbn [deref mbind outcome_bind];
      rewrite Hn, Hslot; done. }
    rewrite Hunf. case_bool_decide as Hs.
    + subst slot. exists v. split_and!; try done.
      * now apply (settip_inv_stop v0 v m h).
      * intros h' [= <-]. simpl. now rewrite Hslot.
    + destruct fuel as [|fuel]; [lia|].
      destruct (IH fuel _ _ ltac:(lia) (settip_inv_step _ _ _ _ _ Hinv Hb ltac:(lia)))
        as (v' & -> & Hv' & Hl & Hup & _).
      rewrite length_insert in Hl. exists v'. split_and!; try done.
      * intros i Hi. rewrite Hup by lia. apply list_lookup_insert_ne. lia.
      * intros h' [= <-]. simpl. rewrite Hup, list_lookup_insert_eq by lia. done.
Qed.

Lemma vec_resize_length {A} n (x : A) l : length (vec_resize n x l) = n.
Proof. unfold vec_resize. rewrite length_app, length_take, length_replicate. lia. Qed.

Lemma vec_resize_lookup (v : list (option uint256)) n i :
  (i < n)%nat -> vec_resize n None v !! i = Some (mjoin (v !! i)).
Proof.
  intros Hi. unfold vec_resize. destruct (decide (i < length v)%nat) as [Hl|Hl].
  - rewrite lookup_app_l by (rewrite length_take; lia). rewrite lookup_take_lt by lia.
    destruct (lookup_lt_is_Some_2 v i Hl) as [x ->]. done.
  - rewrite lookup_app_r by (rewrite length_take; lia).
    rewrite lookup_replicate_2 by (rewrite length_take; lia).
    now rewrite (lookup_ge_None_2 v i) by lia.
Qed.

Lemma SetTip_spec v0 h b : chain_wf bi v0 -> bi !! h = Some b ->
  exists v', SetTip bi v0 (Some h) = Ret v' /\ chain_wf bi v' /\
             Z.of_nat (length v') = nHeight b + 1 /\ chain_Tip v' = Some h.
Proof.
  intros Hv0 Hb. pose proof (height_nonneg bi Hwf _ _ Hb) as Hpos. unfold SetTip. outcome_step.
  set (n := Z.to_nat (nHeight b + 1)).
  destruct (SetTip_loop_spec v0 Hv0 n (S (Z.to_nat (nHeight b))) (vec_resize n None v0) (Some h))
    as (v' & Hr & Hv' & Hl & _ & Ht); [lia| |].
  - split.
    + rewrite vec_resize_length. lia.
    + exists b. split; [done|lia].
    + intros i. rewrite vec_resize_length. lia.
    + intros i Hi. now apply vec_resize_lookup.
  - rewrite vec_resize_length in Hl. exists v'. split_and!; try done; [lia|].
    unfold chain_Tip. rewrite last_lookup, Hl. now apply Ht.
Qed.

(** Reading the array downwards is following [pprev]. *)
Lemma chain_wf_walk v i : chain_wf bi v -> forall k h,
  v !! (i + k)%nat = Some (Some h) -> walk bi k h = mjoin (v !! i).
Proof.
  intros Hv. induction k as [|k IH]; intros h Hh.
  - rewrite Nat.add_0_r in Hh. simpl. now rewrite Hh.
  - destruct (Hv (i + S k)%nat) as (h' & b & Hh' & Hb & _ & Hp); [now apply lookup_lt_Some in Hh|].
    rewrite Hh in Hh'. injection Hh' as <-.
    rewrite Nat.add_succ_r in Hp. simpl in *. rewrite Hb. simpl. rewrite Hp.
    destruct (Hv (i + k)%nat) as (q & qb & Hq & _); [apply lookup_lt_Some in Hh; lia|].
    rewrite Hq. simpl. now apply IH.
Qed.

(** [q] is [h] or an ancestor of it. *)
Definition is_ancestor (h q : uint256) : Prop := exists n, walk bi n h = Some q.

Lemma Contains_ancestor v t p : chain_wf bi v -> chain_Tip v = Some t ->
  chain_Contains bi v p = true <-> is_ancestor t p.
Proof.
  intros Hv Ht. unfold chain_Tip in Ht. rewrite last_lookup in Ht.
  destruct (v !! Nat.pred (length v)) as [t'|] eqn:E; simpl in Ht; [subst t'|done].
  pose proof (lookup_lt_Some _ _ _ E) as Hlt.
  destruct (Hv _ Hlt) as (t' & tb & E' & Htb & Hth & _). rewrite E in E'. injection E' as <-.
  unfold chain_Contains, chain_at. split.
  - destruct (bi !! p) as [b|] eqn:Hb; [|done]. rewrite bool_decide_eq_true.
    destruct (_ || _)%bool eqn:Hr; [done|]. bool_hyps. intros Hp.
    exists (Nat.pred (length v) - Z.to_nat (nHeight b))%nat. rewrite <- Hp.
    apply (chain_wf_walk v); [done|]. rewrite <- E. f_equal. lia.
  - intros [n Hn]. destruct (walk_height bi Hwf _ _ _ _ Htb Hn) as (b & Hb & Hbh).
    pose proof (height_nonneg bi Hwf _ _ Hb). rewrite Hb, bool_decide_eq_true.
    destruct (_ || _)%bool eqn:Hr; bool_hyps; [lia|].
    rewrite <- Hn. symmetry. apply chain_wf_walk; [done|]. rewrite <- E. f_equal. lia.
Qed.

Lemma is_ancestor_refl h : is_ancestor h h.
Proof. now exists 0%nat. Qed.

Lemma is_ancestor_trans a b c : is_ancestor a b -> is_ancestor b c -> is_ancestor a c.
Proof. intros [n Hn] [m Hm]. exists (n + m)%nat. now rewrite walk_add, Hn. Qed.

Lemma is_ancestor_step h b q : bi !! h = Some b -> is_ancestor h q ->
  q = h \/ exists p, pprev b = Some p /\ is_ancestor p q.
Proof.
  intros Hb [[|n] Hn]; [injection Hn as <-; now left|right].
  simpl in Hn. rewrite Hb in Hn. simpl in Hn. destruct (pprev b) as [p|]; [|done].
  exists p. split; [done|]. now exists n.
Qed.

Lemma is_ancestor_prev h b p : bi !! h = Some b -> pprev b = Some p -> is_ancestor h p.
Proof. intros Hb Hp. exists 1%nat. simpl. rewrite Hb. simpl. now rewrite Hp. Qed.

(** Two ancestors of one block are in line. *)
Lemma is_ancestor_linear h q b qb r rb : bi !! h = Some b -> bi !! q = Some qb -> bi !! r = Some rb ->
  is_ancestor h q -> is_ancestor h r -> nHeight rb <= nHeight qb -> is_ancestor q r.
Proof.
  intros Hb Hq Hr [n Hn] [m Hm] Hle.
  destruct (walk_height bi Hwf _ _ _ _ Hb Hn) as (qb' & Hq' & Hqh).
  destruct (walk_height bi Hwf _ _ _ _ Hb Hm) as (rb' & Hr' & Hrh).
  simplify_eq. exists (m - n)%nat. rewrite <- Hm. symmetry. now apply walk_via; [lia|].
Qed.

(** [r] is the highest block satisfying [P] at or below [p]; null when
    there is none. *)
Definition highest (P : uint256 -> Prop) (p r : option uint256) : Prop :=
  match r with
  | Some q => (exists h, p = Some h /\ is_ancestor h q) /\ P q /\
              forall h q', p = Some h -> is_ancestor h q' -> P q' -> is_ancestor q q'
  | None => forall h q', p = Some h -> is_ancestor h q' -> ~ P q'
  end.

Lemma highest_self P h : P h -> highest P (Some h) (Some h).
Proof.
  intros HP. split_and!; [eauto using is_ancestor_refl|done|]. now intros ? q [= <-] ? _.
Qed.

Lemma highest_lower P h p r :
  (forall q, is_ancestor h q -> P q -> exists p', p = Some p' /\ is_ancestor p' q) ->
  (forall p', p = Some p' -> is_ancestor h p') ->
  highest P p r -> highest P (Some h) r.
Proof.
  intros Hdown Hup. destruct r as [q|]; simpl.
  - intros ((p' & Hp & Ha) & HP & Hmax). split_and!; [|done|].
    + exists h. split; [done|]. eapply is_ancestor_trans; eauto.
    + intros h' q' [= <-] Hq' HPq'. destruct (Hdown q' Hq' HPq') as (p'' & ? & ?). eauto.
  - intros Hno h' q' [= <-] Hq' HPq'. destruct (Hdown q' Hq' HPq') as (p'' & ? & ?).
    eapply Hno; eauto.
Qed.

(** Going to the predecessor of a block that does not qualify. *)
Lemma highest_pprev P h b r :
  bi !! h = Some b -> ~ P h -> highest P (pprev b) r -> highest P (Some h) r.
Proof.
  intros Hb HP. apply highest_lower.
  - intros q Hq HPq. destruct (is_ancestor_step _ _ _ Hb Hq) as [->|?]; done.
  - intros p' Hp'. now apply (is_ancestor_prev h b).
Qed.

(** Blocks that qualify only at or below [height]: starting there is enough. *)
Lemma highest_ancestor P h b height q r :
  bi !! h = Some b -> 0 <= height <= nHeight b -> walk bi (Z.to_nat (nHeight b - height)) h = Some q ->
  (forall q' b', bi !! q' = Some b' -> P q' -> nHeight b' <= height) ->
  highest P (Some q) r -> highest P (Some h) r.
Proof.
  intros Hb Hh Hq Hlow. apply highest_lower.
  - intros q' [n Hn] HP. destruct (walk_height bi Hwf _ _ _ _ Hb Hn) as (qb' & Hqb' & Hqh').
    destruct (walk_height bi Hwf _ _ _ _ Hb Hq) as (qb & Hqb & Hqh).
    pose proof (Hlow _ _ Hqb' HP). exists q. split; [done|].
    apply (is_ancestor_linear h q b qb q' qb'); try done; [eexists; eassumption|eexists; eassumption|lia].
  - intros p' [= <-]. eexists; eassumption.
Qed.

Lemma FindFork_loop_spec v fuel : forall h b, bi !! h = Some b -> (Z.to_nat (nHeight b) < fuel)%nat ->
  exists r, FindFork_loop fuel bi v (Some h) = Ret r /\
            highest (fun q => chain_Contains bi v q = true) (Some h) r.
Proof.
  induction fuel as [|fuel IH]; intros h b Hb Hf; [lia|]. simpl.
  destruct (chain_Contains bi v h) eqn:Hc; [exists (Some h); split; [done|now apply highest_self]|].
  outcome_step. assert (Hno : ~ chain_Contains bi v h = true) by congruence.
  destruct (pprev b) as [p|] eqn:Hp.
  - destruct (pprev_height bi Hwf _ _ _ Hb Hp) as (pb & Hpb & Hh).
    pose proof (height_nonneg bi Hwf _ _ Hpb).
    destruct (IH p pb Hpb) as (r & Hr & Hhi); [lia|]. exists r. split; [done|].
    apply (highest_pprev _ h b); [done|done|]. now rewrite Hp.
  - exists None. split; [now destruct fuel|].
    apply (highest_pprev _ h b); [done|done|]. rewrite Hp. now intros ? ? [=].
Qed.

Lemma FindFork_spec v h b : bi !! h = Some b ->
  exists r, FindFork bi v (Some h) = Ret r /\
            highest (fun q => chain_Contains bi v q = true) (Some h) r.
Proof.
  intros Hb. pose proof (height_nonneg bi Hwf _ _ Hb) as Hpos. unfold FindFork. outcome_step.
  rewrite Z.gtb_ltb. destruct (Z.ltb_spec (chain_Height v) (nHeight b)) as [Hlt|Hge];
    [|apply (FindFork_loop_spec v _ h b Hb); lia].
  rewrite (GetAncestor_walk bi Hwf h b) by done. cbn [mbind outcome_bind].
  assert (Hlow : forall q' b', bi !! q' = Some b' -> chain_Contains bi v q' = true -> nHeight b' <= chain_Height v).
  { intros q' b' Hb' Hc. unfold chain_Contains in Hc. rewrite Hb', bool_decide_eq_true in Hc.
    unfold chain_at in Hc. destruct (_ || _)%bool eqn:E; [done|]. bool_hyps.
    unfold chain_Height. lia. }
  destruct (Z.leb_spec 0 (chain_Height v)) as [H0|H0]; cbn [andb].
  - rewrite (proj2 (Z.leb_le _ _)) by lia.
    destruct (walk_total bi Hwf (Z.to_nat (nHeight b - chain_Height v)) h b Hb) as (q & qb & Hq & Hqb & Hqh); [lia|].
    rewrite Hq. destruct (FindFork_loop_spec v (S (Z.to_nat (nHeight b))) q qb Hqb) as (r & Hr & Hhi); [lia|].
    exists r. split; [done|]. apply (highest_ancestor _ h b (chain_Height v) q); [done|lia|done|done|done].
  - exists None. split; [done|]. intros h' q' [= <-] [n Hn] Hc.
    destruct (walk_height bi Hwf _ _ _ _ Hb Hn) as (qb & Hqb & _).
    pose proof (Hlow _ _ Hqb Hc). pose proof (height_nonneg bi Hwf _ _ Hqb). lia.
Qed.

Lemma highest_iff P Q h r : (forall q, is_ancestor h q -> P q <-> Q q) ->
  highest P (Some h) r -> highest Q (Some h) r.
Proof.
  intros Hiff. destruct r as [q|]; simpl.
  - intros ((h' & [= <-] & Hq) & HP & Hmax). split_and!; [eauto|now apply Hiff|].
    intros h' q' [= <-] Hq' HP'. eapply Hmax; [done|done|now apply Hiff].
  - intros Hnone h' q' [= <-] Hq' HP'. eapply Hnone; [done|done|now apply Hiff].
Qed.

Lemma same_height_ancestor a ab b bb : bi !! a = Some ab -> bi !! b = Some bb ->
  nHeight ab <= nHeight bb -> is_ancestor a b -> a = b.
Proof.
  intros Ha Hb Hle [n Hn]. destruct (walk_height bi Hwf _ _ _ _ Ha Hn) as (qb & Hq & Hqh).
  simplify_eq. assert (n = 0%nat) as -> by lia. now injection Hn.
Qed.

Lemma LastCommonAncestor_loop_spec fuel : forall a ab b bb,
  bi !! a = Some ab -> bi !! b = Some bb -> nHeight ab = nHeight bb -> (Z.to_nat (nHeight ab) < fuel)%nat ->
  exists r, LastCommonAncestor_loop fuel bi (Some a) (Some b) = Ret r /\
            highest (is_ancestor b) (Some a) r.
Proof.
  induction fuel as [|fuel IH]; intros a ab b bb Ha Hb Hh Hf; [lia|]. simpl.
  case_bool_decide as Hab.
  { subst b. exists (Some a). split; [done|]. apply highest_self, is_ancestor_refl. }
  do 2 outcome_step. pose proof (height_nonneg bi Hwf _ _ Ha).
  assert (Hno : ~ is_ancestor b a).
  { intros Hanc. apply Hab. symmetry. apply (same_height_ancestor b bb a ab); try done. lia. }
  assert (Hred : forall r, highest (is_ancestor b) (pprev ab) r -> highest (is_ancestor b) (Some a) r)
    by (intros r; now apply (highest_pprev _ a ab)).
  destruct (decide (nHeight ab = 0)) as [H0|H0].
  - assert (pprev ab = None) as Hpa.
    { destruct (pprev ab) eqn:E; [|done]. destruct (pprev_height bi Hwf _ _ _ Ha E) as (x & Hx & ?).
      pose proof (height_nonneg bi Hwf _ _ Hx). lia. }
    assert (pprev bb = None) as Hpb.
    { destruct (pprev bb) eqn:E; [|done]. destruct (pprev_height bi Hwf _ _ _ Hb E) as (x & Hx & ?).
      pose proof (height_nonneg bi Hwf _ _ Hx). lia. }
    rewrite Hpa, Hpb. exists None. split; [now destruct fuel|]. apply Hred. rewrite Hpa. now intros ? ? [=].
  - destruct (pprev_some bi Hwf a ab Ha) as (pa & pab & Hpa & Hpab & Hah); [lia|].
    destruct (pprev_some bi Hwf b bb Hb) as (pb & pbb & Hpb & Hpbb & Hbh); [lia|].
    rewrite Hpa, Hpb. destruct (IH pa pab pb pbb Hpab Hpbb) as (r & Hr & Hhi); [lia|lia|].
    exists r. split; [done|]. apply Hred. rewrite Hpa. revert Hhi. apply highest_iff.
    intros q Hq. split; [intros; apply (is_ancestor_trans b pb q); [now apply (is_ancestor_prev b bb)|done]|].
      intros Hbq. destruct (is_ancestor_step b bb q Hb Hbq) as [->|(p' & Hp' & ?)]; [|congruence].
      destruct Hq as [n Hn]. destruct (walk_height bi Hwf _ _ _ _ Hpab Hn) as (x & Hx & ?).
      simplify_eq. lia.
Qed.

Lemma LastCommonAncestor_spec a ab b bb : bi !! a = Some ab -> bi !! b = Some bb ->
  exists r, LastCommonAncestor bi a b = Ret r /\ highest (is_ancestor b) (Some a) r.
Proof.
  intros Ha Hb. pose proof (height_nonneg bi Hwf _ _ Ha). pose proof (height_nonneg bi Hwf _ _ Hb).
  unfold LastCommonAncestor. do 2 outcome_step. rewrite !Z.gtb_ltb.
  destruct (Z.ltb_spec (nHeight bb) (nHeight ab)) as [Hlt|Hge];
    [|destruct (Z.ltb_spec (nHeight ab) (nHeight bb)) as [Hlt|Hge']].
  - destruct (walk_total bi Hwf (Z.to_nat (nHeight ab - nHeight bb)) a ab Ha) as (q & qb & Hq & Hqb & Hqh); [lia|].
    rewrite (GetAncestor_walk bi Hwf a ab) by done. rewrite !(proj2 (Z.leb_le _ _)) by lia.
    cbn [andb mbind outcome_bind]. rewrite Hq.
    edestruct (LastCommonAncestor_loop_spec (S (Z.to_nat (Z.min (nHeight ab) (nHeight bb)))) q qb b bb)
      as (r & Hr & Hhi); [done|done|lia|lia|].
    exists r. split; [done|]. apply (highest_ancestor _ a ab (nHeight bb) q); [done|lia|done| |done].
    intros q' b' Hb' [n Hn]. destruct (walk_height bi Hwf _ _ _ _ Hb Hn) as (x & ? & ?). simplify_eq. lia.
  - destruct (walk_total bi Hwf (Z.to_nat (nHeight bb - nHeight ab)) b bb Hb) as (q & qb & Hq & Hqb & Hqh); [lia|].
    rewrite (GetAncestor_walk bi Hwf b bb) by done. rewrite !(proj2 (Z.leb_le _ _)) by lia.
    cbn [andb mbind outcome_bind]. rewrite Hq.
    edestruct (LastCommonAncestor_loop_spec (S (Z.to_nat (Z.min (nHeight ab) (nHeight bb)))) a ab q qb)
      as (r & Hr & Hhi); [done|done|lia|lia|].
    exists r. split; [done|]. revert Hhi. apply highest_iff. intros x [n Hn].
    destruct (walk_height bi Hwf _ _ _ _ Ha Hn) as (xb & Hx & Hxh).
    assert (is_ancestor b q) by (eexists; eassumption).
    split; [intros; now apply (is_ancestor_trans b q x)|].
    intros. apply (is_ancestor_linear b q bb qb x xb); try done. lia.
  - apply (LastCommonAncestor_loop_spec _ a ab b bb); done || lia.
Qed.

(** A locator: the block itself, ever lower ancestors, down to a root. *)
Inductive descending : uint256 -> list uint256 -> Prop :=
| desc_root h b : bi !! h = Some b -> nHeight b = 0 -> descending h [h]
| desc_cons h b h' b' l : bi !! h = Some b -> bi !! h' = Some b' -> is_ancestor h h' ->
    nHeight b' < nHeight b -> descending h' l -> descending h (h :: l).

Lemma LocatorEntries_loop_spec H fuel : H < 2^30 -> forall h b step have, bi !! h = Some b ->
  (Z.to_nat (nHeight b) <= fuel)%nat -> nHeight b <= H ->
  (0 < nHeight b -> step = 2 ^ Z.max 0 (Z.of_nat (length have) - 10) /\ step <= H - nHeight b + 1) ->
  (0 < Z.of_nat (length have) -> Z.of_nat (length have) <= 11 + Z.log2 H) ->
  exists l, LocatorEntries_loop fuel bi (Some h) step have = Ret (have ++ l) /\
            descending h l /\ Z.of_nat (length (have ++ l)) <= 12 + Z.log2 H.
Proof.
  intros HH. pose proof (Z.log2_nonneg H) as Hlog0.
  induction fuel as [|fuel IH]; intros h b step have Hb Hf HbH Hstep Hk; cbn [LocatorEntries_loop];
    outcome_step; pose proof (height_nonneg bi Hwf _ _ Hb) as Hpos;
    (destruct (Z.eqb_spec (nHeight b) 0) as [H0|H0];
     [exists [h]; split_and!; [done|now apply (desc_root h b)|rewrite length_app; simpl; lia]|]); [lia|].
  destruct Hstep as [Hs Hs']; [lia|].
  assert (1 <= step) by (subst step; apply (Z.pow_le_mono_r 2 0); lia).
  assert (Hk' : Z.of_nat (length have) - 10 <= Z.log2 H).
  { destruct (Z.le_ge_cases (Z.of_nat (length have) - 10) 0); [lia|].
    apply Z.log2_le_pow2; [lia|]. rewrite Z.max_r in Hs by lia. lia. }
  rewrite (GetAncestor_walk bi Hwf h b) by done.
  set (height := Z.max (nHeight b - step) 0).
  rewrite !(proj2 (Z.leb_le _ _)) by lia. cbn [andb mbind outcome_bind].
  destruct (walk_total bi Hwf (Z.to_nat (nHeight b - height)) h b Hb) as (q & qb & Hq & Hqb & Hqh); [lia|].
  rewrite Hq.
  assert (Hrec : forall step', step' = 2 ^ Z.max 0 (Z.of_nat (length (have ++ [h])) - 10) ->
            (0 < nHeight qb -> step' <= H - nHeight qb + 1) ->
            exists l, LocatorEntries_loop fuel bi (Some q) step' (have ++ [h]) = Ret (have ++ l) /\
            descending h l /\ Z.of_nat (length (have ++ l)) <= 12 + Z.log2 H).
  { intros step' E Hle. destruct (IH q qb step' (have ++ [h]) Hqb) as (l & Hl & Hd & Hlen);
      [lia|lia|now split; auto|rewrite length_app; simpl; lia|].
    exists (h :: l). rewrite <- app_assoc in Hl, Hlen. split_and!; [done| |done].
    apply (desc_cons h b q qb); try done; [now exists (Z.to_nat (nHeight b - height))|lia]. }
  rewrite length_app in *. simpl in *. 
  destruct (Z.ltb_spec 10 (Z.of_nat (length have + 1))) as [H10|H10].
  - rewrite Z.gtb_ltb, (proj2 (Z.ltb_ge _ _)) by (unfold INT_MAX; lia).
    apply Hrec; [|lia]. rewrite Hs, !Z.max_r by lia.
    rewrite Z.mul_comm, <- Z.pow_succ_r by lia. f_equal. lia.
  - apply Hrec; [|lia]. rewrite Hs, !Z.max_l by lia. done.
Qed.

Lemma LocatorEntries_spec h b : bi !! h = Some b -> nHeight b < 2^30 ->
  exists l, LocatorEntries bi (Some h) = Ret l /\ descending h l /\
            Z.of_nat (length l) <= 12 + Z.log2 (nHeight b).
Proof.
  intros Hb HH. unfold LocatorEntries. outcome_step.
  apply (LocatorEntries_loop_spec (nHeight b) _ HH h b 1 [] Hb); [lia|lia|intros; split; [reflexivity|lia]|simpl; lia].
Qed.
End active.

(** ** [lower_bound] on a partitioned array *)

Lemma lower_bound_loop_spec {A} (below : A -> bool) (l : list A) k :
  (forall i x, l !! i = Some x -> below x = (i <? k)%nat) ->
  forall fuel first len, (len <= fuel)%nat -> (first + len <= length l)%nat ->
  (first <= k <= first + len)%nat -> lower_bound_loop fuel below l first len = k.
Proof.
  intros Hpart. induction fuel as [|fuel IH]; intros first len Hf Hl Hk; [simpl; lia|].
  destruct len as [|len]; [simpl; lia|]. cbn [lower_bound_loop].
  set (half := Nat.div2 (S len)).
  assert (half <= len)%nat by (pose proof (Nat.lt_div2 (S len)); lia).
  destruct (lookup_lt_is_Some_2 l (first + half)) as [x Hx]; [lia|].
  rewrite Hx, (Hpart _ _ Hx). destruct (Nat.ltb_spec (first + half) k); apply IH; lia.
Qed.

Lemma lower_bound_spec {A} (below : A -> bool) (l : list A) k :
  (k <= length l)%nat -> (forall i x, l !! i = Some x -> below x = (i <? k)%nat) ->
  lower_bound below l = k.
Proof. intros Hk Hpart. unfold lower_bound. apply (lower_bound_loop_spec below l k); [done|lia..]. Qed.

(** An antitone predicate partitions a list. *)
Lemma antitone_partition {A} (below : A -> bool) (l : list A) :
  (forall i x y, l !! i = Some x -> l !! S i = Some y -> below y = true -> below x = true) ->
  exists k, (k <= length l)%nat /\ forall i x, l !! i = Some x -> below x = (i <? k)%nat.
Proof.
  induction l as [|a l IH]; intros Hanti; [exists 0%nat; split; [done|intros i x [=]]|].
  destruct IH as (k & Hk & Hpart); [intros i x y Hx Hy; now apply (Hanti (S i))|].
  destruct (below a) eqn:Ha.
  - exists (S k). simpl. split; [lia|]. intros [|i] x Hx; [injection Hx as <-; now rewrite Ha|]. now apply (Hpart i).
  - exists 0%nat. split; [simpl; lia|]. intros i x Hx. rewrite (proj2 (Nat.ltb_ge i 0)) by lia.
    revert i x Hx. induction i as [|i IHi]; intros x Hx; [now injection Hx as <-|].
    destruct (lookup_lt_is_Some_2 (a :: l) i) as [y Hy]; [apply lookup_lt_Some in Hx; lia|].
    destruct (below x) eqn:Hbx; [|done]. rewrite <- (IHi y Hy). symmetry. now apply (Hanti i y x).
Qed.

(** [nTimeMax] does not decrease along [pprev]. *)
Definition time_max_wf (bi : gmap uint256 CBlockIndex) : Prop :=
  forall h b p pb, bi !! h = Some b -> pprev b = Some p -> bi !! p = Some pb -> nTimeMax pb <= nTimeMax b.

Lemma earlier_than_antitone bi v t height : chain_wf bi v -> time_max_wf bi ->
  forall i x y, v !! i = Some x -> v !! S i = Some y ->
  earlier_than bi t height y = true -> earlier_than bi t height x = true.
Proof.
  intros Hv Ht i x y Hx Hy. unfold earlier_than.
  destruct (Hv (S i)) as (h & b & Hh & Hb & Hbh & Hp); [now apply lookup_lt_Some in Hy|].
  destruct (Hv i) as (h' & b' & Hh' & Hb' & Hbh' & _); [now apply lookup_lt_Some in Hx|].
  simpl in Hp. rewrite Hh' in Hp. simpl in Hp. simplify_eq. simpl. rewrite Hb, Hb'. simpl.
  pose proof (Ht _ _ _ _ Hb Hp Hb') as Hle. unfold GetBlockTimeMax. intros H.
  apply orb_true_iff in H as [H|H]; apply orb_true_iff; bool_hyps; [left|right]; apply Z.ltb_lt; lia.
Qed.

Lemma FindEarliestAtLeast_lookup bi v t height : chain_wf bi v -> time_max_wf bi ->
  exists k, FindEarliestAtLeast bi v t height = mjoin (v !! k) /\
            forall i x, v !! i = Some x -> earlier_than bi t height x = (i <? k)%nat.
Proof.
  intros Hv Ht. destruct (antitone_partition (earlier_than bi t height) v) as (k & Hk & Hpart);
    [now apply earlier_than_antitone|].
  exists k. split; [|done]. unfold FindEarliestAtLeast. now rewrite (lower_bound_spec _ v k).
Qed.

(** ** Properties *)

(** [SetTip] on a coherent chain terminates, leaves a coherent chain of
    length [nHeight + 1] whose tip is the block, and afterwards [Contains] holds
    exactly of the tip and its ancestors, although the loop stops at the first
    entry already in place. *)
Theorem SetTip_correct (bi : gmap uint256 CBlockIndex) (v : list (option uint256)) (h : uint256) (b : CBlockIndex) :
  tree_wf bi -> chain_wf bi v -> bi !! h = Some b ->
  exists v', SetTip bi v (Some h) = Ret v' /\ chain_wf bi v' /\
             chain_Height v' = nHeight b /\ chain_Tip v' = Some h /\
             forall p, chain_Contains bi v' p = true <-> is_ancestor bi h p.
Proof.
  intros Hwf Hv Hb. destruct (SetTip_spec bi Hwf v h b Hv Hb) as (v' & Hr & Hv' & Hl & Ht).
  exists v'. split_and!; try done; [unfold chain_Height; lia|].
  intros p. now apply Contains_ancestor.
Qed.

Lemma demo_chain_wf : chain_wf demo_index (Some <$> [demo_hash 1; demo_hash 2; demo_hash 3; demo_hash 7]).
Proof.
  intros [|[|[|[|i]]]] Hi; [..|simpl in Hi; lia]; do 2 eexists; split_and!; vm_compute; reflexivity.
Qed.

Lemma SetTip_correct_witness :
  exists v', SetTip demo_index (Some <$> [demo_hash 1; demo_hash 2; demo_hash 3; demo_hash 7]) (Some (demo_hash 6)) = Ret v' /\
             chain_Height v' = 5 /\ chain_Contains demo_index v' (demo_hash 4) = true.
Proof.
  destruct (SetTip_correct demo_index (Some <$> [demo_hash 1; demo_hash 2; demo_hash 3; demo_hash 7])
    (demo_hash 6) (demo_entry (Some 5) (Some 2) 5 0 0x1e0fffff 1050) demo_index_wf demo_chain_wf)
    as (v' & Hr & _ & Hh & _ & Hc); [vm_compute; reflexivity|].
  exists v'. split_and!; [exact Hr|exact Hh|]. apply Hc. exists 2%nat. vm_compute. reflexivity.
Defined.

(** [FindFork] and [LastCommonAncestor] terminate without failing an
    assertion, and return the highest common block: [FindFork] the highest
    ancestor of the block that is on the active chain, [LastCommonAncestor] the
    highest block that is an ancestor of both; null only when there is none. *)
Theorem fork_points_correct (bi : gmap uint256 CBlockIndex) (v : list (option uint256))
    (a b : uint256) (ab bb : CBlockIndex) :
  tree_wf bi -> bi !! a = Some ab -> bi !! b = Some bb ->
  (exists r, FindFork bi v (Some a) = Ret r /\
             highest bi (fun q => chain_Contains bi v q = true) (Some a) r) /\
  (exists r, LastCommonAncestor bi a b = Ret r /\ highest bi (is_ancestor bi b) (Some a) r).
Proof.
  intros Hwf Ha Hb. split; [now apply (FindFork_spec bi Hwf v a ab)|].
  now apply (LastCommonAncestor_spec bi Hwf a ab b bb).
Qed.

Lemma fork_points_correct_witness :
  exists r, LastCommonAncestor demo_index (demo_hash 6) (demo_hash 7) = Ret r /\ r = Some (demo_hash 3).
Proof.
  destruct (fork_points_correct demo_index (Some <$> [demo_hash 1; demo_hash 2]) (demo_hash 6) (demo_hash 7)
    (demo_entry (Some 5) (Some 2) 5 0 0x1e0fffff 1050) (demo_entry (Some 3) (Some 2) 3 0 0x1e0fffff 1060)
    demo_index_wf) as [_ (r & Hr & _)]; [vm_compute; reflexivity|vm_compute; reflexivity|].
  exists r. split; [exact Hr|]. vm_compute in Hr. injection Hr as <-. reflexivity.
Defined.

(** C37: for a block below height 2^30, [LocatorEntries] terminates without
    overflowing its step: it lists the block, then strictly lower ancestors,
    and ends at a block of height 0; it has at most 12 + log2(height) entries,
    hence less than the 101 a peer accepts. *)
Theorem LocatorEntries_correct (bi : gmap uint256 CBlockIndex) (h : uint256) (b : CBlockIndex) :
  tree_wf bi -> bi !! h = Some b -> nHeight b < 2^30 ->
  exists l, LocatorEntries bi (Some h) = Ret l /\ descending bi h l /\
            Z.of_nat (length l) <= 12 + Z.log2 (nHeight b).
Proof. intros Hwf. now apply LocatorEntries_spec. Qed.

Lemma LocatorEntries_correct_witness :
  exists l, LocatorEntries demo_index (Some (demo_hash 6)) = Ret l /\ (Z.of_nat (length l) <= 14).
Proof.
  destruct (LocatorEntries_correct demo_index (demo_hash 6) (demo_entry (Some 5) (Some 2) 5 0 0x1e0fffff 1050)
    demo_index_wf) as (l & Hl & _ & Hlen); [vm_compute; reflexivity|simpl; lia|].
  exists l. split; [exact Hl|]. simpl in Hlen. exact Hlen.
Defined.
