(* ===== verification/VersionBits.v ===== *)
(** * VersionBits: deployment of soft forks by signalling
      (src/src/versionbits.{h,cpp}, src/src/deploymentstatus.h)

    The state of a deployment after a block is computed period by period along
    the chain and kept in a cache by block. The cached computation is shown to
    return the state a plain recursion over the periods defines, whatever was
    asked before. *)

From Stdlib Require Import ZArith Lia.
From stdpp Require Import base list numbers option gmap sorting.
From S2P Require Import Prelude Arith256 Uint256 Compact Transaction Chain.

(** ** Data *)

Inductive ThresholdState := DEFINED | STARTED | LOCKED_IN | ACTIVE | FAILED.
#[export] Instance ThresholdState_eq_dec : EqDecision ThresholdState.
Proof. solve_decision. Defined.

(** The virtual functions of [AbstractThresholdConditionChecker] *)
Class ThresholdChecker : Type := {
  Condition : CBlockIndex -> bool;
  BeginTime : Z;
  (** of the block a state is asked for *)
  SignalHeight : option uint256 -> Z;
  EndTime : Z;
  MinActivationHeight : Z;
  Period : Z;
  Threshold : Z -> Z;
}.

(** [ThresholdConditionCache]; [None] is [nullptr]. *)
Notation ThresholdConditionCache := (gmap (option uint256) ThresholdState).

Definition ALWAYS_ACTIVE : Z := -1.
Definition NEVER_ACTIVE : Z := -2.

(** ** [GetStateFor] *)

Section checker.

Context (bi : gmap uint256 CBlockIndex) `{ThresholdChecker} (MinBIP9WarningHeight : Z).

(** More than the number of periods up to a block *)
Definition period_fuel (p : option uint256) : nat :=
  match p with
  | Some h => match bi !! h with Some b => S (S (Z.to_nat (nHeight b))) | None => 1 end
  | None => 1
  end.

Fixpoint start_loop (fuel : nat) (pindexPrev : option uint256) (state : ThresholdState) (nStartHeight : Z)
    (cache : ThresholdConditionCache) : outcome Z :=
  match state, fuel with
  | STARTED, S fuel =>
      h ← deref pindexPrev;
      b ← deref (bi !! h);
      let nStartHeight := Z.min (nHeight b + 1) nStartHeight in
      pindexPrev ← GetAncestor bi h (nHeight b - Period);
      state ← deref (cache !! pindexPrev);
      start_loop fuel pindexPrev state nStartHeight cache
  | STARTED, O => Abort
  | _, _ => Ret nStartHeight
  end.
Definition calculateStartHeight (pindexPrev : option uint256) (state : ThresholdState) (cache : ThresholdConditionCache) : outcome Z :=
  start_loop (period_fuel pindexPrev) pindexPrev state INT_MAX cache.

(** The walk back to a block whose state is known; the last of [vToCompute] is
    the head of the list. *)
Fixpoint walk_back (fuel : nat) (masternodeStartHeight : Z) (pindexPrev : option uint256) (cache : ThresholdConditionCache)
    (vToCompute : list uint256) : outcome (option uint256 * ThresholdConditionCache * list uint256) :=
  match cache !! pindexPrev, pindexPrev, fuel with
  | Some _, _, _ => Ret (pindexPrev, cache, vToCompute)
  | None, None, _ => Ret (pindexPrev, <[pindexPrev := DEFINED]> cache, vToCompute)
  | None, Some h, S fuel =>
      b ← deref (bi !! h);
      if nHeight b <? MinBIP9WarningHeight then Ret (pindexPrev, <[pindexPrev := DEFINED]> cache, vToCompute)
      else if ((GetMedianTimePast bi h <? BeginTime) || (nHeight b <? masternodeStartHeight))%bool
      then Ret (pindexPrev, <[pindexPrev := DEFINED]> cache, vToCompute)
      else
        p ← GetAncestor bi h (nHeight b - Period);
        walk_back fuel masternodeStartHeight p cache (h :: vToCompute)
  | None, Some _, O => Abort
  end.

(** The count of signalling blocks; [n] is [nPeriod - i]. *)
Fixpoint count_loop (n : nat) (threshold count : Z) (pindexCount : option uint256) : outcome Z :=
  match n with
  | O => Ret count
  | S m =>
      if count + Z.of_nat n >=? threshold then
        h ← deref pindexCount;
        b ← deref (bi !! h);
        count_loop m threshold (if Condition b then count + 1 else count) (pprev b)
      else Ret count
  end.

(** The body of the walk forward: the next state and [nStartHeight] *)
Definition next_state (masternodeStartHeight : Z) (h : uint256) (state : ThresholdState) (nStartHeight : Z) : outcome (ThresholdState * Z) :=
  b ← deref (bi !! h);
  match state with
  | DEFINED =>
      if ((GetMedianTimePast bi h >=? BeginTime) && (nHeight b >=? masternodeStartHeight))%bool
      then Ret (STARTED, nHeight b + 1) else Ret (DEFINED, nStartHeight)
  | STARTED =>
      let nAttempt := Z.quot (nHeight b - nStartHeight) Period in
      let threshold := Threshold nAttempt in
      count ← count_loop (Z.to_nat Period) threshold 0 (Some h);
      if negb ((nStartHeight >? 0) && (nStartHeight <? INT_MAX)) then Abort
      else if count >=? threshold then Ret (LOCKED_IN, nStartHeight)
      else if GetMedianTimePast bi h >=? EndTime then Ret (FAILED, nStartHeight)
      else Ret (STARTED, nStartHeight)
  | LOCKED_IN => Ret (if nHeight b + 1 >=? MinActivationHeight then ACTIVE else LOCKED_IN, nStartHeight)
  | FAILED | ACTIVE => Ret (state, nStartHeight)
  end.

Fixpoint walk_forward (masternodeStartHeight : Z) (vToCompute : list uint256) (state : ThresholdState) (nStartHeight : Z)
    (cache : ThresholdConditionCache) : outcome (ThresholdState * ThresholdConditionCache) :=
  match vToCompute with
  | [] => Ret (state, cache)
  | h :: vToCompute =>
      '(state, nStartHeight) ← next_state masternodeStartHeight h state nStartHeight;
      walk_forward masternodeStartHeight vToCompute state nStartHeight (<[Some h := state]> cache)
  end.

(** The block before the period *)
Definition period_parent (pindexPrev : option uint256) : outcome (option uint256) :=
  match pindexPrev with
  | Some h => b ← deref (bi !! h); GetAncestor bi h (nHeight b - Z.rem (nHeight b + 1) Period)
  | None => Ret None
  end.

Definition GetStateFor (pindexPrev : option uint256) (cache : ThresholdConditionCache) : outcome (ThresholdState * ThresholdConditionCache) :=
  let masternodeStartHeight := SignalHeight pindexPrev in
  if BeginTime =? ALWAYS_ACTIVE then Ret (ACTIVE, cache)
  else if BeginTime =? NEVER_ACTIVE then Ret (FAILED, cache)
  else
    p ← period_parent pindexPrev;
    '(p, cache, vToCompute) ← walk_back (period_fuel p) masternodeStartHeight p cache [];
    state ← deref (cache !! p);
    match vToCompute with
    | [] => Ret (state, cache)
    | _ =>
        nStartHeight ← calculateStartHeight p state cache;
        walk_forward masternodeStartHeight vToCompute state nStartHeight cache
    end.

(** ** [GetStateSinceHeightFor] and [GetStateStatisticsFor] *)

Fixpoint since_loop (fuel : nat) (pindexPrev : uint256) (initialState : ThresholdState) (cache : ThresholdConditionCache) :
    outcome (Z * ThresholdConditionCache) :=
  b ← deref (bi !! pindexPrev);
  previousPeriodParent ← GetAncestor bi pindexPrev (nHeight b - Period);
  match previousPeriodParent, fuel with
  | None, _ => Ret (nHeight b + 1, cache)
  | Some p, S fuel =>
      '(state, cache) ← GetStateFor (Some p) cache;
      if bool_decide (state = initialState) then since_loop fuel p initialState cache else Ret (nHeight b + 1, cache)
  | Some _, O => Abort
  end.
Definition GetStateSinceHeightFor (pindexPrev : option uint256) (cache : ThresholdConditionCache) : outcome (Z * ThresholdConditionCache) :=
  if ((BeginTime =? ALWAYS_ACTIVE) || (BeginTime =? NEVER_ACTIVE))%bool then Ret (0, cache)
  else
    '(initialState, cache) ← GetStateFor pindexPrev cache;
    if bool_decide (initialState = DEFINED) then Ret (0, cache)
    else
      h ← deref pindexPrev;
      b ← deref (bi !! h);
      p ← GetAncestor bi h (nHeight b - Z.rem (nHeight b + 1) Period);
      p ← deref p;
      since_loop (period_fuel (Some p)) p initialState cache.

(** [period], [threshold], [elapsed], [count] and [possible] *)
Record BIP9Stats : Type := mkStats { st_period : Z; st_threshold : Z; st_elapsed : Z; st_count : Z; st_possible : bool }.

Fixpoint stats_loop (fuel : nat) (stop : Z) (h : uint256) (count : Z) : outcome Z :=
  b ← deref (bi !! h);
  if stop =? nHeight b then Ret count
  else
    match fuel with
    | O => Abort
    | S fuel => p ← deref (pprev b); stats_loop fuel stop p (if Condition b then count + 1 else count)
    end.
Definition GetStateStatisticsFor (pindex : option uint256) (cache : ThresholdConditionCache) : outcome (BIP9Stats * ThresholdConditionCache) :=
  match pindex with
  | None => Ret (mkStats Period (Threshold 0) 0 0 false, cache)
  | Some h =>
      b ← deref (bi !! h);
      e ← GetAncestor bi h (nHeight b - Z.rem (nHeight b + 1) Period);
      e ← deref e;
      eb ← deref (bi !! e);
      let elapsed := nHeight b - nHeight eb in
      '(state, cache) ← GetStateFor (Some e) cache;
      '(nAttempt, cache) ←
        (if bool_decide (state = STARTED) then
           '(nStartHeight, cache) ← GetStateSinceHeightFor (Some e) cache;
           Ret (Z.quot (nHeight eb + 1 - nStartHeight) Period, cache)
         else Ret (0, cache));
      let threshold := Threshold nAttempt in
      count ← stats_loop (period_fuel (Some h)) (nHeight eb) h 0;
      Ret (mkStats Period threshold elapsed count (Period - threshold >=? elapsed - count), cache)
  end.

End checker.

(** ** Deployments by version bits *)

Record BIP9Deployment : Type := mkDeployment {
  dep_bit : Z; nStartTime : Z; nTimeout : Z; min_activation_height : Z; nWindowSize : Z;
  nThresholdStart : Z; nThresholdMin : Z; nFalloffCoeff : Z; useEHF : bool;
}.

Definition VERSIONBITS_TOP_BITS : Z := 0x20000000.
Definition VERSIONBITS_TOP_MASK : Z := i32 0xE0000000.
Definition dep_Mask (d : BIP9Deployment) : Z := u32 (Z.shiftl 1 (dep_bit d)).

(** [VersionBitsConditionChecker]; [signals] is what the manager of the
    masternodes' signals answers for a block. *)
Definition vb_checker (nMinerConfirmationWindow nRuleChangeActivationThreshold : Z) (signals : option uint256 -> gmap Z Z)
    (d : BIP9Deployment) : ThresholdChecker :=
  let period := i32 (if nWindowSize d =? 0 then nMinerConfirmationWindow else nWindowSize d) in
  {| BeginTime := nStartTime d;
     SignalHeight p := if negb (useEHF d) then 0 else default INT_MAX (signals p !! dep_bit d);
     EndTime := nTimeout d;
     MinActivationHeight := min_activation_height d;
     Period := period;
     Threshold nAttempt :=
       if nThresholdStart d =? 0 then i32 nRuleChangeActivationThreshold
       else if ((nThresholdMin d =? 0) || (nFalloffCoeff d =? 0))%bool then i32 (nThresholdStart d)
       else i32 (Z.max (nThresholdMin d) (nThresholdStart d - Z.quot (Z.quot (i32 (nAttempt * nAttempt * period)) 100) (nFalloffCoeff d)));
     Condition b :=
       (Z.land (nVersion b) VERSIONBITS_TOP_MASK =? VERSIONBITS_TOP_BITS) && negb (Z.land (u32 (nVersion b)) (dep_Mask d) =? 0) |}.

(** [VersionBitsCache::ComputeBlockVersion] over the deployments and their caches *)
Fixpoint version_loop (bi : gmap uint256 CBlockIndex) (window threshold warn : Z) (signals : option uint256 -> gmap Z Z) (pindexPrev : option uint256)
    (deps : list (BIP9Deployment * ThresholdConditionCache)) (nVersion : Z) : outcome (Z * list ThresholdConditionCache) :=
  match deps with
  | [] => Ret (nVersion, [])
  | (d, cache) :: deps =>
      '(state, cache) ← @GetStateFor bi (vb_checker window threshold signals d) warn pindexPrev cache;
      let nVersion := match state with LOCKED_IN | STARTED => i32 (Z.lor (u32 nVersion) (dep_Mask d)) | _ => nVersion end in
      '(nVersion, caches) ← version_loop bi window threshold warn signals pindexPrev deps nVersion;
      Ret (nVersion, cache :: caches)
  end.
Definition ComputeBlockVersion (bi : gmap uint256 CBlockIndex) (window threshold warn : Z) (signals : option uint256 -> gmap Z Z)
    (pindexPrev : option uint256) (deps : list (BIP9Deployment * ThresholdConditionCache)) : outcome (Z * list ThresholdConditionCache) :=
  version_loop bi window threshold warn signals pindexPrev deps VERSIONBITS_TOP_BITS.

(** ** The states of the periods *)

Section spec.

Context (bi : gmap uint256 CBlockIndex) `{ThresholdChecker} (MinBIP9WarningHeight : Z).

(** The last [n] blocks up to one *)
Fixpoint blocks_back (n : nat) (p : option uint256) : list CBlockIndex :=
  match n, p with
  | S n, Some h => match bi !! h with Some b => b :: blocks_back n (pprev b) | None => [] end
  | _, _ => []
  end.
Definition signals (n : nat) (p : option uint256) : Z := Z.of_nat (length (List.filter Condition (blocks_back n p))).

(** The state after a period that ends with [h], and the height at which the
    signalling started, from those after the period before *)
Definition period_step (before : ThresholdState * Z) (h : uint256) : ThresholdState * Z :=
  match bi !! h with
  | None => (DEFINED, 0)
  | Some b =>
      if nHeight b <? MinBIP9WarningHeight then (DEFINED, 0)
      else
        let '(state, start) := before in
        match state with
        | DEFINED =>
            if ((BeginTime <=? GetMedianTimePast bi h) && (SignalHeight (Some h) <=? nHeight b))%bool
            then (STARTED, nHeight b + 1) else (DEFINED, 0)
        | STARTED =>
            if Threshold ((nHeight b - start) / Period) <=? signals (Z.to_nat Period) (Some h) then (LOCKED_IN, start)
            else if EndTime <=? GetMedianTimePast bi h then (FAILED, start)
            else (STARTED, start)
        | LOCKED_IN => (if MinActivationHeight <=? nHeight b + 1 then ACTIVE else LOCKED_IN, start)
        | ACTIVE | FAILED => (state, start)
        end
  end.

(** Over [k] periods; the first block is defined. *)
Fixpoint period_states (k : nat) (p : option uint256) : ThresholdState * Z :=
  match k, p with
  | S k, Some h => period_step (period_states k (walk bi (Z.to_nat Period) h)) h
  | _, _ => (DEFINED, 0)
  end.

Definition height_of (p : option uint256) : Z :=
  match p with Some h => match bi !! h with Some b => nHeight b | None => -1 end | None => -1 end.
Definition period_state (p : option uint256) : ThresholdState * Z :=
  period_states (Z.to_nat ((height_of p + 1) / Period)) p.

(** The last block of the period before the one a block is in *)
Definition period_end (p : option uint256) : option uint256 :=
  match p with
  | Some h => walk bi (Z.to_nat ((height_of p + 1) mod Period)) h
  | None => None
  end.

(** The state of the deployment for the block after [p] *)
Definition deployment_state (p : option uint256) : ThresholdState :=
  if BeginTime =? ALWAYS_ACTIVE then ACTIVE
  else if BeginTime =? NEVER_ACTIVE then FAILED
  else (period_state (period_end p)).1.

(** A pointer to the last block of a period, or none *)
Definition period_ptr (p : option uint256) : Prop :=
  match p with Some h => exists b, bi !! h = Some b /\ (nHeight b + 1) mod Period = 0 | None => True end.

(** What the cache may hold: states of periods, and with a state that is not the
    first also the one before *)
Definition cache_ok (c : ThresholdConditionCache) : Prop :=
  forall p s, c !! p = Some s -> period_ptr p /\ s = (period_state p).1 /\
    (s <> DEFINED -> forall h, p = Some h -> is_Some (c !! walk bi (Z.to_nat Period) h)).

(** ** The laws of the chain and of the signals *)

Context (Hwf : tree_wf bi) (HP : 0 < Period) (Hmax : forall h b, bi !! h = Some b -> nHeight b + 1 < INT_MAX).
(** The median time does not decrease along the chain. *)
Context (mtp_mono : forall h b p, bi !! h = Some b -> pprev b = Some p -> GetMedianTimePast bi p <= GetMedianTimePast bi h).
(** The height of the masternodes' signal is where it was mined: a block has it
    behind it in the view of its descendants if it has it in its own. *)
Context (signal_stable : forall q n h b, walk bi n q = Some h -> bi !! h = Some b ->
  (SignalHeight (Some q) <= nHeight b <-> SignalHeight (Some h) <= nHeight b)).

Notation N := (Z.to_nat Period).

Lemma walk_beyond n h b : bi !! h = Some b -> nHeight b < Z.of_nat n -> walk bi n h = None.
Proof.
  intros Hb Hn. destruct (walk bi n h) as [q|] eqn:E; [|done]. destruct (walk_height bi Hwf n h b q Hb E) as (qb & Hq & Hh).
  pose proof (height_nonneg bi Hwf q qb Hq). lia.
Qed.

Lemma GetAncestor_back h b d : bi !! h = Some b -> 0 <= d -> GetAncestor bi h (nHeight b - d) = Ret (walk bi (Z.to_nat d) h).
Proof.
  intros Hb Hd. rewrite (GetAncestor_walk bi Hwf h b) by done. pose proof (height_nonneg bi Hwf h b Hb).
  replace (nHeight b - (nHeight b - d)) with d by lia.
  destruct (Z.leb_spec 0 (nHeight b - d)); [by rewrite (proj2 (Z.leb_le _ _)) by lia|]. cbn [andb]. by rewrite (walk_beyond _ _ b) by (done || lia).
Qed.

Lemma walk_mtp n : forall h b q, bi !! h = Some b -> walk bi n h = Some q -> GetMedianTimePast bi q <= GetMedianTimePast bi h.
Proof.
  induction n as [|n IH]; intros h b q Hb Hw; [by injection Hw as <-|]. cbn [walk] in Hw. rewrite Hb in Hw. cbn in Hw. destruct (pprev b) as [p|] eqn:Hp; [|done].
  destruct (pprev_height bi Hwf h b p Hb Hp) as (pb & Hpb & _). specialize (IH p pb q Hpb Hw). specialize (mtp_mono h b p Hb Hp). lia.
Qed.

Lemma height_of_some h b : bi !! h = Some b -> height_of (Some h) = nHeight b.
Proof. intros Hb. cbn. by rewrite Hb. Qed.

(** The period before *)
Lemma period_ptr_walk h b : bi !! h = Some b -> (nHeight b + 1) mod Period = 0 ->
  period_ptr (walk bi N h) /\ height_of (walk bi N h) = nHeight b - Period.
Proof.
  intros Hb Ha. pose proof (height_nonneg bi Hwf h b Hb) as Hh. apply Z.div_exact in Ha; [|lia].
  assert (1 <= (nHeight b + 1) / Period) as Hk by nia.
  destruct (Z.le_gt_cases Period (nHeight b)) as [Hle|Hgt].
  - destruct (walk_total bi Hwf N h b Hb ltac:(lia)) as (q & qb & Hq & Hqb & Hqh). rewrite Hq. rewrite (height_of_some q qb Hqb). split; [|lia].
    exists qb. split; [done|]. rewrite Hqh, Z2Nat.id by lia. replace (nHeight b - Period + 1) with (nHeight b + 1 + (-1) * Period) by lia. rewrite Z_mod_plus_full.
    rewrite Ha, Z.mul_comm. apply Z_mod_mult.
  - rewrite (walk_beyond N h b Hb) by lia. split; [done|]. cbn. nia.
Qed.

Lemma period_state_eq h b : bi !! h = Some b -> (nHeight b + 1) mod Period = 0 ->
  period_state (Some h) = period_step (period_state (walk bi N h)) h.
Proof.
  intros Hb Ha. destruct (period_ptr_walk h b Hb Ha) as [_ Hw]. unfold period_state. rewrite Hw, (height_of_some h b Hb).
  pose proof (height_nonneg bi Hwf h b Hb) as Hh. apply Z.div_exact in Ha; [|lia]. assert (1 <= (nHeight b + 1) / Period) as Hk by nia.
  replace (nHeight b - Period + 1) with (nHeight b + 1 + (-1) * Period) by lia. rewrite Z.div_add by lia.
  replace (Z.to_nat ((nHeight b + 1) / Period)) with (S (Z.to_nat ((nHeight b + 1) / Period + -1))) by lia. done.
Qed.

(** Induction over the periods of a chain *)
Lemma period_ind (P : option uint256 -> Prop) : P None ->
  (forall h b, bi !! h = Some b -> (nHeight b + 1) mod Period = 0 -> period_ptr (walk bi N h) -> P (walk bi N h) -> P (Some h)) ->
  forall p, period_ptr p -> P p.
Proof.
  intros H0 HS. enough (forall n p, height_of p < Z.of_nat n -> period_ptr p -> P p) as Hn.
  { intros p Hp. apply (Hn (S (Z.to_nat (height_of p)))); [lia|done]. }
  induction n as [|n IH]; intros [h|] Hh Hp; try done.
  - destruct Hp as (b & Hb & _). rewrite (height_of_some h b Hb) in Hh. pose proof (height_nonneg bi Hwf h b Hb). lia.
  - destruct Hp as (b & Hb & Ha). destruct (period_ptr_walk h b Hb Ha) as [Hw Hwh]. apply (HS h b Hb Ha Hw). apply IH; [|done].
    rewrite (height_of_some h b Hb) in Hh. lia.
Qed.

(** ** The loops compute the states *)

Lemma start_bounds p : period_ptr p -> (period_state p).1 = STARTED -> 0 < (period_state p).2 <= height_of p + 1.
Proof.
  revert p. apply (period_ind (fun p => (period_state p).1 = STARTED -> 0 < (period_state p).2 <= height_of p + 1)); [done|].
  intros h b Hb Ha Hw IH. destruct (period_ptr_walk h b Hb Ha) as [_ Hwh]. rewrite (period_state_eq h b Hb Ha), (height_of_some h b Hb). unfold period_step. rewrite Hb.
  pose proof (height_nonneg bi Hwf h b Hb). destruct (nHeight b <? _); [done|]. destruct (period_state (walk bi N h)) as [[| | | |] start]; cbn [fst snd] in *.
  - destruct (_ && _)%bool; [cbn; lia|done].
  - specialize (IH eq_refl). destruct (_ <=? _); [done|]. destruct (_ <=? _); [done|]. cbn. lia.
  - by destruct (_ <=? _).
  - done.
  - done.
Qed.

(** Nothing starts before the time and the signal. *)
Lemma not_started p : period_ptr p ->
  match p with Some h => GetMedianTimePast bi h < BeginTime \/ height_of p < SignalHeight (Some h) | None => True end -> (period_state p).1 = DEFINED.
Proof.
  revert p. apply (period_ind (fun p => match p with Some h => GetMedianTimePast bi h < BeginTime \/ height_of p < SignalHeight (Some h) | None => True end ->
    (period_state p).1 = DEFINED)); [done|].
  intros h b Hb Ha Hw IH Hn. destruct (period_ptr_walk h b Hb Ha) as [_ Hwh]. rewrite (height_of_some h b Hb) in Hn.
  rewrite (period_state_eq h b Hb Ha). unfold period_step. rewrite Hb. destruct (_ <? _); [done|].
  assert ((period_state (walk bi N h)).1 = DEFINED) as Hd.
  { apply IH. destruct (walk bi N h) as [g|] eqn:E; [|done]. destruct Hn as [Hn|Hn]; [left; pose proof (walk_mtp N h b g Hb E); lia|right].
    destruct Hw as (gb & Hgb & _). rewrite (height_of_some g gb Hgb) in *. pose proof (signal_stable h N g gb E Hgb) as Hs. lia. }
  destruct (period_state (walk bi N h)) as [s st]. cbn in Hd. subst s.
  destruct (Z.leb_spec BeginTime (GetMedianTimePast bi h)), (Z.leb_spec (SignalHeight (Some h)) (nHeight b)); done || (cbn; lia).
Qed.

Lemma count_loop_spec n : forall threshold count h b, bi !! h = Some b -> Z.of_nat n <= nHeight b + 1 ->
  exists c, count_loop bi n threshold count (Some h) = Ret c /\ (c >=? threshold) = (threshold <=? count + signals n (Some h)).
Proof.
  induction n as [|n IH]; intros threshold count h b Hb Hn; cbn [count_loop].
  - exists count. split; [done|]. unfold signals. cbn. by rewrite Z.add_0_r, Z.geb_leb.
  - assert (Z.of_nat (S n) = Z.of_nat n + 1) as HS by lia. rewrite Z.geb_leb. destruct (Z.leb_spec threshold (count + Z.of_nat (S n))) as [Hle|Hgt].
    + cbn [deref mbind outcome_bind]. rewrite Hb. cbn [deref mbind outcome_bind]. set (count' := if Condition b then count + 1 else count).
      assert (count' + signals n (pprev b) = count + signals (S n) (Some h)) as Ec.
      { unfold signals. cbn [blocks_back]. rewrite Hb. cbn [List.filter]. unfold count'. destruct (Condition b); cbn [length]; lia. }
      rewrite <- Ec. destruct (pprev b) as [p|] eqn:Hp.
      * destruct (pprev_height bi Hwf h b p Hb Hp) as (pb & Hpb & Hh). by apply (IH threshold count' p pb Hpb); lia.
      * pose proof (pprev_none_height bi Hwf h b Hb Hp). assert (n = 0%nat) as -> by lia. exists count'. split; [done|]. unfold signals. cbn. by rewrite Z.add_0_r, Z.geb_leb.
    + exists count. split; [done|]. rewrite Z.geb_leb. assert (0 <= signals (S n) (Some h) <= Z.of_nat (S n)).
      { unfold signals. split; [lia|]. apply inj_le. etransitivity; [apply List.filter_length_le|].
        generalize (Some h). clear. induction (S n) as [|m IH]; intros [p|]; cbn [blocks_back]; [done|done|destruct (bi !! p); cbn; [apply le_n_S, IH|lia]|cbn; lia]. }
      rewrite !(proj2 (Z.leb_gt _ _)) by lia. done.
Qed.

(** The walk back in the cache finds the height at which the signalling started. *)
Lemma start_loop_spec c : cache_ok c -> forall fuel p s acc, c !! p = Some s -> (Z.to_nat (height_of p) < fuel)%nat ->
  start_loop bi fuel p s acc c = Ret (if bool_decide (s = STARTED) then Z.min (period_state p).2 acc else acc).
Proof.
  intros Hc. induction fuel as [|fuel IH]; intros p s acc Hp Hf; [lia|]. destruct (Hc p s Hp) as (Hptr & Hs & Hcl).
  destruct (decide (s = STARTED)) as [->|Hn]; [|rewrite bool_decide_eq_false_2 by done; by destruct s]. rewrite bool_decide_eq_true_2 by done. cbn [start_loop].
  destruct p as [h|]; [|done]. destruct Hptr as (b & Hb & Ha). destruct (period_ptr_walk h b Hb Ha) as [Hw Hwh]. cbn [deref mbind outcome_bind]. rewrite Hb. cbn [deref mbind outcome_bind].
  rewrite (GetAncestor_back h b Period Hb) by lia. cbn [mbind outcome_bind]. destruct (Hcl ltac:(done) h eq_refl) as [s' Hs']. rewrite Hs'. cbn [deref mbind outcome_bind].
  rewrite (height_of_some h b Hb) in Hf. pose proof (height_nonneg bi Hwf h b Hb). destruct (Hc _ _ Hs') as (_ & Es & _).
  assert ((period_state (Some h)).2 = if bool_decide (s' = STARTED) then (period_state (walk bi N h)).2 else nHeight b + 1) as ->.
  { rewrite (period_state_eq h b Hb Ha) in *. unfold period_step in *. rewrite Hb in *. destruct (nHeight b <? _); [done|].
    destruct (period_state (walk bi N h)) as [[| | | |] st]; cbn [fst snd] in *; subst s'; repeat case_match; simplify_eq; done. }
  destruct (decide (s' = STARTED)) as [->|Hn].
  - pose proof (start_bounds _ Hw (eq_sym Es)) as Hst. rewrite !(bool_decide_eq_true_2 (STARTED = STARTED)) by done.
    destruct (Z.to_nat (height_of (walk bi N h))) eqn:Eh.
    + destruct fuel as [|fuel]; [lia|]. rewrite IH by (done || lia). rewrite bool_decide_eq_true_2 by done. f_equal. lia.
    + rewrite IH by (done || lia). rewrite bool_decide_eq_true_2 by done. f_equal. lia.
  - rewrite bool_decide_eq_false_2 by done. destruct fuel as [|fuel]; [|by rewrite IH, bool_decide_eq_false_2 by (done || lia)].
    by destruct s'.
Qed.

(** Where the walk forward may compute: not in the part known to be defined *)
Definition open_at (start : Z) (h : uint256) (b : CBlockIndex) : Prop :=
  MinBIP9WarningHeight <= nHeight b /\ BeginTime <= GetMedianTimePast bi h /\ start <= nHeight b.

Lemma next_state_spec q k h b s n : walk bi k q = Some h -> bi !! h = Some b -> (nHeight b + 1) mod Period = 0 -> open_at (SignalHeight (Some q)) h b ->
  s = (period_state (walk bi N h)).1 -> (s = STARTED -> n = (period_state (walk bi N h)).2) ->
  exists n', next_state bi (SignalHeight (Some q)) h s n = Ret ((period_state (Some h)).1, n') /\
    ((period_state (Some h)).1 = STARTED -> n' = (period_state (Some h)).2).
Proof.
  intros Hq Hb Ha (Hmin & Hbeg & Hsig) Hs Hn. destruct (period_ptr_walk h b Hb Ha) as [Hw Hwh]. pose proof (start_bounds _ Hw) as Hst.
  rewrite (period_state_eq h b Hb Ha). unfold next_state, period_step. rewrite Hb. cbn [deref mbind outcome_bind].
  rewrite (proj2 (Z.ltb_ge (nHeight b) MinBIP9WarningHeight)) by done. destruct (period_state (walk bi N h)) as [s' st]. cbn [fst snd] in *. subst s'. pose proof (signal_stable q k h b Hq Hb) as Hss.
  pose proof (height_nonneg bi Hwf h b Hb) as Hh.
  destruct s.
  - rewrite !Z.geb_leb, (proj2 (Z.leb_le BeginTime _)), (proj2 (Z.leb_le (SignalHeight (Some q)) _)), (proj2 (Z.leb_le (SignalHeight (Some h)) _)) by (done || lia).
    by eexists.
  - specialize (Hn eq_refl). subst n. specialize (Hst eq_refl). destruct (count_loop_spec N (Threshold (Z.quot (nHeight b - st) Period)) 0 h b Hb) as (c & Ec & Eg).
    { apply Z.div_exact in Ha; [|lia]. assert (1 <= (nHeight b + 1) / Period) by nia. nia. }
    rewrite Ec. cbn [mbind outcome_bind]. rewrite Eg, Z.add_0_l, Z.quot_div_nonneg by lia. specialize (Hmax h b Hb).
    rewrite (proj2 (Z.ltb_lt st INT_MAX)), Z.gtb_ltb, (proj2 (Z.ltb_lt 0 st)) by lia. cbn [andb negb].
    clear Ec Eg. exists st. rewrite Z.geb_leb. destruct (Threshold _ <=? _); [done|]. by destruct (EndTime <=? _).
  - rewrite Z.geb_leb. exists n. by destruct (MinActivationHeight <=? _).
  - by exists n.
  - by exists n.
Qed.

(** The list that is computed: each block ends the period after the one before. *)
Fixpoint linked (q : uint256) (start : Z) (p : option uint256) (l : list uint256) (last : option uint256) : Prop :=
  match l with
  | [] => p = last
  | h :: l => exists b k, bi !! h = Some b /\ (nHeight b + 1) mod Period = 0 /\ open_at start h b /\ walk bi k q = Some h /\
      walk bi N h = p /\ linked q start (Some h) l last
  end.

Lemma threshold_cache_insert c p s : cache_ok c -> period_ptr p -> s = (period_state p).1 ->
  (s <> DEFINED -> forall h, p = Some h -> is_Some (c !! walk bi N h)) -> cache_ok (<[p := s]> c) /\ c ⊆ <[p := s]> c.
Proof.
  intros Hc Hp Hs Hcl. assert (forall r, is_Some (c !! r) -> is_Some (<[p := s]> c !! r)) as Hi by (intros r Hr; apply lookup_insert_is_Some'; auto).
  split.
  - intros r t Hr. destruct (decide (r = p)) as [->|Hne].
    + rewrite lookup_insert_eq in Hr. injection Hr as <-. split; [done|]. split; [done|]. eauto.
    + rewrite lookup_insert_ne in Hr by done. destruct (Hc r t Hr) as (? & ? & Hcl'). split; [done|]. split; [done|]. eauto.
  - apply map_subseteq_spec. intros r t Hr. destruct (decide (r = p)) as [->|Hne]; [|by rewrite lookup_insert_ne].
    rewrite lookup_insert_eq. destruct (Hc p t Hr) as (_ & -> & _). by subst.
Qed.

Lemma walk_forward_spec q last l : forall p s n c, linked q (SignalHeight (Some q)) p l last -> cache_ok c -> c !! p = Some s ->
  (s = STARTED -> n = (period_state p).2) ->
  exists c', walk_forward bi (SignalHeight (Some q)) l s n c = Ret ((period_state last).1, c') /\ cache_ok c' /\ c ⊆ c'.
Proof.
  induction l as [|h l IH]; intros p s n c Hl Hc Hp Hn; cbn [walk_forward linked] in *.
  - subst p. destruct (Hc _ _ Hp) as (_ & -> & _). eauto.
  - destruct Hl as (b & k & Hb & Ha & Ho & Hk & <- & Hl). destruct (Hc _ _ Hp) as (_ & Hs & _).
    destruct (next_state_spec q k h b s n Hk Hb Ha Ho Hs Hn) as (n' & -> & Hn'). cbn [mbind outcome_bind].
    destruct (threshold_cache_insert c (Some h) (period_state (Some h)).1 Hc) as [Hc' Hsub]; [by exists b|done|intros _ h' [= <-]; by eexists|].
    destruct (IH (Some h) _ n' _ Hl Hc' (lookup_insert_eq _ _ _) Hn') as (c' & -> & ? & ?). exists c'. split; [done|]. split; [done|]. by etransitivity.
Qed.

Lemma walk_back_spec q last : forall fuel p c l, (Z.to_nat (height_of p + 1) < fuel)%nat -> period_ptr p ->
  (forall h, p = Some h -> exists k, walk bi k q = Some h) -> linked q (SignalHeight (Some q)) p l last -> cache_ok c ->
  exists p' c' l' s, walk_back bi MinBIP9WarningHeight fuel (SignalHeight (Some q)) p c l = Ret (p', c', l') /\
    linked q (SignalHeight (Some q)) p' l' last /\ cache_ok c' /\ c ⊆ c' /\ c' !! p' = Some s.
Proof.
  induction fuel as [|fuel IH]; intros p c l Hf Hp Hq Hl Hc; [lia|]. cbn [walk_back]. destruct (c !! p) as [s|] eqn:Ecp; [by exists p, c, l, s|].
  assert ((period_state p).1 = DEFINED -> exists p' c' l' s, Ret (p, <[p := DEFINED]> c, l) = Ret (p', c', l') /\
    linked q (SignalHeight (Some q)) p' l' last /\ cache_ok c' /\ c ⊆ c' /\ c' !! p' = Some s) as Hstop.
  { intros Hd. destruct (threshold_cache_insert c p DEFINED Hc Hp (eq_sym Hd)) as [? ?]; [done|]. exists p, (<[p := DEFINED]> c), l, DEFINED.
    split_and!; [done|done|done|done|apply lookup_insert_eq]. }
  destruct p as [h|]; [|by apply Hstop]. pose proof Hp as (b & Hb & Ha). rewrite Hb. cbn [deref mbind outcome_bind]. destruct (Hq h eq_refl) as [k Hk].
  destruct (Z.ltb_spec (nHeight b) MinBIP9WarningHeight) as [Hmin|Hmin].
  { apply Hstop. rewrite (period_state_eq h b Hb Ha). unfold period_step. rewrite Hb. by rewrite (proj2 (Z.ltb_lt _ _)) by done. }
  pose proof (signal_stable q k h b Hk Hb) as Hss. rewrite (height_of_some h b Hb) in Hf.
  destruct (Z.ltb_spec (GetMedianTimePast bi h) BeginTime) as [Ht|Ht]; [|destruct (Z.ltb_spec (nHeight b) (SignalHeight (Some q))) as [Hsg|Hsg]].
  - apply Hstop, not_started; [done|by left].
  - apply Hstop, not_started; [done|]. right. rewrite (height_of_some h b Hb). lia.
  - cbn [orb]. rewrite (GetAncestor_back h b Period Hb) by lia. cbn [mbind outcome_bind]. destruct (period_ptr_walk h b Hb Ha) as [Hw Hwh].
    pose proof (height_nonneg bi Hwf h b Hb). apply IH; [lia|done| |by exists b, k|done].
    intros g Hg. exists (k + N)%nat. by rewrite walk_add, Hk.
Qed.

Lemma period_parent_spec p b : match p with Some h => bi !! h = Some b | None => True end -> period_parent bi p = Ret (period_end p) /\ period_ptr (period_end p) /\
  (forall h q, p = Some q -> period_end p = Some h -> exists k, walk bi k q = Some h).
Proof.
  intros Hb. destruct p as [q|]; [|done]. cbn [period_parent period_end]. rewrite Hb, (height_of_some q b Hb). cbn [deref mbind outcome_bind].
  pose proof (height_nonneg bi Hwf q b Hb) as Hh. rewrite Z.rem_mod_nonneg by lia. pose proof (Z.mod_pos_bound (nHeight b + 1) Period HP) as Hm.
  rewrite (GetAncestor_back q b _ Hb) by lia. split; [done|]. split; [|intros h q' [= <-] E; eauto].
  destruct (walk bi (Z.to_nat ((nHeight b + 1) mod Period)) q) as [h|] eqn:E; [|done]. destruct (walk_height bi Hwf _ q b h Hb E) as (hb & Hhb & Hhh).
  exists hb. split; [done|]. rewrite Hhh, Z2Nat.id by lia. replace (nHeight b - _ + 1) with (nHeight b + 1 - (nHeight b + 1) mod Period) by lia.
  by rewrite Zminus_mod_idemp_r, Z.sub_diag.
Qed.

(** With any cache that holds states, the state of the deployment is returned
    and the cache still holds states. *)
Lemma GetStateFor_lemma p b c : match p with Some h => bi !! h = Some b | None => True end -> cache_ok c ->
  exists c', GetStateFor bi MinBIP9WarningHeight p c = Ret (deployment_state p, c') /\ cache_ok c' /\ c ⊆ c'.
Proof.
  intros Hb Hc. unfold GetStateFor, deployment_state. destruct (_ =? _); [by exists c|]. destruct (_ =? _); [by exists c|].
  destruct (period_parent_spec p b Hb) as (-> & Hptr & Hk). cbn [mbind outcome_bind]. destruct p as [q|].
  - destruct (walk_back_spec q (period_end (Some q)) (period_fuel bi (period_end (Some q))) (period_end (Some q)) c []) as (p' & c1 & l & s & -> & Hl & Hc1 & Hsub & Hp').
    { destruct (period_end (Some q)) as [h|]; [|cbn; lia]. destruct Hptr as (hb & Hhb & _). rewrite (height_of_some h hb Hhb). cbn [period_fuel]. rewrite Hhb.
      pose proof (height_nonneg bi Hwf h hb Hhb). lia. }
    { done. } { intros h Hh. by apply (Hk h q). } { done. } { done. }
    cbn [mbind outcome_bind]. rewrite Hp'. cbn [deref mbind outcome_bind]. destruct (Hc1 p' s Hp') as (Hptr' & Hs & _). destruct l as [|h l].
    { cbn [linked] in Hl. subst p'. exists c1. by rewrite Hs. }
    unfold calculateStartHeight. rewrite (start_loop_spec c1 Hc1 _ _ _ _ Hp').
    2: { destruct p' as [g|]; [|cbn; lia]. destruct Hptr' as (gb & Hgb & _). rewrite (height_of_some g gb Hgb). cbn [period_fuel]. rewrite Hgb. lia. }
    cbn [mbind outcome_bind]. destruct (walk_forward_spec q (period_end (Some q)) (h :: l) p' s (if bool_decide (s = STARTED) then Z.min (period_state p').2 INT_MAX else INT_MAX) c1 Hl Hc1 Hp') as (c2 & -> & ? & ?).
    { intros ->. rewrite bool_decide_eq_true_2 by done. pose proof (start_bounds p' Hptr' (eq_sym Hs)) as Hst.
      destruct p' as [g|]; [|done]. destruct Hptr' as (gb & Hgb & _). rewrite (height_of_some g gb Hgb) in Hst. specialize (Hmax g gb Hgb). lia. }
    exists c2. split; [done|]. split; [done|]. by etransitivity.
  - cbn [period_end period_fuel walk_back]. destruct (c !! None) as [s|] eqn:E.
    + cbn [mbind outcome_bind]. rewrite E. cbn [deref mbind outcome_bind]. destruct (Hc _ _ E) as (_ & -> & _). by exists c.
    + cbn [mbind outcome_bind]. rewrite lookup_insert_eq. cbn [deref mbind outcome_bind]. exists (<[None := DEFINED]> c). split; [done|]. by apply threshold_cache_insert.
Qed.

End spec.

(** ** Median times *)

(** The median of the last blocks does not decrease where every block is later
    than the median before it. *)
Section median.

Context (bi : gmap uint256 CBlockIndex).

Definition below (m : Z) (l : list Z) : nat := length (List.filter (fun x => x <? m) l).

Lemma below_app m l k : below m (l ++ k) = (below m l + below m k)%nat.
Proof. unfold below. by rewrite List.filter_app, length_app. Qed.
Lemma below_perm m l k : l ≡ₚ k -> below m l = below m k.
Proof.
  unfold below. induction 1 as [|x l k _ IH|x y l|l k j _ IH1 _ IH2]; cbn; [done|destruct (x <? m); cbn; lia|destruct (x <? m), (y <? m); done|lia].
Qed.

(** In a sorted list the elements below a bound come first. *)
Lemma sorted_below m l i x : StronglySorted Z.le l -> l !! i = Some x -> (m <= x <-> (below m l <= i)%nat).
Proof.
  intros Hs. revert i. induction Hs as [|y l Hs IH Hy]; intros i Hi; [done|]. unfold below in *. cbn [List.filter].
  assert (below m l = 0%nat \/ y < m) as Hor.
  { destruct (Z.lt_ge_cases y m) as [|Hge]; [by right|left]. unfold below. clear -Hy Hge. induction l as [|z l IHl]; [done|]. apply Forall_cons_1 in Hy as [Hz Hy].
    cbn. rewrite (proj2 (Z.ltb_ge z m)) by lia. by apply IHl. }
  unfold below in Hor. destruct i as [|i]; cbn in Hi.
  - injection Hi as ->. destruct (Z.ltb_spec x m); cbn [length]; [split; lia|]. split; lia.
  - pose proof (IH i Hi) as IHi. destruct (Z.ltb_spec y m) as [Hlt|Hge]; cbn [length]; [lia|]. destruct Hor as [E|?]; [|lia]. rewrite E in *. lia.
Qed.

Lemma median_mono (times : list Z) (t : Z) (k : nat) : times <> [] ->
  let old := merge_sort Z.le (rev times) in
  let new := merge_sort Z.le (rev (t :: take k times)) in
  limb old (length old / 2) < t -> (length times <= S k)%nat -> limb old (length old / 2) <= limb new (length new / 2).
Proof.
  intros Hne old new Ht Hk. set (m := limb old (length old / 2)) in *.
  assert (old ≡ₚ times) as P1 by (unfold old; rewrite merge_sort_Permutation; symmetry; apply Permutation_rev).
  assert (new ≡ₚ t :: take k times) as P2 by (unfold new; rewrite merge_sort_Permutation; symmetry; apply Permutation_rev).
  pose proof (Permutation_length P1) as L1. pose proof (Permutation_length P2) as L2. cbn [length] in L2. rewrite length_take in L2.
  assert (0 < length times)%nat as Hpos by (destruct times; [done|cbn; lia]).
  destruct (lookup_lt_is_Some_2 old (length old / 2)) as [x Hx]; [apply Nat.div_lt; lia|].
  destruct (lookup_lt_is_Some_2 new (length new / 2)) as [y Hy]; [apply Nat.div_lt; lia|].
  assert (StronglySorted Z.le old) as S1 by (apply (StronglySorted_merge_sort Z.le)). assert (StronglySorted Z.le new) as S2 by (apply (StronglySorted_merge_sort Z.le)).
  assert (m = x) as Em by (unfold m, limb; by rewrite (nth_lookup_Some _ _ _ _ Hx)).
  assert (limb new (length new / 2) = y) as -> by (unfold limb; by rewrite (nth_lookup_Some _ _ _ _ Hy)).
  apply (sorted_below m new _ y S2 Hy). pose proof (proj1 (sorted_below m old _ x S1 Hx) ltac:(lia)) as B1.
  rewrite (below_perm m old times P1) in B1. rewrite (below_perm m new _ P2).
  assert (below m (t :: take k times) = below m (take k times)) as -> by (unfold below; cbn; by rewrite (proj2 (Z.ltb_ge t m)) by lia).
  pose proof (below_app m (take k times) (drop k times)) as Ba. rewrite take_drop in Ba.
  assert (length old / 2 <= length new / 2)%nat by (apply Nat.Div0.div_le_mono; lia). lia.
Qed.

Lemma collect_times_take n : forall k p, (k <= n)%nat -> collect_times k bi p = take k (collect_times n bi p).
Proof.
  induction n as [|n IH]; intros [|k] p Hk; cbn [collect_times]; [done|lia|by destruct p|]. destruct p as [h|]; [|done]. destruct (bi !! h); [|done]. cbn [take]. by rewrite IH by lia.
Qed.
Lemma length_collect_times n : forall p, (length (collect_times n bi p) <= n)%nat.
Proof. induction n as [|n IH]; intros [h|]; cbn [collect_times]; [done|done| |cbn; lia]. destruct (bi !! h); cbn; [apply le_n_S, IH|lia]. Qed.

Lemma GetMedianTimePast_mono h b p pb : bi !! h = Some b -> pprev b = Some p -> bi !! p = Some pb -> GetMedianTimePast bi p < nTime b ->
  GetMedianTimePast bi p <= GetMedianTimePast bi h.
Proof.
  intros Hb Hp Hpb Ht. unfold GetMedianTimePast, nMedianTimeSpan in *. assert (collect_times 11 bi (Some h) = nTime b :: take 10 (collect_times 11 bi (Some p))) as ->.
  { transitivity (nTime b :: collect_times 10 bi (Some p)); [cbn [collect_times]; by rewrite Hb, Hp|]. by rewrite (collect_times_take 11 10) by lia. }
  apply median_mono; [cbn [collect_times]; by rewrite Hpb|done|apply length_collect_times].
Qed.

End median.

(** ** What holds of the chain *)

(** A block index as the contextual checks of headers leave it, a period, and
    signals of masternodes that stay where they were mined *)
Record deployment_laws (bi : gmap uint256 CBlockIndex) `{ThresholdChecker} : Prop := {
  dl_tree : tree_wf bi;
  dl_height : forall h b, bi !! h = Some b -> nHeight b + 1 < INT_MAX;
  dl_time : forall h b p, bi !! h = Some b -> pprev b = Some p -> GetMedianTimePast bi p < nTime b;
  dl_period : 0 < Period;
  dl_signal : forall q n h b, walk bi n q = Some h -> bi !! h = Some b ->
    (SignalHeight (Some q) <= nHeight b <-> SignalHeight (Some h) <= nHeight b);
}.

Section laws.

Context (bi : gmap uint256 CBlockIndex) `{ThresholdChecker} (MinBIP9WarningHeight : Z) (L : deployment_laws bi).

Lemma laws_mtp h b p : bi !! h = Some b -> pprev b = Some p -> GetMedianTimePast bi p <= GetMedianTimePast bi h.
Proof.
  intros Hb Hp. destruct (pprev_height bi (dl_tree _ L) h b p Hb Hp) as (pb & Hpb & _). by apply (GetMedianTimePast_mono bi h b p pb), (dl_time _ L h b p).
Qed.

Definition known (p : option uint256) : Prop := match p with Some h => is_Some (bi !! h) | None => True end.

Lemma GetStateFor_ok p c : known p -> cache_ok bi MinBIP9WarningHeight c ->
  exists c', GetStateFor bi MinBIP9WarningHeight p c = Ret (deployment_state bi MinBIP9WarningHeight p, c') /\ cache_ok bi MinBIP9WarningHeight c' /\ c ⊆ c'.
Proof.
  destruct L as [L1 L2 L3 L4 L5]. intros Hp Hc. destruct p as [h|].
  - destruct Hp as [b Hb]. by apply (GetStateFor_lemma bi MinBIP9WarningHeight L1 L4 L2 laws_mtp L5 (Some h) b).
  - apply (GetStateFor_lemma bi MinBIP9WarningHeight L1 L4 L2 laws_mtp L5 None (mkBlockIndex None None 0 0 0 0 [] 0 0 0 0 [] 0 0 0 0 0 0 0 [] (mkOutPoint [] 0) [])); done.
Qed.

(** Questions asked one after the other of one cache *)
Fixpoint run_queries (qs : list (option uint256)) (c : ThresholdConditionCache) : outcome (list ThresholdState * ThresholdConditionCache) :=
  match qs with
  | [] => Ret ([], c)
  | q :: qs =>
      '(s, c) ← GetStateFor bi MinBIP9WarningHeight q c;
      '(ss, c) ← run_queries qs c;
      Ret (s :: ss, c)
  end.

Lemma run_queries_ok qs : forall c, Forall known qs -> cache_ok bi MinBIP9WarningHeight c ->
  exists c', run_queries qs c = Ret (map (deployment_state bi MinBIP9WarningHeight) qs, c') /\ cache_ok bi MinBIP9WarningHeight c'.
Proof.
  induction qs as [|q qs IH]; intros c Hq Hc; cbn [run_queries map]; [by exists c|]. apply Forall_cons_1 in Hq as [Hq Hqs].
  destruct (GetStateFor_ok q c Hq Hc) as (c1 & -> & Hc1 & _). cbn [mbind outcome_bind]. destruct (IH c1 Hqs Hc1) as (c2 & -> & Hc2). cbn [mbind outcome_bind]. by exists c2.
Qed.

(** ** The states along a chain *)

Notation N := (Z.to_nat Period).
Notation state p := (period_state bi MinBIP9WarningHeight p).1.

Definition periods_back (j : nat) (p : option uint256) : option uint256 := Nat.iter j (fun p => p ≫= walk bi N) p.

Lemma back_walk j h : periods_back j (Some h) = walk bi (j * N) h.
Proof.
  unfold periods_back. induction j as [|j IH]; [done|]. rewrite Nat.iter_succ, IH. replace (S j * N)%nat with (j * N + N)%nat by lia. by rewrite walk_add.
Qed.
Lemma back_none j : periods_back j None = None.
Proof. unfold periods_back. induction j as [|j IH]; [done|]. by rewrite Nat.iter_succ, IH. Qed.

Lemma period_end_height q b : bi !! q = Some b -> period_end bi (Some q) = walk bi (Z.to_nat ((nHeight b + 1) mod Period)) q.
Proof. intros Hb. cbn [period_end]. by rewrite (height_of_some bi q b Hb). Qed.

(** The periods before an ancestor's are before the descendant's. *)
Lemma period_end_back n q p : known (Some q) -> walk bi n q = Some p -> exists j, period_end bi (Some p) = periods_back j (period_end bi (Some q)).
Proof.
  pose proof (dl_tree _ L) as Hwf. pose proof (dl_period _ L) as HP. intros [b Hb] Hw. destruct (walk_height bi Hwf n q b p Hb Hw) as (pb & Hpb & Hh).
  rewrite (period_end_height q b Hb), (period_end_height p pb Hpb).
  assert (Period <> 0) as HP0 by lia. pose proof (Z.div_mod (nHeight b + 1) Period HP0) as D1. pose proof (Z.div_mod (nHeight pb + 1) Period HP0) as D2.
  pose proof (Z.mod_pos_bound (nHeight b + 1) Period HP). pose proof (Z.mod_pos_bound (nHeight pb + 1) Period HP).
  pose proof (height_nonneg bi Hwf p pb Hpb). pose proof (height_nonneg bi Hwf q b Hb).
  assert ((nHeight pb + 1) / Period <= (nHeight b + 1) / Period) as Hle by (apply Z.div_le_mono; lia).
  set (kq := (nHeight b + 1) / Period) in *. set (kp := (nHeight pb + 1) / Period) in *. assert (0 <= kp) by (apply Z.div_pos; lia).
  exists (Z.to_nat (kq - kp)). set (m := Z.to_nat ((nHeight b + 1) mod Period)). set (m' := Z.to_nat ((nHeight pb + 1) mod Period)).
  destruct (walk bi m q) as [h|] eqn:E.
  - rewrite back_walk. assert (walk bi (n + m') q = walk bi (m + Z.to_nat (kq - kp) * N) q) as EE by (f_equal; unfold m, m'; nia).
    rewrite !walk_add, Hw, E in EE. done.
  - rewrite back_none. apply (walk_beyond bi Hwf m' p pb Hpb). destruct (Z.le_gt_cases (Z.of_nat m) (nHeight b)) as [Hm|Hm].
    + destruct (walk_total bi Hwf m q b Hb Hm) as (x & ? & Hx & _). congruence.
    + unfold m, m' in *. nia.
Qed.

(** The moves of the state of a deployment *)
Inductive bip9_step : ThresholdState -> ThresholdState -> Prop :=
| bip9_start : bip9_step DEFINED STARTED
| bip9_lock_in : bip9_step STARTED LOCKED_IN
| bip9_fail : bip9_step STARTED FAILED
| bip9_activate : bip9_step LOCKED_IN ACTIVE.

Lemma period_step_moves h b : bi !! h = Some b -> (nHeight b + 1) mod Period = 0 -> rtc bip9_step (state (walk bi N h)) (state (Some h)).
Proof.
  pose proof (dl_tree _ L) as Hwf. pose proof (dl_period _ L) as HP. intros Hb Ha. destruct (period_ptr_walk bi Hwf HP h b Hb Ha) as [Hw Hwh].
  destruct (Z.lt_ge_cases (nHeight b) MinBIP9WarningHeight) as [Hlt|Hge].
  - assert (forall g gb, bi !! g = Some gb -> (nHeight gb + 1) mod Period = 0 -> nHeight gb < MinBIP9WarningHeight -> state (Some g) = DEFINED) as Hd.
    { intros g gb Hg Hga Hgl. rewrite (period_state_eq bi MinBIP9WarningHeight Hwf HP g gb Hg Hga). unfold period_step. by rewrite Hg, (proj2 (Z.ltb_lt _ _)). }
    rewrite (Hd h b Hb Ha Hlt). destruct (walk bi N h) as [g|]; [|done]. destruct Hw as (gb & Hg & Hga). rewrite (height_of_some bi g gb Hg) in Hwh.
    rewrite (Hd g gb Hg Hga) by lia. done.
  - rewrite (period_state_eq bi MinBIP9WarningHeight Hwf HP h b Hb Ha). unfold period_step. rewrite Hb, (proj2 (Z.ltb_ge _ _)) by done.
    destruct (period_state bi MinBIP9WarningHeight (walk bi N h)) as [[| | | |] st]; cbn [fst]; repeat case_match; cbn [fst]; try done; apply rtc_once; constructor.
Qed.

Lemma states_move j : forall p, period_ptr bi p -> rtc bip9_step (state (periods_back j p)) (state p) /\ period_ptr bi (periods_back j p).
Proof.
  pose proof (dl_tree _ L) as Hwf. pose proof (dl_period _ L) as HP. induction j as [|j IH]; intros p Hp; [done|]. destruct (IH p Hp) as [Hm Hp'].
  change (periods_back (S j) p) with (periods_back j p ≫= walk bi N). destruct (periods_back j p) as [h|] eqn:E; cbn [mbind option_bind]; [|done].
  destruct Hp' as (b & Hb & Ha). split; [|by apply (period_ptr_walk bi Hwf HP h b)]. etransitivity; [by apply (period_step_moves h b)|done].
Qed.

Lemma lock_in_signals p : period_ptr bi p -> state p = LOCKED_IN \/ state p = ACTIVE ->
  exists j h b start, periods_back j p = Some h /\ bi !! h = Some b /\ period_state bi MinBIP9WarningHeight (walk bi N h) = (STARTED, start) /\
    Threshold ((nHeight b - start) / Period) <= signals bi N (Some h).
Proof.
  pose proof (dl_tree _ L) as Hwf. pose proof (dl_period _ L) as HP. revert p. apply (period_ind bi Hwf HP (fun p => state p = LOCKED_IN \/ state p = ACTIVE -> _)).
  - by intros [?|?].
  - intros h b Hb Ha Hw IH Hs. rewrite (period_state_eq bi MinBIP9WarningHeight Hwf HP h b Hb Ha) in Hs. unfold period_step in Hs. rewrite Hb in Hs.
    assert (state (walk bi N h) = LOCKED_IN \/ state (walk bi N h) = ACTIVE -> exists j h0 b0 start, periods_back j (Some h) = Some h0 /\ bi !! h0 = Some b0 /\
      period_state bi MinBIP9WarningHeight (walk bi N h0) = (STARTED, start) /\ Threshold ((nHeight b0 - start) / Period) <= signals bi N (Some h0)) as Hup.
    { intros Hs'. destruct (IH Hs') as (j & h0 & b0 & start & Hj & Hrest). exists (S j), h0, b0, start. split; [|done]. rewrite <- Hj. unfold periods_back. by rewrite Nat.iter_succ_r. }
    destruct (nHeight b <? _); [by destruct Hs|]. destruct (period_state bi MinBIP9WarningHeight (walk bi N h)) as [[| | | |] start] eqn:E; cbn [fst] in *.
    + case_match; by destruct Hs.
    + destruct (Z.leb_spec (Threshold ((nHeight b - start) / Period)) (signals bi N (Some h))); [|case_match; by destruct Hs]. by exists 0%nat, h, b, start.
    + apply Hup. by left.
    + apply Hup. by right.
    + by destruct Hs.
Qed.

Lemma period_end_ptr p : known p -> period_ptr bi (period_end bi p).
Proof.
  intros Hp. destruct p as [h|]; [|done]. destruct Hp as [b Hb]. by apply (period_parent_spec bi (dl_tree _ L) (dl_period _ L) (Some h) b).
Qed.

(** ** Since when *)

Lemma since_loop_ok s : s <> DEFINED -> forall fuel h b c, bi !! h = Some b -> (nHeight b + 1) mod Period = 0 -> cache_ok bi MinBIP9WarningHeight c ->
  (Z.to_nat (nHeight b) < fuel)%nat -> state (Some h) = s -> BeginTime <> ALWAYS_ACTIVE -> BeginTime <> NEVER_ACTIVE ->
  exists j g c', since_loop bi MinBIP9WarningHeight fuel h s c = Ret (height_of bi (Some g) + 1, c') /\ cache_ok bi MinBIP9WarningHeight c' /\
    periods_back j (Some h) = Some g /\ (forall i, (i <= j)%nat -> state (periods_back i (Some h)) = s) /\ state (walk bi N g) <> s.
Proof.
  pose proof (dl_tree _ L) as Hwf. pose proof (dl_period _ L) as HP. intros Hs. induction fuel as [|fuel IH]; intros h b c Hb Ha Hc Hf Hst HA HN; [lia|].
  cbn [since_loop]. rewrite Hb. cbn [deref mbind outcome_bind]. rewrite (GetAncestor_back bi Hwf h b Period Hb) by lia. cbn [mbind outcome_bind].
  destruct (period_ptr_walk bi Hwf HP h b Hb Ha) as [Hw Hwh]. pose proof (height_nonneg bi Hwf h b Hb).
  assert (forall c', cache_ok bi MinBIP9WarningHeight c' -> state (walk bi N h) <> s -> exists j g c0, Ret (nHeight b + 1, c') = Ret (height_of bi (Some g) + 1, c0) /\
    cache_ok bi MinBIP9WarningHeight c0 /\ periods_back j (Some h) = Some g /\ (forall i, (i <= j)%nat -> state (periods_back i (Some h)) = s) /\ state (walk bi N g) <> s) as Hstop.
  { intros c' Hc' Hn. exists 0%nat, h, c'. rewrite (height_of_some bi h b Hb). split; [done|]. split; [done|]. split; [done|]. split; [|done].
    intros i Hi. by assert (i = 0%nat) as -> by lia. }
  destruct (walk bi N h) as [g|] eqn:E; [|apply Hstop; [done|by intros ?]]. destruct Hw as (gb & Hg & Hga). rewrite (height_of_some bi g gb Hg) in Hwh.
  destruct (GetStateFor_ok (Some g) c ltac:(by eexists) Hc) as (c1 & -> & Hc1 & _). cbn [mbind outcome_bind].
  assert (deployment_state bi MinBIP9WarningHeight (Some g) = state (Some g)) as ->.
  { unfold deployment_state. rewrite (proj2 (Z.eqb_neq _ _) HA), (proj2 (Z.eqb_neq _ _) HN). by rewrite (period_end_height g gb Hg), Hga. }
  case_bool_decide as Hd; [|by apply Hstop].
  pose proof (height_nonneg bi Hwf g gb Hg). destruct (IH g gb c1 Hg Hga Hc1 ltac:(lia) Hd HA HN) as (j & g' & c' & -> & Hc' & Hj & Hall & Hlast). exists (S j), g', c'.
  assert (forall i, periods_back (S i) (Some h) = periods_back i (Some g)) as Hback by (intros i; unfold periods_back; rewrite Nat.iter_succ_r; cbn [mbind option_bind]; by rewrite E).
  split; [done|]. split; [done|]. split; [by rewrite Hback|]. split; [|done]. intros [|i] Hi; [done|]. rewrite Hback. apply Hall. lia.
Qed.

(** The first block of the first of the periods that have had the state *)
Lemma GetStateSinceHeightFor_ok p c : known p -> cache_ok bi MinBIP9WarningHeight c -> BeginTime <> ALWAYS_ACTIVE -> BeginTime <> NEVER_ACTIVE ->
  let s := deployment_state bi MinBIP9WarningHeight p in
  exists r c', GetStateSinceHeightFor bi MinBIP9WarningHeight p c = Ret (r, c') /\ cache_ok bi MinBIP9WarningHeight c' /\
    (s = DEFINED -> r = 0) /\
    (s <> DEFINED -> exists j g, periods_back j (period_end bi p) = Some g /\ r = height_of bi (Some g) + 1 /\
       (forall i, (i <= j)%nat -> state (periods_back i (period_end bi p)) = s) /\ state (walk bi N g) <> s).
Proof.
  pose proof (dl_tree _ L) as Hwf. pose proof (dl_period _ L) as HP. intros Hp Hc HA HN s. unfold GetStateSinceHeightFor.
  rewrite (proj2 (Z.eqb_neq _ _) HA), (proj2 (Z.eqb_neq _ _) HN). cbn [orb]. destruct (GetStateFor_ok p c Hp Hc) as (c1 & -> & Hc1 & _). cbn [mbind outcome_bind]. fold s.
  case_bool_decide as Hd; [exists 0, c1; done|]. assert (s = state (period_end bi p)) as Es.
  { unfold s, deployment_state. by rewrite (proj2 (Z.eqb_neq _ _) HA), (proj2 (Z.eqb_neq _ _) HN). }
  destruct p as [h|]; [|done]. destruct Hp as [b Hb]. pose proof (period_parent_spec bi Hwf HP (Some h) b Hb) as (Hpp & Hptr & _). cbn [period_parent] in Hpp.
  cbn [deref mbind outcome_bind]. rewrite Hb in *. cbn [deref mbind outcome_bind] in *. rewrite Hpp. cbn [mbind outcome_bind].
  destruct (period_end bi (Some h)) as [e|] eqn:Ee; [|done]. cbn [deref mbind outcome_bind]. destruct Hptr as (eb & Heb & Hea). pose proof (height_nonneg bi Hwf e eb Heb).
  destruct (since_loop_ok s Hd (period_fuel bi (Some e)) e eb c1 Heb Hea Hc1) as (j & g & c2 & -> & Hc2 & Hj & Hall & Hlast); [cbn [period_fuel]; rewrite Heb; lia|done..|].
  exists (height_of bi (Some g) + 1), c2. split; [done|]. split; [done|]. split; [done|]. intros _. by exists j, g.
Qed.

End laws.

(** ** Properties *)

(** C28: the cache of a deployment never changes an answer. Asked of the empty
    cache in any order for any blocks of any forks, [GetStateFor] returns each
    time the state that the plain recursion over the periods of the block's
    chain gives, and no assertion fails. *)
Theorem GetStateFor_correct bi `{ThresholdChecker} warn qs : deployment_laws bi -> Forall (known bi) qs ->
  exists c, run_queries bi warn qs ∅ = Ret (map (deployment_state bi warn) qs, c).
Proof. intros L Hq. destruct (run_queries_ok bi warn L qs ∅ Hq) as (c & -> & _); [done|]. by exists c. Qed.

(** C29: along a chain the state moves only from defined to started, to locked
    in or failed, and from locked in to active, so an active or failed
    deployment stays so; and, unless its start time says that it is always
    active, it is locked in or active only if the blocks of some period of the chain, begun in the started state, signalled as often as
    the threshold of that attempt asks. *)
Theorem deployment_lifecycle bi `{ThresholdChecker} warn n p q : deployment_laws bi -> is_Some (bi !! q) -> walk bi n q = Some p ->
  exists s1 s2 c, run_queries bi warn [Some p; Some q] ∅ = Ret ([s1; s2], c) /\ rtc bip9_step s1 s2 /\
    (BeginTime <> ALWAYS_ACTIVE -> s2 = LOCKED_IN \/ s2 = ACTIVE ->
     exists k h b start, walk bi k q = Some h /\ bi !! h = Some b /\
       period_state bi warn (walk bi (Z.to_nat Period) h) = (STARTED, start) /\
       Threshold ((nHeight b - start) / Period) <= signals bi (Z.to_nat Period) (Some h)).
Proof.
  intros L Hq Hw. assert (is_Some (bi !! p)) as Hp by (destruct Hq as [b Hb]; destruct (walk_height bi (dl_tree _ L) n q b p Hb Hw) as (pb & Hpb & _); by eexists).
  destruct (run_queries_ok bi warn L [Some p; Some q] ∅) as (c & E & _); [by repeat constructor|done|].
  exists (deployment_state bi warn (Some p)), (deployment_state bi warn (Some q)), c. split; [done|].
  pose proof (period_end_ptr bi L (Some q) Hq) as Hptr. unfold deployment_state. split.
  - destruct (_ =? _); [done|]. destruct (_ =? _); [done|]. destruct (period_end_back bi L n q p Hq Hw) as (j & ->). by apply states_move.
  - intros HA. rewrite (proj2 (Z.eqb_neq _ _) HA). destruct (_ =? _); [by intros [?|?]|]. intros Hs.
    destruct (lock_in_signals bi warn L _ Hptr Hs) as (j & h & b & start & Hj & Hrest). destruct Hq as [qb Hqb]. rewrite (period_end_height bi q qb Hqb) in Hj.
    destruct (walk bi (Z.to_nat ((nHeight qb + 1) mod Period)) q) as [e|] eqn:Ee; [|by rewrite back_none in Hj]. rewrite back_walk in Hj. eexists _, h, b, start. split; [|done].
    rewrite walk_add, Ee. exact Hj.
Qed.

(** *** A chain on which a deployment is signalled, locked in and activated *)

Definition vote_entry (height : Z) : CBlockIndex :=
  let v := if (2 <=? height) && (height <=? 3) then 0x20000001 else 0x20000000 in
  mkBlockIndex (if height =? 0 then None else Some (demo_hash height)) None height 0 0 0 (bu_of_u64 (height + 1)) 0 0 0 v
    (demo_hash 0) (1000 + 10 * height) 0 1 0 0 0 0 (demo_hash 0) (mkOutPoint (demo_hash 0) 0) (demo_hash 0).
Definition vote_index : gmap uint256 CBlockIndex := list_to_map (map (fun h => (demo_hash (h + 1), vote_entry h)) [0; 1; 2; 3; 4; 5; 6; 7]).
Definition vote_deployment : BIP9Deployment := mkDeployment 0 1005 5000 0 0 0 0 0 false.
Definition vote_checker : ThresholdChecker := vb_checker 2 2 (fun _ => ∅) vote_deployment.

Definition times_okb (bi : gmap uint256 CBlockIndex) : bool :=
  forallb (fun e => (nHeight e.2 + 1 <? INT_MAX) && match pprev e.2 with Some p => GetMedianTimePast bi p <? nTime e.2 | None => true end) (map_to_list bi).

Lemma vote_laws : @deployment_laws vote_index vote_checker.
Proof.
  assert (times_okb vote_index = true) as Ht by (vm_compute; reflexivity). unfold times_okb in Ht. rewrite forallb_forall in Ht.
  assert (forall h b, vote_index !! h = Some b -> nHeight b + 1 < INT_MAX /\ forall p, pprev b = Some p -> GetMedianTimePast vote_index p < nTime b) as He.
  { intros h b Hb. specialize (Ht (h, b)). rewrite <- list_elem_of_In, elem_of_map_to_list in Ht. specialize (Ht Hb). cbn [snd] in Ht. apply andb_true_iff in Ht as [H1 H2].
    split; [lia|]. intros p Hp. rewrite Hp in H2. lia. }
  split; [apply tree_wfb_sound; vm_compute; reflexivity|intros h b Hb; by apply (He h b)|intros h b p Hb; by apply (He h b)|done|done].
Qed.

Lemma GetStateFor_correct_witness :
  exists c, @run_queries vote_index vote_checker 0 [Some (demo_hash 8); Some (demo_hash 2); None; Some (demo_hash 5); Some (demo_hash 7)] ∅
    = Ret ([ACTIVE; STARTED; DEFINED; LOCKED_IN; ACTIVE], c).
Proof.
  destruct (@GetStateFor_correct vote_index vote_checker 0 [Some (demo_hash 8); Some (demo_hash 2); None; Some (demo_hash 5); Some (demo_hash 7)] vote_laws) as (c & E).
  { repeat (apply Forall_cons_2; [first [exact I | apply (bool_decide_unpack (is_Some _)); vm_compute; exact I]|]). apply Forall_nil_2. }
  exists c. rewrite E. vm_compute. reflexivity.
Defined.

Lemma deployment_lifecycle_witness :
  exists s1 s2 c, @run_queries vote_index vote_checker 0 [Some (demo_hash 2); Some (demo_hash 8)] ∅ = Ret ([s1; s2], c) /\ rtc bip9_step s1 s2.
Proof.
  destruct (@deployment_lifecycle vote_index vote_checker 0 6 (demo_hash 2) (demo_hash 8) vote_laws) as (s1 & s2 & c & E & Hm & _);
    [apply (bool_decide_unpack (is_Some _)); vm_compute; exact I|vm_compute; reflexivity|]. exists s1, s2, c. split; [exact E|exact Hm].
Defined.

(** ** The version of a new block *)

Definition in_progress (s : ThresholdState) : bool := match s with LOCKED_IN | STARTED => true | _ => false end.

Lemma version_or v d : 0 <= v < 2^30 -> 0 <= dep_bit d < 29 -> i32 (Z.lor (u32 v) (dep_Mask d)) = Z.lor v (Z.shiftl 1 (dep_bit d)) /\ 0 <= Z.lor v (Z.shiftl 1 (dep_bit d)) < 2^30.
Proof.
  intros Hv Hd. assert (0 <= Z.shiftl 1 (dep_bit d) < 2^30) as Hs.
  { rewrite Z.shiftl_1_l. split; [lia|]. apply Z.pow_lt_mono_r; lia. }
  pose proof (lor_lt_pow2 v (Z.shiftl 1 (dep_bit d)) 30 ltac:(lia) Hv Hs) as Hl.
  split; [|done]. unfold dep_Mask. rewrite !u32_id by (unfold is_u32; lia). unfold i32. rewrite Z.mod_small by lia. lia.
Qed.

(** The bits that the deployments in progress set *)
Lemma version_loop_ok bi window threshold warn sig p ds : known bi p ->
  (forall d, d ∈ ds -> @deployment_laws bi (vb_checker window threshold sig d) /\ 0 <= dep_bit d < 29) ->
  forall v, 0 <= v < 2^30 -> exists v' cs,
    version_loop bi window threshold warn sig p (map (fun d => (d, ∅)) ds) v = Ret (v', cs) /\ 0 <= v' < 2^30 /\
    forall k, 0 <= k -> Z.testbit v' k = true <-> Z.testbit v k = true \/
      exists d, d ∈ ds /\ dep_bit d = k /\ in_progress (@deployment_state bi (vb_checker window threshold sig d) warn p) = true.
Proof.
  intros Hp. induction ds as [|d ds IH]; intros Hds v Hv; cbn [map version_loop].
  - exists v, []. split; [done|]. split; [done|]. intros k Hk. split; [by left|]. intros [?|(d & Hd & _)]; [done|by apply elem_of_nil in Hd].
  - destruct (Hds d (list_elem_of_here _ _)) as [Ld Hb]. destruct (@GetStateFor_ok bi (vb_checker window threshold sig d) warn Ld p ∅ Hp) as (c & -> & _); [done|].
    cbn [mbind outcome_bind]. set (s := @deployment_state bi (vb_checker window threshold sig d) warn p). destruct (version_or v d Hv Hb) as [Eo Ho].
    set (v1 := match s with LOCKED_IN | STARTED => i32 (Z.lor (u32 v) (dep_Mask d)) | _ => v end).
    assert (v1 = if in_progress s then Z.lor v (Z.shiftl 1 (dep_bit d)) else v) as Ev by (unfold v1; destruct s; done).
    destruct (IH ltac:(intros d' Hd'; apply Hds; by right) v1) as (v' & cs & -> & Hv' & Hbits); [rewrite Ev; by destruct (in_progress s)|]. cbn [mbind outcome_bind].
    exists v', (c :: cs). split; [done|]. split; [done|]. intros k Hk. rewrite (Hbits k Hk), Ev.
    assert (Z.testbit (if in_progress s then Z.lor v (Z.shiftl 1 (dep_bit d)) else v) k = true <-> Z.testbit v k = true \/ (dep_bit d = k /\ in_progress s = true)) as ->.
    { destruct (in_progress s); [|naive_solver]. rewrite Z.lor_spec, orb_true_iff, Z.shiftl_1_l, Z.pow2_bits_eqb, Z.eqb_eq by lia. naive_solver. }
    rewrite Logic.or_assoc. apply or_iff_compat_l. split.
    + intros [[? ?]|(d' & Hd' & ?)]; [exists d; split; [left|done]|exists d'; split; [by right|done]].
    + intros (d' & Hd' & Hk' & Hs). apply elem_of_cons in Hd' as [->|Hd']; [by left|right; by exists d'].
Qed.

(** A new block signals exactly the deployments in progress. The version
    [ComputeBlockVersion] gives a block after [p] satisfies the condition that
    is counted for a deployment just when a deployment with its bit is started
    or locked in. *)
Lemma ComputeBlockVersion_signals bi window threshold warn sig p ds : known bi p ->
  (forall d, d ∈ ds -> @deployment_laws bi (vb_checker window threshold sig d) /\ 0 <= dep_bit d < 29) ->
  exists v cs, ComputeBlockVersion bi window threshold warn sig p (map (fun d => (d, ∅)) ds) = Ret (v, cs) /\
    forall d b, d ∈ ds -> nVersion b = v ->
      @Condition (vb_checker window threshold sig d) b = true <->
      exists d', d' ∈ ds /\ dep_bit d' = dep_bit d /\ in_progress (@deployment_state bi (vb_checker window threshold sig d') warn p) = true.
Proof.
  intros Hp Hds. unfold ComputeBlockVersion. destruct (version_loop_ok bi window threshold warn sig p ds Hp Hds VERSIONBITS_TOP_BITS) as (v & cs & -> & Hv & Hbits); [done|].
  exists v, cs. split; [done|]. intros d b Hd Eb. destruct (Hds d Hd) as [_ Hb]. cbn [Condition vb_checker]. rewrite Eb, u32_id by (unfold is_u32; lia).
  unfold dep_Mask. assert (0 <= Z.shiftl 1 (dep_bit d) < 2^29) as Hsh by (rewrite Z.shiftl_1_l; split; [lia|apply Z.pow_lt_mono_r; lia]).
  rewrite u32_id by (unfold is_u32; lia).
  assert (Z.land v VERSIONBITS_TOP_MASK = VERSIONBITS_TOP_BITS) as ->.
  { assert (Z.testbit v 29 = true) as H29 by (apply Hbits; [lia|by left]). apply Z.bits_inj'. intros n Hn. rewrite Z.land_spec.
    change VERSIONBITS_TOP_MASK with (Z.lnot (Z.ones 29)). change VERSIONBITS_TOP_BITS with (2^29). rewrite Z.lnot_spec, Z.pow2_bits_eqb by lia.
    destruct (Z.lt_trichotomy n 29) as [Hlt|[->|Hgt]].
    - rewrite Z.ones_spec_low, andb_false_r by lia. symmetry. apply Z.eqb_neq. lia.
    - by rewrite H29.
    - rewrite (proj2 (Z.eqb_neq 29 n)) by lia. rewrite <- (Z.mod_small v (2^30)), Z.mod_pow2_bits_high by lia. done. }
  rewrite Z.eqb_refl, andb_true_l, negb_true_iff, Z.eqb_neq.
  transitivity (Z.testbit v (dep_bit d) = true).
  - rewrite Z.shiftl_1_l. split.
    + intros Hn. destruct (Z.testbit v (dep_bit d)) eqn:E; [done|]. exfalso. apply Hn. apply Z.bits_inj'. intros n Hn'. rewrite Z.land_spec, Z.bits_0, Z.pow2_bits_eqb by lia.
      destruct (Z.eqb_spec (dep_bit d) n) as [<-|]; [by rewrite E|by rewrite andb_false_r].
    + intros E E0. assert (Z.testbit (Z.land v (2 ^ dep_bit d)) (dep_bit d) = true) as Ht by (by rewrite Z.land_spec, E, Z.pow2_bits_true by lia).
      by rewrite E0, Z.bits_0 in Ht.
  - rewrite (Hbits (dep_bit d)) by lia. split; [|by right]. intros [Ht|?]; [|done]. change VERSIONBITS_TOP_BITS with (2^29) in Ht.
    rewrite Z.pow2_bits_false in Ht by lia. done.
Qed.
