(* ===== verification/Params.v ===== *)
(** * Params: consensus parameters and amounts
      (src/src/consensus/params.h, src/src/consensus/amount.h, src/src/chainparams.cpp)

    The parameters the modelled rules read, with the values of the main
    network. *)

From Stdlib Require Import ZArith Lia.
From stdpp Require Import base list numbers.
From S2P Require Import Prelude Arith256 Uint256.

Definition COIN : Z := 100000000.
Definition CENT : Z := 1000000.
Definition MAX_MONEY : Z := 500000000 * COIN.

(** [MoneyRange] *)
Definition MoneyRange (nValue : Z) : bool := ((nValue >=? 0) && (nValue <=? MAX_MONEY))%bool.

Definition MaxBlockSize : Z := 2000000.
Definition COINBASE_MATURITY : Z := 25.

(** [Consensus::Params]; the two ranges are vectors of two elements. *)
Record ConsensusParams : Type := {
  powLimit : uint256;
  posLimit : uint256;
  nPowTargetSpacing : Z;
  posTargetSpacing : Z;
  lastPowBlock : Z;
  posTimestampMask : Z;
  stakeValueRange : Z * Z;
  stakeAgeRange : Z * Z;
  regularMnCollateral : Z;
  evoMnCollateral : Z;
  nPosKernelV2ActivationHeight : Z;
  nPosStakeModifierV2ActivationHeight : Z;
}.

(** The number with the given bytes, most significant byte first, as
    [uint256S] reads a hex string. *)
Definition uint256_of_Z (z : Z) : uint256 := ArithToUint256 (map (fun i => (z / 2^(32 * Z.of_nat i)) mod 2^32) (seq 0 WIDTH)).

(** The main network, with the joint activation height of its release. *)
Definition main_params : ConsensusParams := {|
  powLimit := uint256_of_Z 0x7fffffffffffffffffffffffffffffffffffffffffffffffffffffffffffffff;
  posLimit := uint256_of_Z 0x0000000fffffffffffffffffffffffffffffffffffffffffffffffffffffffff;
  nPowTargetSpacing := 150;
  posTargetSpacing := 150;
  lastPowBlock := 999;
  posTimestampMask := 5;
  stakeValueRange := (10000 * COIN, 12500000 * COIN);
  stakeAgeRange := (60 * 60, 60 * 60 * 24 * 60);
  regularMnCollateral := 1000000 * COIN;
  evoMnCollateral := 4000000 * COIN;
  nPosKernelV2ActivationHeight := 144888;
  nPosStakeModifierV2ActivationHeight := 144888;
|}.

Lemma main_posLimit_val : le_val (posLimit main_params) = 2^228 - 1.
Proof. vm_compute. reflexivity. Qed.
