(* ===== verification/MerkleBlock.v ===== *)
(** * MerkleBlock: partial Merkle trees (src/src/merkleblock.{h,cpp})

    A partial tree proves to a light client that some transactions are in a
    block. The constructor is shown to produce trees from which the matches and
    the root are read back, also after they were written to the wire, and the
    extraction never to return a match that is not in the block with that root.

    A block holds far fewer than 2^31 transactions, and [ExtractMatches] refuses
    trees that claim more than a block can hold before it computes with their
    number, so positions are natural numbers and do not wrap. *)

From Stdlib Require Import ZArith Lia.
From stdpp Require Import base list numbers option sets.
From S2P Require Import Prelude Arith256 Uint256 Serialize HashBlock Sha256 Merkle Params.

(** ** The operations *)

Definition BitsToBytes (bits : list bool) : list Z :=
  for_to (length bits) (fun p ret =>
      <[(p / 8)%nat := Z.lor (limb ret (p / 8)) (Z.shiftl (b2z (nth p bits false)) (Z.of_nat (p mod 8)))]> ret)
    (replicate ((length bits + 7) / 8) 0).
Definition BytesToBits (bytes : list Z) : list bool :=
  map (fun p => negb (Z.land (limb bytes (p / 8)) (Z.shiftl 1 (Z.of_nat (p mod 8))) =? 0)) (seq 0 (length bytes * 8)).

Record CPartialMerkleTree : Type := mkPMT {
  nTransactions : nat; vBits : list bool; vHash : list uint256; fBad : bool;
}.

Definition CalcTreeWidth (nTransactions height : nat) : nat := Nat.shiftr (nTransactions + Nat.shiftl 1 height - 1) height.

Fixpoint CalcHash (nTransactions height pos : nat) (vTxid : list uint256) : outcome uint256 :=
  if (length vTxid =? 0)%nat then Abort
  else
    match height with
    | O => deref (vTxid !! pos)
    | S height =>
        hl ← CalcHash nTransactions height (pos * 2) vTxid;
        hr ← (if (pos * 2 + 1 <? CalcTreeWidth nTransactions height)%nat
                 then CalcHash nTransactions height (pos * 2 + 1) vTxid else Ret hl);
        Ret (Hash2 hl hr)
    end.

(** The positions [p] of the loop over [pos << height <= p < (pos + 1) << height] *)
Definition leaf_range (nTransactions height pos : nat) : list nat :=
  let first := Nat.shiftl pos height in
  seq first (Nat.min (Nat.shiftl (pos + 1) height) nTransactions - first).

(** The bits and hashes are appended to [vBits] and [vHash]. *)
Fixpoint TraverseAndBuild (nTransactions height pos : nat) (vTxid : list uint256) (vMatch : list bool)
    (acc : list bool * list uint256) : outcome (list bool * list uint256) :=
  let fParentOfMatch := existsb (fun p => nth p vMatch false) (leaf_range nTransactions height pos) in
  let '(vBits, vHash) := acc in
  let vBits := vBits ++ [fParentOfMatch] in
  match height with
  | S below =>
      if fParentOfMatch then
        acc ← TraverseAndBuild nTransactions below (pos * 2) vTxid vMatch (vBits, vHash);
        if (pos * 2 + 1 <? CalcTreeWidth nTransactions below)%nat
        then TraverseAndBuild nTransactions below (pos * 2 + 1) vTxid vMatch acc
        else Ret acc
      else h ← CalcHash nTransactions height pos vTxid; Ret (vBits, vHash ++ [h])
  | O => h ← CalcHash nTransactions height pos vTxid; Ret (vBits, vHash ++ [h])
  end.

(** [nBitsUsed], [nHashUsed], [fBad], [vMatch] and [vnIndex] *)
Record extraction : Type := mkExt {
  nBitsUsed : nat; nHashUsed : nat; x_bad : bool; x_match : list uint256; x_index : list nat;
}.

Fixpoint TraverseAndExtract (t : CPartialMerkleTree) (height pos : nat) (x : extraction) : uint256 * extraction :=
  let '(mkExt bits hashes bad vm vi) := x in
  match vBits t !! bits with
  | None => (uint256_zero, mkExt bits hashes true vm vi)
  | Some fParentOfMatch =>
      let bits := S bits in
      match height, fParentOfMatch with
      | S below, true =>
          let '(hl, x) := TraverseAndExtract t below (pos * 2) (mkExt bits hashes bad vm vi) in
          if (pos * 2 + 1 <? CalcTreeWidth (nTransactions t) below)%nat then
            let '(hr, mkExt bits hashes bad vm vi) := TraverseAndExtract t below (pos * 2 + 1) x in
            let bad := if bool_decide (hr = hl) then true else bad in
            (Hash2 hl hr, mkExt bits hashes bad vm vi)
          else (Hash2 hl hl, x)
      | _, _ =>
          match vHash t !! hashes with
          | None => (uint256_zero, mkExt bits hashes true vm vi)
          | Some hash =>
              if ((height =? 0)%nat && fParentOfMatch)%bool
              then (hash, mkExt bits (S hashes) bad (vm ++ [hash]) (vi ++ [pos]))
              else (hash, mkExt bits (S hashes) bad vm vi)
          end
      end
  end.

(** [while (CalcTreeWidth(nHeight) > 1) nHeight++]; the width halves. *)
Fixpoint height_loop (fuel nTransactions nHeight : nat) : nat :=
  match fuel with
  | O => nHeight
  | S fuel => if (1 <? CalcTreeWidth nTransactions nHeight)%nat then height_loop fuel nTransactions (S nHeight) else nHeight
  end.
Definition tree_height (nTransactions : nat) : nat := height_loop nTransactions nTransactions 0.

(** The constructor from the hashes of a block and the mask *)
Definition pmt_new (vTxid : list uint256) (vMatch : list bool) : outcome CPartialMerkleTree :=
  let n := length vTxid in
  '(bits, hashes) ← TraverseAndBuild n (tree_height n) 0 vTxid vMatch ([], []);
  Ret (mkPMT n bits hashes false).

(** [ExtractMatches]: the root and what it leaves in [vMatch] and [vnIndex] *)
Definition ExtractMatches (t : CPartialMerkleTree) (vnIndex : list nat) : uint256 * list uint256 * list nat :=
  let n := nTransactions t in
  if (n =? 0)%nat then (uint256_zero, [], vnIndex)
  else if Z.of_nat n >? MaxBlockSize / 60 then (uint256_zero, [], vnIndex)
  else if (n <? length (vHash t))%nat then (uint256_zero, [], vnIndex)
  else if (length (vBits t) <? length (vHash t))%nat then (uint256_zero, [], vnIndex)
  else
    let '(hashMerkleRoot, mkExt bits hashes bad vm vi) := TraverseAndExtract t (tree_height n) 0 (mkExt 0 0 (fBad t) [] vnIndex) in
    if bad then (uint256_zero, vm, vi)
    else if negb ((bits + 7) / 8 =? (length (vBits t) + 7) / 8)%nat then (uint256_zero, vm, vi)
    else if negb (hashes =? length (vHash t))%nat then (uint256_zero, vm, vi)
    else (hashMerkleRoot, vm, vi).

(** What reading the written tree gives: the bits pass through whole bytes. *)
Definition pmt_reload (t : CPartialMerkleTree) : CPartialMerkleTree :=
  mkPMT (nTransactions t) (BytesToBits (BitsToBytes (vBits t))) (vHash t) false.

(** ** The levels of the tree *)

Definition lev (h : nat) (l : list uint256) : list uint256 := Nat.iter h level l.

Lemma level_lookup l : forall p, level l !! p = (fun a : uint256 => Hash2 a (default a (l !! (p * 2 + 1)%nat))) <$> l !! (p * 2)%nat.
Proof. induction l as [|a|a b l IH] using pair_ind; intros [|p]; try done. apply IH. Qed.

Lemma length_lev l h : length (lev h l) = CalcTreeWidth (length l) h.
Proof.
  unfold CalcTreeWidth. rewrite Nat.shiftr_div_pow2, Nat.shiftl_1_l. induction h as [|h IH].
  - change (lev 0 l) with l. rewrite Nat.pow_0_r, Nat.div_1_r. lia.
  - change (lev (S h) l) with (level (lev h l)). rewrite length_level, IH, Nat.pow_succ_r'. pose proof (Nat.pow_nonzero 2 h ltac:(lia)).
    rewrite <- (Nat.div_add _ 1 (2^h)) by done. rewrite Nat.Div0.div_div. f_equal; lia.
Qed.

Lemma lev_hash32 l h : hash32 l -> hash32 (lev h l).
Proof. intros Hl. destruct h; [done|apply level_hash32]. Qed.

Lemma CalcHash_lev l h : forall pos x, l <> [] -> lev h l !! pos = Some x -> CalcHash (length l) h pos l = Ret x.
Proof.
  induction h as [|h IH]; intros pos x Hl Hx; cbn [CalcHash]; (destruct (Nat.eqb_spec (length l) 0); [by destruct l|]).
  - cbn in Hx. by rewrite Hx.
  - change (lev (S h) l) with (level (lev h l)) in Hx. rewrite level_lookup in Hx. destruct (lev h l !! (pos * 2)%nat) as [a|] eqn:Ea; [|done]. cbn [fmap option_fmap option_map] in Hx. apply Some_inj in Hx as <-.
    rewrite (IH _ _ Hl Ea). cbn [mbind outcome_bind]. rewrite <- length_lev. destruct (Nat.ltb_spec (pos * 2 + 1) (length (lev h l))) as [Hlt|Hge].
    + destruct (lookup_lt_is_Some_2 _ _ Hlt) as [b Eb]. rewrite (IH _ _ Hl Eb), Eb. done.
    + rewrite (lookup_ge_None_2 (lev h l)) by done. done.
Qed.

(** ** The leaves below a node *)

Lemma leaf_range_0 n pos : (pos < n)%nat -> leaf_range n 0 pos = [pos].
Proof. intros Hp. unfold leaf_range. rewrite !Nat.shiftl_mul_pow2, Nat.pow_0_r, !Nat.mul_1_r. replace (_ - pos)%nat with 1%nat by lia. done. Qed.

Lemma leaf_range_S n h pos : leaf_range n (S h) pos = leaf_range n h (pos * 2) ++ leaf_range n h (pos * 2 + 1).
Proof.
  unfold leaf_range. rewrite !Nat.shiftl_mul_pow2, Nat.pow_succ_r'. set (w := (2^h)%nat).
  replace ((pos * 2 + 1) * w)%nat with (pos * (2 * w) + w)%nat by lia. replace ((pos * 2 + 1 + 1) * w)%nat with (pos * (2 * w) + w + w)%nat by lia.
  replace ((pos + 1) * (2 * w))%nat with (pos * (2 * w) + w + w)%nat by lia. replace (pos * 2 * w)%nat with (pos * (2 * w))%nat by lia. set (b := (pos * (2 * w))%nat).
  destruct (Nat.le_gt_cases n (b + w)).
  - rewrite (Nat.min_r (b + w + w)), (Nat.min_r (b + w)) by lia. replace (n - (b + w))%nat with 0%nat by lia. cbn [seq]. by rewrite app_nil_r.
  - rewrite (Nat.min_l (b + w)) by lia. replace (b + w - b)%nat with w by lia. rewrite <- seq_app. f_equal. lia.
Qed.

Lemma leaf_range_empty n h pos : (CalcTreeWidth n h <= pos)%nat -> leaf_range n h pos = [].
Proof.
  unfold CalcTreeWidth, leaf_range. rewrite Nat.shiftr_div_pow2, Nat.shiftl_1_l, !Nat.shiftl_mul_pow2. intros Hw. pose proof (Nat.pow_nonzero 2 h ltac:(lia)).
  replace (_ - _)%nat with 0%nat; [done|]. enough (n <= pos * 2^h)%nat by lia.
  pose proof (Nat.Div0.div_mod (n + 2^h - 1) (2^h)). pose proof (Nat.mod_upper_bound (n + 2^h - 1) (2^h) ltac:(done)). nia.
Qed.

Lemma leaf_range_some n h pos : (pos < CalcTreeWidth n h)%nat -> (1 <= length (leaf_range n h pos))%nat.
Proof.
  unfold CalcTreeWidth, leaf_range. rewrite length_seq, Nat.shiftr_div_pow2, Nat.shiftl_1_l, !Nat.shiftl_mul_pow2. intros Hw. pose proof (Nat.pow_nonzero 2 h ltac:(lia)).
  enough (pos * 2^h < n)%nat by nia.
  pose proof (Nat.Div0.div_mod (n + 2^h - 1) (2^h)). pose proof (Nat.mod_upper_bound (n + 2^h - 1) (2^h) ltac:(done)). nia.
Qed.

(** ** Reading back what the constructor wrote *)

Lemma drop_cons_lookup {A} (l : list A) k x r : drop k l = x :: r -> l !! k = Some x /\ drop (S k) l = r.
Proof.
  intros E. assert (l !! k = Some x) as Hx by (rewrite <- (Nat.add_0_r k), <- lookup_drop, E; done). split; [done|].
  rewrite (drop_S _ _ _ Hx) in E. congruence.
Qed.

Section build.

Context (l : list uint256) (vm : list bool) (Hl : l <> []).
(** Neighbours that are hashed together differ. *)
Context (Hdist : forall h p a b, lev h l !! (p * 2)%nat = Some a -> lev h l !! (p * 2 + 1)%nat = Some b -> a <> b).

Notation n := (length l).
Definition hits (ps : list nat) : list nat := List.filter (fun p => nth p vm false) ps.

(** What the code of a subtree says, and how it is read *)
Definition codes (h pos : nat) (B : list bool) (H : list uint256) : Prop :=
  (forall bits hs, TraverseAndBuild n h pos l vm (bits, hs) = Ret (bits ++ B, hs ++ H)) /\
  (length H <= length (leaf_range n h pos))%nat /\ (length H <= length B)%nat /\
  forall t nb nh bad xm xi sB sH, nTransactions t = n -> drop nb (vBits t) = B ++ sB -> drop nh (vHash t) = H ++ sH ->
    TraverseAndExtract t h pos (mkExt nb nh bad xm xi)
    = (lev h l !!! pos, mkExt (nb + length B) (nh + length H) bad
         (xm ++ map (fun p => l !!! p) (hits (leaf_range n h pos))) (xi ++ hits (leaf_range n h pos))).

Lemma hits_none ps : existsb (fun p => nth p vm false) ps = false -> hits ps = [].
Proof. induction ps as [|p ps IH]; [done|]. cbn. intros [-> Hp]%orb_false_iff. by apply IH. Qed.

(** A node whose hash is stored *)
Lemma codes_stop h pos x : lev h l !! pos = Some x -> (h = 0%nat \/ existsb (fun p => nth p vm false) (leaf_range n h pos) = false) ->
  codes h pos [existsb (fun p => nth p vm false) (leaf_range n h pos)] [x].
Proof.
  intros Hx Hstop. pose proof (lookup_lt_Some _ _ _ Hx) as Hpos. rewrite length_lev in Hpos. set (f := existsb _ _) in *.
  split; [|split; [by apply leaf_range_some|split; [done|]]].
  - intros bits hs. destruct h as [|h].
    + cbn [TraverseAndBuild]. fold f. by rewrite (CalcHash_lev l 0 pos x Hl Hx).
    + destruct Hstop as [|Hf]; [done|]. cbn [TraverseAndBuild]. fold f. rewrite Hf. by rewrite (CalcHash_lev l (S h) pos x Hl Hx).
  - intros t nb nh bad xm xi sB sH Ht [HB _]%drop_cons_lookup [HH _]%drop_cons_lookup. rewrite (list_lookup_total_correct _ _ _ Hx).
    destruct h as [|h].
    + change (lev 0 l) with l in *. assert (pos < n)%nat as Hn by (by eapply lookup_lt_Some).
      assert (f = nth pos vm false) as Ef by (unfold f; rewrite leaf_range_0 by done; apply orb_false_r).
      cbn [TraverseAndExtract]. rewrite HB, HH, leaf_range_0 by done. rewrite Ef. cbn [Nat.eqb andb]. unfold hits. cbn [List.filter]. destruct (nth pos vm false); cbn [map length].
      * by rewrite (list_lookup_total_correct _ _ _ Hx), !Nat.add_1_r.
      * by rewrite !app_nil_r, !Nat.add_1_r.
    + destruct Hstop as [|Hf]; [done|]. cbn [TraverseAndExtract]. rewrite HB, Hf, HH. cbn [Nat.eqb andb]. rewrite hits_none by done. cbn.
      by rewrite !app_nil_r, !Nat.add_1_r.
Qed.

Lemma codes_exist h : forall pos, (pos < CalcTreeWidth n h)%nat -> exists B H, codes h pos B H.
Proof.
  induction h as [|h IH]; intros pos Hpos; rewrite <- length_lev in Hpos; apply lookup_lt_is_Some_2 in Hpos as [x Hx].
  { do 2 eexists. apply codes_stop; [exact Hx|by left]. }
  destruct (existsb (fun p => nth p vm false) (leaf_range n (S h) pos)) eqn:Ef; [|do 2 eexists; apply codes_stop; [exact Hx|by right]].
  change (lev (S h) l) with (level (lev h l)) in Hx. pose proof Hx as Hx'. rewrite level_lookup in Hx'. destruct (lev h l !! (pos * 2)%nat) as [a|] eqn:Ea; [|done].
  cbn [fmap option_fmap option_map] in Hx'. apply Some_inj in Hx'.
  destruct (IH (pos * 2)%nat) as (B1 & H1 & b1 & l1 & m1 & e1); [rewrite <- length_lev; by eapply lookup_lt_Some|].
  destruct (Nat.ltb_spec (pos * 2 + 1) (CalcTreeWidth n h)) as [Hr|Hr].
  - destruct (IH (pos * 2 + 1)%nat Hr) as (B2 & H2 & b2 & l2 & m2 & e2).
    destruct (lookup_lt_is_Some_2 (lev h l) (pos * 2 + 1)) as [b Eb]; [by rewrite length_lev|]. rewrite Eb in Hx'. cbn in Hx'.
    exists (true :: B1 ++ B2), (H1 ++ H2). split; [|split; [|split]].
    + intros bits hs. cbn [TraverseAndBuild]. rewrite Ef, b1. cbn [mbind outcome_bind]. rewrite (proj2 (Nat.ltb_lt _ _)) by done. rewrite b2, <- !app_assoc. done.
    + rewrite leaf_range_S, !length_app. lia.
    + cbn [length]. rewrite !length_app. lia.
    + intros t nb nh bad xm xi sB sH Ht HB HH. cbn [app] in HB. apply drop_cons_lookup in HB as [HB0 HB]. rewrite <- app_assoc in HB, HH.
      cbn [TraverseAndExtract]. rewrite HB0, (e1 t (S nb) nh bad xm xi _ _ Ht HB HH), Ht, (proj2 (Nat.ltb_lt _ _)) by done.
      rewrite (e2 t _ _ bad _ _ sB sH Ht); [|by rewrite <- drop_drop, HB, drop_app_length|by rewrite <- drop_drop, HH, drop_app_length].
      rewrite (list_lookup_total_correct _ _ _ Ea), (list_lookup_total_correct _ _ _ Eb), bool_decide_eq_false_2 by (intros ->; by apply (Hdist h pos a a)).
      rewrite (list_lookup_total_correct _ _ _ Hx), Hx', leaf_range_S. unfold hits. rewrite List.filter_app, map_app, !length_app. cbn [length]. rewrite !app_assoc. do 2 f_equal; rewrite ?length_app; lia.
  - rewrite (lookup_ge_None_2 (lev h l)) in Hx' by (by rewrite length_lev). cbn in Hx'.
    exists (true :: B1), H1. split; [|split; [|split]].
    + intros bits hs. cbn [TraverseAndBuild]. rewrite Ef, b1. cbn [mbind outcome_bind]. rewrite (proj2 (Nat.ltb_ge _ _)) by done. by rewrite <- !app_assoc.
    + rewrite leaf_range_S, !length_app. lia.
    + cbn [length]. lia.
    + intros t nb nh bad xm xi sB sH Ht HB HH. cbn [app] in HB. apply drop_cons_lookup in HB as [HB0 HB].
      cbn [TraverseAndExtract]. rewrite HB0, (e1 t (S nb) nh bad xm xi _ _ Ht HB HH), Ht, (proj2 (Nat.ltb_ge _ _)) by done.
      rewrite (list_lookup_total_correct _ _ _ Ea), (list_lookup_total_correct _ _ _ Hx), Hx', leaf_range_S, (leaf_range_empty n h (pos * 2 + 1)), app_nil_r by done.
      do 2 f_equal. cbn [length]. lia.
Qed.

End build.

(** ** The height and the root *)

Lemma CalcTreeWidth_S n h : CalcTreeWidth n (S h) = ((CalcTreeWidth n h + 1) / 2)%nat.
Proof.
  pose proof (length_lev (repeat uint256_zero n) h) as H0. pose proof (length_lev (repeat uint256_zero n) (S h)) as H1. rewrite repeat_length in H0, H1.
  rewrite <- H0, <- H1. apply length_level.
Qed.

Lemma half_up w : (1 < w)%nat -> (1 <= (w + 1) / 2 < w)%nat.
Proof. intros Hw. pose proof (Nat.Div0.div_mod (w + 1) 2). pose proof (Nat.mod_upper_bound (w + 1) 2 ltac:(lia)). lia. Qed.

Lemma height_loop_width fuel n : forall h, (1 <= CalcTreeWidth n h <= S fuel)%nat -> CalcTreeWidth n (height_loop fuel n h) = 1%nat.
Proof.
  induction fuel as [|fuel IH]; intros h Hw; cbn [height_loop]; [lia|]. destruct (Nat.ltb_spec 1 (CalcTreeWidth n h)) as [Hlt|]; [|lia].
  apply IH. rewrite CalcTreeWidth_S. pose proof (half_up _ Hlt). lia.
Qed.
Lemma tree_height_width n : (0 < n)%nat -> CalcTreeWidth n (tree_height n) = 1%nat.
Proof.
  intros Hn. apply height_loop_width. unfold CalcTreeWidth. rewrite Nat.shiftr_div_pow2, Nat.shiftl_1_l, Nat.pow_0_r, Nat.div_1_r. lia.
Qed.

Lemma height_loop_below fuel n : forall h j, (h <= j < height_loop fuel n h)%nat -> (1 < CalcTreeWidth n j)%nat /\ (j < h + fuel)%nat.
Proof.
  induction fuel as [|fuel IH]; intros h j Hj; cbn [height_loop] in Hj; [lia|]. destruct (Nat.ltb_spec 1 (CalcTreeWidth n h)); [|lia].
  destruct (decide (j = h)) as [->|]; [lia|]. destruct (IH (S h) j); lia.
Qed.
Lemma tree_height_below l j : (j < tree_height (length l))%nat -> (j < length l)%nat /\ forall i, (i <= j)%nat -> (1 < length (lev i l))%nat.
Proof.
  intros Hj. split; [destruct (height_loop_below (length l) (length l) 0 j); unfold tree_height in Hj; lia|].
  intros i Hi. rewrite length_lev. apply (height_loop_below (length l) (length l) 0 i). unfold tree_height in Hj. lia.
Qed.

Lemma equal_pair_lookup l : equal_pair l = false -> forall p a b, l !! (p * 2)%nat = Some a -> l !! (p * 2 + 1)%nat = Some b -> a <> b.
Proof.
  induction l as [|x|x y l IH] using pair_ind; intros He p a b Ha Hb; [done|by destruct p|].
  cbn in He. apply orb_false_iff in He as [Hxy%bool_decide_eq_false He]. destruct p as [|p]; [by injection Ha as <-; injection Hb as <-|]. by apply (IH He p).
Qed.

Lemma levels_lev fuel l : forall h m, levels fuel (lev h l) m =
  (lev (height_loop fuel (length l) h) l, m || existsb (fun k => equal_pair (lev k l)) (seq h (height_loop fuel (length l) h - h))) /\
  (h <= height_loop fuel (length l) h)%nat.
Proof.
  induction fuel as [|fuel IH]; intros h m; cbn [levels height_loop].
  - by rewrite Nat.sub_diag, orb_false_r.
  - rewrite length_lev. destruct (1 <? CalcTreeWidth (length l) h)%nat; [|by rewrite Nat.sub_diag, orb_false_r].
    change (level (lev h l)) with (lev (S h) l). destruct (IH (S h) (m || equal_pair (lev h l))) as [-> Hle]. split; [|lia].
    set (k := height_loop fuel (length l) (S h)) in *. replace (k - h)%nat with (S (k - S h)) by lia. cbn [seq existsb]. by rewrite orb_assoc.
Qed.

Lemma lev_above l h : forall k, length (lev h l) = 1%nat -> length (lev (k + h) l) = 1%nat.
Proof. intros k H1. induction k as [|k IH]; [done|]. change (lev (S k + h) l) with (level (lev (k + h) l)). by rewrite length_level, IH. Qed.

(** The root and the mutation flag in terms of the levels *)
Lemma ComputeMerkleRoot_lev ways l : ways_ok ways -> hash32 l -> l <> [] ->
  lev (tree_height (length l)) l = [(ComputeMerkleRoot ways l).1] /\
  ((ComputeMerkleRoot ways l).2 = false -> forall h p a b, lev h l !! (p * 2)%nat = Some a -> lev h l !! (p * 2 + 1)%nat = Some b -> a <> b).
Proof.
  intros Hw Hl Hne. rewrite ComputeMerkleRoot_levels by done. destruct (levels_lev (length l) l 0 false) as [E Hle]. change (lev 0 l) with l in E. rewrite E. clear E.
  fold (tree_height (length l)) in *. set (H := tree_height (length l)) in *. cbn [fst snd orb].
  assert (length (lev H l) = 1%nat) as HH by (rewrite length_lev; apply tree_height_width; destruct l; [done|cbn; lia]). split.
  - destruct (lev H l) as [|r [|? ?]]; done.
  - intros Hm h p a b Ha Hb. destruct (Nat.lt_ge_cases h H) as [Hlt|Hge].
    + apply (equal_pair_lookup (lev h l)) with p; [|done|done]. apply existsb_Forall in Hm. rewrite List.Forall_forall in Hm. apply Hm, in_seq. lia.
    + pose proof (lev_above l H (h - H) HH) as H1. replace (h - H + H)%nat with h in H1 by lia. apply lookup_lt_Some in Hb. lia.
Qed.

Lemma BytesToBits_BitsToBytes bits :
  BytesToBits (BitsToBytes bits) = bits ++ repeat false (8 * ((length bits + 7) / 8) - length bits).
Proof.
  destruct (WriteFixedBitSet_spec bits) as (Hl & _ & Hb).
  assert (WriteFixedBitSet bits (length bits) = BitsToBytes bits) as E by (unfold WriteFixedBitSet; by rewrite Nat.min_id). rewrite E in Hl, Hb. unfold GetSizeOfFixedBitSet in Hl.
  assert (length bits <= 8 * ((length bits + 7) / 8))%nat as Hn by (pose proof (Nat.div_mod_eq (length bits + 7) 8); pose proof (Nat.mod_upper_bound (length bits + 7) 8); lia).
  unfold BytesToBits. apply (nth_ext _ _ false false); [rewrite length_map, length_seq, length_app, repeat_length; lia|].
  rewrite length_map, length_seq. intros q Hq.
  rewrite (nth_indep _ false (negb (Z.land (limb (BitsToBytes bits) (0 / 8)) (Z.shiftl 1 (Z.of_nat (0 mod 8))) =? 0))) by (by rewrite length_map, length_seq).
  rewrite (map_nth (fun p => negb (Z.land (limb (BitsToBytes bits) (p / 8)) (Z.shiftl 1 (Z.of_nat (p mod 8))) =? 0))), seq_nth, Nat.add_0_l by done.
  rewrite land_pow2_testbit, negb_involutive by lia. change (Z.testbit _ _) with (bit_at (BitsToBytes bits) q). rewrite Hb by lia.
  destruct (Nat.lt_ge_cases q (length bits)) as [Hlt|Hge]; [by rewrite app_nth1|]. by rewrite app_nth2, nth_repeat, nth_overflow.
Qed.

(** C32: a partial Merkle tree reads back. For the hashes of a block that can
    exist, of which no two neighbours in the tree are equal, the tree that the
    constructor builds for a mask yields, directly and after it was sent over the
    wire, the Merkle root of the block, exactly the hashes in the mask, in
    order, and their positions. *)
Theorem pmt_roundtrip ways l vm : ways_ok ways -> hash32 l -> l <> [] -> Z.of_nat (length l) <= MaxBlockSize / 60 ->
  (ComputeMerkleRoot ways l).2 = false ->
  exists t, pmt_new l vm = Ret t /\
    let matches := hits vm (seq 0 (length l)) in
    let found := ((ComputeMerkleRoot ways l).1, map (fun p => l !!! p) matches, matches) in
    ExtractMatches t [] = found /\ ExtractMatches (pmt_reload t) [] = found.
Proof.
  intros Hw Hl Hne Hmax Hmut. destruct (ComputeMerkleRoot_lev ways l Hw Hl Hne) as [Hroot Hdist]. specialize (Hdist Hmut).
  assert (0 < length l)%nat as Hpos by (destruct l; [done|cbn; lia]). set (H := tree_height (length l)) in *.
  assert (CalcTreeWidth (length l) H = 1%nat) as HW by (by apply tree_height_width).
  destruct (codes_exist l vm Hne Hdist H 0) as (B & Hs & HB & HL & HLB & HE); [lia|].
  exists (mkPMT (length l) B Hs false). split; [unfold pmt_new; fold H; by rewrite (HB [] [])|]. cbv zeta.
  assert (leaf_range (length l) H 0 = seq 0 (length l)) as Er.
  { unfold leaf_range. rewrite !Nat.shiftl_mul_pow2, Nat.add_0_l, Nat.mul_0_l, Nat.sub_0_r, Nat.mul_1_l. f_equal. apply Nat.min_r.
    unfold CalcTreeWidth in HW. rewrite Nat.shiftr_div_pow2, Nat.shiftl_1_l in HW. pose proof (Nat.Div0.div_mod (length l + 2^H - 1) (2^H)).
    pose proof (Nat.mod_upper_bound (length l + 2^H - 1) (2^H) ltac:(apply Nat.pow_nonzero; lia)). nia. }
  rewrite Er, length_seq in *. rewrite Hroot in HE.
  enough (forall sB, ((length B + 7) / 8 = (length (B ++ sB) + 7) / 8)%nat -> ExtractMatches (mkPMT (length l) (B ++ sB) Hs false) []
    = ((ComputeMerkleRoot ways l).1, map (fun p => l !!! p) (hits vm (seq 0 (length l))), hits vm (seq 0 (length l)))) as Hex.
  { split; [rewrite <- (app_nil_r B); apply Hex; by rewrite app_nil_r|]. unfold pmt_reload. cbn [nTransactions vBits vHash]. rewrite BytesToBits_BitsToBytes. apply Hex.
    rewrite length_app, repeat_length. pose proof (Nat.div_mod_eq (length B + 7) 8). pose proof (Nat.mod_upper_bound (length B + 7) 8 ltac:(lia)).
    set (q := ((length B + 7) / 8)%nat) in *. replace (length B + (8 * q - length B) + 7)%nat with (7 + q * 8)%nat by lia. by rewrite Nat.div_add. }
  intros sB Hpad. unfold ExtractMatches. cbn [nTransactions vBits vHash fBad].
  rewrite (proj2 (Nat.eqb_neq _ _)) by lia. rewrite Z.gtb_ltb, (proj2 (Z.ltb_ge _ _)) by lia. rewrite (proj2 (Nat.ltb_ge (length l) _)) by lia.
  rewrite (proj2 (Nat.ltb_ge _ _)) by (rewrite length_app; lia). fold H.
  rewrite (HE (mkPMT (length l) (B ++ sB) Hs false) 0%nat 0%nat false [] [] sB []); [|done|done|cbn; by rewrite app_nil_r].
  cbn [Nat.add app]. by rewrite Hpad, !Nat.eqb_refl.
Qed.

(** Three transactions, the last of them matched *)
Lemma pmt_roundtrip_witness :
  let l := [repeat 1 32; repeat 2 32; repeat 3 32] in
  exists t, pmt_new l [false; false; true] = Ret t /\ (ExtractMatches (pmt_reload t) []).2 = [2%nat].
Proof.
  intros l. destruct (pmt_roundtrip portable_ways l [false; false; true] portable_ways_ok) as (t & Ht & _ & E); [by repeat constructor|done|done|vm_compute; reflexivity|].
  exists t. split; [exact Ht|]. rewrite E. reflexivity.
Defined.

(** ** What an accepted tree proves *)

Section sound.

Context (t : CPartialMerkleTree) (l : list uint256) (Hn : nTransactions t = length l).

(** The pairs an extraction hashes *)
Fixpoint extract_pairs (height pos : nat) (x : extraction) : list (uint256 * uint256) :=
  match height, vBits t !! nBitsUsed x with
  | S below, Some true =>
      let x0 := mkExt (S (nBitsUsed x)) (nHashUsed x) (x_bad x) (x_match x) (x_index x) in
      let '(hl, x1) := TraverseAndExtract t below (pos * 2) x0 in
      extract_pairs below (pos * 2) x0 ++
      (if (pos * 2 + 1 <? CalcTreeWidth (nTransactions t) below)%nat then
         extract_pairs below (pos * 2 + 1) x1 ++ [(hl, (TraverseAndExtract t below (pos * 2 + 1) x1).1)]
       else [(hl, hl)])
  | _, _ => []
  end.

Context (ps : list (uint256 * uint256)) (Hc : collision_free ps).

(** The matches added are hashes of the list at their positions. *)
Definition added (x x' : extraction) : Prop :=
  exists ms ps, x_match x' = x_match x ++ ms /\ x_index x' = x_index x ++ ps /\ Forall2 (fun h p => l !! p = Some h) ms ps.

Lemma added_nothing x x' : x_match x' = x_match x -> x_index x' = x_index x -> added x x'.
Proof. intros E F. exists [], []. by rewrite E, F, !app_nil_r. Qed.
Lemma added_trans x y z : added x y -> added y z -> added x z.
Proof.
  intros (m1 & p1 & E1 & F1 & A1) (m2 & p2 & E2 & F2 & A2). exists (m1 ++ m2), (p1 ++ p2). rewrite E2, E1, F2, F1, !app_assoc. split; [done|]. split; [done|]. by apply Forall2_app.
Qed.

Lemma pairs_lookup k : forall p a, k !! (p * 2)%nat = Some a -> pairs k !! p = Some (a, default a (k !! (p * 2 + 1)%nat)).
Proof. induction k as [|x|x y k IH] using pair_ind; intros [|p] a E; try done; [cbn in *; congruence|cbn in *; congruence|by apply IH]. Qed.

Lemma extract_sound h : (forall j, (j < h)%nat -> pairs (lev j l) ⊆ ps) -> forall pos x r x',
  TraverseAndExtract t h pos x = (r, x') -> extract_pairs h pos x ⊆ ps -> x_bad x' = false ->
  x_bad x = false /\ (lev h l !! pos = Some r -> added x x').
Proof.
  induction h as [|h IH]; intros Hj pos [nb nh bad xm xi] r x' E HP Hb; cbn [TraverseAndExtract] in E;
    (destruct (vBits t !! nb) as [[|]|] eqn:EB; [| |by injection E as <- <-]).
  - destruct (vHash t !! nh) as [v|]; injection E as <- <-; [|done]. split; [done|]. intros Hr. exists [v], [pos]. split; [done|]. split; [done|]. by constructor.
  - destruct (vHash t !! nh) as [v|]; injection E as <- <-; [|done]. split; [done|]. intros _. by apply added_nothing.
  - cbn [extract_pairs nBitsUsed nHashUsed x_bad x_match x_index] in HP. rewrite EB in HP.
    destruct (TraverseAndExtract t h (pos * 2) _) as [hl x1] eqn:E1. rewrite Hn in E, HP. specialize (IH ltac:(intros; apply Hj; lia)).
    assert (forall hl hr, (hl, hr) ∈ ps -> lev (S h) l !! pos = Some (Hash2 hl hr) ->
      lev h l !! (pos * 2)%nat = Some hl /\ hr = default hl (lev h l !! (pos * 2 + 1)%nat)) as Hup.
    { intros a b Hin Hr. change (lev (S h) l) with (level (lev h l)) in Hr. rewrite level_lookup in Hr. destruct (lev h l !! (pos * 2)%nat) as [a'|] eqn:Ea; [|done].
      cbn [fmap option_fmap option_map] in Hr. apply Some_inj in Hr. apply pairs_lookup in Ea. apply list_elem_of_lookup_2 in Ea.
      assert ((a', default a' (lev h l !! (pos * 2 + 1)%nat)) = (a, b)) as Eab; [|by injection Eab as -> <-].
      apply (collision_free_inj ps); [done|apply (Hj h); [lia|done]|done|done]. }
    destruct (Nat.ltb_spec (pos * 2 + 1) (CalcTreeWidth (length l) h)) as [Hlt|Hge].
    + destruct (TraverseAndExtract t h (pos * 2 + 1) x1) as [hr x2] eqn:E2. destruct x2 as [b2 h2 bad2 m2 i2]. cbn [fst] in HP.
      injection E as <- <-. cbn [x_bad] in Hb. destruct (bool_decide (hr = hl)); [done|].
      destruct (IH _ _ _ _ E2 ltac:(set_solver) Hb) as [Hb1 S2]. destruct (IH _ _ _ _ E1 ltac:(set_solver) Hb1) as [Hb0 S1]. split; [done|].
      intros [Ea Er]%Hup; [|set_solver]. rewrite <- length_lev in Hlt. destruct (lookup_lt_is_Some_2 _ _ Hlt) as [b Eb]. rewrite Eb in Er. cbn in Er. subst b.
      apply (added_trans _ x1); auto.
    + injection E as <- <-. destruct (IH _ _ _ _ E1 ltac:(set_solver) Hb) as [Hb0 S1]. split; [done|].
      intros [Ea _]%Hup; [|set_solver]. auto.
  - destruct (vHash t !! nh) as [v|]; injection E as <- <-; [|done]. split; [done|]. intros _. by apply added_nothing.
Qed.

End sound.

(** Every level below the top has more than one node, and its pairs are the tree's. *)
Lemma tree_pairs_lev fuel : forall h l, (h < fuel)%nat -> (forall j, (j <= h)%nat -> (1 < length (lev j l))%nat) -> pairs (lev h l) ⊆ tree_pairs fuel l.
Proof.
  induction fuel as [|fuel IH]; intros h l Hh Hw; [lia|]. cbn [tree_pairs]. pose proof (Hw 0%nat ltac:(lia)) as H0. change (lev 0 l) with l in H0.
  destruct (Nat.ltb_spec 1 (length l)); [|lia]. destruct h as [|h]; [change (lev 0 l) with l; set_solver|].
  unfold lev in *. rewrite Nat.iter_succ_r. specialize (IH h (level l) ltac:(lia)).
  enough (pairs (Nat.iter h level (level l)) ⊆ tree_pairs fuel (level l)) by set_solver. apply IH. intros j Hj.
  specialize (Hw (S j) ltac:(lia)). by rewrite Nat.iter_succ_r in Hw.
Qed.

(** C31: a partial Merkle tree proves what it claims. Whatever tree a peer sends
    for a block of as many transactions, if the root it yields is the Merkle root
    of the block, every match it yields is the hash of the transaction at the
    position it names, where no two of the pairs hashed for the block or for the
    tree collide. *)
Theorem ExtractMatches_sound ways t l root vm vi : ways_ok ways -> hash32 l -> l <> [] -> nTransactions t = length l ->
  collision_free (tree_pairs (length l) l ++ extract_pairs t (tree_height (length l)) 0 (mkExt 0 0 (fBad t) [] [])) ->
  ExtractMatches t [] = (root, vm, vi) -> root <> uint256_zero -> root = (ComputeMerkleRoot ways l).1 ->
  Forall2 (fun h p => l !! p = Some h) vm vi.
Proof.
  intros Hw Hl Hne Hn Hc E Hz Er. unfold ExtractMatches in E. destruct (nTransactions t =? 0)%nat; [congruence|]. destruct (_ >? _); [congruence|].
  destruct (_ <? _)%nat; [congruence|]. destruct (_ <? _)%nat; [congruence|].
  destruct (TraverseAndExtract t _ 0 _) as [r [b h bad m i]] eqn:Ex. destruct bad; [congruence|]. destruct (negb _); [congruence|].
  destruct (negb _); [congruence|]. assert (r = root /\ m = vm /\ i = vi) as (-> & -> & ->) by (split_and!; congruence).
  rewrite Hn in Ex. assert (0 < length l)%nat as Hpos by (destruct l; [done|cbn; lia]).
  assert (forall j, (j < tree_height (length l))%nat -> pairs (lev j l) ⊆ tree_pairs (length l) l) as Hj.
  { intros j Hj. destruct (tree_height_below l j Hj). by apply tree_pairs_lev. }
  destruct (extract_sound t l Hn _ Hc (tree_height (length l)) ltac:(intros j Hlt; specialize (Hj j Hlt); set_solver) _ _ _ _ Ex ltac:(set_solver) eq_refl) as [_ S].
  rewrite (proj1 (ComputeMerkleRoot_lev ways l Hw Hl Hne)), <- Er in S. destruct (S eq_refl) as (ms & qs & E1 & E2 & A). cbn in E1, E2. by subst.
Qed.

(** Two transactions, the second of them proved to be there *)
Lemma ExtractMatches_sound_witness :
  let l := [repeat 1 32; repeat 2 32] in
  ExtractMatches (mkPMT 2 [true; false; true] l false) [] = (Hash2 (repeat 1 32) (repeat 2 32), [repeat 2 32], [1%nat]) /\
  Forall2 (fun h p => l !! p = Some h) [repeat 2 32] [1%nat].
Proof.
  intros l. assert (ExtractMatches (mkPMT 2 [true; false; true] l false) [] = (Hash2 (repeat 1 32) (repeat 2 32), [repeat 2 32], [1%nat])) as E by reflexivity.
  split; [exact E|]. assert (Hash2 (repeat 1 32) (repeat 2 32) <> uint256_zero) as Hz by (vm_compute; discriminate).
  assert (Hash2 (repeat 1 32) (repeat 2 32) = (ComputeMerkleRoot portable_ways l).1) as Hr by (vm_compute; reflexivity).
  apply (ExtractMatches_sound portable_ways (mkPMT 2 [true; false; true] l false) l _ _ _ portable_ways_ok ltac:(by repeat constructor) ltac:(done) eq_refl) with (2 := E) (3 := Hz) (4 := Hr).
  exact (collision_free_twice (repeat 1 32) (repeat 2 32)).
Defined.
