(* ===== verification/TxCheck.v ===== *)
(** * TxCheck: context-free and contextual transaction rules
      (src/src/consensus/tx_check.cpp, src/src/consensus/tx_verify.cpp)

    [CheckTransaction] is the list of context-free rules, [CheckTxInputs] the
    rules on the coins a transaction spends; lock times and relative lock times
    complete the picture. *)

From Stdlib Require Import ZArith Lia.
From stdpp Require Import base list numbers option gmap.
From S2P Require Import Prelude Arith256 Uint256 Serialize Transaction Chain Params.

Definition MAX_LEGACY_BLOCK_SIZE : Z := 1000000.
Definition MAX_TX_EXTRA_PAYLOAD : Z := 10000.
Definition LOCKTIME_THRESHOLD : Z := 500000000.
Definition LOCKTIME_VERIFY_SEQUENCE : Z := 1.
Definition SEQUENCE_FINAL : Z := 0xffffffff.
Definition SEQUENCE_LOCKTIME_DISABLE_FLAG : Z := Z.shiftl 1 31.
Definition SEQUENCE_LOCKTIME_TYPE_FLAG : Z := Z.shiftl 1 22.
Definition SEQUENCE_LOCKTIME_MASK : Z := 0x0000ffff.
Definition SEQUENCE_LOCKTIME_GRANULARITY : Z := 9.

(** The reject reasons *)
Inductive TxError : Type :=
| bad_txns_vin_empty
| bad_txns_vout_empty
| bad_txns_oversize
| bad_txns_payload_oversize
| bad_txns_vout_negative
| bad_txns_vout_toolarge
| bad_txns_txouttotal_toolarge
| bad_txns_inputs_duplicate
| bad_cb_length
| bad_txns_prevout_null
| bad_txns_inputs_missingorspent
| bad_txns_premature_spend_of_coinbase
| bad_txns_inputvalues_outofrange
| bad_txns_in_belowout
| bad_txns_fee_outofrange
| bad_assetunlocktx_payload
| bad_txns_assetunlock_fee_outofrange.

(** ** CheckTransaction *)

Fixpoint check_outputs (vout : list CTxOut) (nValueOut : Z) : verdict TxError :=
  match vout with
  | [] => Accept
  | txout :: vout =>
      check (nValue txout <? 0) bad_txns_vout_negative (
      check (nValue txout >? MAX_MONEY) bad_txns_vout_toolarge (
      let nValueOut := nValueOut + nValue txout in
      check (negb (MoneyRange nValueOut)) bad_txns_txouttotal_toolarge (
      check_outputs vout nValueOut)))
  end.

Fixpoint check_duplicates (vin : list CTxIn) (vInOutPoints : gset COutPoint) : verdict TxError :=
  match vin with
  | [] => Accept
  | txin :: vin =>
      check (bool_decide (prevout txin ∈ vInOutPoints)) bad_txns_inputs_duplicate (
      check_duplicates vin ({[prevout txin]} ∪ vInOutPoints))
  end.

(** The rule on a coinbase's script, or on the other inputs *)
Definition check_coinbase (tx : CTransaction) : verdict TxError :=
  if IsCoinBase tx then
    let minCbSize := if nType tx =? TRANSACTION_COINBASE then 1 else 2 in
    let size := match vin tx with i :: _ => Z.of_nat (length (scriptSig i)) | [] => 0 end in
    check ((size <? minCbSize) || (size >? 100))%bool bad_cb_length Accept
  else
    check (existsb (fun i => outpoint_IsNull (prevout i)) (vin tx)) bad_txns_prevout_null Accept.

(** [CheckTransaction] *)
Definition CheckTransaction (tx : CTransaction) : verdict TxError :=
  let allowEmpty := ((nType tx =? TRANSACTION_QUORUM_COMMITMENT) || (nType tx =? TRANSACTION_MNHF_SIGNAL) ||
                     (nType tx =? TRANSACTION_POSE_SERVICE_COMMITMENT))%bool in
  let allowEmptyTxIn := (allowEmpty || (nType tx =? TRANSACTION_ASSET_UNLOCK))%bool in
  let allowEmptyTxOut := allowEmpty in
  check (negb allowEmptyTxIn && bool_decide (vin tx = []))%bool bad_txns_vin_empty (
  check (negb allowEmptyTxOut && bool_decide (vout tx = []))%bool bad_txns_vout_empty (
  check (tx_size tx >? MAX_LEGACY_BLOCK_SIZE) bad_txns_oversize (
  check (Z.of_nat (length (vExtraPayload tx)) >? MAX_TX_EXTRA_PAYLOAD) bad_txns_payload_oversize (
  verdict_then (check_outputs (vout tx) 0) (
  verdict_then (check_duplicates (vin tx) ∅) (
  check_coinbase tx)))))).

(** ** Lock times *)

(** [IsFinalTx] *)
Definition IsFinalTx (tx : CTransaction) (nBlockHeight nBlockTime : Z) : bool :=
  if nLockTime tx =? 0 then true
  else if nLockTime tx <? (if nLockTime tx <? LOCKTIME_THRESHOLD then nBlockHeight else nBlockTime) then true
  else forallb (fun i => nSequence i =? SEQUENCE_FINAL) (vin tx).

(** One input of [CalculateSequenceLocks]: the new [prevHeights[i]] and the
    pair [(nMinHeight, nMinTime)] *)
Definition sequence_lock_input (bi : gmap uint256 CBlockIndex) (block : uint256) (txin : CTxIn) (nCoinHeight : Z)
    (lock : Z * Z) : outcome (Z * (Z * Z)) :=
  let '(nMinHeight, nMinTime) := lock in
  if negb (Z.land (nSequence txin) SEQUENCE_LOCKTIME_DISABLE_FLAG =? 0) then Ret (0, lock)
  else if negb (Z.land (nSequence txin) SEQUENCE_LOCKTIME_TYPE_FLAG =? 0) then
    a ← GetAncestor bi block (Z.max (nCoinHeight - 1) 0);
    p ← deref a;
    let nCoinTime := GetMedianTimePast bi p in
    Ret (nCoinHeight,
         (nMinHeight,
          Z.max nMinTime (nCoinTime + Z.shiftl (Z.land (nSequence txin) SEQUENCE_LOCKTIME_MASK)
                                              SEQUENCE_LOCKTIME_GRANULARITY - 1)))
  else
    Ret (nCoinHeight,
         (Z.max nMinHeight (nCoinHeight + Z.land (nSequence txin) SEQUENCE_LOCKTIME_MASK - 1), nMinTime)).

Fixpoint sequence_locks_loop (bi : gmap uint256 CBlockIndex) (block : uint256) (vin : list CTxIn)
    (prevHeights : list Z) (lock : Z * Z) : outcome (list Z * (Z * Z)) :=
  match vin, prevHeights with
  | i :: vin, h :: prevHeights =>
      '(h', lock) ← sequence_lock_input bi block i h lock;
      '(hs, lock) ← sequence_locks_loop bi block vin prevHeights lock;
      Ret (h' :: hs, lock)
  | [], [] => Ret ([], lock)
  | _, _ => Abort
  end.

(** [CalculateSequenceLocks]: the updated [prevHeights] and the lock pair *)
Definition CalculateSequenceLocks (bi : gmap uint256 CBlockIndex) (tx : CTransaction) (flags : Z)
    (prevHeights : list Z) (block : uint256) : outcome (list Z * (Z * Z)) :=
  if negb (length prevHeights =? length (vin tx))%nat then Abort
  else
    let fEnforceBIP68 := ((u32 (tx_nVersion tx) >=? 2) && negb (Z.land flags LOCKTIME_VERIFY_SEQUENCE =? 0))%bool in
    if negb fEnforceBIP68 then Ret (prevHeights, (-1, -1))
    else sequence_locks_loop bi block (vin tx) prevHeights (-1, -1).

(** [EvaluateSequenceLocks] *)
Definition EvaluateSequenceLocks (bi : gmap uint256 CBlockIndex) (block : uint256) (lockPair : Z * Z) : outcome bool :=
  b ← deref (bi !! block);
  p ← deref (pprev b);
  let nBlockTime := GetMedianTimePast bi p in
  Ret (negb ((lockPair.1 >=? nHeight b) || (lockPair.2 >=? nBlockTime))%bool).

(** [SequenceLocks] *)
Definition SequenceLocks (bi : gmap uint256 CBlockIndex) (tx : CTransaction) (flags : Z) (prevHeights : list Z)
    (block : uint256) : outcome bool :=
  '(_, lock) ← CalculateSequenceLocks bi tx flags prevHeights block;
  EvaluateSequenceLocks bi block lock.

(** ** CheckTxInputs *)

(** [GetValueOut]; [Abort] is the exception. *)
Fixpoint value_out_loop (vout : list CTxOut) (nValueOut : Z) : outcome Z :=
  match vout with
  | [] => if MoneyRange nValueOut then Ret nValueOut else Abort
  | o :: vout =>
      if (negb (MoneyRange (nValue o)) || negb (MoneyRange (nValueOut + nValue o)))%bool then Abort
      else value_out_loop vout (nValueOut + nValue o)
  end.
Definition GetValueOut (tx : CTransaction) : outcome Z := value_out_loop (vout tx) 0.

(** [HaveCoin]: present and not spent *)
Definition HaveCoin (inputs : gmap COutPoint Coin) (o : COutPoint) : bool :=
  match inputs !! o with Some c => negb (IsSpent c) | None => false end.

(** [HaveInputs] *)
Definition HaveInputs (inputs : gmap COutPoint Coin) (tx : CTransaction) : bool :=
  if IsCoinBase tx then true else forallb (fun i => HaveCoin inputs (prevout i)) (vin tx).

(** The loop over the inputs: [nValueIn], or the reject reason; [assert] on a
    spent coin aborts. *)
Fixpoint inputs_loop (inputs : gmap COutPoint Coin) (vin : list CTxIn) (nSpendHeight nValueIn : Z)
    : outcome (Z + TxError) :=
  match vin with
  | [] => Ret (inl nValueIn)
  | i :: vin =>
      coin ← deref (inputs !! prevout i);
      if IsSpent coin then Abort
      else if ((fCoinBase coin || fCoinStake coin) && (nSpendHeight - coin_nHeight coin <? COINBASE_MATURITY))%bool
      then Ret (inr bad_txns_premature_spend_of_coinbase)
      else
        let nValueIn := nValueIn + nValue (coin_out coin) in
        if (negb (MoneyRange (nValue (coin_out coin))) || negb (MoneyRange nValueIn))%bool
        then Ret (inr bad_txns_inputvalues_outofrange)
        else inputs_loop inputs vin nSpendHeight nValueIn
  end.

Section inputs.

(** The fee an asset unlock payload states; [None] when it does not parse. *)
Context (AssetUnlockPayloadFee : CTransaction -> option Z).

(** [GetAssetUnlockFee] *)
Definition GetAssetUnlockFee (tx : CTransaction) (txfee : Z) : verdict TxError * Z :=
  match AssetUnlockPayloadFee tx with
  | None => (Reject bad_assetunlocktx_payload, txfee)
  | Some txfee_aux =>
      if ((txfee_aux =? 0) || negb (MoneyRange txfee_aux))%bool
      then (Reject bad_txns_assetunlock_fee_outofrange, txfee)
      else (Accept, txfee_aux)
  end.

(** [Consensus::CheckTxInputs]: the verdict and the new value of [txfee] *)
Definition CheckTxInputs (tx : CTransaction) (inputs : gmap COutPoint Coin) (nSpendHeight txfee : Z)
    : outcome (verdict TxError * Z) :=
  if (IsSpecialTxVersion tx && (nType tx =? TRANSACTION_ASSET_UNLOCK))%bool then Ret (GetAssetUnlockFee tx txfee)
  else if negb (HaveInputs inputs tx) then Ret (Reject bad_txns_inputs_missingorspent, txfee)
  else
    r ← inputs_loop inputs (vin tx) nSpendHeight 0;
    match r with
    | inr e => Ret (Reject e, txfee)
    | inl nValueIn =>
        if IsCoinStake tx then Ret (Accept, txfee)
        else
          value_out ← GetValueOut tx;
          if nValueIn <? value_out then Ret (Reject bad_txns_in_belowout, txfee)
          else
            let txfee_aux := nValueIn - value_out in
            if negb (MoneyRange txfee_aux) then Ret (Reject bad_txns_fee_outofrange, txfee)
            else Ret (Accept, txfee_aux)
    end.

End inputs.

(** ** Lemmas *)

Lemma MoneyRange_iff v : MoneyRange v = true <-> 0 <= v <= MAX_MONEY.
Proof. unfold MoneyRange. rewrite andb_true_iff, Z.geb_le, Z.leb_le. done. Qed.

Lemma MoneyRange_negb v : negb (MoneyRange v) = false <-> 0 <= v <= MAX_MONEY.
Proof. rewrite negb_false_iff. apply MoneyRange_iff. Qed.

Definition in_range (o : CTxOut) : Prop := 0 <= nValue o <= MAX_MONEY.

Lemma sum_in_range l : Forall in_range l -> 0 <= sum_of nValue l.
Proof. intros H. apply sum_of_nonneg. eapply Forall_impl; [exact H|]. unfold in_range. lia. Qed.

Lemma check_outputs_accept l acc : 0 <= acc <= MAX_MONEY ->
  check_outputs l acc = Accept <-> Forall in_range l /\ acc + sum_of nValue l <= MAX_MONEY.
Proof.
  revert acc. induction l as [|o l IH]; intros acc Hacc; cbn [check_outputs].
  { rewrite sum_of_nil. split; [intros _; split; [constructor|lia]|done]. }
  rewrite !check_accept, Forall_cons, sum_of_cons, Z.gtb_ltb, Z.ltb_ge, Z.ltb_ge, MoneyRange_negb.
  split.
  - intros (H1 & H2 & H3 & H4). apply IH in H4 as [Hf Hs]; [|lia]. unfold in_range. split; [done|lia].
  - intros [[Ho Hf] Hs]. pose proof (sum_in_range l Hf). unfold in_range in Ho.
    split; [lia|]. split; [lia|]. split; [lia|]. apply IH; [lia|]. split; [done|lia].
Qed.

Lemma check_duplicates_accept l (seen : gset COutPoint) :
  check_duplicates l seen = Accept <-> NoDup (prevout <$> l) /\ Forall (fun o => o ∉ seen) (prevout <$> l).
Proof.
  revert seen. induction l as [|i l IH]; intros seen; cbn [check_duplicates].
  { split; [intros _; split; constructor|done]. }
  rewrite check_accept, bool_decide_eq_false, IH. cbn [fmap list_fmap]. rewrite NoDup_cons, Forall_cons.
  rewrite !Forall_forall. set_solver.
Qed.

Lemma GetValueOut_sum l acc : Forall in_range l -> 0 <= acc -> acc + sum_of nValue l <= MAX_MONEY ->
  value_out_loop l acc = Ret (acc + sum_of nValue l).
Proof.
  intros Hl. revert acc. induction Hl as [|o l Ho Hl IH]; intros acc Hacc Hs; cbn [value_out_loop].
  { rewrite sum_of_nil in *. rewrite (proj2 (MoneyRange_iff acc)) by lia. f_equal. lia. }
  rewrite sum_of_cons in *. pose proof (sum_in_range l Hl). unfold in_range in Ho.
  rewrite (proj2 (MoneyRange_negb (nValue o))), (proj2 (MoneyRange_negb (acc + nValue o))) by lia.
  cbn [orb]. rewrite IH by lia. f_equal. lia.
Qed.

(** What one input of an accepted transaction satisfies. *)
Definition input_ok (inputs : gmap COutPoint Coin) (height : Z) (i : CTxIn) : Prop :=
  exists c, inputs !! prevout i = Some c /\ IsSpent c = false /\ 0 <= nValue (coin_out c) <= MAX_MONEY /\
            (fCoinBase c = true \/ fCoinStake c = true -> COINBASE_MATURITY <= height - coin_nHeight c).

Definition coin_value (inputs : gmap COutPoint Coin) (i : CTxIn) : Z :=
  match inputs !! prevout i with Some c => nValue (coin_out c) | None => 0 end.

Lemma inputs_loop_spec inputs l height : forallb (fun i => HaveCoin inputs (prevout i)) l = true ->
  forall acc, 0 <= acc <= MAX_MONEY ->
  (exists v, inputs_loop inputs l height acc = Ret (inl v) /\ v = acc + sum_of (coin_value inputs) l /\
     0 <= v <= MAX_MONEY /\ Forall (input_ok inputs height) l) \/
  (exists e, inputs_loop inputs l height acc = Ret (inr e)).
Proof.
  induction l as [|i l IH]; intros Hh acc Hacc.
  { left. exists acc. rewrite sum_of_nil. split_and!; [done|lia|lia|lia|constructor]. }
  cbn [forallb] in Hh. apply andb_true_iff in Hh as [Hi Hl].
  unfold HaveCoin in Hi. destruct (inputs !! prevout i) as [c|] eqn:Ec; [|done].
  apply negb_true_iff in Hi. cbn [inputs_loop]. rewrite Ec. cbn [deref mbind outcome_bind]. rewrite Hi.
  destruct ((fCoinBase c || fCoinStake c) && (height - coin_nHeight c <? COINBASE_MATURITY))%bool eqn:Em;
    [right; eauto|].
  destruct (negb (MoneyRange (nValue (coin_out c))) || negb (MoneyRange (acc + nValue (coin_out c))))%bool eqn:Er;
    [right; eauto|].
  apply orb_false_iff in Er as [E1 E2]. apply MoneyRange_negb in E1, E2.
  destruct (IH Hl (acc + nValue (coin_out c)) E2) as [(v & Hv & -> & Hr & Hf)|(e & He)]; [left|right; eauto].
  eexists. split; [exact Hv|]. rewrite sum_of_cons. unfold coin_value at 2. rewrite Ec.
  split; [lia|]. split; [lia|]. constructor; [|done].
  exists c. split_and!; [done|done|lia|lia|]. intros Hcb. apply andb_false_iff in Em as [Em|Em].
  - apply orb_false_iff in Em as [E3 E4]. destruct Hcb; congruence.
  - apply Z.ltb_ge in Em. lia.
Qed.

(** ** Relative lock times, input by input *)

(** Input [i], spending a coin of height [h], may be in a block of height
    [height] whose predecessor has median time [mtp]. *)
Definition input_unlocked (bi : gmap uint256 CBlockIndex) (block : uint256) (height mtp : Z) (i : CTxIn) (h : Z) : Prop :=
  Z.land (nSequence i) SEQUENCE_LOCKTIME_DISABLE_FLAG <> 0 \/
  let v := Z.land (nSequence i) SEQUENCE_LOCKTIME_MASK in
  if negb (Z.land (nSequence i) SEQUENCE_LOCKTIME_TYPE_FLAG =? 0)
  then exists a, GetAncestor bi block (Z.max (h - 1) 0) = Ret (Some a) /\ GetMedianTimePast bi a + v * 512 <= mtp
  else h + v <= height.

Section sequence.

Context (bi : gmap uint256 CBlockIndex) (Hwf : tree_wf bi) (block : uint256) (b : CBlockIndex)
        (Hb : bi !! block = Some b).

Lemma sequence_lock_input_spec i h lock mtp : 0 <= h <= nHeight b ->
  exists h' lock', sequence_lock_input bi block i h lock = Ret (h', lock') /\
    (lock'.1 < nHeight b /\ lock'.2 < mtp <->
     (lock.1 < nHeight b /\ lock.2 < mtp) /\ input_unlocked bi block (nHeight b) mtp i h).
Proof.
  intros Hh. destruct lock as [mh mt]. unfold sequence_lock_input, input_unlocked. cbn [fst snd].
  destruct (Z.eqb_spec (Z.land (nSequence i) SEQUENCE_LOCKTIME_DISABLE_FLAG) 0) as [E|E]; cbn [negb].
  2:{ do 2 eexists. split; [done|]. cbn [fst snd]. tauto. }
  destruct (Z.land (nSequence i) SEQUENCE_LOCKTIME_TYPE_FLAG =? 0); cbn [negb].
  - do 2 eexists. split; [done|]. cbn [fst snd]. lia.
  - rewrite (GetAncestor_walk bi Hwf block b) by done.
    rewrite !(proj2 (Z.leb_le _ _)) by lia. cbn [andb mbind outcome_bind].
    destruct (walk_total bi Hwf (Z.to_nat (nHeight b - Z.max (h - 1) 0)) block b Hb) as (a & ab & Ha & _); [lia|].
    rewrite Ha. cbn [deref mbind outcome_bind]. do 2 eexists. split; [done|]. cbn [fst snd].
    unfold SEQUENCE_LOCKTIME_GRANULARITY. rewrite Z.shiftl_mul_pow2 by lia. change (2^9) with 512.
    split.
    + intros [H1 H2]. split; [lia|]. right. exists a. split; [done|lia].
    + intros [H1 [H2|(a' & [= <-] & H2)]]; [done|]. lia.
Qed.

Lemma sequence_locks_loop_spec mtp l : forall hs lock, length hs = length l ->
  Forall (fun h => 0 <= h <= nHeight b) hs ->
  exists hs' lock', sequence_locks_loop bi block l hs lock = Ret (hs', lock') /\
    (lock'.1 < nHeight b /\ lock'.2 < mtp <->
     (lock.1 < nHeight b /\ lock.2 < mtp) /\ Forall2 (input_unlocked bi block (nHeight b) mtp) l hs).
Proof.
  induction l as [|i l IH]; intros [|h hs] lock Hlen Hr; try done; cbn [sequence_locks_loop].
  { do 2 eexists. split; [done|]. split; [intros H; split; [done|constructor]|tauto]. }
  inversion Hr as [|? ? Hh Hhs]; subst.
  destruct (sequence_lock_input_spec i h lock mtp Hh) as (h' & lock1 & -> & H1). cbn [mbind outcome_bind].
  destruct (IH hs lock1) as (hs' & lock2 & -> & H2); [simpl in Hlen; lia|done|]. cbn [mbind outcome_bind].
  do 2 eexists. split; [done|]. rewrite H2, H1, Forall2_cons. tauto.
Qed.

End sequence.

(** The last rule: the script of a coinbase, the outpoints of the others. *)
Lemma coinbase_rule tx :
  check_coinbase tx = Accept <->
  (if IsCoinBase tx
   then exists i, vin tx = [i] /\ (if nType tx =? TRANSACTION_COINBASE then 1 else 2) <= Z.of_nat (length (scriptSig i)) <= 100
   else Forall (fun i => outpoint_IsNull (prevout i) = false) (vin tx)).
Proof.
  unfold check_coinbase. destruct (IsCoinBase tx) eqn:Hc.
  - unfold IsCoinBase in Hc. destruct (vin tx) as [|i [|]]; try done.
    rewrite check_accept, orb_false_iff, Z.gtb_ltb, !Z.ltb_ge. split.
    + intros [[H1 H2] _]. exists i. split; [done|lia].
    + intros (i' & [= <-] & H). split; [lia|done].
  - rewrite check_accept, existsb_Forall. tauto.
Qed.

Lemma CheckTransaction_outputs tx : CheckTransaction tx = Accept ->
  Forall in_range (vout tx) /\ 0 + sum_of nValue (vout tx) <= MAX_MONEY.
Proof.
  unfold CheckTransaction, verdict_then. rewrite !check_accept. intros (_ & _ & _ & _ & H).
  apply check_outputs_accept; [unfold MAX_MONEY, COIN; lia|].
  destruct (check_outputs (vout tx) 0); done.
Qed.

(** ** Properties *)

(** [CheckTransaction] accepts exactly the transactions that satisfy all
    its rules at once: inputs and outputs present unless the type allows their
    absence, size and payload within bounds, every output and their total
    within the money range, no outpoint spent twice, and a coinbase script of
    legal length or else no null outpoint. *)
Theorem CheckTransaction_accepts (tx : CTransaction) :
  let special := nType tx = TRANSACTION_QUORUM_COMMITMENT \/ nType tx = TRANSACTION_MNHF_SIGNAL \/
                 nType tx = TRANSACTION_POSE_SERVICE_COMMITMENT in
  CheckTransaction tx = Accept <->
  (vin tx = [] -> special \/ nType tx = TRANSACTION_ASSET_UNLOCK) /\
  (vout tx = [] -> special) /\
  tx_size tx <= MAX_LEGACY_BLOCK_SIZE /\
  Z.of_nat (length (vExtraPayload tx)) <= MAX_TX_EXTRA_PAYLOAD /\
  Forall in_range (vout tx) /\ sum_of nValue (vout tx) <= MAX_MONEY /\
  NoDup (prevout <$> vin tx) /\
  (if IsCoinBase tx
   then exists i, vin tx = [i] /\ (if nType tx =? TRANSACTION_COINBASE then 1 else 2) <= Z.of_nat (length (scriptSig i)) <= 100
   else Forall (fun i => outpoint_IsNull (prevout i) = false) (vin tx)).
Proof.
  cbv zeta. unfold CheckTransaction, verdict_then.
  set (allow := ((nType tx =? TRANSACTION_QUORUM_COMMITMENT) || (nType tx =? TRANSACTION_MNHF_SIGNAL) ||
                 (nType tx =? TRANSACTION_POSE_SERVICE_COMMITMENT))%bool).
  assert (Ha : allow = true <-> nType tx = TRANSACTION_QUORUM_COMMITMENT \/ nType tx = TRANSACTION_MNHF_SIGNAL \/
                 nType tx = TRANSACTION_POSE_SERVICE_COMMITMENT)
    by (subst allow; rewrite !orb_true_iff, !Z.eqb_eq; tauto).
  rewrite !check_accept. rewrite !Z.gtb_ltb, !Z.ltb_ge, !andb_false_iff, !negb_false_iff, !bool_decide_eq_false.
  rewrite orb_true_iff, Z.eqb_eq, Ha. clear Ha allow.
  pose proof (check_outputs_accept (vout tx) 0 ltac:(unfold MAX_MONEY, COIN; lia)) as Ho.
  pose proof (check_duplicates_accept (vin tx) ∅) as Hd.
  assert (He : Forall (fun o => o ∉ (∅ : gset COutPoint)) (prevout <$> vin tx))
    by (apply Forall_forall; set_solver).
  destruct (check_outputs (vout tx) 0) eqn:Eo.
  - destruct (check_duplicates (vin tx) ∅) eqn:Ed.
    + rewrite coinbase_rule. destruct Ho as [Ho _], Hd as [Hd _]. specialize (Ho eq_refl). specialize (Hd eq_refl).
      destruct Ho as [Ho1 Ho2], Hd as [Hd1 _]. rewrite Z.add_0_l in Ho2.
      clear He. destruct (vin tx), (vout tx); intuition congruence.
    + split; [intros (? & ? & ? & ? & [=])|]. intros (_ & _ & _ & _ & _ & _ & Hn & _). destruct Hd as [_ Hd].
      specialize (Hd (conj Hn He)). done.
  - split; [intros (? & ? & ? & ? & [=])|]. intros (_ & _ & _ & _ & Hf & Hs & _). destruct Ho as [_ Ho].
    enough (Reject e = Accept) by done. apply Ho. split; [done|lia].
Qed.

Lemma CheckTransaction_demo : CheckTransaction demo_tx = Accept.
Proof. vm_compute. reflexivity. Qed.

(** C27: what an accepted spend guarantees.  A transaction that passed
    [CheckTransaction], is not a coinbase and unlocks no assets is never
    aborted on by [CheckTxInputs]; when accepted, every input exists, is unspent
    and mature, and unless it is a coinstake the value of its inputs is the
    value of its outputs plus the fee, which is within the money range. *)
Theorem CheckTxInputs_conserves (fee_of : CTransaction -> option Z) (tx : CTransaction)
    (inputs : gmap COutPoint Coin) (height txfee : Z) :
  CheckTransaction tx = Accept -> IsCoinBase tx = false ->
  (IsSpecialTxVersion tx && (nType tx =? TRANSACTION_ASSET_UNLOCK))%bool = false ->
  exists v fee, CheckTxInputs fee_of tx inputs height txfee = Ret (v, fee) /\
    (v = Accept ->
     Forall (input_ok inputs height) (vin tx) /\
     (IsCoinStake tx = true -> fee = txfee) /\
     (IsCoinStake tx = false ->
      sum_of (coin_value inputs) (vin tx) = sum_of nValue (vout tx) + fee /\ 0 <= fee <= MAX_MONEY)).
Proof.
  intros Hct Hcb Hun. pose proof (CheckTransaction_outputs tx Hct) as [Hr Hs].
  unfold CheckTxInputs. rewrite Hun. unfold HaveInputs. rewrite Hcb.
  destruct (forallb (fun i => HaveCoin inputs (prevout i)) (vin tx)) eqn:Hh; cbn [negb]; [|by do 2 eexists].
  destruct (inputs_loop_spec inputs (vin tx) height Hh 0) as [(v & -> & Hv & Hvr & Hf)|(e & ->)];
    [unfold MAX_MONEY, COIN; lia| |by do 2 eexists].
  cbn [mbind outcome_bind]. destruct (IsCoinStake tx); [by do 2 eexists|].
  unfold GetValueOut. rewrite GetValueOut_sum by (done || lia). cbn [mbind outcome_bind].
  destruct (v <? 0 + sum_of nValue (vout tx)) eqn:Hlt; [by do 2 eexists|]. apply Z.ltb_ge in Hlt.
  destruct (MoneyRange (v - (0 + sum_of nValue (vout tx)))) eqn:Hm; cbn [negb]; [|by do 2 eexists].
  apply MoneyRange_iff in Hm. do 2 eexists. split; [done|]. intros _. split_and!; [done|done|intros _; lia].
Qed.

Lemma CheckTxInputs_conserves_witness :
  exists v fee, CheckTxInputs (fun _ => None) demo_tx {[mkOutPoint (replicate 32 7) 1 := mkCoin (mkTxOut 6000 [0x51]) false 10 false]} 100 0
    = Ret (v, fee) /\ v = Accept /\ fee = 1000.
Proof.
  destruct (CheckTxInputs_conserves (fun _ => None) demo_tx
    {[mkOutPoint (replicate 32 7) 1 := mkCoin (mkTxOut 6000 [0x51]) false 10 false]} 100 0
    CheckTransaction_demo eq_refl eq_refl) as (v & fee & Hr & H).
  exists v, fee. split; [exact Hr|].
  assert (E : v = Accept) by (vm_compute in Hr; injection Hr as <- <-; reflexivity).
  split; [exact E|]. destruct (H E) as (_ & _ & Hc). destruct (Hc eq_refl) as [Hsum _].
  vm_compute in Hsum. destruct fee; try discriminate. vm_compute in Hr. injection Hr as _ <-. reflexivity.
Defined.

(** [SequenceLocks] is exactly the conjunction of the relative lock times
    of the inputs: each is disabled, or its height has passed, or its time, in
    units of 512 seconds from the median time before the coin's block; they do
    not bind below version 2 or without the flag. *)
Theorem SequenceLocks_per_input (bi : gmap uint256 CBlockIndex) (tx : CTransaction) (flags : Z)
    (heights : list Z) (block p : uint256) (b : CBlockIndex) :
  tree_wf bi -> bi !! block = Some b -> pprev b = Some p -> 0 <= GetMedianTimePast bi p ->
  length heights = length (vin tx) -> Forall (fun h => 0 <= h <= nHeight b) heights ->
  exists r, SequenceLocks bi tx flags heights block = Ret r /\
    (r = true <->
     (u32 (tx_nVersion tx) < 2 \/ Z.land flags LOCKTIME_VERIFY_SEQUENCE = 0) \/
     Forall2 (input_unlocked bi block (nHeight b) (GetMedianTimePast bi p)) (vin tx) heights).
Proof.
  intros Hwf Hb Hp Hmtp Hlen Hh. unfold SequenceLocks, CalculateSequenceLocks.
  rewrite Hlen, Nat.eqb_refl. cbn [negb]. pose proof (height_nonneg bi Hwf _ _ Hb) as Hpos.
  assert (Hev : forall lock, EvaluateSequenceLocks bi block lock
            = Ret ((lock.1 <? nHeight b) && (lock.2 <? GetMedianTimePast bi p))%bool).
  { intros lock. unfold EvaluateSequenceLocks. outcome_step. rewrite Hp. cbn [deref mbind outcome_bind].
    rewrite !Z.geb_leb, !Z.leb_antisym, negb_orb, !negb_involutive. done. }
  destruct ((u32 (tx_nVersion tx) >=? 2) && negb (Z.land flags LOCKTIME_VERIFY_SEQUENCE =? 0))%bool eqn:He; cbn [negb].
  - apply andb_true_iff in He as [H1 H2]. rewrite Z.geb_le in H1. apply negb_true_iff, Z.eqb_neq in H2.
    destruct (sequence_locks_loop_spec bi Hwf block b Hb (GetMedianTimePast bi p) (vin tx) heights (-1, -1) Hlen Hh)
      as (hs' & lock & -> & Hl). cbn [mbind outcome_bind]. rewrite Hev. eexists. split; [done|].
    rewrite andb_true_iff, !Z.ltb_lt, Hl. cbn [fst snd]. split; [tauto|].
    intros [[?|?]|?]; [lia|done|]. split; [lia|done].
  - cbn [mbind outcome_bind]. rewrite Hev. eexists. split; [done|]. cbn [fst snd].
    rewrite andb_true_iff, !Z.ltb_lt. apply andb_false_iff in He. rewrite Z.geb_leb, Z.leb_gt, negb_false_iff, Z.eqb_eq in He.
    split; [tauto|lia].
Qed.

Lemma SequenceLocks_per_input_witness :
  exists r, SequenceLocks demo_index (mkTx [mkTxIn (mkOutPoint (demo_hash 9) 0) [] 2] [] 2 0 0 []) 1 [3] (demo_hash 6) = Ret r /\
    (r = true <-> Forall2 (input_unlocked demo_index (demo_hash 6) 5 (GetMedianTimePast demo_index (demo_hash 5)))
                    [mkTxIn (mkOutPoint (demo_hash 9) 0) [] 2] [3]).
Proof.
  destruct (SequenceLocks_per_input demo_index (mkTx [mkTxIn (mkOutPoint (demo_hash 9) 0) [] 2] [] 2 0 0 []) 1 [3]
    (demo_hash 6) (demo_hash 5) (demo_entry (Some 5) (Some 2) 5 0 0x1e0fffff 1050) demo_index_wf)
    as (r & Hr & H); [vm_compute; reflexivity|reflexivity|vm_compute; discriminate|reflexivity| |].
  - constructor; [simpl; lia|constructor].
  - exists r. split; [exact Hr|]. rewrite H. split; [|tauto]. intros [[E|E]|E]; [vm_compute in E; discriminate|vm_compute in E; discriminate|exact E].
Defined.
