(* ===== verification/SigHash.v ===== *)
(** * SigHash: what a signature of a transaction input signs
      (src/src/script/interpreter.cpp)

    The serializer writes a modified transaction without building it; the
    checker is the interface the script machine uses, for one input of one
    transaction. *)

From Stdlib Require Import ZArith Lia.
From stdpp Require Import base list numbers option gmap.
From S2P Require Import Prelude Arith256 Uint256 Serialize Transaction Script Interpreter Chain ActiveChain Params TxCheck.

(** ** The serializer *)

(** Where [GetScriptOp] leaves the iterator when it fails: past the opcode, and
    past a length it could read. *)
Definition GetScriptOp_stop (pc : CScript) : CScript :=
  match pc with
  | [] => []
  | opcode :: pc =>
      let skip n := if size pc <? Z.of_nat n then pc else drop n pc in
      if opcode <? OP_PUSHDATA1 then pc
      else if opcode =? OP_PUSHDATA1 then skip 1%nat
      else if opcode =? OP_PUSHDATA2 then skip 2%nat
      else if opcode =? OP_PUSHDATA4 then skip 4%nat
      else pc
  end.

(** The loops of [SerializeScriptCode]; every operation takes at least a byte. *)
Fixpoint count_separators (fuel : nat) (it : CScript) (n : Z) : Z :=
  match fuel with
  | O => n
  | S f =>
      match GetScriptOp it with
      | None => n
      | Some (opcode, _, it) => count_separators f it (if opcode =? OP_CODESEPARATOR then n + 1 else n)
      end
  end.

(** The bytes from iterator [a] to iterator [b] *)
Definition between_its (a b : CScript) : list Z := take (length a - length b) a.

Fixpoint write_segments (fuel : nat) (itBegin it : CScript) : list Z :=
  match fuel with
  | O => []
  | S f =>
      match GetScriptOp it with
      | None =>
          let it := GetScriptOp_stop it in
          if (length itBegin =? 0)%nat then [] else between_its itBegin it
      | Some (opcode, _, it) =>
          if opcode =? OP_CODESEPARATOR
          then take (length itBegin - length it - 1) itBegin ++ write_segments f it it
          else write_segments f itBegin it
      end
  end.

(** [SerializeScriptCode] *)
Definition SerializeScriptCode (scriptCode : CScript) : list Z :=
  let fuel := S (length scriptCode) in
  let nCodeSeparators := count_separators fuel scriptCode 0 in
  WriteCompactSize (size scriptCode - nCodeSeparators) ++ write_segments fuel scriptCode scriptCode.

Section serializer.

Context (txTo : CTransaction) (scriptCode : CScript) (nIn : nat) (nHashType : Z).

Definition fAnyoneCanPay : bool := has_bit nHashType SIGHASH_ANYONECANPAY.
Definition fHashSingle : bool := Z.land nHashType 0x1f =? SIGHASH_SINGLE.
Definition fHashNone : bool := Z.land nHashType 0x1f =? SIGHASH_NONE.

(** [SerializeInput] *)
Definition SerializeInput (nInput : nat) : outcome (list Z) :=
  let nInput := if fAnyoneCanPay then nIn else nInput in
  i ← deref (vin txTo !! nInput);
  Ret (encode (prevout i) ++
       (if negb (nInput =? nIn)%nat then ser_bytes [] else SerializeScriptCode scriptCode) ++
       ser_writedata32 (if (negb (nInput =? nIn)%nat && (fHashSingle || fHashNone))%bool then 0 else nSequence i)).

(** [SerializeOutput] *)
Definition SerializeOutput (nOutput : nat) : outcome (list Z) :=
  if (fHashSingle && negb (nOutput =? nIn)%nat)%bool then Ret (encode (mkTxOut (-1) []))
  else o ← deref (vout txTo !! nOutput); Ret (encode o).

(** A loop over the indices *)
Fixpoint concat_outcomes (f : nat -> outcome (list Z)) (l : list nat) : outcome (list Z) :=
  match l with
  | [] => Ret []
  | n :: l => a ← f n; b ← concat_outcomes f l; Ret (a ++ b)
  end.

(** [CTransactionSignatureSerializer::Serialize] *)
Definition sig_Serialize : outcome (list Z) :=
  let nInputs := if fAnyoneCanPay then 1%nat else length (vin txTo) in
  let nOutputs := if fHashNone then 0%nat else if fHashSingle then (nIn + 1)%nat else length (vout txTo) in
  ins ← concat_outcomes SerializeInput (seq 0 nInputs);
  outs ← concat_outcomes SerializeOutput (seq 0 nOutputs);
  Ret (ser_writedata32 (u32 (Z.lor (tx_nVersion txTo) (Z.shiftl (nType txTo) 16))) ++
       WriteCompactSize (Z.of_nat nInputs) ++ ins ++ WriteCompactSize (Z.of_nat nOutputs) ++ outs ++
       ser_writedata32 (nLockTime txTo) ++
       (if ((tx_nVersion txTo >=? SPECIAL_VERSION) && negb (nType txTo =? TRANSACTION_NORMAL))%bool
        then ser_bytes (vExtraPayload txTo) else [])).

End serializer.

(** [uint256::ONE] *)
Definition uint256_one : uint256 := 1 :: repeat 0 31.

Section checker.

Context `{Crypto}.

(** [SignatureHash] *)
Definition SignatureHash (scriptCode : CScript) (txTo : CTransaction) (nIn : nat) (nHashType : Z) : outcome uint256 :=
  if negb (nIn <? length (vin txTo))%nat then Abort
  else if ((Z.land nHashType 0x1f =? SIGHASH_SINGLE) && (length (vout txTo) <=? nIn)%nat)%bool then Ret uint256_one
  else
    ss ← sig_Serialize txTo scriptCode nIn nHashType;
    Ret (Hash256 (ss ++ ser_writedata32 (u32 nHashType))).

(** [VerifySignature] *)
Definition VerifySignature (vchSig key sighash : list Z) : bool :=
  if size vchSig =? BLS_SIGNATURE_SIZE then CPubKey_VerifyBLS key sighash vchSig else CPubKey_Verify key sighash vchSig.

(** [GenericTransactionSignatureChecker::CheckSig] *)
Definition tx_CheckSig (txTo : CTransaction) (nIn : nat) (vchSigIn vchPubKey : list Z) (scriptCode : CScript) : outcome bool :=
  let pubkey := CPubKey_Set vchPubKey in
  if negb (CPubKey_IsValid pubkey) then Ret false
  else if (length vchSigIn =? 0)%nat then Ret false
  else
    let nHashType := back vchSigIn in
    sighash ← SignatureHash scriptCode txTo nIn nHashType;
    Ret (VerifySignature (removelast vchSigIn) pubkey sighash).

(** [CheckLockTime] *)
Definition tx_CheckLockTime (txTo : CTransaction) (nIn : nat) (n : Z) : outcome bool :=
  if negb (((nLockTime txTo <? LOCKTIME_THRESHOLD) && (n <? LOCKTIME_THRESHOLD)) ||
           ((nLockTime txTo >=? LOCKTIME_THRESHOLD) && (n >=? LOCKTIME_THRESHOLD))) then Ret false
  else if n >? nLockTime txTo then Ret false
  else
    i ← deref (vin txTo !! nIn);
    Ret (negb (SEQUENCE_FINAL =? nSequence i)).

(** [CheckSequence] *)
Definition tx_CheckSequence (txTo : CTransaction) (nIn : nat) (n : Z) : outcome bool :=
  i ← deref (vin txTo !! nIn);
  let txToSequence := nSequence i in
  if u32 (tx_nVersion txTo) <? 2 then Ret false
  else if negb (Z.land txToSequence SEQUENCE_LOCKTIME_DISABLE_FLAG =? 0) then Ret false
  else
    let nLockTimeMask := Z.lor SEQUENCE_LOCKTIME_TYPE_FLAG SEQUENCE_LOCKTIME_MASK in
    let txToSequenceMasked := Z.land txToSequence nLockTimeMask in
    let nSequenceMasked := Z.land n nLockTimeMask in
    if negb (((txToSequenceMasked <? SEQUENCE_LOCKTIME_TYPE_FLAG) && (nSequenceMasked <? SEQUENCE_LOCKTIME_TYPE_FLAG)) ||
             ((txToSequenceMasked >=? SEQUENCE_LOCKTIME_TYPE_FLAG) && (nSequenceMasked >=? SEQUENCE_LOCKTIME_TYPE_FLAG))) then Ret false
    else Ret (negb (nSequenceMasked >? txToSequenceMasked)).

(** [TransactionSignatureChecker] *)
Definition tx_checker (txTo : CTransaction) (nIn : nat) : SignatureChecker := {|
  CheckSig := tx_CheckSig txTo nIn;
  CheckLockTime := tx_CheckLockTime txTo nIn;
  CheckSequence := tx_CheckSequence txTo nIn;
|}.

End checker.

(** ** The transaction that is signed *)

(** The operations of a script: opcode and bytes *)
Fixpoint script_ops (fuel : nat) (pc : CScript) : option (list (Z * list Z)) :=
  match pc, fuel with
  | [], _ => Some []
  | _ :: _, O => None
  | _ :: _, S f =>
      '(opcode, _, rest) ← GetScriptOp pc;
      l ← script_ops f rest;
      Some ((opcode, between_its pc rest) :: l)
  end.
Definition without_separators (l : list (Z * list Z)) : list Z :=
  concat (map snd (List.filter (fun o => negb (o.1 =? OP_CODESEPARATOR)) l)).

(** The script code with its separators removed, for a script that parses *)
Definition signed_code (scriptCode : CScript) : option (list Z) := without_separators <$> script_ops (length scriptCode) scriptCode.

Definition sighash_in (code : list Z) (nIn : nat) (nHashType : Z) (n : nat) (i : CTxIn) : CTxIn :=
  mkTxIn (prevout i) (if (n =? nIn)%nat then code else [])
    (if (negb (n =? nIn)%nat && (fHashSingle nHashType || fHashNone nHashType))%bool then 0 else nSequence i).

(** The other scripts are blanked, and with the hash types that say so the
    other inputs, the other outputs, all outputs or the other sequences *)
Definition sighash_tx (tx : CTransaction) (code : list Z) (nIn : nat) (nHashType : Z) : CTransaction :=
  mkTx (if fAnyoneCanPay nHashType then match vin tx !! nIn with Some i => [sighash_in code nIn nHashType nIn i] | None => [] end
        else imap (sighash_in code nIn nHashType) (vin tx))
       (if fHashNone nHashType then []
        else if fHashSingle nHashType then match vout tx !! nIn with Some o => replicate nIn (mkTxOut (-1) []) ++ [o] | None => [] end
        else vout tx)
       (tx_nVersion tx) (nType tx) (nLockTime tx) (vExtraPayload tx).

Lemma between_app (a b : CScript) : between_its (a ++ b) b = a.
Proof. unfold between_its. rewrite length_app, Nat.add_sub. apply take_app_length. Qed.

Lemma count_separators_spec fuel : forall f it l n, script_ops f it = Some l -> (length it < fuel)%nat ->
  count_separators fuel it n + size (without_separators l) = n + size it.
Proof.
  induction fuel as [|fuel IH]; intros f it l n E Hl; [lia|]. cbn [count_separators]. destruct it as [|x it].
  { destruct f; injection E as <-; cbn; unfold size; cbn [length]; lia. }
  destruct f as [|f]; [done|]. cbn [script_ops] in E. destruct (GetScriptOp (x :: it)) as [[[op v] rest]|] eqn:Eg; [|done]. cbn [mbind option_bind] in E.
  destruct (script_ops f rest) as [l'|] eqn:El; [|done]. cbn [mbind option_bind] in E. injection E as <-.
  apply GetScriptOp_inv in Eg as (pre & Epc & Hbig). rewrite app_assoc in Epc. rewrite Epc, between_app in *.
  rewrite length_app in Hl. cbn [length app] in Hl. specialize (IH f rest l' (if op =? OP_CODESEPARATOR then n + 1 else n) El ltac:(lia)).
  unfold without_separators in *. cbn [List.filter fst]. unfold size in *. rewrite length_app.
  destruct (Z.eqb_spec op OP_CODESEPARATOR) as [->|]; cbn [negb].
  - destruct Hbig as [-> ->]; [done|]. cbn [length app]. lia.
  - cbn [map concat snd]. rewrite length_app. lia.
Qed.

Lemma write_segments_spec fuel : forall f it l acc, script_ops f it = Some l -> (length it < fuel)%nat ->
  write_segments fuel (acc ++ it) it = acc ++ without_separators l.
Proof.
  induction fuel as [|fuel IH]; intros f it l acc E Hl; [lia|]. cbn [write_segments]. destruct it as [|x it].
  { destruct f; injection E as <-; cbn [GetScriptOp GetScriptOp_stop]; rewrite app_nil_r; (destruct acc as [|y acc]; [done|]); cbn [length Nat.eqb];
      unfold between_its; cbn [length]; rewrite Nat.sub_0_r, take_ge by (cbn; lia); cbn; by rewrite app_nil_r. }
  destruct f as [|f]; [done|]. cbn [script_ops] in E. destruct (GetScriptOp (x :: it)) as [[[op v] rest]|] eqn:Eg; [|done]. cbn [mbind option_bind] in E.
  destruct (script_ops f rest) as [l'|] eqn:El; [|done]. cbn [mbind option_bind] in E. injection E as <-.
  apply GetScriptOp_inv in Eg as (pre & Epc & Hbig). rewrite app_assoc in Epc. rewrite Epc, between_app in *.
  rewrite length_app in Hl. cbn [length app] in Hl. unfold without_separators. cbn [List.filter fst].
  destruct (Z.eqb_spec op OP_CODESEPARATOR) as [->|]; cbn [negb].
  - destruct Hbig as [-> ->]; [done|]. replace (length (acc ++ _) - length rest - 1)%nat with (length acc) by (rewrite !length_app; cbn [length]; lia).
    rewrite take_app_length. f_equal. apply (IH f rest l' []); [done|lia].
  - cbn [map concat snd]. rewrite app_assoc. rewrite (IH f rest l'); [by rewrite <- app_assoc|done|lia].
Qed.

Lemma SerializeScriptCode_exact scriptCode code : signed_code scriptCode = Some code -> SerializeScriptCode scriptCode = ser_bytes code.
Proof.
  unfold signed_code, SerializeScriptCode, ser_bytes. destruct (script_ops _ _) as [l|] eqn:E; [|done]. intros [= <-].
  pose proof (count_separators_spec (S (length scriptCode)) _ _ _ 0 E ltac:(lia)) as Hc. pose proof (write_segments_spec (S (length scriptCode)) _ _ _ [] E ltac:(lia)) as Hw.
  change ([] ++ scriptCode) with scriptCode in Hw. rewrite Hw. cbn [app]. f_equal. f_equal. unfold size in *. lia.
Qed.

Lemma concat_outcomes_imap {A} f (F : nat -> A -> list Z) l : forall k, (forall n x, l !! n = Some x -> f (k + n)%nat = Ret (F (k + n)%nat x)) ->
  concat_outcomes f (seq k (length l)) = Ret (concat (imap (fun n => F (k + n)%nat) l)).
Proof.
  induction l as [|x l IH]; intros k Hf; [done|]. cbn [length seq concat_outcomes]. rewrite <- (Nat.add_0_r k) at 1. rewrite (Hf 0%nat x) by done. cbn [mbind outcome_bind].
  rewrite (IH (S k)). 2:{ intros n y Hy. specialize (Hf (S n) y Hy). by rewrite <- Nat.add_succ_comm in Hf. }
  cbn [mbind outcome_bind imap concat]. do 3 f_equal. apply imap_ext. intros n y _. cbn. by rewrite Nat.add_succ_r.
Qed.


Lemma map_encode_imap {A B} `{Codec B} (g : nat -> A -> B) l : map encode (imap g l) = imap (fun n x => encode (g n x)) l.
Proof. revert g. induction l as [|x l IH]; intros g; [done|]. cbn. f_equal. apply (IH (fun n => g (S n))). Qed.

Lemma SerializeInput_exact tx scriptCode code nIn nHashType n i : signed_code scriptCode = Some code ->
  vin tx !! (if fAnyoneCanPay nHashType then nIn else n) = Some i ->
  SerializeInput tx scriptCode nIn nHashType n = Ret (encode (sighash_in code nIn nHashType (if fAnyoneCanPay nHashType then nIn else n) i)).
Proof.
  intros Hc Hi. unfold SerializeInput. rewrite Hi. cbn [deref mbind outcome_bind]. rewrite (SerializeScriptCode_exact _ _ Hc).
  set (m := if fAnyoneCanPay nHashType then nIn else n). cbn [encode txin_codec]. unfold txin_Serialize, sighash_in. cbn [prevout scriptSig nSequence].
  destruct (m =? nIn)%nat; done.
Qed.

Lemma concat_outputs_single tx nIn nHashType o : fHashSingle nHashType = true -> vout tx !! nIn = Some o ->
  concat_outcomes (SerializeOutput tx nIn nHashType) (seq 0 (nIn + 1)) = Ret (concat (map encode (replicate nIn (mkTxOut (-1) []) ++ [o]))).
Proof.
  intros Hs Ho. set (l := replicate nIn (mkTxOut (-1) []) ++ [o]).
  assert (length l = (nIn + 1)%nat) as Hl by (subst l; rewrite length_app, length_replicate; done). rewrite <- Hl.
  rewrite (concat_outcomes_imap _ (fun _ => encode)).
  - do 2 f_equal. cbn. clear. induction l as [|x l IH]; [done|]. cbn. f_equal. done.
  - intros n x Hx. cbn [Nat.add]. unfold SerializeOutput. rewrite Hs. cbn [andb]. subst l.
    destruct (Nat.lt_trichotomy n nIn) as [Hn|[->|Hn]].
    + rewrite lookup_app_l in Hx by (by rewrite length_replicate). apply lookup_replicate in Hx as [-> _]. rewrite (proj2 (Nat.eqb_neq _ _)) by lia. done.
    + rewrite Nat.eqb_refl. cbn [negb]. rewrite Ho. cbn. rewrite lookup_app_r in Hx by (by rewrite length_replicate). rewrite length_replicate, Nat.sub_diag in Hx. by injection Hx as <-.
    + apply lookup_lt_Some in Hx. lia.
Qed.

Lemma serializer_exact_lemma tx scriptCode code nIn nHashType :
  signed_code scriptCode = Some code -> (nIn < length (vin tx))%nat ->
  (fHashSingle nHashType = true -> (nIn < length (vout tx))%nat) ->
  sig_Serialize tx scriptCode nIn nHashType = Ret (tx_Serialize (sighash_tx tx code nIn nHashType)).
Proof.
  intros Hc Hn Hs. unfold sig_Serialize. destruct (lookup_lt_is_Some_2 (vin tx) nIn Hn) as [i Hi].
  assert (concat_outcomes (SerializeInput tx scriptCode nIn nHashType) (seq 0 (if fAnyoneCanPay nHashType then 1%nat else length (vin tx)))
    = Ret (concat (map encode (vin (sighash_tx tx code nIn nHashType)))) /\
    length (vin (sighash_tx tx code nIn nHashType)) = if fAnyoneCanPay nHashType then 1%nat else length (vin tx)) as [Ein Lin].
  { pose proof (SerializeInput_exact tx scriptCode code nIn nHashType) as He. cbn [vin sighash_tx]. destruct (fAnyoneCanPay nHashType) eqn:Ea.
    - rewrite Hi. cbn [seq concat_outcomes]. rewrite (He 0%nat i Hc Hi). done.
    - split; [|by rewrite length_imap]. rewrite (concat_outcomes_imap _ (fun n x => encode (sighash_in code nIn nHashType n x))); [by rewrite map_encode_imap|].
      intros n x Hx. cbn [Nat.add]. by apply He. }
  assert (concat_outcomes (SerializeOutput tx nIn nHashType) (seq 0 (if fHashNone nHashType then 0%nat else if fHashSingle nHashType then (nIn + 1)%nat else length (vout tx)))
    = Ret (concat (map encode (vout (sighash_tx tx code nIn nHashType)))) /\
    length (vout (sighash_tx tx code nIn nHashType)) = if fHashNone nHashType then 0%nat else if fHashSingle nHashType then (nIn + 1)%nat else length (vout tx)) as [Eout Lout].
  { cbn [vout sighash_tx]. destruct (fHashNone nHashType); [done|]. destruct (fHashSingle nHashType) eqn:Es.
    - destruct (lookup_lt_is_Some_2 (vout tx) nIn (Hs eq_refl)) as [o Ho]. rewrite Ho. split; [by apply concat_outputs_single|].
      rewrite length_app, length_replicate. done.
    - split; [|done]. rewrite (concat_outcomes_imap _ (fun _ => encode)).
      + do 2 f_equal. cbn. clear. induction (vout tx) as [|x l IH]; [done|]. cbn. by f_equal.
      + intros n x Hx. unfold SerializeOutput. rewrite Es. cbn [andb Nat.add]. by rewrite Hx. }
  rewrite Ein. cbn [mbind outcome_bind]. rewrite Eout. cbn [mbind outcome_bind]. unfold tx_Serialize, HasExtraPayloadField, IsSpecialTxVersion.
  rewrite <- Lin, <- Lout. cbn [encode vector_codec]. unfold ser_vector. cbn [tx_nVersion nType nLockTime vExtraPayload sighash_tx].
  by rewrite <- !app_assoc.
Qed.

(** C19: the signature serializer writes the signed transaction. For an input
    that exists, a script code that parses and, with [SIGHASH_SINGLE], an output
    of the same index, the bytes it writes in place are the serialization of the
    transaction in which the other scripts are blank, the script code stands
    without its separators, and inputs, sequences and outputs are masked as the
    hash type says. *)
Theorem signature_serializer_exact tx scriptCode code nIn nHashType :
  signed_code scriptCode = Some code -> (nIn < length (vin tx))%nat ->
  (fHashSingle nHashType = true -> (nIn < length (vout tx))%nat) ->
  sig_Serialize tx scriptCode nIn nHashType = Ret (tx_Serialize (sighash_tx tx code nIn nHashType)).
Proof. apply serializer_exact_lemma. Qed.

(** ** The checker answers *)

Lemma concat_outcomes_total f l : (forall n, n ∈ l -> exists b, f n = Ret b) -> exists b, concat_outcomes f l = Ret b.
Proof.
  induction l as [|n l IH]; intros Hf; [by exists []|]. cbn [concat_outcomes]. destruct (Hf n) as [a ->]; [set_solver|]. cbn [mbind outcome_bind].
  destruct IH as [b ->]; [set_solver|]. cbn. eauto.
Qed.

Lemma sig_Serialize_total tx scriptCode nIn nHashType : (nIn < length (vin tx))%nat ->
  (fHashSingle nHashType = true -> (nIn < length (vout tx))%nat) -> exists b, sig_Serialize tx scriptCode nIn nHashType = Ret b.
Proof.
  intros Hn Hs. unfold sig_Serialize.
  destruct (concat_outcomes_total (SerializeInput tx scriptCode nIn nHashType) (seq 0 (if fAnyoneCanPay nHashType then 1%nat else length (vin tx)))) as [ins ->].
  { intros n Hin. apply elem_of_seq in Hin. unfold SerializeInput.
    destruct (lookup_lt_is_Some_2 (vin tx) (if fAnyoneCanPay nHashType then nIn else n)) as [i ->]; [destruct (fAnyoneCanPay nHashType); lia|]. cbn. eauto. }
  destruct (concat_outcomes_total (SerializeOutput tx nIn nHashType)
    (seq 0 (if fHashNone nHashType then 0%nat else if fHashSingle nHashType then (nIn + 1)%nat else length (vout tx)))) as [outs ->].
  { intros n Hout. apply elem_of_seq in Hout. unfold SerializeOutput. destruct (fHashNone nHashType); [lia|]. destruct (fHashSingle nHashType); cbn [andb].
    - destruct (Nat.eqb_spec n nIn) as [->|]; cbn [negb]; [|eauto]. destruct (lookup_lt_is_Some_2 (vout tx) nIn (Hs eq_refl)) as [o ->]. cbn. eauto.
    - destruct (lookup_lt_is_Some_2 (vout tx) n) as [o ->]; [lia|]. cbn. eauto. }
  cbn. eauto.
Qed.

Lemma tx_checker_laws `{Crypto} tx nIn : (nIn < length (vin tx))%nat -> @SignatureCheckerLaws (tx_checker tx nIn).
Proof.
  intros Hn. destruct (lookup_lt_is_Some_2 (vin tx) nIn Hn) as [i Hi]. split.
  - intros sig key code. unfold CheckSig, tx_checker, tx_CheckSig. case_match; [eauto|]. case_match; [eauto|]. unfold SignatureHash.
    rewrite (proj2 (Nat.ltb_lt _ _)) by done. cbn [negb].
    destruct ((Z.land (back sig) 0x1f =? SIGHASH_SINGLE) && (length (vout tx) <=? nIn)%nat)%bool eqn:E; [cbn; eauto|].
    destruct (sig_Serialize_total tx code nIn (back sig) Hn) as [b ->]; [|cbn; eauto].
    unfold fHashSingle. intros Hs. rewrite Hs in E. cbn in E. apply Nat.leb_gt in E. lia.
  - intros n. unfold CheckLockTime, tx_checker, tx_CheckLockTime. repeat case_match; rewrite ?Hi; cbn; eauto.
  - intros n. unfold CheckSequence, tx_checker, tx_CheckSequence. rewrite Hi. cbn [deref mbind outcome_bind]. repeat case_match; eauto.
Qed.

(** ** What a signature of everything commits to *)

Lemma sighash_all_wf tx code nIn : tx_wf tx -> bytes_ok code -> tx_wf (sighash_tx tx code nIn SIGHASH_ALL).
Proof.
  intros [Hv Ht [Hil Hi] Ho Hl Hp] Hc. split; try done. cbn [sighash_tx vin]. change (fAnyoneCanPay SIGHASH_ALL) with false. cbv iota.
  split; [by rewrite length_imap|]. apply Forall_lookup_2. intros k x Hx. rewrite list_lookup_imap in Hx. destruct (vin tx !! k) as [i|] eqn:Ei; [|done]. injection Hx as <-.
  apply (Forall_lookup_1 _ _ _ _ Hi) in Ei as (H1 & H2 & H3). unfold sighash_in. split; [done|]. split; [|cbn [nSequence]; by rewrite andb_false_r].
  cbn [scriptSig]. destruct (k =? nIn)%nat; [done|]. split; [done|constructor].
Qed.

Lemma imap_map_eq {A B C} (g1 g2 : nat -> A -> B) (p : B -> C) (q : A -> C) (l1 l2 : list A) :
  (forall n x, p (g1 n x) = q x) -> (forall n x, p (g2 n x) = q x) -> imap g1 l1 = imap g2 l2 -> map q l1 = map q l2.
Proof.
  intros H1 H2 E. apply list_eq. intros k. rewrite !list_lookup_fmap. assert (imap g1 l1 !! k = imap g2 l2 !! k) as Ek by (by rewrite E).
  rewrite !list_lookup_imap in Ek. destruct (l1 !! k) as [x|], (l2 !! k) as [y|]; cbn in *; try done.
  injection Ek as Ek. by rewrite <- (H1 k), <- (H2 k), Ek.
Qed.

(** C20: a signature of everything commits to the transaction. Take two
    transactions that can be serialized, in particular with a version that is
    not negative, and an input of each with a script code in which every
    operation can be read. If the inputs, signed with [SIGHASH_ALL], give the
    same bytes to hash, the transactions have the same outpoints, sequences,
    outputs, version, type, lock time and payload, and the script codes are the
    same once their [OP_CODESEPARATOR]s are taken out; and the inputs have the
    same position unless nothing is left of the codes. The signature scripts of
    the transactions and the separators are not committed to. *)
Theorem SIGHASH_ALL_commits tx1 tx2 sc1 sc2 code1 code2 n1 n2 :
  tx_wf tx1 -> tx_wf tx2 -> signed_code sc1 = Some code1 -> signed_code sc2 = Some code2 -> bytes_ok code1 -> bytes_ok code2 ->
  (n1 < length (vin tx1))%nat -> (n2 < length (vin tx2))%nat ->
  sig_Serialize tx1 sc1 n1 SIGHASH_ALL = sig_Serialize tx2 sc2 n2 SIGHASH_ALL ->
  map prevout (vin tx1) = map prevout (vin tx2) /\ map nSequence (vin tx1) = map nSequence (vin tx2) /\
  vout tx1 = vout tx2 /\ tx_nVersion tx1 = tx_nVersion tx2 /\ nType tx1 = nType tx2 /\ nLockTime tx1 = nLockTime tx2 /\
  vExtraPayload tx1 = vExtraPayload tx2 /\ code1 = code2 /\ (code1 <> [] -> n1 = n2).
Proof.
  intros W1 W2 C1 C2 B1 B2 L1 L2 E.
  assert (forall tx sc code n, signed_code sc = Some code -> (n < length (vin tx))%nat ->
    sig_Serialize tx sc n SIGHASH_ALL = Ret (tx_Serialize (sighash_tx tx code n SIGHASH_ALL))) as Hx by (intros; by apply serializer_exact_lemma).
  rewrite (Hx _ _ _ _ C1 L1), (Hx _ _ _ _ C2 L2) in E.
  apply (f_equal (fun o => match o with Ret b => b | _ => [] end)) in E. cbv beta iota in E.
  pose proof (tx_roundtrip_lemma _ [] (sighash_all_wf tx1 code1 n1 W1 B1)) as R1. pose proof (tx_roundtrip_lemma _ [] (sighash_all_wf tx2 code2 n2 W2 B2)) as R2.
  rewrite E, R2 in R1. injection R1 as Evin Evout Ev Et El Ep.
  change (imap (sighash_in code2 n2 SIGHASH_ALL) (vin tx2) = imap (sighash_in code1 n1 SIGHASH_ALL) (vin tx1)) in Evin. change (vout tx2 = vout tx1) in Evout.
  split; [symmetry; eapply (imap_map_eq _ _ prevout prevout); [..|exact Evin]; done|].
  split; [symmetry; eapply (imap_map_eq _ _ nSequence nSequence); [..|exact Evin]; intros; cbn [nSequence sighash_in]; by rewrite andb_false_r|].
  do 5 (split; [done|]).
  assert (forall n, imap (sighash_in code2 n2 SIGHASH_ALL) (vin tx2) !! n = imap (sighash_in code1 n1 SIGHASH_ALL) (vin tx1) !! n) as Hn by (by rewrite Evin).
  pose proof (Hn n1) as H1. pose proof (Hn n2) as H2. rewrite !list_lookup_imap in H1, H2.
  destruct (lookup_lt_is_Some_2 (vin tx1) n1 L1) as [i Hi]. destruct (lookup_lt_is_Some_2 (vin tx2) n2 L2) as [j Hj]. rewrite Hi in H1. rewrite Hj in H2.
  destruct (vin tx2 !! n1) as [i'|]; [|done]. destruct (vin tx1 !! n2) as [j'|]; [|done]. cbn in H1, H2.
  injection H1 as _ H1 _. injection H2 as _ H2 _. rewrite Nat.eqb_refl in H1, H2. rewrite (Nat.eqb_sym n2) in H2.
  destruct (Nat.eqb_spec n1 n2) as [->|]; [done|]. by subst code1 code2.
Qed.

(** ** The lock-time opcodes against the rules of the chain *)

Lemma land_pow2 x k : 0 <= k -> Z.land x (2^k) = if Z.testbit x k then 2^k else 0.
Proof.
  intros Hk. apply Z.bits_inj'. intros n Hn. rewrite Z.land_spec, Z.pow2_bits_eqb by done.
  destruct (Z.eqb_spec k n) as [->|]; [|rewrite andb_false_r; destruct (Z.testbit x k); rewrite ?Z.pow2_bits_eqb, ?Z.bits_0 by done; symmetry; by try apply Z.eqb_neq].
  destruct (Z.testbit x n) eqn:E; cbn; by rewrite ?Z.pow2_bits_eqb, ?Z.eqb_refl, ?Z.bits_0.
Qed.

(** The masked comparison compares the kinds and then the values *)
Lemma lock_mask_split x :
  Z.land x (Z.lor SEQUENCE_LOCKTIME_TYPE_FLAG SEQUENCE_LOCKTIME_MASK) = Z.land x SEQUENCE_LOCKTIME_TYPE_FLAG + Z.land x SEQUENCE_LOCKTIME_MASK /\
  (Z.land x SEQUENCE_LOCKTIME_TYPE_FLAG = 0 \/ Z.land x SEQUENCE_LOCKTIME_TYPE_FLAG = SEQUENCE_LOCKTIME_TYPE_FLAG) /\
  0 <= Z.land x SEQUENCE_LOCKTIME_MASK < SEQUENCE_LOCKTIME_TYPE_FLAG.
Proof.
  assert (Hd : Z.land (Z.land x SEQUENCE_LOCKTIME_TYPE_FLAG) (Z.land x SEQUENCE_LOCKTIME_MASK) = 0).
  { rewrite (Z.land_comm x SEQUENCE_LOCKTIME_TYPE_FLAG), <- Z.land_assoc, (Z.land_assoc x x), Z.land_diag, (Z.land_comm x), Z.land_assoc. done. }
  split; [rewrite Z.land_lor_distr_r, Z.add_nocarry_lxor, Z.lxor_lor by done; done|]. split.
  - change SEQUENCE_LOCKTIME_TYPE_FLAG with (2^22). rewrite land_pow2 by lia. destruct (Z.testbit x 22); lia.
  - change SEQUENCE_LOCKTIME_MASK with (Z.ones 16). rewrite Z.land_ones by lia. change SEQUENCE_LOCKTIME_TYPE_FLAG with 4194304. pose proof (Z.mod_pos_bound x (2^16)). lia.
Qed.

(** The lock-time opcodes mean what the chain enforces. A transaction for
    which [CheckLockTime] accepts [n] is final only in a block above height [n],
    or after time [n]; one for which [CheckSequence] accepts [n] passes
    [SequenceLocks] only when the coin it spends is as many blocks deep, or as
    many units of 512 seconds old, as [n] says. *)
Theorem lock_opcodes_enforced tx nIn n :
  (tx_CheckLockTime tx nIn n = Ret true ->
   forall nBlockHeight nBlockTime, 0 < nBlockHeight -> IsFinalTx tx nBlockHeight nBlockTime = true ->
     n < if n <? LOCKTIME_THRESHOLD then nBlockHeight else nBlockTime) /\
  (tx_CheckSequence tx nIn n = Ret true ->
   forall bi flags heights block p b h, tree_wf bi -> bi !! block = Some b -> pprev b = Some p -> 0 <= GetMedianTimePast bi p ->
     length heights = length (vin tx) -> Forall (fun h => 0 <= h <= nHeight b) heights ->
     Z.land flags LOCKTIME_VERIFY_SEQUENCE <> 0 -> heights !! nIn = Some h ->
     SequenceLocks bi tx flags heights block = Ret true ->
     let v := Z.land n SEQUENCE_LOCKTIME_MASK in
     if Z.land n SEQUENCE_LOCKTIME_TYPE_FLAG =? 0 then h + v <= nHeight b
     else exists a, GetAncestor bi block (Z.max (h - 1) 0) = Ret (Some a) /\ GetMedianTimePast bi a + v * 512 <= GetMedianTimePast bi p).
Proof.
  split.
  - unfold tx_CheckLockTime, IsFinalTx. intros Hc nh nt Hh. destruct (_ || _)%bool eqn:Ek; [|done]. cbn [negb] in Hc. destruct (Z.gtb_spec n (nLockTime tx)); [done|].
    destruct (vin tx !! nIn) as [i|] eqn:Ei; [|done]. cbn [deref mbind outcome_bind] in Hc. destruct (Z.eqb_spec SEQUENCE_FINAL (nSequence i)) as [|Hs]; [done|].
    assert ((nLockTime tx <? LOCKTIME_THRESHOLD) = (n <? LOCKTIME_THRESHOLD)) as ->.
    { rewrite !Z.geb_leb, !Z.leb_antisym in Ek. by destruct (nLockTime tx <? _), (n <? _). }
    destruct (Z.eqb_spec (nLockTime tx) 0) as [E0|].
    + intros _. rewrite (proj2 (Z.ltb_lt _ _)) by (change LOCKTIME_THRESHOLD with 500000000; lia). lia.
    + destruct (Z.ltb_spec (nLockTime tx) (if n <? LOCKTIME_THRESHOLD then nh else nt)); [intros _; lia|].
      intros Hf. rewrite forallb_forall in Hf. specialize (Hf i). apply list_elem_of_lookup_2, list_elem_of_In, Hf, Z.eqb_eq in Ei. lia.
  - intros Hc bi flags heights block p b h Hwf Hb Hp Hm Hl Hh Hfl Hn Hs v. unfold tx_CheckSequence in Hc.
    destruct (vin tx !! nIn) as [i|] eqn:Ei; [|done]. cbn [deref mbind outcome_bind] in Hc. cbv zeta in Hc.
    destruct (Z.ltb_spec (u32 (tx_nVersion tx)) 2); [done|]. destruct (Z.eqb_spec (Z.land (nSequence i) SEQUENCE_LOCKTIME_DISABLE_FLAG) 0) as [Ed|]; [|done]. cbn [negb] in Hc.
    destruct (SequenceLocks_per_input bi tx flags heights block p b Hwf Hb Hp Hm Hl Hh) as (r & Hr & Hi). rewrite Hs in Hr. injection Hr as <-.
    destruct (proj1 Hi eq_refl) as [[|]|HF]; [lia|done|]. pose proof (Forall2_lookup_lr _ _ _ _ _ _ HF Ei Hn) as [|Hu]; [done|]. cbv zeta in Hu.
    destruct (lock_mask_split n) as (En & Tn & Rn), (lock_mask_split (nSequence i)) as (Es & Ts & Rs). rewrite En, Es in Hc.
    destruct (_ || _)%bool eqn:Ek; [|done]. cbn [negb] in Hc. fold v in Rn, Hc, Ek.
    match type of Hc with Ret (negb (?x >? ?y)) = _ => destruct (Z.gtb_spec x y) as [|Hle]; [done|] end. clear Hc.
    assert (Z.land n SEQUENCE_LOCKTIME_TYPE_FLAG = Z.land (nSequence i) SEQUENCE_LOCKTIME_TYPE_FLAG) as -> by (change SEQUENCE_LOCKTIME_TYPE_FLAG with 4194304 in *; lia).
    destruct (Z.land (nSequence i) SEQUENCE_LOCKTIME_TYPE_FLAG =? 0); cbn [negb] in Hu; [lia|]. destruct Hu as (a & Ha & Hv). exists a. split; [done|lia].
Qed.

(** ** Witnesses *)

Definition sighash_demo_tx (sig lock : Z) : CTransaction :=
  mkTx [mkTxIn (mkOutPoint (replicate 32 7) 1) [1; 2] 0xffffffff; mkTxIn (mkOutPoint (replicate 32 8) 0) [sig] 5]
       [mkTxOut 5000 [0x51]; mkTxOut 7 []] 2 0 lock [].
Definition sighash_demo_code : CScript := [OP_1; OP_CODESEPARATOR; 2; 9; 9; OP_DROP].

Lemma sighash_demo_wf sig : is_byte sig -> tx_wf (sighash_demo_tx sig 40).
Proof.
  intros Hsig.
  assert (Hb : forall l, Forall is_byte l -> (length l <= 100)%nat -> bytes_ok l)
    by (intros l Hl Hn; split; [unfold MAX_SIZE; lia|exact Hl]).
  assert (Hr : forall n, is_byte n -> Forall is_byte (replicate 32 n)) by (intros n Hn; by apply Forall_replicate).
  split; cbn -[encodable].
  - lia.
  - unfold is_u16. lia.
  - split; [unfold MAX_SIZE; simpl; lia|].
    repeat (apply Forall_cons_2; [split; [split; [split; [reflexivity|apply Hr; unfold is_byte; lia]|unfold is_u32; simpl; lia]|
      split; [apply Hb; [repeat (apply Forall_cons_2; [done || (unfold is_byte; lia)|]); apply Forall_nil_2|simpl; lia]|unfold is_u32; simpl; lia]]|]). apply Forall_nil_2.
  - split; [unfold MAX_SIZE; simpl; lia|]. repeat constructor; unfold MAX_SIZE; simpl; lia.
  - unfold is_u32. lia.
  - reflexivity.
Qed.

Lemma signature_serializer_exact_witness :
  sig_Serialize (sighash_demo_tx 3 40) sighash_demo_code 1 SIGHASH_SINGLE
  = Ret (tx_Serialize (mkTx
      [mkTxIn (mkOutPoint (replicate 32 7) 1) [] 0; mkTxIn (mkOutPoint (replicate 32 8) 0) [OP_1; 2; 9; 9; OP_DROP] 5]
      [mkTxOut (-1) []; mkTxOut 7 []] 2 0 40 [])).
Proof.
  refine (signature_serializer_exact (sighash_demo_tx 3 40) sighash_demo_code [OP_1; 2; 9; 9; OP_DROP] 1 SIGHASH_SINGLE _ _ _);
    [vm_compute; reflexivity|cbn; lia|intros _; cbn; lia].
Defined.

(** The scripts of the inputs and the separators are not signed. *)
Lemma SIGHASH_ALL_commits_witness :
  vout (sighash_demo_tx 3 40) = vout (sighash_demo_tx 4 40) /\
  sig_Serialize (sighash_demo_tx 3 40) sighash_demo_code 1 SIGHASH_ALL
  = sig_Serialize (sighash_demo_tx 4 40) [OP_1; 2; 9; 9; OP_DROP] 1 SIGHASH_ALL.
Proof.
  assert (E : sig_Serialize (sighash_demo_tx 3 40) sighash_demo_code 1 SIGHASH_ALL
    = sig_Serialize (sighash_demo_tx 4 40) [OP_1; 2; 9; 9; OP_DROP] 1 SIGHASH_ALL) by (vm_compute; reflexivity).
  assert (Hb : bytes_ok [OP_1; 2; 9; 9; OP_DROP]).
  { split; [unfold MAX_SIZE; simpl; lia|]. repeat (apply Forall_cons_2; [vm_compute; split; congruence|]). apply Forall_nil_2. }
  destruct (SIGHASH_ALL_commits (sighash_demo_tx 3 40) (sighash_demo_tx 4 40) sighash_demo_code [OP_1; 2; 9; 9; OP_DROP]
      [OP_1; 2; 9; 9; OP_DROP] [OP_1; 2; 9; 9; OP_DROP] 1 1) as (_ & _ & H & _); try exact Hb; try exact E.
  - apply sighash_demo_wf. unfold is_byte; lia.
  - apply sighash_demo_wf. unfold is_byte; lia.
  - vm_compute. reflexivity.
  - vm_compute. reflexivity.
  - simpl. lia.
  - simpl. lia.
  - split; [exact H|exact E].
Defined.

Lemma lock_opcodes_enforced_witness :
  tx_CheckLockTime (sighash_demo_tx 3 40) 1 30 = Ret true /\ tx_CheckSequence (sighash_demo_tx 3 40) 1 3 = Ret true /\
  IsFinalTx (sighash_demo_tx 3 40) 41 0 = true /\ 30 < 41.
Proof.
  split; [reflexivity|]. split; [reflexivity|]. split; [reflexivity|].
  exact (proj1 (lock_opcodes_enforced (sighash_demo_tx 3 40) 1 30) eq_refl 41 0 eq_refl eq_refl).
Defined.
