(* ===== verification/Pow.v ===== *)
(** * Pow: difficulty and proof of work (src/src/pow.cpp)

    [Lwma3CalculateNextWorkRequired] computes the next target from the
    weighted solve times and the targets of the last 36 blocks in 256-bit
    arithmetic.  Its value is given for every chain: the sum does not overflow
    and the product is reduced modulo 2^256.  With the parameters of the main
    network the product does overflow after slow proof-of-work blocks, and the
    target is still that of the formula on unbounded integers. *)

From Stdlib Require Import ZArith Lia.
From stdpp Require Import base list numbers option gmap.
From S2P Require Import Prelude Arith256 Uint256 Compact Chain Params.

(** ** Definitions *)

Definition lwma_N : Z := 36.
Definition lwma_k (T : Z) : Z := lwma_N * (lwma_N + 1) * T / 2.

(** The variables of the loop *)
Record lwma_state : Type := mkLwma {
  sumTarget : list Z;
  lw_t : Z;
  lw_j : Z;
  previousTimestamp : Z;
}.

(** The body of the loop on the block at height [i] *)
Definition lwma_body (T : Z) (block : CBlockIndex) (s : lwma_state) : outcome lwma_state :=
  let thisTimestamp := if GetBlockTime block >? previousTimestamp s
                       then GetBlockTime block else previousTimestamp s + 1 in
  let solvetime := Z.min (6 * T) (thisTimestamp - previousTimestamp s) in
  let j := lw_j s + 1 in
  let t := lw_t s + solvetime * j in
  let '(target, _, _) := SetCompact (nBits block) in
  q ← deref (bu_div target (bu_of_u64 (u64 (lwma_k T * lwma_N))));
  Ret (mkLwma (bu_add (sumTarget s) q) t j thisTimestamp).

(** [n] iterations from height [i] up *)
Fixpoint lwma_loop (n : nat) (bi : gmap uint256 CBlockIndex) (pindexLast : uint256) (T i : Z) (s : lwma_state)
    : outcome lwma_state :=
  match n with
  | O => Ret s
  | S n =>
      p ← GetAncestor bi pindexLast i;
      block ← deref (p ≫= (bi !!.));
      s ← lwma_body T block s;
      lwma_loop n bi pindexLast T (i + 1) s
  end.

(** [Lwma3CalculateNextWorkRequired] *)
Definition Lwma3CalculateNextWorkRequired (bi : gmap uint256 CBlockIndex) (pindexLast : uint256)
    (params : ConsensusParams) : outcome Z :=
  let T := posTargetSpacing params in
  last ← deref (bi !! pindexLast);
  let height := nHeight last in
  let posLimit := UintToArith256 (posLimit params) in
  if height <? lwma_N then deref (GetCompact posLimit false)
  else
    p ← GetAncestor bi pindexLast (height - lwma_N);
    blockPreviousTimestamp ← deref (p ≫= (bi !!.));
    s ← lwma_loop (Z.to_nat lwma_N) bi pindexLast T (height - lwma_N + 1)
          (mkLwma bu_zero 0 0 (GetBlockTime blockPreviousTimestamp));
    let nextTarget := bu_mul (bu_of_u64 (u64 (lw_t s))) (sumTarget s) in
    let nextTarget := if bu_gt nextTarget posLimit then posLimit else nextTarget in
    deref (GetCompact nextTarget false).

(** [GetNextWorkRequired] *)
Definition GetNextWorkRequired (bi : gmap uint256 CBlockIndex) (pindexLast : option uint256)
    (params : ConsensusParams) : outcome Z :=
  p ← deref pindexLast;
  last ← deref (bi !! p);
  if nHeight last + 1 <=? lastPowBlock params then deref (GetCompact (UintToArith256 (powLimit params)) false)
  else Lwma3CalculateNextWorkRequired bi p params.

(** [CheckProofOfWork] *)
Definition CheckProofOfWork (hash : uint256) (nBits : Z) (params : ConsensusParams) : bool :=
  let '(bnTarget, fNegative, fOverflow) := SetCompact nBits in
  if (fNegative || bu_EqualTo bnTarget 0 || fOverflow || bu_gt bnTarget (UintToArith256 (powLimit params)))%bool
  then false
  else if bu_gt (UintToArith256 hash) bnTarget then false
  else true.

(** ** The formula on unbounded integers *)

(** Solve times, clamped to [1, 6T], of blocks after [prev]. *)
Fixpoint solvetimes (T prev : Z) (times : list Z) : list Z :=
  match times with
  | [] => []
  | x :: r => let this := if x >? prev then x else prev + 1 in
              Z.min (6 * T) (this - prev) :: solvetimes T this r
  end.

(** [s_1 * (j+1) + s_2 * (j+2) + ...] *)
Fixpoint weighted_sum (j : Z) (l : list Z) : Z :=
  match l with [] => 0 | s :: r => s * (j + 1) + weighted_sum (j + 1) r end.

(** The two factors of the next target *)
Definition lwma_weight (T prev : Z) (times : list Z) : Z := weighted_sum 0 (solvetimes T prev times).
Definition lwma_sum (T : Z) (targets : list Z) : Z := sum_of (fun x => x / (lwma_k T * lwma_N)) targets.

Definition lwma_target (T limit prev : Z) (times targets : list Z) : Z :=
  Z.min limit (lwma_weight T prev times * lwma_sum T targets).

(** The block at height [i] on the way down from [h], and [n] of them. *)
Definition block_at (bi : gmap uint256 CBlockIndex) (h : uint256) (b : CBlockIndex) (i : Z) : option CBlockIndex :=
  walk bi (Z.to_nat (nHeight b - i)) h ≫= (bi !!.).

Fixpoint window (n : nat) (bi : gmap uint256 CBlockIndex) (h : uint256) (b : CBlockIndex) (i : Z) : list CBlockIndex :=
  match n with
  | O => []
  | S n => match block_at bi h b i with Some x => x :: window n bi h b (i + 1) | None => [] end
  end.

(** The 36 blocks that end with [b], the time of the block before them, and
    the number that [SetCompact] reads from the bits of a block *)
Definition last_blocks (bi : gmap uint256 CBlockIndex) (h : uint256) (b : CBlockIndex) : list CBlockIndex :=
  window 36 bi h b (nHeight b - lwma_N + 1).
Definition time_before (bi : gmap uint256 CBlockIndex) (h : uint256) (b : CBlockIndex) : Z :=
  from_option nTime 0 (block_at bi h b (nHeight b - lwma_N)).
Definition target_of (b : CBlockIndex) : Z := cw_num (nBits b) mod 2^256.

Definition bits_u32 (bi : gmap uint256 CBlockIndex) : Prop := forall x y, bi !! x = Some y -> is_u32 (nBits y).

(** Every block but a root has the bits that were required of it. *)
Definition retargeted (bi : gmap uint256 CBlockIndex) (params : ConsensusParams) : Prop :=
  forall h b p, bi !! h = Some b -> pprev b = Some p -> GetNextWorkRequired bi (Some p) params = Ret (nBits b).

(** ** Lemmas *)

Lemma lwma_kN T : lwma_k T * lwma_N = 23976 * T.
Proof.
  unfold lwma_k, lwma_N. replace (36 * (36 + 1) * T) with (666 * T * 2) by lia.
  rewrite Z.div_mul by lia. lia.
Qed.

Lemma target_of_range b : 0 <= target_of b < 2^256.
Proof. apply Z.mod_pos_bound. lia. Qed.

Lemma lwma_body_spec T b s : 0 < T -> 23976 * T < 2^64 -> is_u32 (nBits b) ->
  bu_wf (sumTarget s) -> val (sumTarget s) + target_of b / (23976 * T) < 2^256 ->
  let this := if nTime b >? previousTimestamp s then nTime b else previousTimestamp s + 1 in
  exists sum, lwma_body T b s
    = Ret (mkLwma sum (lw_t s + Z.min (6 * T) (this - previousTimestamp s) * (lw_j s + 1)) (lw_j s + 1) this) /\
    bu_wf sum /\ val sum = val (sumTarget s) + target_of b / (23976 * T).
Proof.
  intros HT Hk Hb Hw Hsum. unfold lwma_body, GetBlockTime.
  destruct (SetCompact_spec _ Hb) as (t & -> & Ht & Htv). fold (target_of b) in Htv.
  rewrite lwma_kN, u64_id by (unfold is_u64; lia).
  destruct (bu_div_spec t (bu_of_u64 (23976 * T)) Ht (bu_of_u64_wf _)) as (q & -> & Hqw & Hqv);
    [rewrite val_of_u64 by (unfold is_u64; lia); lia|].
  rewrite val_of_u64, Htv in Hqv by (unfold is_u64; lia).
  cbn [deref mbind outcome_bind]. eexists. split; [reflexivity|].
  destruct (bu_add_spec (sumTarget s) q Hw Hqw) as [Haw Hav]. split; [done|].
  rewrite Hav, Hqv. apply Z.mod_small. pose proof (val_bound_256 _ Hw). pose proof (target_of_range b).
  pose proof (Z.div_pos (target_of b) (23976 * T)). lia.
Qed.

Lemma sum_div_nonneg m l : 0 < m -> Forall (fun x => 0 <= x) l -> 0 <= sum_of (fun x => x / m) l.
Proof. intros Hm Hl. apply sum_of_nonneg. eapply Forall_impl; [exact Hl|]. intros x Hx. by apply Z.div_pos. Qed.

Lemma targets_nonneg l : Forall (fun x => 0 <= x) (target_of <$> l).
Proof. apply Forall_fmap, Forall_true. intros b. apply (target_of_range b). Qed.

Lemma block_at_total bi (Hwf : tree_wf bi) h b i : bi !! h = Some b -> 0 <= i <= nHeight b ->
  exists q qb, walk bi (Z.to_nat (nHeight b - i)) h = Some q /\ bi !! q = Some qb /\ nHeight qb = i /\
    block_at bi h b i = Some qb.
Proof.
  intros Hb Hi. destruct (walk_total bi Hwf (Z.to_nat (nHeight b - i)) h b Hb) as (q & qb & Hq & Hqb & Hqh); [lia|].
  exists q, qb. unfold block_at. rewrite Hq. split_and!; [done|done|lia|done].
Qed.

Lemma lwma_loop_spec bi (Hwf : tree_wf bi) (Hbits : bits_u32 bi) T h b : 0 < T -> 23976 * T < 2^64 ->
  bi !! h = Some b -> forall n i s, 0 <= i -> i + Z.of_nat n = nHeight b + 1 -> bu_wf (sumTarget s) ->
  let targets := target_of <$> window n bi h b i in
  val (sumTarget s) + sum_of (fun x => x / (23976 * T)) targets < 2^256 ->
  exists sum j prev, lwma_loop n bi h T i s
    = Ret (mkLwma sum (lw_t s + weighted_sum (lw_j s)
             (solvetimes T (previousTimestamp s) (nTime <$> window n bi h b i))) j prev) /\
    bu_wf sum /\ val sum = val (sumTarget s) + sum_of (fun x => x / (23976 * T)) targets.
Proof.
  intros HT Hk Hb. induction n as [|n IH]; intros i s Hi Hn Hw targets Hsum; subst targets.
  { simpl. exists (sumTarget s), (lw_j s), (previousTimestamp s).
    split_and!; [|done|unfold sum_of; simpl; lia]. destruct s; simpl. do 2 f_equal; lia. }
  destruct (block_at_total bi Hwf h b i Hb) as (q & qb & Hq & Hqb & _ & Hat); [lia|].
  cbn [lwma_loop window] in *. rewrite Hat in Hsum |- *. cbn [fmap list_fmap] in *. rewrite sum_of_cons in *.
  rewrite (GetAncestor_walk bi Hwf h b) by done.
  rewrite !(proj2 (Z.leb_le _ _)) by lia. cbn [andb mbind outcome_bind]. rewrite Hq.
  cbn [option_bind]. replace ((Some q) ≫= (bi !!.)) with (Some qb) by (symmetry; exact Hqb).
  cbn [deref mbind outcome_bind].
  pose proof (sum_div_nonneg (23976 * T) _ ltac:(lia) (targets_nonneg (window n bi h b (i + 1)))).
  destruct (lwma_body_spec T qb s HT Hk (Hbits _ _ Hqb) Hw) as (sum & -> & Hsw & Hsv); [lia|].
  cbn [mbind outcome_bind].
  match goal with |- context [lwma_loop n bi h T (i + 1) ?s1] => set (s' := s1) end.
  destruct (IH (i + 1) s') as (sum' & j' & prev' & E & Hsw' & Hsv');
    [lia|lia|exact Hsw|subst s'; cbn [sumTarget]; lia|].
  rewrite E. subst s'. exists sum', j', prev'. split_and!; [|done|].
  - do 2 f_equal. simpl. rewrite <- Z.add_assoc. reflexivity.
  - rewrite Hsv'. cbn [sumTarget]. rewrite Hsv. lia.
Qed.

Lemma weighted_sum_bounds lo hi l : Forall (fun s => lo <= s <= hi) l -> 0 <= lo -> forall j, 0 <= j ->
  let n := Z.of_nat (length l) in
  lo * (n * j + n * (n + 1) / 2) <= weighted_sum j l <= hi * (n * j + n * (n + 1) / 2).
Proof.
  intros Hl Hlo. induction Hl as [|s l [Hs1 Hs2] Hl IH]; intros j Hj n.
  { change n with 0. rewrite !Z.mul_0_l. change (0 + 0 / 2) with 0. simpl. lia. }
  cbn [weighted_sum]. specialize (IH (j + 1) ltac:(lia)). cbv zeta in IH.
  assert (E : n * j + n * (n + 1) / 2
              = (j + 1) + (Z.of_nat (length l) * (j + 1) + Z.of_nat (length l) * (Z.of_nat (length l) + 1) / 2)).
  { subst n. cbn [length]. rewrite Nat2Z.inj_succ. set (m := Z.of_nat (length l)).
    replace (Z.succ m * (Z.succ m + 1)) with (m * (m + 1) + (m + 1) * 2) by lia.
    rewrite Z.div_add by lia. lia. }
  rewrite E. nia.
Qed.

Lemma solvetimes_range T l : 0 < T -> forall prev, Forall (fun s => 1 <= s <= 6 * T) (solvetimes T prev l).
Proof.
  intros HT. induction l as [|x l IH]; intros prev; [constructor|]. simpl. constructor; [|apply IH].
  rewrite Z.gtb_ltb. destruct (Z.ltb_spec prev x); lia.
Qed.

Lemma solvetimes_length T l : forall prev, length (solvetimes T prev l) = length l.
Proof. induction l; intros; simpl; auto. Qed.

(** The weighted sum over a full window lies in [666, 6 * 666 * T]. *)
Lemma lwma_t_bounds T prev times : 0 < T -> length times = 36%nat ->
  666 <= weighted_sum 0 (solvetimes T prev times) <= 3996 * T.
Proof.
  intros HT Hl.
  pose proof (weighted_sum_bounds 1 (6 * T) _ (solvetimes_range T times HT prev) ltac:(lia) 0 ltac:(lia)) as H.
  rewrite solvetimes_length, Hl in H. change (Z.of_nat 36) with 36 in H. cbv zeta in H.
  change (36 * 0 + 36 * (36 + 1) / 2) with 666 in H. lia.
Qed.

Lemma sum_div_le m (l : list Z) : 0 < m -> m * sum_of (fun x => x / m) l <= sum_of (fun x => x) l.
Proof.
  intros Hm. induction l as [|x l IH]; unfold sum_of in *; simpl; [lia|].
  pose proof (Z.mul_div_le x m Hm). lia.
Qed.

Lemma sum_le_const limit (l : list Z) : Forall (fun x => x <= limit) l ->
  sum_of (fun x => x) l <= Z.of_nat (length l) * limit.
Proof. induction 1; unfold sum_of in *; cbn [foldr length]; lia. Qed.

Lemma window_length bi (Hwf : tree_wf bi) h b : bi !! h = Some b -> forall n i, 0 <= i ->
  i + Z.of_nat n = nHeight b + 1 -> length (window n bi h b i) = n.
Proof.
  intros Hb. induction n as [|n IH]; intros i Hi Hn; [done|]. cbn [window]. unfold block_at.
  destruct (walk_total bi Hwf (Z.to_nat (nHeight b - i)) h b Hb) as (q & qb & Hq & Hqb & _); [lia|].
  rewrite Hq. cbn [mbind option_bind]. rewrite Hqb. simpl. f_equal. apply IH; lia.
Qed.

Lemma last_blocks_length bi (Hwf : tree_wf bi) h b : bi !! h = Some b -> lwma_N <= nHeight b ->
  length (last_blocks bi h b) = 36%nat.
Proof. intros Hb HN. apply (window_length bi Hwf h b Hb); unfold lwma_N in *; simpl; lia. Qed.

(** The sum of the divided targets leaves room in 256 bits; the product needs
    an average target of a sixth of them. *)
Lemma lwma_sum_bounds T l : 0 < T ->
  0 <= lwma_sum T (target_of <$> l) /\ 23976 * T * lwma_sum T (target_of <$> l) <= sum_of (fun x => x) (target_of <$> l) /\
  sum_of (fun x => x) (target_of <$> l) <= Z.of_nat (length l) * 2^256.
Proof.
  intros HT. unfold lwma_sum. rewrite lwma_kN. split_and!; [apply sum_div_nonneg; [lia|apply targets_nonneg]|apply sum_div_le; lia|].
  etrans; [apply (sum_le_const (2^256))|by rewrite length_fmap].
  apply Forall_fmap, Forall_true. intros b. apply Z.lt_le_incl, (target_of_range b).
Qed.

(** What the machine computes, on any chain *)
Lemma Lwma3_spec bi h b params : tree_wf bi -> bits_u32 bi -> bi !! h = Some b -> lwma_N <= nHeight b ->
  0 < posTargetSpacing params -> 23976 * posTargetSpacing params < 2^64 -> blob_wf (posLimit params) ->
  let T := posTargetSpacing params in
  let ws := last_blocks bi h b in
  exists w c, Lwma3CalculateNextWorkRequired bi h params = Ret c /\ GetCompact w false = Some c /\ bu_wf w /\
    val w = Z.min (le_val (posLimit params))
      ((lwma_weight T (time_before bi h b) (nTime <$> ws) * lwma_sum T (target_of <$> ws)) mod 2^256).
Proof.
  intros Hwf Hbits Hb HN HT HTk Hpl T ws. unfold Lwma3CalculateNextWorkRequired. outcome_step.
  rewrite (proj2 (Z.ltb_ge _ _)) by done. unfold time_before. unfold lwma_N in *.
  destruct (block_at_total bi Hwf h b (nHeight b - 36) Hb) as (q & qb & Hq & Hqb & _ & Hat); [lia|].
  rewrite Hat. rewrite (GetAncestor_walk bi Hwf h b) by done.
  rewrite !(proj2 (Z.leb_le _ _)) by lia. cbn [andb mbind outcome_bind]. rewrite Hq. cbn [option_bind].
  replace ((Some q) ≫= (bi !!.)) with (Some qb) by (symmetry; exact Hqb).
  cbn [deref mbind outcome_bind from_option]. change (Z.to_nat 36) with 36%nat.
  assert (Hws : length ws = 36%nat) by (by apply last_blocks_length).
  destruct (lwma_sum_bounds T ws HT) as (HS0 & HS1 & HS2). rewrite Hws in HS2. unfold lwma_sum in *. rewrite lwma_kN in *.
  fold T. set (S := sum_of (fun x => x / (23976 * T)) (target_of <$> ws)) in *.
  destruct (lwma_loop_spec bi Hwf Hbits T h b HT HTk Hb 36 (nHeight b - 36 + 1)
    (mkLwma bu_zero 0 0 (GetBlockTime qb))) as (sum & j & prev & -> & Hsw & Hsv);
    [lia|lia|auto with word|cbn [sumTarget]; rewrite val_zero; change (0 + S < 2^256); nia|].
  cbn [deref mbind outcome_bind lw_t sumTarget lw_j previousTimestamp] in *.
  change (val sum = val bu_zero + S) in Hsv. rewrite val_zero, Z.add_0_l in Hsv. rewrite Z.add_0_l.
  change (window 36 bi h b (nHeight b - 36 + 1)) with ws. unfold GetBlockTime.
  fold (lwma_weight T (nTime qb) (nTime <$> ws)). set (t := lwma_weight T _ _).
  assert (Ht : 666 <= t <= 3996 * T) by (apply lwma_t_bounds; [done|rewrite length_fmap; done]).
  destruct (UintToArith256_spec _ Hpl) as [Hplw Hplv]. set (lim := le_val (posLimit params)) in *.
  rewrite u64_id in * by (unfold is_u64; lia).
  destruct (bu_mul_spec (bu_of_u64 t) sum (bu_of_u64_wf _) Hsw) as [Hmw Hmv].
  rewrite val_of_u64, Hsv in Hmv by (unfold is_u64; lia).
  rewrite bu_gt_spec, Hmv, Hplv, Z.gtb_ltb by done.
  set (w := if lim <? _ then _ else _).
  assert (Hw : bu_wf w /\ val w = Z.min lim ((t * S) mod 2^256)).
  { subst w. destruct (Z.ltb_spec lim ((t * S) mod 2^256)); split; try done; lia. }
  destruct Hw as [Hw Hwv].
  pose proof (GetCompact_spec w false Hw) as Hgc. cbn [andb] in Hgc. rewrite Z.add_0_r in Hgc.
  exists w, (gc_word (val w)). split_and!; [now rewrite Hgc|done|done|done].
Qed.

(** The limits of the formula *)
Lemma lwma_target_limits T limit prev times l : 0 < T -> length times = 36%nat ->
  let next := lwma_target T limit prev times (target_of <$> l) in
  next <= limit /\ 36 * next <= 6 * sum_of (fun x => x) (target_of <$> l).
Proof.
  intros HT Hl next. subst next. unfold lwma_target. pose proof (lwma_t_bounds T prev times HT Hl) as Ht.
  destruct (lwma_sum_bounds T l HT) as (? & ? & _). fold (lwma_weight T prev times) in Ht.
  set (t := lwma_weight _ _ _) in *. set (S := lwma_sum _ _) in *.
  assert (36 * (t * S) <= 6 * sum_of (fun x => x) (target_of <$> l)) by nia. lia.
Qed.

Lemma solvetimes_even T n : 0 < T -> forall prev i,
  solvetimes T (prev + i * T) (map (fun j => prev + (i + Z.of_nat j + 1) * T) (seq 0 n)) = replicate n T.
Proof.
  intros HT. induction n as [|n IH]; intros prev i; [done|]. cbn [seq map solvetimes replicate].
  rewrite Z.gtb_ltb, (proj2 (Z.ltb_lt _ _)) by lia. f_equal; [lia|].
  rewrite <- seq_shift, map_map. change (Z.of_nat 0) with 0.
  replace (prev + (i + 0 + 1) * T) with (prev + (i + 1) * T) by lia.
  rewrite <- (IH prev (i + 1)). f_equal. apply map_ext. intros j. f_equal. f_equal. lia.
Qed.

(** Even spacing and one target: the target stays, up to the rounding. *)
Lemma lwma_target_steady T limit prev v : 0 < T -> 0 < v <= limit ->
  lwma_target T limit prev (map (fun j => prev + (Z.of_nat j + 1) * T) (seq 0 36)) (replicate 36 v)
  = v - v mod (23976 * T).
Proof.
  intros HT Hv. unfold lwma_target, lwma_weight, lwma_sum. rewrite lwma_kN.
  pose proof (solvetimes_even T 36 HT prev 0) as Hs. rewrite Z.mul_0_l, Z.add_0_r in Hs.
  replace (map (fun j => prev + (Z.of_nat j + 1) * T) (seq 0 36))
    with (map (fun j => prev + (0 + Z.of_nat j + 1) * T) (seq 0 36)) by (apply map_ext; intros; f_equal).
  rewrite Hs.
  assert (E1 : weighted_sum 0 (replicate 36 T) = 666 * T) by (cbn [weighted_sum replicate]; lia).
  assert (E2 : sum_of (fun x => x / (23976 * T)) (replicate 36 v) = 36 * (v / (23976 * T)))
    by (unfold sum_of; cbn [foldr replicate]; lia).
  rewrite E1, E2. pose proof (Z.div_mod v (23976 * T) ltac:(lia)).
  pose proof (Z.mod_pos_bound v (23976 * T) ltac:(lia)). nia.
Qed.

(** A compact word stands for at most the number it was made from. *)
Lemma GetCompact_le w c : bu_wf w -> GetCompact w false = Some c -> cw_num c mod 2^256 <= val w.
Proof.
  intros Hw Hc. pose proof (val_bound_256 _ Hw) as Hv. rewrite GetCompact_spec in Hc by done. cbn [andb] in Hc.
  rewrite Z.add_0_r in Hc. injection Hc as <-. destruct (Z.eq_dec (val w) 0) as [->|]; [done|].
  rewrite gc_word_num by lia. assert (0 < gc_grid (val w)) by (unfold gc_grid; lia).
  pose proof (Z.mod_pos_bound (val w) (gc_grid (val w)) ltac:(lia)). pose proof (Z.mod_le (val w) (gc_grid (val w)) ltac:(lia) ltac:(lia)).
  rewrite Z.mod_small by lia. lia.
Qed.

Lemma compact_limit u : blob_wf u -> exists w c, deref (GetCompact (UintToArith256 u) false) = Ret c /\
  GetCompact w false = Some c /\ bu_wf w /\ val w = le_val u.
Proof.
  intros Hu. destruct (UintToArith256_spec _ Hu) as [Hw Hv].
  do 2 eexists. rewrite (GetCompact_spec _ false Hw). split_and!; [done|apply GetCompact_spec|done|done]; done.
Qed.

Lemma GetNextWorkRequired_spec bi h b params : tree_wf bi -> bits_u32 bi -> bi !! h = Some b ->
  0 < posTargetSpacing params -> 23976 * posTargetSpacing params < 2^64 ->
  blob_wf (powLimit params) -> blob_wf (posLimit params) ->
  let T := posTargetSpacing params in
  let ws := last_blocks bi h b in
  exists w c, GetNextWorkRequired bi (Some h) params = Ret c /\ GetCompact w false = Some c /\ bu_wf w /\
    val w = if nHeight b + 1 <=? lastPowBlock params then le_val (powLimit params)
            else if nHeight b <? lwma_N then le_val (posLimit params)
            else Z.min (le_val (posLimit params))
              ((lwma_weight T (time_before bi h b) (nTime <$> ws) * lwma_sum T (target_of <$> ws)) mod 2^256).
Proof.
  intros Hwf Hbits Hb HT HTk Hpow Hpos T ws. unfold GetNextWorkRequired. cbn [deref mbind outcome_bind]. outcome_step.
  destruct (Z.leb_spec (nHeight b + 1) (lastPowBlock params)); [now apply compact_limit|].
  destruct (Z.ltb_spec (nHeight b) lwma_N) as [Hlt|Hge]; [|by apply Lwma3_spec].
  unfold Lwma3CalculateNextWorkRequired. outcome_step. rewrite (proj2 (Z.ltb_lt _ _)) by done. now apply compact_limit.
Qed.

(** ** The networks of chainparams.cpp

    They share the spacing and the proof-of-work limit; the proof-of-stake limit
    is 2^228 - 1, and less for regression tests. *)
Definition network_numbers (params : ConsensusParams) : Prop :=
  posTargetSpacing params = 150 /\ blob_wf (powLimit params) /\ blob_wf (posLimit params) /\
  le_val (powLimit params) = 2^255 - 1 /\ le_val (posLimit params) <= 2^228 - 1.

Definition pow_target : Z := 2^255 - 2^232.
Definition main_target (x : Z) : Prop := x = pow_target \/ 0 <= x <= 2^228 - 1.

Lemma window_all bi (Hwf : tree_wf bi) h b : bi !! h = Some b -> forall n i, 0 <= i -> i + Z.of_nat n = nHeight b + 1 ->
  Forall (fun x => exists q, bi !! q = Some x /\ i <= nHeight x) (window n bi h b i).
Proof.
  intros Hb. induction n as [|n IH]; intros i Hi Hn; [constructor|]. cbn [window].
  destruct (block_at_total bi Hwf h b i Hb) as (q & qb & _ & Hqb & Hh & ->); [lia|].
  constructor; [exists q; split; [done|lia]|]. eapply Forall_impl; [apply IH; lia|]. intros x (p & Hp & Hx). exists p. split; [done|lia].
Qed.

(** Every required target is the proof-of-work one or at most the limit. *)
Lemma main_targets bi h b params : tree_wf bi -> bits_u32 bi -> network_numbers params -> retargeted bi params ->
  bi !! h = Some b -> lwma_N <= nHeight b -> Forall main_target (target_of <$> last_blocks bi h b).
Proof.
  intros Hwf Hbits (HT & Hw1 & Hw2 & Hpow & Hpos) Hret Hb HN. apply Forall_fmap.
  eapply Forall_impl; [apply (window_all bi Hwf h b Hb); unfold lwma_N in *; simpl; lia|].
  intros x (q & Hq & Hx). cbn. unfold lwma_N in *. pose proof (ew_prev _ _ _ (Hwf _ _ Hq)) as Hprev.
  destruct (pprev x) as [p|] eqn:Hp; [|lia]. destruct Hprev as (pb & Hpb & _).
  pose proof (Hret _ _ _ Hq Hp) as Hn. destruct (GetNextWorkRequired_spec bi p pb params Hwf Hbits Hpb) as (w & c & Hc & Hg & Hw & Hv);
    [lia|lia|done|done|]. rewrite Hc in Hn. injection Hn as ->. pose proof (target_of_range x) as Hr.
  pose proof (GetCompact_le w _ Hw Hg) as Hle. fold (target_of x) in Hle. rewrite Hpow in Hv.
  destruct (_ <=? _); [left|right; destruct (_ <? _); lia].
  rewrite GetCompact_spec, Hv in Hg by done. apply Some_inj in Hg. unfold target_of. rewrite <- Hg. vm_compute. reflexivity.
Qed.

(** Some of the targets are the proof-of-work one and the others are small. *)
Lemma main_sum l : Forall main_target l -> exists m p, lwma_sum 150 l = m * (pow_target / 3596400) + p /\
  0 <= m <= Z.of_nat (length l) /\ 0 <= p /\ 3596400 * p <= Z.of_nat (length l) * (2^228 - 1).
Proof.
  unfold lwma_sum. rewrite lwma_kN. change (23976 * 150) with 3596400. induction 1 as [|x l Hx _ (m & p & E & Hm & Hp0 & Hp)].
  { exists 0, 0. rewrite sum_of_nil. cbn. lia. }
  rewrite sum_of_cons, E. cbn [length]. destruct Hx as [->|Hx]; [exists (m + 1), p; lia|exists m, (p + x / 3596400)].
  pose proof (Z.mul_div_le x 3596400 ltac:(lia)). pose proof (Z.div_pos x 3596400 ltac:(lia) ltac:(lia)). lia.
Qed.

Lemma min_mod_above limit P k : limit <= 2^228 - 1 -> 0 <= k -> k * 2^256 + 2^228 <= P < (k + 1) * 2^256 ->
  Z.min limit (P mod 2^256) = Z.min limit P.
Proof.
  intros Hl Hk HP. rewrite <- (Z.mod_unique P (2^256) k (P - k * 2^256)) by lia. lia.
Qed.

(** A product that overflows is still above the limit once reduced: the
    proof-of-work target is just under half of the range, so that the multiples
    of its share step over the numbers just above a multiple of 2^256. *)
Lemma overflow_gap limit a r : limit <= 2^228 - 1 -> 0 <= a <= 36 * 599400 -> 0 <= r <= 6 * 2^228 ->
  let P := a * (pow_target / 3596400) + r in Z.min limit (P mod 2^256) = Z.min limit P.
Proof.
  intros Hl Ha Hr P. assert (HP : P = a * (pow_target / 3596400) + r) by done. clearbody P.
  let q := eval vm_compute in (pow_target / 3596400) in change (pow_target / 3596400) with q in HP.
  destruct (Z.le_gt_cases a 7192800); [rewrite Z.mod_small; lia|].
  destruct (Z.le_gt_cases a 14385601); [apply (min_mod_above _ _ 1)|apply (min_mod_above _ _ 2)]; lia.
Qed.

Lemma main_product limit t l : limit <= 2^228 - 1 -> 0 <= t <= 599400 -> length l = 36%nat -> Forall main_target l ->
  Z.min limit ((t * lwma_sum 150 l) mod 2^256) = Z.min limit (t * lwma_sum 150 l).
Proof.
  intros Hlim Ht Hl Hm. destruct (main_sum l Hm) as (m & p & -> & Hr & Hp0 & Hp). rewrite Hl in *. change (Z.of_nat 36) with 36 in *.
  rewrite Z.mul_add_distr_l, Z.mul_assoc. apply overflow_gap; [done| |].
  - split; [lia|]. transitivity (599400 * 36); [apply Z.mul_le_mono_nonneg; lia|lia].
  - split; [lia|]. transitivity (599400 * p); [apply Z.mul_le_mono_nonneg_r; lia|lia].
Qed.

Lemma CheckProofOfWork_spec hash bits params : is_u32 bits -> blob_wf hash -> blob_wf (powLimit params) ->
  CheckProofOfWork hash bits params = true <->
  exists t, compact_target bits = Some t /\ t <= le_val (powLimit params) /\ le_val hash <= t.
Proof.
  intros Hb Hh Hl. unfold CheckProofOfWork.
  destruct (SetCompact_target _ Hb) as (t & neg & ov & -> & Ht & H).
  destruct (UintToArith256_spec _ Hh) as [Hhw Hhv], (UintToArith256_spec _ Hl) as [Hlw Hlv].
  rewrite !bu_gt_spec, Hhv, Hlv, !Z.gtb_ltb by done.
  destruct (compact_target bits) as [v|].
  - destruct H as (H & -> & -> & <- & _). cbn [orb] in *. rewrite H. cbn [orb].
    destruct (Z.ltb_spec (le_val (powLimit params)) (val t)), (Z.ltb_spec (val t) (le_val hash)); split;
      try done; try (intros (? & [= <-] & ?); lia). intros _. exists (val t). split; [done|lia].
  - replace (neg || bu_EqualTo t 0 || ov)%bool with true by (destruct neg, ov, (bu_EqualTo t 0); done).
    cbn [orb]. split; [done|]. now intros (? & ? & _).
Qed.

(** 37 proof-of-work blocks, six times slower than they should be *)
Definition lwma_demo_entry (i : nat) : CBlockIndex :=
  let i := Z.of_nat i in
  demo_entry (if i =? 0 then None else Some i) None i 0 0x207fffff (1000000 + 900 * i).
Definition lwma_demo_index : gmap uint256 CBlockIndex :=
  list_to_map (map (fun i => (demo_hash (Z.of_nat i + 1), lwma_demo_entry i)) (seq 0 37)).
Definition lwma_demo_params : ConsensusParams := {|
  powLimit := powLimit main_params; posLimit := posLimit main_params; nPowTargetSpacing := 150;
  posTargetSpacing := 150; lastPowBlock := 36; posTimestampMask := 5; stakeValueRange := (0, 0);
  stakeAgeRange := (0, 0); regularMnCollateral := 0; evoMnCollateral := 0;
  nPosKernelV2ActivationHeight := 0; nPosStakeModifierV2ActivationHeight := 0 |}.

Lemma lwma_demo_wf : tree_wf lwma_demo_index.
Proof. apply tree_wfb_sound. vm_compute. reflexivity. Qed.

Lemma index_forallb (f : uint256 * CBlockIndex -> bool) (bi : gmap uint256 CBlockIndex) :
  forallb f (map_to_list bi) = true -> forall h b, bi !! h = Some b -> f (h, b) = true.
Proof. intros Hf h b Hb. rewrite forallb_forall in Hf. by apply Hf, list_elem_of_In, elem_of_map_to_list. Qed.

Lemma lwma_demo_bits : bits_u32 lwma_demo_index.
Proof.
  intros x y Hy. apply (index_forallb (fun e => nBits e.2 =? 0x207fffff)) in Hy; [|vm_compute; reflexivity].
  cbn in Hy. unfold is_u32. lia.
Qed.

Definition retargetedb (bi : gmap uint256 CBlockIndex) (params : ConsensusParams) : bool :=
  forallb (fun e => match pprev e.2 with
    | Some p => match GetNextWorkRequired bi (Some p) params with Ret c => c =? nBits e.2 | Abort => false end
    | None => true end) (map_to_list bi).
Lemma retargetedb_sound bi params : retargetedb bi params = true -> retargeted bi params.
Proof.
  intros H h b p Hb Hp. apply (index_forallb _ bi H) in Hb. cbn [snd] in Hb. rewrite Hp in Hb.
  destruct (GetNextWorkRequired _ _ _) as [c|]; [|done]. apply Z.eqb_eq in Hb. by subst.
Qed.

Lemma lwma_demo_retargeted : retargeted lwma_demo_index lwma_demo_params.
Proof. apply retargetedb_sound. vm_compute. reflexivity. Qed.

(** The product of its two factors, which does not fit in 256 bits *)
Definition lwma_demo_product : Z :=
  let ws := last_blocks lwma_demo_index (demo_hash 37) (lwma_demo_entry 36) in
  lwma_weight 150 (time_before lwma_demo_index (demo_hash 37) (lwma_demo_entry 36)) (nTime <$> ws) * lwma_sum 150 (target_of <$> ws).
Lemma lwma_demo_overflow : 2^256 <= lwma_demo_product.
Proof. vm_compute. discriminate. Qed.

(** ** Properties *)

(** C25: on every chain of blocks with 32-bit [nBits] and for a positive spacing
    with [23976 * spacing] below 2^64, [GetNextWorkRequired] returns, without a failed assertion or a division by zero, the compact form
    of the proof-of-work limit up to [lastPowBlock]; above it, of the
    proof-of-stake limit while fewer than 36 blocks precede, and otherwise of
    the product of the weighted solve times and the sum of the targets divided
    by [23976 * spacing], cut off at the proof-of-stake limit. The sum fits in
    256 bits whatever the targets; the product is reduced modulo 2^256, and is
    not changed by that when the average of the 36 targets is below a sixth of
    2^256. *)
Theorem GetNextWorkRequired_exact (bi : gmap uint256 CBlockIndex) (h : uint256) (b : CBlockIndex) (params : ConsensusParams) :
  let T := posTargetSpacing params in
  let ws := last_blocks bi h b in
  let product := lwma_weight T (time_before bi h b) (nTime <$> ws) * lwma_sum T (target_of <$> ws) in
  tree_wf bi -> bits_u32 bi -> bi !! h = Some b -> 0 < T -> 23976 * T < 2^64 ->
  blob_wf (powLimit params) -> blob_wf (posLimit params) ->
  exists w c, GetNextWorkRequired bi (Some h) params = Ret c /\ GetCompact w false = Some c /\ bu_wf w /\
    val w = (if nHeight b + 1 <=? lastPowBlock params then le_val (powLimit params)
             else if nHeight b <? lwma_N then le_val (posLimit params)
             else Z.min (le_val (posLimit params)) (product mod 2^256)) /\
    (lwma_N <= nHeight b -> sum_of (fun x => x) (target_of <$> ws) < 36 * 2^256 / 6 -> product mod 2^256 = product).
Proof.
  intros T ws product Hwf Hbits Hb HT HTk Hpow Hpos.
  destruct (GetNextWorkRequired_spec bi h b params) as (w & c & Hc & Hg & Hw & Hv); try done.
  exists w, c. split_and!; [done..|]. intros HN Hs. change (36 * 2^256 / 6) with (6 * 2^256) in Hs. apply Z.mod_small. subst product.
  assert (Hl : length (nTime <$> ws) = 36%nat) by (rewrite length_fmap; by apply last_blocks_length).
  pose proof (lwma_t_bounds T (time_before bi h b) _ HT Hl) as Ht. fold (lwma_weight T (time_before bi h b) (nTime <$> ws)) in Ht.
  destruct (lwma_sum_bounds T ws HT) as (? & ? & _). nia.
Qed.

(** After 36 slow proof-of-work blocks the product is reduced. *)
Lemma GetNextWorkRequired_exact_witness :
  2^256 <= lwma_demo_product /\
  exists w c, GetNextWorkRequired lwma_demo_index (Some (demo_hash 37)) lwma_demo_params = Ret c /\
    GetCompact w false = Some c /\ val w = Z.min (2^228 - 1) (lwma_demo_product mod 2^256).
Proof.
  split; [exact lwma_demo_overflow|].
  destruct (GetNextWorkRequired_exact lwma_demo_index (demo_hash 37) (lwma_demo_entry 36) lwma_demo_params lwma_demo_wf lwma_demo_bits)
    as (w & c & Hr & Hc & _ & Hv & _).
  - vm_compute. reflexivity.
  - simpl. lia.
  - simpl. lia.
  - apply ArithToUint256_wf.
  - apply ArithToUint256_wf.
  - exists w, c. split; [exact Hr|]. split; [exact Hc|]. rewrite <- main_posLimit_val. exact Hv.
Defined.

(** C26: with the spacing of 150 seconds and the limits of the networks of
    chainparams.cpp, on a chain whose blocks have the [nBits] required of
    them, the difficulty adjustment from height 36 on is that of the formula on
    unbounded integers, although the 256-bit product does overflow in the blocks
    after [lastPowBlock]: a product that overflows is above the limit before and
    after it is reduced. So the next target never exceeds the proof-of-stake
    limit nor six times the average of the last 36 targets, whatever the
    timestamps; and when those blocks come at the spacing with one target that
    is at most the limit, the next target is that target, less than
    [23976 * spacing] below it. *)
Theorem Lwma3_limits (bi : gmap uint256 CBlockIndex) (h : uint256) (b : CBlockIndex) (params : ConsensusParams) :
  let T := posTargetSpacing params in
  let limit := le_val (posLimit params) in
  let ws := last_blocks bi h b in
  let targets := target_of <$> ws in
  tree_wf bi -> bits_u32 bi -> network_numbers params -> retargeted bi params -> bi !! h = Some b -> lwma_N <= nHeight b ->
  exists w c, Lwma3CalculateNextWorkRequired bi h params = Ret c /\ GetCompact w false = Some c /\
    val w = lwma_target T limit (time_before bi h b) (nTime <$> ws) targets /\
    val w <= limit /\ 36 * val w <= 6 * sum_of (fun x => x) targets /\
    (forall v, 0 < v <= limit -> targets = replicate 36 v ->
       (nTime <$> ws) = map (fun j => time_before bi h b + (Z.of_nat j + 1) * T) (seq 0 36) ->
       v - 23976 * T < val w <= v).
Proof.
  intros T limit ws targets Hwf Hbits Hmain Hret Hb HN. destruct (Hmain) as (HT & _ & Hpw & _ & Hlim). change (T = 150) in HT.
  destruct (Lwma3_spec bi h b params) as (w & c & Hr & Hc & _ & Hv); [done|done|done|done|fold T; lia|fold T; lia|done|].
  assert (Hl : length ws = 36%nat) by (by apply last_blocks_length).
  assert (Ht : length (nTime <$> ws) = 36%nat) by (by rewrite length_fmap).
  fold ws T limit in Hv.
  pose proof (lwma_t_bounds T (time_before bi h b) _ ltac:(lia) Ht) as Hb'. fold (lwma_weight T (time_before bi h b) (nTime <$> ws)) in Hb'.
  rewrite HT, main_product in Hv; [|done|rewrite <- HT; lia|by rewrite length_fmap|by eapply main_targets].
  rewrite <- HT in Hv. fold (lwma_target T limit (time_before bi h b) (nTime <$> ws) targets) in Hv.
  destruct (lwma_target_limits T limit (time_before bi h b) (nTime <$> ws) ws ltac:(lia) Ht) as [H1 H2].
  exists w, c. rewrite Hv. split_and!; [done..|]. intros v Hvr Htg Htimes.
  unfold targets in Htg |- *. rewrite Htimes, Htg.
  pose proof (lwma_target_steady T limit (time_before bi h b) v ltac:(lia) Hvr) as Hst. unfold lwma_target in Hst. rewrite Hst.
  pose proof (Z.mod_pos_bound v (23976 * T) ltac:(lia)). lia.
Qed.

Lemma Lwma3_limits_witness :
  exists w c, Lwma3CalculateNextWorkRequired lwma_demo_index (demo_hash 37) lwma_demo_params = Ret c /\
    GetCompact w false = Some c /\ val w = Z.min (2^228 - 1) lwma_demo_product.
Proof.
  destruct (Lwma3_limits lwma_demo_index (demo_hash 37) (lwma_demo_entry 36) lwma_demo_params lwma_demo_wf lwma_demo_bits)
    as (w & c & Hr & Hc & Hl & _).
  - split; [reflexivity|]. split; [apply ArithToUint256_wf|]. split; [apply ArithToUint256_wf|]. split; vm_compute; [reflexivity|discriminate].
  - exact lwma_demo_retargeted.
  - vm_compute. reflexivity.
  - unfold lwma_N. simpl. lia.
  - exists w, c. split; [exact Hr|]. split; [exact Hc|]. rewrite <- main_posLimit_val. exact Hl.
Defined.

(** [CheckProofOfWork] accepts exactly the hashes that, read as a
    little-endian number, are at most the target the compact word denotes, and
    only when that target is positive, fits 256 bits and is at most the limit. *)
Theorem CheckProofOfWork_exact (hash : uint256) (bits : Z) (params : ConsensusParams) :
  is_u32 bits -> blob_wf hash -> blob_wf (powLimit params) ->
  CheckProofOfWork hash bits params = true <->
  exists t, compact_target bits = Some t /\ t <= le_val (powLimit params) /\ le_val hash <= t.
Proof. apply CheckProofOfWork_spec. Qed.

Lemma CheckProofOfWork_exact_witness : CheckProofOfWork (uint256_of_Z (2^200)) 0x1e0fffff main_params = true.
Proof.
  apply CheckProofOfWork_exact; [unfold is_u32; lia|apply ArithToUint256_wf|apply ArithToUint256_wf|].
  exists (0x0fffff * 2^216). split; [vm_compute; reflexivity|]. split; vm_compute; discriminate.
Defined.
