(* ===== verification/Kernel.v ===== *)
(** * Kernel: the proof-of-stake kernel (src/src/pos/kernel.{h,cpp})

    A coinstake's first input, the kernel, wins when the hash of the stake
    modifier, the time of the coin's block, the outpoint and the block time is
    small enough for the target weighted by the value of the coin.  The original
    rules multiply the target modulo 2^256; the corrected rules divide the hash.

    The hash function and script verification are arguments: every theorem
    holds for all of them. *)

From Stdlib Require Import ZArith Lia.
From stdpp Require Import base list numbers option gmap.
From S2P Require Import Prelude Arith256 Uint256 Serialize Transaction Compact Chain ActiveChain Params.

(** [CheckCoinStakeTimestamp]: the time, an [int], is converted to the type of
    the mask. *)
Definition CheckCoinStakeTimestamp (nTimeBlock : Z) (params : ConsensusParams) : bool :=
  Z.land (u32 nTimeBlock) (posTimestampMask params) =? 0.

(** [ExpectedStakeTime] *)
Definition ExpectedStakeTime (nTargetSpacing nNetworkWeight nWeight : Z) : outcome Z :=
  if ((nWeight =? 0) || (nTargetSpacing <=? 0))%bool then Ret 0
  else
    seconds ← deref (bu_div (bu_mul (bu_of_u64 nNetworkWeight) (bu_of_u64 (u64 nTargetSpacing))) (bu_of_u64 nWeight));
    let max_seconds := bu_of_u64 (u64 INT64_MAX) in
    if bu_gt seconds max_seconds then Ret INT64_MAX
    else Ret (i64 (bu_GetLow64 seconds)).

(** [StakeModifierFromKernel] *)
Definition StakeModifierFromKernel (nHeight : Z) (params : ConsensusParams) : bool :=
  nHeight >=? nPosStakeModifierV2ActivationHeight params.

(** [IsPosKernelV2] *)
Definition IsPosKernelV2 (params : ConsensusParams) (nHeight : Z) : bool :=
  nHeight >=? nPosKernelV2ActivationHeight params.

(** The reject reasons of [CheckProofOfStake] *)
Inductive PosError : Type :=
| malformed_txn
| prevout_not_found
| invalid_prevout
| bad_stake_depth
| bad_stake_amount
| bad_stake_age
| bad_stake_signature
| bad_stake_kernel.

#[export] Instance PosError_eq_dec : EqDecision PosError.
Proof. solve_decision. Defined.

(** What the kernel check reads of the chain state *)
Record ChainState : Type := mkChainState {
  m_block_index : gmap uint256 CBlockIndex;
  m_chain : list (option uint256);
  CoinsTip : gmap COutPoint Coin;
}.

(** The bytes whose hash is the proof: modifier, coin time, outpoint, time *)
Definition kernel_stream (nStakeModifier : uint256) (nBlockFromTime : Z) (prevout : COutPoint) (nTime : Z) : list Z :=
  nStakeModifier ++ ser_writedata32 nBlockFromTime ++ op_hash prevout ++ ser_writedata32 (op_n prevout) ++
  ser_writedata32 nTime.

Section kernel.

Context (Hash : list Z -> uint256).
Context (VerifyScript : CScript -> CScript -> CTransaction -> Z -> bool).

(** [ComputeStakeModifier] *)
Definition ComputeStakeModifier (pindexPrev : option CBlockIndex) (kernel : uint256) : uint256 :=
  match pindexPrev with
  | None => uint256_zero
  | Some p => Hash (kernel ++ nStakeModifier p)
  end.

(** [CheckStakeKernelHash]: the result, [hashProofOfStake] and
    [targetProofOfStake], which keep their values on the early returns *)
Definition CheckStakeKernelHash (pindexPrev : CBlockIndex) (params : ConsensusParams)
    (nBits nBlockFromTime prevOutAmount : Z) (prevout : COutPoint) (nTime : Z)
    (hashProofOfStake targetProofOfStake : uint256) : outcome (bool * uint256 * uint256) :=
  if nTime <? nBlockFromTime then Ret (false, hashProofOfStake, targetProofOfStake)
  else
    let '(bnTarget, fNegative, fOverflow) := SetCompact nBits in
    if (fNegative || fOverflow || bu_EqualTo bnTarget 0)%bool then Ret (false, hashProofOfStake, targetProofOfStake)
    else
      let kernel_v2 := IsPosKernelV2 params (nHeight pindexPrev + 1) in
      let bnWeight := bu_of_u64 (u64 prevOutAmount) in
      if (kernel_v2 && bu_EqualTo bnWeight 0)%bool then Ret (false, hashProofOfStake, targetProofOfStake)
      else
        let bnTarget := if negb kernel_v2 then bu_mul bnTarget bnWeight else bnTarget in
        let targetProofOfStake := ArithToUint256 bnTarget in
        let hashProofOfStake := Hash (kernel_stream (nStakeModifier pindexPrev) nBlockFromTime prevout nTime) in
        let bnHash := UintToArith256 hashProofOfStake in
        q ← (if kernel_v2 then deref (bu_div bnHash bnWeight) else Ret bnHash);
        Ret (negb (bu_gt q bnTarget), hashProofOfStake, targetProofOfStake).

(** [CheckProofOfStake]: the verdict and the two hashes *)
Definition CheckProofOfStake (chain_state : ChainState) (view : gmap COutPoint Coin) (params : ConsensusParams)
    (pindexPrev : CBlockIndex) (tx : CTransaction) (nTime nBits : Z) (hashProofOfStake targetProofOfStake : uint256)
    : outcome (verdict PosError * uint256 * uint256) :=
  let invalid e := Ret (Reject e, hashProofOfStake, targetProofOfStake) in
  match vin tx with
  | [] => invalid malformed_txn
  | txin :: _ =>
      if negb (IsCoinStake tx) then invalid malformed_txn
      else
        match view !! prevout txin with
        | None => invalid prevout_not_found
        | Some coin =>
            if IsSpent coin then invalid prevout_not_found
            else
              match chain_at (m_chain chain_state) (coin_nHeight coin) ≫= (m_block_index chain_state !!.) with
              | None => invalid invalid_prevout
              | Some pindex =>
                  let nBlockFromTime := GetBlockTime pindex in
                  let nRequiredDepth := COINBASE_MATURITY + 1 in
                  let nDepth := nHeight pindexPrev - coin_nHeight coin in
                  if nRequiredDepth >? nDepth then invalid bad_stake_depth
                  else
                    let amount := nValue (coin_out coin) in
                    if ((amount <? (stakeValueRange params).1) || (amount >? (stakeValueRange params).2))%bool
                    then invalid bad_stake_amount
                    else
                      let inputAge := nTime - nBlockFromTime in
                      let age_capped := negb (IsPosKernelV2 params (nHeight pindexPrev + 1)) in
                      if ((inputAge <? (stakeAgeRange params).1) ||
                          (age_capped && (inputAge >? (stakeAgeRange params).2)))%bool
                      then invalid bad_stake_age
                      else if negb (VerifyScript (scriptSig txin) (scriptPubKey (coin_out coin)) tx amount)
                      then invalid bad_stake_signature
                      else
                        r ← CheckStakeKernelHash pindexPrev params nBits (u32 nBlockFromTime) amount
                              (prevout txin) (u32 nTime) hashProofOfStake targetProofOfStake;
                        let '(ok, h, t) := (r : bool * uint256 * uint256) in
                        Ret ((if ok then Accept else Reject bad_stake_kernel), h, t)
              end
        end
  end.

(** [CheckKernel]: the result, and the value stored in [*pBlockTime] if any *)
Definition CheckKernel (chain_state : ChainState) (params : ConsensusParams) (pindexPrev : CBlockIndex)
    (nBits nTime : Z) (prevout : COutPoint) : outcome (bool * option Z) :=
  match CoinsTip chain_state !! prevout with
  | None => Ret (false, None)
  | Some coin =>
      if IsSpent coin then Ret (false, None)
      else
        match chain_at (m_chain chain_state) (coin_nHeight coin) ≫= (m_block_index chain_state !!.) with
        | None => Ret (false, None)
        | Some pindex =>
            if COINBASE_MATURITY + 1 >? nHeight pindexPrev - coin_nHeight coin then Ret (false, None)
            else
              let nBlockFromTime := GetBlockTime pindex in
              r ← CheckStakeKernelHash pindexPrev params nBits (u32 nBlockFromTime)
                    (nValue (coin_out coin)) prevout (u32 nTime) uint256_zero uint256_zero;
              let '(ok, _, _) := (r : bool * uint256 * uint256) in
              Ret (ok, Some nBlockFromTime)
        end
  end.

End kernel.

(** ** The kernel rule on unbounded integers *)

(** The hash [h] wins for a coin of value [amount], against the target of
    [bits], in a block at [height]. *)
Definition kernel_wins (params : ConsensusParams) (height bits amount h : Z) : Prop :=
  exists t, compact_target bits = Some t /\
  if IsPosKernelV2 params height then 0 < amount /\ h < (t + 1) * amount
  else h <= (t * amount) mod 2^256.

Lemma div_gt_iff h w t : 0 < w -> (h / w >? t) = (negb (h <? (t + 1) * w)).
Proof.
  intros Hw. rewrite Z.gtb_ltb. destruct (Z.ltb_spec t (h / w)) as [H|H], (Z.ltb_spec h ((t + 1) * w)) as [H'|H']; try done.
  - assert (h / w < t + 1) by (apply Z.div_lt_upper_bound; lia). lia.
  - exfalso. assert (t + 1 <= h / w) by (apply Z.div_le_lower_bound; lia). lia.
Qed.

Section kernel_facts.

Context (Hash : list Z -> uint256) (Hash_wf : forall b, blob_wf (Hash b)).

Lemma CheckStakeKernelHash_spec prev params bits from amount op time h0 t0 :
  is_u32 bits -> 0 <= amount < 2^63 ->
  exists ok h t, CheckStakeKernelHash Hash prev params bits from amount op time h0 t0 = Ret (ok, h, t) /\
    (ok = true <->
     from <= time /\ kernel_wins params (nHeight prev + 1) bits amount
                       (le_val (Hash (kernel_stream (nStakeModifier prev) from op time)))).
Proof.
  intros Hb Ha. unfold CheckStakeKernelHash, kernel_wins.
  destruct (Z.ltb_spec time from); [do 3 eexists; split; [done|split; [done|lia]]|].
  destruct (SetCompact_target _ Hb) as (t & neg & ov & -> & Ht & H').
  destruct (compact_target bits) as [v|].
  2:{ rewrite H'. do 3 eexists. split; [done|]. split; [done|]. now intros (_ & ? & ? & _). }
  destruct H' as (-> & _ & _ & Hv & Hvr). unfold u64. rewrite Z.mod_small by lia.
  set (w := bu_of_u64 amount). assert (Hw : bu_wf w) by apply bu_of_u64_wf.
  assert (Hwv : val w = amount) by (apply val_of_u64; unfold is_u64; lia).
  rewrite bu_EqualTo_spec, Hwv by (done || (unfold is_u64; lia)).
  set (hs := Hash _). destruct (UintToArith256_spec hs (Hash_wf _)) as [Hhw Hhv].
  destruct (IsPosKernelV2 params (nHeight prev + 1)); cbn [andb negb].
  - destruct (Z.eqb_spec amount 0) as [E|E].
    { do 3 eexists. split; [done|]. split; [done|]. intros (_ & t' & _ & ? & _). lia. }
    destruct (bu_div_spec (UintToArith256 hs) w Hhw Hw) as (q & -> & Hq & Hqv); [lia|].
    cbn [deref mbind outcome_bind]. do 3 eexists. split; [done|].
    rewrite bu_gt_spec, Hqv, Hhv, Hwv, Hv, div_gt_iff, negb_involutive, Z.ltb_lt by (done || lia).
    split; [intros; split; [lia|]; exists v; split; [done|lia]|]. intros (_ & t' & [= <-] & _ & ?). lia.
  - cbn [mbind outcome_bind]. do 3 eexists. split; [done|].
    destruct (bu_mul_spec t w Ht Hw) as [Hmw Hmv].
    rewrite bu_gt_spec, Hmv, Hhv, Hv, Hwv, Z.gtb_ltb, negb_true_iff, Z.ltb_ge by done.
    split; [intros; split; [lia|]; exists v; split; [done|lia]|]. intros (_ & t' & [= <-] & ?). lia.
Qed.

End kernel_facts.

(** ** Properties *)

(** C2: under the corrected rules the kernel test is exact: the 256-bit
    division decides the inequality [hash < (target + 1) * amount] on unbounded
    integers, so a coin of larger value wins wherever a smaller one does; a
    coin of no value never wins and the division by zero is never reached. *)
Theorem kernel_v2_exact (Hash : list Z -> uint256) (prev : CBlockIndex) (params : ConsensusParams)
    (bits from time : Z) (op : COutPoint) (h0 t0 : uint256) :
  (forall b, blob_wf (Hash b)) -> is_u32 bits -> IsPosKernelV2 params (nHeight prev + 1) = true ->
  let h := le_val (Hash (kernel_stream (nStakeModifier prev) from op time)) in
  let wins amount := exists hp tp, CheckStakeKernelHash Hash prev params bits from amount op time h0 t0 = Ret (true, hp, tp) in
  (forall amount, 0 <= amount < 2^63 ->
     (wins amount <-> from <= time /\ exists t, compact_target bits = Some t /\ 0 < amount /\ h < (t + 1) * amount)) /\
  (forall amount, 0 <= amount < 2^63 ->
     exists r, CheckStakeKernelHash Hash prev params bits from amount op time h0 t0 = Ret r) /\
  (forall a1 a2, 0 <= a1 <= a2 -> a2 < 2^63 -> wins a1 -> wins a2).
Proof.
  intros HH Hb Hv2 h wins.
  assert (Hiff : forall amount, 0 <= amount < 2^63 ->
     (wins amount <-> from <= time /\ exists t, compact_target bits = Some t /\ 0 < amount /\ h < (t + 1) * amount)).
  { intros amount Ha.
    destruct (CheckStakeKernelHash_spec Hash HH prev params bits from amount op time h0 t0 Hb Ha) as (ok & hp & tp & E & H).
    unfold kernel_wins in H. rewrite Hv2 in H. fold h in H. rewrite <- H. subst wins. cbv beta. rewrite E.
    split; [by intros (? & ? & [= -> _ _])|]. intros ->. eauto. }
  split; [exact Hiff|]. split.
  - intros amount Ha.
    destruct (CheckStakeKernelHash_spec Hash HH prev params bits from amount op time h0 t0 Hb Ha) as (ok & hp & tp & E & _). eauto.
  - intros a1 a2 H12 H2. rewrite !Hiff by lia. intros (Ht & t & Hc & Hpos & Hlt). split; [done|].
    exists t. pose proof (compact_target_bounds bits t Hb Hc). split_and!; [done|lia|nia].
Qed.

Definition demo_params (v2 : Z) : ConsensusParams := {|
  powLimit := powLimit main_params; posLimit := posLimit main_params; nPowTargetSpacing := 150;
  posTargetSpacing := 150; lastPowBlock := 999; posTimestampMask := 5;
  stakeValueRange := stakeValueRange main_params; stakeAgeRange := stakeAgeRange main_params;
  regularMnCollateral := 1000000 * COIN; evoMnCollateral := 4000000 * COIN;
  nPosKernelV2ActivationHeight := v2; nPosStakeModifierV2ActivationHeight := v2 |}.
Definition demo_prev : CBlockIndex := demo_entry None None 5000 0 0x1d0fffff 2000000.

Lemma kernel_v2_exact_witness :
  exists hp tp, CheckStakeKernelHash (fun _ => uint256_of_Z (2^255)) demo_prev (demo_params 0) 0x1d0fffff 1000000
    (10000 * COIN) (mkOutPoint (demo_hash 3) 0) 2000016 uint256_zero uint256_zero = Ret (true, hp, tp).
Proof.
  apply (kernel_v2_exact (fun _ => uint256_of_Z (2^255)) demo_prev (demo_params 0) 0x1d0fffff 1000000 2000016
    (mkOutPoint (demo_hash 3) 0) uint256_zero uint256_zero).
  - intros b. apply ArithToUint256_wf.
  - unfold is_u32. lia.
  - reflexivity.
  - unfold COIN. lia.
  - split; [lia|]. exists (0x0fffff * 2^208). split_and!; vm_compute; reflexivity.
Defined.

(** Under the original rules the weighted target is truncated to 256 bits,
    and a larger stake can lose where a smaller one wins: two amounts within
    the range the main network admits, one hash. *)
Theorem kernel_v1_not_monotone :
  exists (Hash : list Z -> uint256) (a1 a2 : Z) (hp1 tp1 hp2 tp2 : uint256),
    (stakeValueRange main_params).1 <= a1 /\ a1 < a2 /\ a2 <= (stakeValueRange main_params).2 /\
    (forall b, blob_wf (Hash b)) /\
    CheckStakeKernelHash Hash demo_prev (demo_params INT_MAX) 0x1d0fffff 1000000 a1
      (mkOutPoint (demo_hash 3) 0) 2000016 uint256_zero uint256_zero = Ret (true, hp1, tp1) /\
    CheckStakeKernelHash Hash demo_prev (demo_params INT_MAX) 0x1d0fffff 1000000 a2
      (mkOutPoint (demo_hash 3) 0) 2000016 uint256_zero uint256_zero = Ret (false, hp2, tp2).
Proof.
  exists (fun _ => uint256_of_Z (2^254)), (10000 * COIN), 1000191462913.
  do 4 eexists. split; [vm_compute; discriminate|]. split; [reflexivity|]. split; [vm_compute; discriminate|].
  split; [intros b; apply ArithToUint256_wf|]. split; vm_compute; reflexivity.
Qed.

(** The conditions on a kernel, without their order. *)
Record stake_valid (VerifyScript : CScript -> CScript -> CTransaction -> Z -> bool) (Hash : list Z -> uint256)
    (cs : ChainState) (view : gmap COutPoint Coin) (params : ConsensusParams) (prev : CBlockIndex)
    (tx : CTransaction) (time bits : Z) (txin : CTxIn) (coin : Coin) (from : CBlockIndex) : Prop := {
  sv_coinstake : IsCoinStake tx = true;
  sv_kernel : head (vin tx) = Some txin;
  sv_coin : view !! prevout txin = Some coin;
  sv_unspent : IsSpent coin = false;
  sv_block : chain_at (m_chain cs) (coin_nHeight coin) ≫= (m_block_index cs !!.) = Some from;
  sv_depth : COINBASE_MATURITY < nHeight prev - coin_nHeight coin;
  sv_amount : (stakeValueRange params).1 <= nValue (coin_out coin) <= (stakeValueRange params).2;
  sv_age : (stakeAgeRange params).1 <= time - nTime from;
  sv_age_cap : IsPosKernelV2 params (nHeight prev + 1) = false -> time - nTime from <= (stakeAgeRange params).2;
  sv_script : VerifyScript (scriptSig txin) (scriptPubKey (coin_out coin)) tx (nValue (coin_out coin)) = true;
  sv_wins : nTime from <= time /\ kernel_wins params (nHeight prev + 1) bits (nValue (coin_out coin))
              (le_val (Hash (kernel_stream (nStakeModifier prev) (nTime from) (prevout txin) time)));
}.

Lemma in_range_test a lo hi : ((a <? lo) || (a >? hi))%bool = false <-> lo <= a <= hi.
Proof. rewrite orb_false_iff, Z.gtb_ltb, !Z.ltb_ge. done. Qed.

Section pos.

Context (Hash : list Z -> uint256) (Hash_wf : forall b, blob_wf (Hash b)).
Context (VerifyScript : CScript -> CScript -> CTransaction -> Z -> bool).
Context (cs : ChainState) (params : ConsensusParams) (prev : CBlockIndex).
Context (Hrange : 0 <= (stakeValueRange params).1 /\ (stakeValueRange params).2 < 2^63).
Context (Hindex : forall h b, m_block_index cs !! h = Some b -> is_u32 (nTime b)).

Lemma CheckProofOfStake_spec view tx time bits h0 t0 : is_u32 bits -> is_u32 time ->
  exists v h t, CheckProofOfStake Hash VerifyScript cs view params prev tx time bits h0 t0 = Ret (v, h, t) /\
    (v = Accept <-> exists txin coin from, stake_valid VerifyScript Hash cs view params prev tx time bits txin coin from).
Proof.
  intros Hb Ht. unfold CheckProofOfStake.
  assert (Hno : forall e, (forall txin coin from, ~ stake_valid VerifyScript Hash cs view params prev tx time bits txin coin from) ->
     exists v h t, @Ret (verdict PosError * uint256 * uint256) (Reject e, h0, t0) = Ret (v, h, t) /\
       (v = Accept <-> exists txin coin from, stake_valid VerifyScript Hash cs view params prev tx time bits txin coin from)).
  { intros e Hn. do 3 eexists. split; [done|]. split; [done|]. intros (i & c & f & H). by destruct (Hn i c f). }
  destruct (vin tx) as [|txin rest] eqn:Ev; [apply Hno; intros i c f H; pose proof (sv_kernel _ _ _ _ _ _ _ _ _ _ _ _ H) as E; now rewrite Ev in E|].
  destruct (IsCoinStake tx) eqn:Ec; cbn [negb]; [|apply Hno; intros i c f []; congruence].
  assert (Hin : forall i c f, stake_valid VerifyScript Hash cs view params prev tx time bits i c f -> i = txin).
  { intros i c f H. pose proof (sv_kernel _ _ _ _ _ _ _ _ _ _ _ _ H) as E. rewrite Ev in E. now injection E. }
  destruct (view !! prevout txin) as [coin|] eqn:Ew; [|apply Hno; intros i c f H; pose proof (Hin _ _ _ H); subst i; destruct H; congruence].
  destruct (IsSpent coin) eqn:Es; [apply Hno; intros i c f H; pose proof (Hin _ _ _ H); subst i; destruct H; congruence|].
  destruct (chain_at (m_chain cs) (coin_nHeight coin) ≫= (m_block_index cs !!.)) as [from|] eqn:Ef;
    [|apply Hno; intros i c f H; pose proof (Hin _ _ _ H); subst i; destruct H; simplify_eq].
  assert (Hall : forall i c f, stake_valid VerifyScript Hash cs view params prev tx time bits i c f -> i = txin /\ c = coin /\ f = from).
  { intros i c f H. pose proof (Hin _ _ _ H). subst i. destruct H. simplify_eq. done. }
  assert (Hno' : forall e, ~ stake_valid VerifyScript Hash cs view params prev tx time bits txin coin from ->
     exists v h t, @Ret (verdict PosError * uint256 * uint256) (Reject e, h0, t0) = Ret (v, h, t) /\
       (v = Accept <-> exists txin coin from, stake_valid VerifyScript Hash cs view params prev tx time bits txin coin from)).
  { intros e Hn. apply Hno. intros i c f H. destruct (Hall _ _ _ H) as (-> & -> & ->). done. }
  rewrite Z.gtb_ltb. destruct (Z.ltb_spec (nHeight prev - coin_nHeight coin) (COINBASE_MATURITY + 1));
    [apply Hno'; intros []; lia|].
  destruct ((nValue (coin_out coin) <? _) || _)%bool eqn:Ea;
    [apply Hno'; intros []; rewrite (proj2 (in_range_test _ _ _)) in Ea by done; done|apply in_range_test in Ea].
  unfold GetBlockTime. destruct ((time - nTime from <? _) || _)%bool eqn:Eg.
  { apply Hno'; intros [? ? ? ? ? ? ? Hage Hcap ? ?]. apply orb_true_iff in Eg as [Eg|Eg]; bool_hyps; [lia|].
    specialize (Hcap H0). lia. }
  destruct (VerifyScript _ _ _ _) eqn:Evs; cbn [negb]; [|apply Hno'; intros []; congruence].
  assert (Hft : is_u32 (nTime from)).
  { destruct (chain_at _ _) as [p|]; [|done]. now apply (Hindex p). }
  rewrite !u32_id by done.
  destruct (CheckStakeKernelHash_spec Hash Hash_wf prev params bits (nTime from) (nValue (coin_out coin))
    (prevout txin) time h0 t0 Hb ltac:(lia)) as (ok & h & t & -> & Hok).
  cbn [mbind outcome_bind]. do 3 eexists. split; [done|]. split.
  - destruct ok; [|done]. intros _. exists txin, coin, from. apply orb_false_iff in Eg as [Eg1 Eg2].
    apply Z.ltb_ge in Eg1. split; try done; try (now rewrite Ev); try lia; [|now apply Hok].
    intros Hv2. rewrite Hv2 in Eg2. cbn [negb andb] in Eg2. bool_hyps. lia.
  - intros (i & c & f & H'). destruct (Hall _ _ _ H') as (-> & -> & ->).
    rewrite (proj2 Hok); [done|]. exact (sv_wins _ _ _ _ _ _ _ _ _ _ _ _ H').
Qed.

(** The staker's search accepts what validation will accept. *)
Lemma CheckKernel_spec bits time op coin from : is_u32 bits -> is_u32 time ->
  CoinsTip cs !! op = Some coin -> IsSpent coin = false ->
  chain_at (m_chain cs) (coin_nHeight coin) ≫= (m_block_index cs !!.) = Some from ->
  0 <= nValue (coin_out coin) < 2^63 ->
  exists ok bt, CheckKernel Hash cs params prev bits time op = Ret (ok, bt) /\
    (ok = true <-> COINBASE_MATURITY < nHeight prev - coin_nHeight coin /\ nTime from <= time /\
       kernel_wins params (nHeight prev + 1) bits (nValue (coin_out coin))
         (le_val (Hash (kernel_stream (nStakeModifier prev) (nTime from) op time)))).
Proof using Hash_wf Hindex.
  clear Hrange VerifyScript. intros Hb Ht Hc Hs Hf Hv. unfold CheckKernel. rewrite Hc, Hs, Hf, Z.gtb_ltb.
  destruct (Z.ltb_spec (nHeight prev - coin_nHeight coin) (COINBASE_MATURITY + 1)).
  { do 2 eexists. split; [done|]. split; [done|lia]. }
  assert (Hft : is_u32 (nTime from)).
  { destruct (chain_at _ _) as [p|]; [|done]. now apply (Hindex p). }
  unfold GetBlockTime. rewrite !u32_id by done.
  destruct (CheckStakeKernelHash_spec Hash Hash_wf prev params bits (nTime from) (nValue (coin_out coin))
    op time uint256_zero uint256_zero Hb Hv) as (ok & h & t & -> & Hok).
  cbn [mbind outcome_bind]. do 2 eexists. split; [done|]. rewrite Hok. split; [intros; split; [lia|tauto]|tauto].
Qed.

End pos.

Lemma ExpectedStakeTime_spec spacing net w : is_i64 spacing -> is_u64 net -> is_u64 w ->
  ExpectedStakeTime spacing net w
  = Ret (if ((w =? 0) || (spacing <=? 0))%bool then 0 else Z.min INT64_MAX (net * spacing / w)).
Proof.
  unfold is_i64, is_u64, ExpectedStakeTime. intros Hs Hn Hw.
  destruct (Z.eqb_spec w 0) as [->|Hw0]; [done|]. destruct (Z.leb_spec spacing 0); [done|]. cbn [orb].
  rewrite (u64_id spacing) by (unfold is_u64; lia).
  destruct (bu_mul_spec (bu_of_u64 net) (bu_of_u64 spacing) (bu_of_u64_wf _) (bu_of_u64_wf _)) as [Hmw Hmv].
  rewrite !val_of_u64, Z.mod_small in Hmv by (unfold is_u64; nia).
  destruct (bu_div_spec _ (bu_of_u64 w) Hmw (bu_of_u64_wf _)) as (q & -> & Hqw & Hqv);
    [rewrite val_of_u64 by done; done|].
  cbn [deref mbind outcome_bind]. rewrite Hmv, val_of_u64 in Hqv by done.
  assert (Hmax : u64 INT64_MAX = INT64_MAX) by reflexivity.
  rewrite Hmax, bu_gt_spec, Hqv, val_of_u64, Z.gtb_ltb by (done || apply bu_of_u64_wf || (unfold is_u64, INT64_MAX; lia)).
  assert (0 <= net * spacing / w) by (apply Z.div_pos; nia).
  destruct (Z.ltb_spec INT64_MAX (net * spacing / w)); [f_equal; lia|].
  rewrite bu_GetLow64_spec, Hqv by done. unfold INT64_MAX in *. rewrite Z.mod_small by lia.
  f_equal. unfold i64. rewrite Z.mod_small by lia. lia.
Qed.

(** The mask 5 reads the time modulo 8. *)
Lemma main_mask_mod8 x : CheckCoinStakeTimestamp x main_params = (Z.land (x mod 8) 5 =? 0).
Proof.
  unfold CheckCoinStakeTimestamp. change (posTimestampMask main_params) with 5. f_equal.
  apply Z.bits_inj'. intros n Hn. rewrite !Z.land_spec. unfold u32. change 8 with (2^3).
  destruct (Z.lt_ge_cases n 3).
  - rewrite !Z.mod_pow2_bits_low by lia. done.
  - replace (Z.testbit 5 n) with false; [now rewrite !andb_false_r|].
    symmetry. apply Z.bits_above_log2; simpl; lia.
Qed.

(** C3: [CheckProofOfStake] terminates without an exception and accepts
    exactly the coinstakes whose first input is an unspent coin of the given
    view, buried by more than 25 blocks, of a value and an age in range (the
    upper age bound only under the original rules), whose script verifies and
    whose kernel wins. *)
Theorem CheckProofOfStake_accepts (Hash : list Z -> uint256)
    (VerifyScript : CScript -> CScript -> CTransaction -> Z -> bool)
    (cs : ChainState) (view : gmap COutPoint Coin) (params : ConsensusParams) (prev : CBlockIndex)
    (tx : CTransaction) (time bits : Z) (h0 t0 : uint256) :
  (forall b, blob_wf (Hash b)) ->
  0 <= (stakeValueRange params).1 /\ (stakeValueRange params).2 < 2^63 ->
  (forall h b, m_block_index cs !! h = Some b -> is_u32 (nTime b)) ->
  is_u32 bits -> is_u32 time ->
  exists v h t, CheckProofOfStake Hash VerifyScript cs view params prev tx time bits h0 t0 = Ret (v, h, t) /\
    (v = Accept <-> exists txin coin from, stake_valid VerifyScript Hash cs view params prev tx time bits txin coin from).
Proof. intros. now apply CheckProofOfStake_spec. Qed.

Definition demo_stake_state : ChainState :=
  mkChainState demo_index (Some <$> [demo_hash 1; demo_hash 2; demo_hash 3])
    {[mkOutPoint (demo_hash 9) 1 := mkCoin (mkTxOut (20000 * COIN) [0x51]) false 2 false]}.
Definition demo_coinstake : CTransaction :=
  mkTx [mkTxIn (mkOutPoint (demo_hash 9) 1) [] 0xffffffff] [mkTxOut 0 []; mkTxOut (20000 * COIN) [0x51]] 2 0 0 [].

Lemma demo_index_times h b : demo_index !! h = Some b -> is_u32 (nTime b).
Proof.
  assert (H : forallb (fun e => (0 <=? nTime e.2) && (nTime e.2 <? 2^32)) (map_to_list demo_index) = true)
    by (vm_compute; reflexivity).
  rewrite forallb_forall in H. intros Hb. specialize (H (h, b)).
  rewrite <- list_elem_of_In, elem_of_map_to_list in H. specialize (H Hb). simpl in H. bool_hyps. done.
Qed.

Lemma CheckProofOfStake_accepts_witness :
  exists v h t, CheckProofOfStake (fun _ => uint256_of_Z (2^250)) (fun _ _ _ _ => true) demo_stake_state
    (CoinsTip demo_stake_state) (demo_params 0) demo_prev demo_coinstake 2000016 0x1d0fffff uint256_zero uint256_zero
    = Ret (v, h, t) /\ v = Accept.
Proof.
  destruct (CheckProofOfStake_accepts (fun _ => uint256_of_Z (2^250)) (fun _ _ _ _ => true) demo_stake_state
    (CoinsTip demo_stake_state) (demo_params 0) demo_prev demo_coinstake 2000016 0x1d0fffff uint256_zero uint256_zero)
    as (v & h & t & E & H).
  - intros b. apply ArithToUint256_wf.
  - vm_compute. split; [discriminate|reflexivity].
  - exact demo_index_times.
  - unfold is_u32. lia.
  - unfold is_u32. lia.
  - exists v, h, t. split; [exact E|]. apply H.
    exists (mkTxIn (mkOutPoint (demo_hash 9) 1) [] 0xffffffff), (mkCoin (mkTxOut (20000 * COIN) [0x51]) false 2 false),
      (demo_entry (Some 2) (Some 1) 2 0 0x1e0fffff 1020).
    split.
    + reflexivity.
    + reflexivity.
    + vm_compute. reflexivity.
    + reflexivity.
    + vm_compute. reflexivity.
    + reflexivity.
    + split; vm_compute; discriminate.
    + vm_compute. discriminate.
    + intros E'. vm_compute in E'. discriminate E'.
    + reflexivity.
    + split; [vm_compute; discriminate|]. exists (0x0fffff * 2^208). split; [vm_compute; reflexivity|].
      split; vm_compute; reflexivity.
Defined.

(** C4: the staker and the validator agree: when the wallet's search
    [CheckKernel] accepts a coin of the tip, of a value and an age in range,
    then [CheckProofOfStake] on the tip's coins accepts any coinstake that
    spends that coin first and whose script verifies. *)
Theorem CheckKernel_sound (Hash : list Z -> uint256)
    (VerifyScript : CScript -> CScript -> CTransaction -> Z -> bool)
    (cs : ChainState) (params : ConsensusParams) (prev from : CBlockIndex)
    (tx : CTransaction) (txin : CTxIn) (coin : Coin) (time bits : Z) (bt : option Z) (h0 t0 : uint256) :
  (forall b, blob_wf (Hash b)) ->
  0 <= (stakeValueRange params).1 /\ (stakeValueRange params).2 < 2^63 ->
  (forall h b, m_block_index cs !! h = Some b -> is_u32 (nTime b)) ->
  is_u32 bits -> is_u32 time ->
  IsCoinStake tx = true -> head (vin tx) = Some txin ->
  CoinsTip cs !! prevout txin = Some coin -> IsSpent coin = false ->
  chain_at (m_chain cs) (coin_nHeight coin) ≫= (m_block_index cs !!.) = Some from ->
  (stakeValueRange params).1 <= nValue (coin_out coin) <= (stakeValueRange params).2 ->
  (stakeAgeRange params).1 <= time - nTime from ->
  (IsPosKernelV2 params (nHeight prev + 1) = false -> time - nTime from <= (stakeAgeRange params).2) ->
  VerifyScript (scriptSig txin) (scriptPubKey (coin_out coin)) tx (nValue (coin_out coin)) = true ->
  CheckKernel Hash cs params prev bits time (prevout txin) = Ret (true, bt) ->
  exists h t, CheckProofOfStake Hash VerifyScript cs (CoinsTip cs) params prev tx time bits h0 t0 = Ret (Accept, h, t).
Proof.
  intros HH Hr Hi Hb Ht Hcs Hin Hc Hs Hf Hv Ha Hcap Hscr Hck.
  destruct (CheckKernel_spec Hash HH cs params prev Hi bits time (prevout txin) coin from) as (ok & bt' & E & Hok);
    try done; [lia|].
  rewrite Hck in E. injection E as <- _. destruct Hok as [Hok _]. destruct (Hok eq_refl) as (Hd & Hw).
  destruct (CheckProofOfStake_spec Hash HH VerifyScript cs params prev Hr Hi (CoinsTip cs) tx time bits h0 t0 Hb Ht)
    as (v & h & t & E & Hacc).
  exists h, t. rewrite E. rewrite (proj2 Hacc); [done|]. exists txin, coin, from. split; done.
Qed.

Lemma CheckKernel_sound_witness :
  exists h t, CheckProofOfStake (fun _ => uint256_of_Z (2^250)) (fun _ _ _ _ => true) demo_stake_state
    (CoinsTip demo_stake_state) (demo_params 0) demo_prev demo_coinstake 2000016 0x1d0fffff uint256_zero uint256_zero
    = Ret (Accept, h, t).
Proof.
  apply (CheckKernel_sound (fun _ => uint256_of_Z (2^250)) (fun _ _ _ _ => true) demo_stake_state (demo_params 0) demo_prev
    (demo_entry (Some 2) (Some 1) 2 0 0x1e0fffff 1020) demo_coinstake
    (mkTxIn (mkOutPoint (demo_hash 9) 1) [] 0xffffffff) (mkCoin (mkTxOut (20000 * COIN) [0x51]) false 2 false)
    2000016 0x1d0fffff (Some 1020)).
  - intros b. apply ArithToUint256_wf.
  - vm_compute. split; [discriminate|reflexivity].
  - exact demo_index_times.
  - unfold is_u32. lia.
  - unfold is_u32. lia.
  - reflexivity.
  - reflexivity.
  - vm_compute. reflexivity.
  - reflexivity.
  - vm_compute. reflexivity.
  - split; vm_compute; discriminate.
  - vm_compute. discriminate.
  - intros E'. vm_compute in E'. discriminate E'.
  - reflexivity.
  - vm_compute. reflexivity.
Defined.

(** [ExpectedStakeTime] is the floor of [spacing * network / weight]
    on unbounded integers, saturated at the largest [int64_t], and 0 without
    weight or spacing: nothing wraps. *)
Theorem ExpectedStakeTime_exact (spacing network weight : Z) :
  is_i64 spacing -> is_u64 network -> is_u64 weight ->
  ExpectedStakeTime spacing network weight
  = Ret (if ((weight =? 0) || (spacing <=? 0))%bool then 0 else Z.min INT64_MAX (network * spacing / weight)).
Proof. apply ExpectedStakeTime_spec. Qed.

Lemma ExpectedStakeTime_exact_witness : ExpectedStakeTime 150 (2^60) 3 = Ret INT64_MAX.
Proof.
  rewrite (ExpectedStakeTime_exact 150 (2^60) 3); [reflexivity|unfold is_i64; lia|unfold is_u64; lia|unfold is_u64; lia].
Defined.

(** C38: with the mask 5 of the main network, exactly two of any eight
    consecutive seconds are admissible block times: one in four, where scaling
    by [posTimestampMask + 1] assumes one in six. *)
Theorem coinstake_time_density (t : Z) :
  0 <= t -> t + 8 < 2^32 ->
  length (filter (fun i => CheckCoinStakeTimestamp (t + Z.of_nat i) main_params = true) (seq 0 8)) = 2%nat /\
  posTimestampMask main_params + 1 = 6.
Proof.
  intros H0 H1. split; [|reflexivity]. pose proof (Z.mod_pos_bound t 8 ltac:(lia)) as Hr.
  rewrite (list_filter_iff (fun i => CheckCoinStakeTimestamp (t + Z.of_nat i) main_params = true)
             (fun i => CheckCoinStakeTimestamp (t mod 8 + Z.of_nat i) main_params = true)).
  - destruct (Z.eq_dec (t mod 8) 0) as [->|]; [reflexivity|].
    destruct (Z.eq_dec (t mod 8) 1) as [->|]; [reflexivity|]. destruct (Z.eq_dec (t mod 8) 2) as [->|]; [reflexivity|].
    destruct (Z.eq_dec (t mod 8) 3) as [->|]; [reflexivity|]. destruct (Z.eq_dec (t mod 8) 4) as [->|]; [reflexivity|].
    destruct (Z.eq_dec (t mod 8) 5) as [->|]; [reflexivity|]. destruct (Z.eq_dec (t mod 8) 6) as [->|]; [reflexivity|].
    replace (t mod 8) with 7 by lia. reflexivity.
  - intros i. rewrite !main_mask_mod8. rewrite Z.add_mod_idemp_l by lia. done.
Qed.

Lemma coinstake_time_density_witness :
  length (filter (fun i => CheckCoinStakeTimestamp (1768110003 + Z.of_nat i) main_params = true) (seq 0 8)) = 2%nat.
Proof. apply (coinstake_time_density 1768110003); lia. Defined.
