(* ===== verification/BlockStorage.v ===== *)
(** * BlockStorage: adding headers to the block index
      (src/src/node/blockstorage.cpp, src/src/primitives/block.h)

    [AddToBlockIndex] is the only operation that creates entries.  The
    invariants the chain functions rely on are established by it: every index
    reachable from the empty one is well formed. *)

From Stdlib Require Import ZArith Lia.
From stdpp Require Import base list numbers option gmap.
From S2P Require Import Prelude Arith256 Uint256 Serialize Transaction Compact Chain ActiveChain Params Kernel.

(** [CBlockHeader] *)
Record CBlockHeader : Type := mkHeader {
  hdr_nVersion : Z;
  hashPrevBlock : uint256;
  hdr_hashMerkleRoot : uint256;
  hdr_nTime : Z;
  hdr_nBits : Z;
  hdr_nNonce : Z;
}.

(** [CBlockIndex(const CBlockHeader&)]: the header's fields, the rest default *)
Definition block_index_of (block : CBlockHeader) : CBlockIndex :=
  mkBlockIndex None None 0 0 0 0 bu_zero 0 0 0 (hdr_nVersion block) (hdr_hashMerkleRoot block) (hdr_nTime block)
    (hdr_nBits block) (hdr_nNonce block) 0 0 0 0 uint256_zero (mkOutPoint uint256_zero NULL_INDEX) uint256_zero.

(** [BlockManager], with the caller's [best_header] *)
Record BlockManager : Type := mkBlockManager {
  bm_index : gmap uint256 CBlockIndex;
  bm_best_header : option uint256;
  m_dirty_blockindex : gset uint256;
  m_prev_block_index : list (uint256 * uint256);
}.

Definition empty_manager : BlockManager := mkBlockManager ∅ None ∅ [].

(** The fields [AddToBlockIndex] sets on the new entry *)
Definition set_link (b : CBlockIndex) (prev skip : option uint256) (height : Z) (modifier : uint256) : CBlockIndex :=
  mkBlockIndex prev skip height (nFile b) (nDataPos b) (nUndoPos b) (nChainWork b) (nTx b) (nChainTx b) (nStatus b)
    (nVersion b) (hashMerkleRoot b) (nTime b) (nBits b) (nNonce b) (nSequenceId b) (nTimeMax b) (nMint b)
    (nMoneySupply b) modifier (prevoutStake b) (hashProof b).
Definition set_work (b : CBlockIndex) (timemax : Z) (work : list Z) (status : Z) : CBlockIndex :=
  mkBlockIndex (pprev b) (pskip b) (nHeight b) (nFile b) (nDataPos b) (nUndoPos b) work (nTx b) (nChainTx b) status
    (nVersion b) (hashMerkleRoot b) (nTime b) (nBits b) (nNonce b) (nSequenceId b) timemax (nMint b)
    (nMoneySupply b) (nStakeModifier b) (prevoutStake b) (hashProof b).

Section storage.

Context (Hash : list Z -> uint256).

(** The link to the predecessor, looked up after the entry was inserted *)
Definition link_entry (bi : gmap uint256 CBlockIndex) (block : CBlockHeader) (hash : uint256) : outcome CBlockIndex :=
  let new := block_index_of block in
  let bi := <[hash := new]> bi in
  match bi !! hashPrevBlock block with
  | None => Ret new
  | Some p =>
      let height := nHeight p + 1 in
      skip ← BuildSkip bi (Some (hashPrevBlock block)) height;
      Ret (set_link new (Some (hashPrevBlock block)) skip height
             (ComputeStakeModifier Hash (Some p) (op_hash (prevoutStake new))))
  end.

(** The cumulative fields and the status *)
Definition finish_entry (bi : gmap uint256 CBlockIndex) (b : CBlockIndex) (status : Z) : outcome CBlockIndex :=
  let prev := pprev b ≫= (bi !!.) in
  let timemax := match prev with Some p => Z.max (nTimeMax p) (nTime b) | None => nTime b end in
  proof ← GetBlockProof b;
  let work := bu_add (match prev with Some p => nChainWork p | None => bu_of_u64 0 end) proof in
  if negb (Z.land status BLOCK_VALID_MASK =? 0) then
    r ← RaiseValidity (nStatus b) status;
    Ret (set_work b timemax work (r : Z * bool).1)
  else
    r ← RaiseValidity (nStatus b) BLOCK_VALID_TREE;
    Ret (set_work b timemax work (Z.lor (r : Z * bool).1 status)).

(** [BlockManager::AddToBlockIndex] *)
Definition AddToBlockIndex (bm : BlockManager) (block : CBlockHeader) (hash : uint256) (status : Z) : outcome BlockManager :=
  if negb (Z.land status BLOCK_FAILED_MASK =? 0) then Abort
  else
    match bm_index bm !! hash with
    | Some _ => Ret bm
    | None =>
        b ← link_entry (bm_index bm) block hash;
        b ← finish_entry (<[hash := b]> (bm_index bm)) b status;
        let bi := <[hash := b]> (bm_index bm) in
        let best :=
          if negb (Z.land status BLOCK_VALID_MASK =? 0) then
            match bm_best_header bm ≫= (bi !!.) with
            | None => Some hash
            | Some best => if bu_lt (nChainWork best) (nChainWork b) then Some hash else bm_best_header bm
            end
          else bm_best_header bm in
        Ret (mkBlockManager bi best ({[hash]} ∪ m_dirty_blockindex bm)
               (match pprev b with Some p => m_prev_block_index bm ++ [(p, hash)] | None => m_prev_block_index bm end))
    end.

End storage.

(** ** Invariants *)

(** Work and time accumulate along [pprev]. *)
Record cumulative_wf (bi : gmap uint256 CBlockIndex) (b : CBlockIndex) : Prop := {
  cw_bits : is_u32 (nBits b);
  cw_work : bu_wf (nChainWork b);
  cw_sum : val (nChainWork b)
           = (match pprev b ≫= (bi !!.) with Some p => val (nChainWork p) | None => 0 end + block_proof b) mod 2^256;
  cw_time : nTimeMax b = match pprev b ≫= (bi !!.) with Some p => Z.max (nTimeMax p) (nTime b) | None => nTime b end;
}.

Definition index_wf (bi : gmap uint256 CBlockIndex) : Prop :=
  tree_wf bi /\ forall h b, bi !! h = Some b -> cumulative_wf bi b.

(** The best header is an entry. *)
Definition manager_wf (bm : BlockManager) : Prop :=
  index_wf (bm_index bm) /\
  (forall h, bm_best_header bm = Some h -> is_Some (bm_index bm !! h)).

(** Reachable managers: headers added in any order, none its own parent. *)
Inductive bm_reachable (Hash : list Z -> uint256) : BlockManager -> Prop :=
| bm_init : bm_reachable Hash empty_manager
| bm_add bm block hash status bm' :
    bm_reachable Hash bm -> hash <> hashPrevBlock block -> is_u32 (hdr_nBits block) ->
    AddToBlockIndex Hash bm block hash status = Ret bm' -> bm_reachable Hash bm'.

(** ** Inserting a new entry *)

Section insert.

Context (bi : gmap uint256 CBlockIndex) (Hwf : tree_wf bi) (hash : uint256) (Hnew : bi !! hash = None).

Lemma walk_insert e n : forall h b, bi !! h = Some b -> walk (<[hash := e]> bi) n h = walk bi n h.
Proof.
  induction n as [|n IH]; intros h b Hb; [done|]. cbn [walk].
  rewrite lookup_insert_ne by congruence. rewrite Hb. cbn [mbind option_bind].
  destruct (pprev b) as [p|] eqn:Hp; [|done]. cbn [mbind option_bind].
  destruct (pprev_height bi Hwf _ _ _ Hb Hp) as (pb & Hpb & _). now apply (IH p pb).
Qed.

Lemma entry_wf_insert e h b : bi !! h = Some b -> entry_wf (<[hash := e]> bi) h b.
Proof.
  intros Hb. destruct (Hwf h b Hb) as [H1 H2 H3]. split; [done| |].
  - destruct (pprev b) as [p|]; [|done]. destruct H2 as (pb & Hpb & Hh).
    exists pb. rewrite lookup_insert_ne by congruence. done.
  - intros s Hs. rewrite (walk_insert e _ h b) by done. now apply H3.
Qed.

(** [GetAncestor] of an old entry does not see the new one. *)
Lemma GetAncestor_insert e h b k : bi !! h = Some b -> nHeight e = 0 -> pprev e = None -> pskip e = None ->
  GetAncestor (<[hash := e]> bi) h k = GetAncestor bi h k.
Proof.
  intros Hb He1 He2 He3.
  assert (Hwf' : tree_wf (<[hash := e]> bi)).
  { intros h' b'. rewrite lookup_insert_Some. intros [[<- <-]|[_ Hb']]; [|now apply entry_wf_insert].
    split; [lia|now rewrite He2|]. intros s Hs. congruence. }
  rewrite (GetAncestor_walk _ Hwf' h b) by (rewrite lookup_insert_ne; [done|congruence]).
  rewrite (GetAncestor_walk bi Hwf h b) by done. rewrite (walk_insert e _ h b) by done. done.
Qed.

(** The linked entry: height, skip pointer and predecessor of the new node. *)
Lemma link_entry_spec Hash block b : hash <> hashPrevBlock block -> link_entry Hash bi block hash = Ret b ->
  nBits b = hdr_nBits block /\ nTime b = hdr_nTime block /\
  match bi !! hashPrevBlock block with
  | None => pprev b = None /\ pskip b = None /\ nHeight b = 0
  | Some p => pprev b = Some (hashPrevBlock block) /\ nHeight b = nHeight p + 1 /\
              exists s, pskip b = Some s /\
                walk bi (Z.to_nat (nHeight p - GetSkipHeight (nHeight p + 1))) (hashPrevBlock block) = Some s
  end.
Proof.
  intros Hne. unfold link_entry. rewrite lookup_insert_ne by done.
  destruct (bi !! hashPrevBlock block) as [p|] eqn:Hp; [|intros [= <-]; done].
  pose proof (height_nonneg bi Hwf _ _ Hp) as Hpos. pose proof (GetSkipHeight_bounds (nHeight p + 1) ltac:(lia)).
  unfold BuildSkip. rewrite (GetAncestor_insert (block_index_of block) _ p) by done.
  rewrite (GetAncestor_walk bi Hwf _ p) by done. rewrite !(proj2 (Z.leb_le _ _)) by lia. cbn [andb mbind outcome_bind].
  destruct (walk_total bi Hwf (Z.to_nat (nHeight p - GetSkipHeight (nHeight p + 1))) _ p Hp) as (q & qb & Hq & _); [lia|].
  rewrite Hq. intros [= <-]. cbn. split_and!; try done. now exists q.
Qed.

Lemma tree_wf_link Hash block b b' : hash <> hashPrevBlock block -> link_entry Hash bi block hash = Ret b ->
  pprev b' = pprev b -> pskip b' = pskip b -> nHeight b' = nHeight b -> tree_wf (<[hash := b']> bi).
Proof.
  intros Hne Hl E1 E2 E3. destruct (link_entry_spec Hash block b Hne Hl) as (_ & _ & H).
  intros h x. rewrite lookup_insert_Some. intros [[<- <-]|[_ Hx]]; [|now apply entry_wf_insert].
  destruct (bi !! hashPrevBlock block) as [p|] eqn:Hp.
  - destruct H as (Hprev & Hh & s & Hs & Hw). pose proof (height_nonneg bi Hwf _ _ Hp) as Hpos.
    pose proof (GetSkipHeight_bounds (nHeight p + 1) ltac:(lia)). split.
    + lia.
    + rewrite E1, Hprev. exists p. rewrite lookup_insert_ne by done. split; [done|lia].
    + rewrite E2, Hs. intros s' [= <-]. rewrite E3, Hh.
      replace (Z.to_nat (nHeight p + 1 - GetSkipHeight (nHeight p + 1)))
        with (S (Z.to_nat (nHeight p - GetSkipHeight (nHeight p + 1)))) by lia.
      cbn [walk]. rewrite lookup_insert_eq. cbn [mbind option_bind]. rewrite E1, Hprev. cbn [mbind option_bind].
      now rewrite (walk_insert b' _ _ p).
  - destruct H as (Hprev & Hs & Hh). split; [lia|rewrite E1, Hprev; lia|]. intros s. congruence.
Qed.

End insert.

(** What [finish_entry] sets. *)
Lemma finish_entry_spec bi b status b' : is_u32 (nBits b) ->
  (forall p, pprev b ≫= (bi !!.) = Some p -> bu_wf (nChainWork p)) ->
  finish_entry bi b status = Ret b' ->
  pprev b' = pprev b /\ pskip b' = pskip b /\ nHeight b' = nHeight b /\ nBits b' = nBits b /\ nTime b' = nTime b /\
  block_proof b' = block_proof b /\ bu_wf (nChainWork b') /\
  val (nChainWork b') = (match pprev b ≫= (bi !!.) with Some p => val (nChainWork p) | None => 0 end + block_proof b) mod 2^256 /\
  nTimeMax b' = match pprev b ≫= (bi !!.) with Some p => Z.max (nTimeMax p) (nTime b) | None => nTime b end.
Proof.
  intros Hb Hp. unfold finish_entry. destruct (GetBlockProof_spec b Hb) as (w & -> & Hw & Hwv).
  cbn [mbind outcome_bind]. set (prev := pprev b ≫= (bi !!.)) in *.
  set (base := match prev with Some p => nChainWork p | None => bu_of_u64 0 end).
  assert (Hbase : bu_wf base /\ val base = match prev with Some p => val (nChainWork p) | None => 0 end).
  { subst base. destruct prev as [p|]; [split; [now apply Hp|done]|].
    split; [apply bu_of_u64_wf|apply val_of_u64; unfold is_u64; lia]. }
  destruct Hbase as [Hbw Hbv]. destruct (bu_add_spec base w Hbw Hw) as [Haw Hav]. rewrite Hwv, Hbv in Hav.
  destruct (negb (Z.land status BLOCK_VALID_MASK =? 0)).
  - destruct (RaiseValidity (nStatus b) status) as [r|]; [|done]. intros [= <-]. cbn. split_and!; done.
  - destruct (RaiseValidity (nStatus b) BLOCK_VALID_TREE) as [r|]; [|done]. intros [= <-]. cbn. split_and!; done.
Qed.

Lemma cumulative_insert bi hash e b : tree_wf bi -> bi !! hash = None -> forall h, bi !! h = Some b ->
  cumulative_wf bi b -> cumulative_wf (<[hash := e]> bi) b.
Proof.
  intros Hwf Hnew h Hb [H1 H2 H3 H4].
  assert (E : pprev b ≫= (<[hash := e]> bi !!.) = pprev b ≫= (bi !!.)).
  { destruct (pprev b) as [p|] eqn:Hp; [|done]. cbn.
    destruct (pprev_height bi Hwf _ _ _ Hb Hp) as (pb & Hpb & _). rewrite lookup_insert_ne; [done|congruence]. }
  split; [done|done|now rewrite E|now rewrite E].
Qed.

Lemma AddToBlockIndex_wf Hash bm block hash status bm' : manager_wf bm -> hash <> hashPrevBlock block ->
  is_u32 (hdr_nBits block) -> AddToBlockIndex Hash bm block hash status = Ret bm' -> manager_wf bm'.
Proof.
  intros [[Htree Hcum] Hbest] Hne Hbits. unfold AddToBlockIndex.
  destruct (negb (Z.land status BLOCK_FAILED_MASK =? 0)); [done|].
  destruct (bm_index bm !! hash) eqn:Hnew; [intros [= <-]; done|].
  destruct (link_entry Hash (bm_index bm) block hash) as [b|] eqn:Hl; [|done]. cbn [mbind outcome_bind].
  destruct (link_entry_spec _ Htree hash Hnew Hash block b Hne Hl) as (Eb & Et & Hlink).
  destruct (finish_entry (<[hash := b]> (bm_index bm)) b status) as [b'|] eqn:Hf; [|done]. cbn [mbind outcome_bind].
  assert (Hprev : forall e, pprev b ≫= (<[hash := e]> (bm_index bm) !!.) = pprev b ≫= (bm_index bm !!.)).
  { intros e. destruct (bm_index bm !! hashPrevBlock block) as [p|].
    - destruct Hlink as (-> & _). cbn. now rewrite lookup_insert_ne.
    - destruct Hlink as (-> & _). done. }
  destruct (finish_entry_spec (<[hash := b]> (bm_index bm)) b status b') as (P1 & P2 & P3 & P4 & P5 & P6 & P7 & P8 & P9).
  { now rewrite Eb. }
  { intros p. rewrite Hprev. destruct (pprev b) as [q|]; [|done]. cbn. intros Hq. apply (cw_work _ _ (Hcum _ _ Hq)). }
  { exact Hf. }
  intros [= <-]. unfold manager_wf, index_wf. cbn [bm_index bm_best_header]. split; [split|].
  - now apply (tree_wf_link _ Htree hash Hnew Hash block b b').
  - intros h x. rewrite lookup_insert_Some. intros [[<- <-]|[Hh Hx]].
    + split; [now rewrite P4, Eb|done| |].
      * rewrite P1, Hprev, P6. rewrite Hprev in P8. exact P8.
      * rewrite P1, Hprev, P5. rewrite Hprev in P9. exact P9.
    + apply (cumulative_insert _ hash b' x Htree Hnew h Hx). now apply (Hcum h).
  - intros h Hh. destruct (decide (h = hash)) as [->|Hhne]; [rewrite lookup_insert_eq; eauto|].
    rewrite lookup_insert_ne by done. apply Hbest.
    destruct (negb _); [|done]. destruct (bm_best_header bm ≫= _); [|congruence]. destruct (bu_lt _ _); congruence.
Qed.

Lemma reachable_wf Hash bm : bm_reachable Hash bm -> manager_wf bm.
Proof.
  induction 1 as [|bm block hash status bm' _ IH Hne Hb Hadd].
  - split; [split|]; cbn; [intros h b Hb|intros h b Hb|done]; rewrite lookup_empty in Hb; done.
  - now apply (AddToBlockIndex_wf Hash bm block hash status).
Qed.

(** The statuses entries are added with *)
Definition add_status (status : Z) : Prop := 0 <= status <= BLOCK_VALID_SCRIPTS \/ status = BLOCK_CONFLICT_CHAINLOCK.

Lemma finish_entry_total bi b status : nStatus b = 0 -> is_u32 (nBits b) -> add_status status -> exists b', finish_entry bi b status = Ret b'.
Proof.
  intros Hb0 Hbits Hs. unfold finish_entry. destruct (GetBlockProof_spec b Hbits) as (w & -> & _). cbn [mbind outcome_bind]. rewrite Hb0.
  destruct Hs as [Hs| ->]; [|eexists; reflexivity].
  assert (Hst : status = 0 \/ status = 1 \/ status = 2 \/ status = 3 \/ status = 4 \/ status = 5)
    by (unfold BLOCK_VALID_SCRIPTS in Hs; lia).
  destruct Hst as [-> | [-> | [-> | [-> | [-> | ->]]]]]; eexists; reflexivity.
Qed.

(** Without failure flags adding never aborts. *)
Lemma AddToBlockIndex_total Hash bm block hash status : manager_wf bm -> hash <> hashPrevBlock block ->
  is_u32 (hdr_nBits block) -> add_status status ->
  exists bm', AddToBlockIndex Hash bm block hash status = Ret bm'.
Proof.
  intros [[Htree Hcum] _] Hne Hbits Hs. unfold AddToBlockIndex.
  assert (Z.land status BLOCK_FAILED_MASK = 0) as ->.
  { destruct Hs as [Hs| ->]; [|done].
    assert (Hst : status = 0 \/ status = 1 \/ status = 2 \/ status = 3 \/ status = 4 \/ status = 5)
      by (unfold BLOCK_VALID_SCRIPTS in Hs; lia).
    destruct Hst as [-> | [-> | [-> | [-> | [-> | ->]]]]]; reflexivity. }
  cbn [Z.eqb negb]. destruct (bm_index bm !! hash) eqn:Hnew; [eauto|].
  assert (Hl : exists b, link_entry Hash (bm_index bm) block hash = Ret b /\ nStatus b = 0 /\ nBits b = hdr_nBits block).
  { unfold link_entry. rewrite lookup_insert_ne by done.
    destruct (bm_index bm !! hashPrevBlock block) as [p|] eqn:Hp; [|eauto].
    unfold BuildSkip. rewrite (GetAncestor_insert _ Htree hash Hnew (block_index_of block) _ p) by done.
    rewrite (GetAncestor_walk _ Htree _ p) by done. cbn [mbind outcome_bind]. eauto. }
  destruct Hl as (b & -> & Hb0 & Hbb). cbn [mbind outcome_bind].
  destruct (finish_entry_total (<[hash := b]> (bm_index bm)) b status) as [b' ->]; [done|by rewrite Hbb|done|].
  cbn [mbind outcome_bind]. eexists. reflexivity.
Qed.

(** ** Properties *)

(** Every block index built by [AddToBlockIndex] from the empty one, with
    headers arriving in any order, is well formed: heights count the steps to a
    root, skip pointers lead where [GetAncestor] expects them, the chain work
    is the sum of the block proofs modulo 2^256, and [nTimeMax] is the maximum
    of the times so far; in such an index adding a further header with a
    validity level never fails an assertion. *)
Theorem reachable_index_wf (Hash : list Z -> uint256) (bm : BlockManager) :
  bm_reachable Hash bm ->
  index_wf (bm_index bm) /\ time_max_wf (bm_index bm) /\
  (forall block hash status, hash <> hashPrevBlock block -> is_u32 (hdr_nBits block) ->
     0 <= status <= BLOCK_VALID_SCRIPTS -> exists bm', AddToBlockIndex Hash bm block hash status = Ret bm').
Proof.
  intros Hr. pose proof (reachable_wf Hash bm Hr) as Hm. destruct (Hm) as [[Ht Hc] _]. split; [done|]. split.
  - intros h b p pb Hb Hp Hpb. rewrite (cw_time _ _ (Hc h b Hb)), Hp. cbn. rewrite Hpb. lia.
  - intros. apply AddToBlockIndex_total; try done. by left.
Qed.

Lemma reachable_index_wf_witness :
  exists bm, AddToBlockIndex (fun _ => uint256_zero) empty_manager
    (mkHeader 1 (demo_hash 9) (demo_hash 0) 1000 0x207fffff 1) (demo_hash 1) BLOCK_VALID_TREE = Ret bm /\
    index_wf (bm_index bm).
Proof.
  assert (Hu : is_u32 0x207fffff) by (unfold is_u32; lia).
  destruct (reachable_index_wf (fun _ => uint256_zero) empty_manager (bm_init _)) as (_ & _ & Hadd).
  destruct (Hadd (mkHeader 1 (demo_hash 9) (demo_hash 0) 1000 0x207fffff 1) (demo_hash 1) BLOCK_VALID_TREE)
    as [bm Hbm]; [discriminate|exact Hu|unfold BLOCK_VALID_TREE, BLOCK_VALID_SCRIPTS; lia|].
  exists bm. split; [exact Hbm|].
  apply (reachable_index_wf (fun _ => uint256_zero)).
  apply (bm_add _ empty_manager _ _ _ _ (bm_init _)) in Hbm; [exact Hbm|discriminate|exact Hu].
Defined.
