(* ===== verification/HeaderCheck.v ===== *)
(** * HeaderCheck: the rules a block header must satisfy
      (src/src/validation.cpp, src/src/node/blockstorage.cpp,
       src/src/deploymentstatus.h, src/src/consensus/validation.h)

    [AcceptBlockHeader] checks a header against its parent and adds it to the
    block index.  Whatever sequence of headers arrives, and whatever else the node
    records about the blocks in between, every entry of the index satisfies the
    rules on time, difficulty, nonce and ancestry, and keeps satisfying them. *)

From Stdlib Require Import ZArith Lia.
From stdpp Require Import base list numbers option gmap.
From S2P Require Import Prelude Arith256 Uint256 Serialize Transaction Compact Chain ActiveChain VersionBits Params Pow Kernel BlockStorage.

(** [BlockValidationResult] *)
Inductive BlockValidationResult : Type :=
| BLOCK_RESULT_UNSET
| BLOCK_CONSENSUS
| BLOCK_RECENT_CONSENSUS_CHANGE
| BLOCK_CACHED_INVALID
| BLOCK_INVALID_HEADER
| BLOCK_MUTATED
| BLOCK_MISSING_PREV
| BLOCK_INVALID_PREV
| BLOCK_TIME_FUTURE
| BLOCK_CHECKPOINT
| BLOCK_CHAINLOCK.

#[export] Instance BlockValidationResult_eq_dec : EqDecision BlockValidationResult.
Proof. solve_decision. Defined.

(** The reject reasons of the header rules *)
Inductive HeaderReason : Type :=
| high_hash
| devnet_genesis
| bad_pos_nonce
| bad_pos_time
| bad_fork_recovery_anchor
| bad_diffbits
| bad_fork_prior_to_checkpoint
| time_too_old
| time_too_new
| bad_version
| duplicate
| prev_blk_not_found
| bad_prevblk
| bad_prevblk_chainlock
| bad_chainlock.

Definition header_verdict : Type := verdict (BlockValidationResult * HeaderReason).
Definition invalid {R} (result : BlockValidationResult) (reason : R) : verdict (BlockValidationResult * R) := Reject (result, reason).

(** The parameters of the chain that the rules read, besides [ConsensusParams];
    the checkpoints in order of height *)
Record ChainRules : Type := mkRules {
  consensus : ConsensusParams;
  hashGenesisBlock : uint256;
  hashDevnetGenesisBlock : uint256;
  BIP34Height : Z;
  BIP65Height : Z;
  BIP66Height : Z;
  CSVHeight : Z;
  DIP0001Height : Z;
  DIP0003Height : Z;
  nDSLActivationHeight : Z;
  nPosCoinbaseBoundActivationHeight : Z;
  nPosFeeBurnActivationHeight : Z;
  nPosBlockTimeBoundActivationHeight : Z;
  nForkRecoveryAnchorHeight : Z;
  hashForkRecoveryAnchor : uint256;
  nForkRecoveryActivationHeight : Z;
  mapCheckpoints : list (Z * uint256);
}.

Definition MAX_FUTURE_BLOCK_TIME : Z := 3 * 60.

(** The buried deployments that the rules on headers and blocks read *)
Inductive BuriedDeployment : Type :=
| DEPLOYMENT_HEIGHTINCB
| DEPLOYMENT_DERSIG
| DEPLOYMENT_CLTV
| DEPLOYMENT_CSV.

(** [Params::DeploymentHeight], [DeploymentActiveAfter] *)
Definition DeploymentHeight (rules : ChainRules) (dep : BuriedDeployment) : Z :=
  match dep with
  | DEPLOYMENT_HEIGHTINCB => BIP34Height rules
  | DEPLOYMENT_DERSIG => BIP66Height rules
  | DEPLOYMENT_CLTV => BIP65Height rules
  | DEPLOYMENT_CSV => CSVHeight rules
  end.
Definition DeploymentActiveAfter (pindexPrev : option CBlockIndex) (rules : ChainRules) (dep : BuriedDeployment) : bool :=
  (match pindexPrev with None => 0 | Some p => nHeight p + 1 end) >=? DeploymentHeight rules dep.

(** [CheckPosCoinbaseValue], [PosFeesAreBurned], [CheckPosBlockTime], [CheckPosBlockNonce] *)
Definition CheckPosCoinbaseValue (nHeight coinbaseValueOut expected : Z) (rules : ChainRules) : bool :=
  if nHeight <? nPosCoinbaseBoundActivationHeight rules then true
  else if nHeight <=? lastPowBlock (consensus rules) then true
  else coinbaseValueOut <=? expected.
Definition PosFeesAreBurned (nHeight : Z) (rules : ChainRules) : bool := nHeight >=? nPosFeeBurnActivationHeight rules.
Definition CheckPosBlockTime (nHeight nTime nPrevTime : Z) (rules : ChainRules) : bool :=
  if nHeight <? nPosBlockTimeBoundActivationHeight rules then true
  else if nHeight <=? lastPowBlock (consensus rules) then true
  else nTime >? nPrevTime.
Definition CheckPosBlockNonce (nHeight nNonce : Z) (rules : ChainRules) : bool :=
  if nHeight <=? lastPowBlock (consensus rules) then true else nNonce =? 0.

(** [IsForkRecoveryAnchorValid] *)
Definition IsForkRecoveryAnchorValid (bi : gmap uint256 CBlockIndex) (chain_tip : option uint256) (validation_height : Z) (rules : ChainRules) : outcome bool :=
  if ((nForkRecoveryActivationHeight rules <? 0) || (validation_height <? nForkRecoveryActivationHeight rules))%bool then Ret true
  else
    match chain_tip with
    | None => Ret false
    | Some tip =>
        if ((nForkRecoveryAnchorHeight rules <? 0) || IsNull (hashForkRecoveryAnchor rules))%bool then Ret false
        else
          t ← deref (bi !! tip);
          if nHeight t <? nForkRecoveryAnchorHeight rules then Ret false
          else
            anchor ← GetAncestor bi tip (nForkRecoveryAnchorHeight rules);
            Ret (match anchor with None => false | Some a => bool_decide (a = hashForkRecoveryAnchor rules) end)
    end.

(** [BlockManager::GetLastCheckpoint] *)
Definition GetLastCheckpoint (bi : gmap uint256 CBlockIndex) (checkpoints : list (Z * uint256)) : option CBlockIndex :=
  (fix loop l := match l with [] => None | i :: l => match bi !! (i : Z * uint256).2 with Some b => Some b | None => loop l end end) (rev checkpoints).

(** [CheckBlockHeader] *)
Definition CheckBlockHeader (rules : ChainRules) (block : CBlockHeader) (hash : uint256) (fCheckPOW : bool) : header_verdict :=
  if (fCheckPOW && negb (CheckProofOfWork hash (hdr_nBits block) (consensus rules)))%bool then invalid BLOCK_INVALID_HEADER high_hash
  else if (negb (IsNull (hashDevnetGenesisBlock rules)) && bool_decide (hashPrevBlock block = hashGenesisBlock rules) &&
           negb (bool_decide (hash = hashDevnetGenesisBlock rules)))%bool
  then invalid BLOCK_CONSENSUS devnet_genesis
  else Accept.

(** [ContextualCheckBlockHeader] *)
Definition ContextualCheckBlockHeader (rules : ChainRules) (fCheckpointsEnabled : bool) (bi : gmap uint256 CBlockIndex)
    (block : CBlockHeader) (pindexPrev : uint256) (nAdjustedTime : Z) : outcome header_verdict :=
  prev ← deref (bi !! pindexPrev);
  let nHeight := nHeight prev + 1 in
  if negb (CheckPosBlockNonce nHeight (hdr_nNonce block) rules) then Ret (invalid BLOCK_CONSENSUS bad_pos_nonce)
  else if negb (CheckPosBlockTime nHeight (hdr_nTime block) (GetBlockTime prev) rules) then Ret (invalid BLOCK_INVALID_HEADER bad_pos_time)
  else
    anchored ← IsForkRecoveryAnchorValid bi (Some pindexPrev) nHeight rules;
    if negb anchored then Ret (invalid BLOCK_RECENT_CONSENSUS_CHANGE bad_fork_recovery_anchor)
    else
      required ← GetNextWorkRequired bi (Some pindexPrev) (consensus rules);
      if negb (hdr_nBits block =? required) then Ret (invalid BLOCK_INVALID_HEADER bad_diffbits)
      else if (fCheckpointsEnabled &&
               match GetLastCheckpoint bi (mapCheckpoints rules) with
               | Some pcheckpoint => nHeight <? Chain.nHeight pcheckpoint
               | None => false
               end)%bool
      then Ret (invalid BLOCK_CHECKPOINT bad_fork_prior_to_checkpoint)
      else if hdr_nTime block <=? GetMedianTimePast bi pindexPrev then Ret (invalid BLOCK_INVALID_HEADER time_too_old)
      else if hdr_nTime block >? nAdjustedTime + MAX_FUTURE_BLOCK_TIME then Ret (invalid BLOCK_TIME_FUTURE time_too_new)
      else if (((hdr_nVersion block <? 2) && DeploymentActiveAfter (Some prev) rules DEPLOYMENT_HEIGHTINCB) ||
               ((hdr_nVersion block <? 3) && DeploymentActiveAfter (Some prev) rules DEPLOYMENT_DERSIG) ||
               ((hdr_nVersion block <? 4) && DeploymentActiveAfter (Some prev) rules DEPLOYMENT_CLTV))%bool
      then Ret (invalid BLOCK_INVALID_HEADER bad_version)
      else Ret Accept.

(** ** AcceptBlockHeader *)

(** [ChainstateManager]: the block manager and [m_failed_blocks], in the order in
    which the set is iterated *)
Record ChainstateManager : Type := mkManager {
  m_blockman : BlockManager;
  m_failed_blocks : list uint256;
}.

Definition set_status (b : CBlockIndex) (status : Z) : CBlockIndex :=
  mkBlockIndex (pprev b) (pskip b) (nHeight b) (nFile b) (nDataPos b) (nUndoPos b) (nChainWork b) (nTx b) (nChainTx b) status
    (nVersion b) (hashMerkleRoot b) (nTime b) (nBits b) (nNonce b) (nSequenceId b) (nTimeMax b) (nMint b)
    (nMoneySupply b) (nStakeModifier b) (prevoutStake b) (hashProof b).

(** The walk from the parent to a failed block, marking what is between them *)
Fixpoint mark_loop (fuel : nat) (bm : BlockManager) (invalid_walk failedit : uint256) : outcome BlockManager :=
  if bool_decide (invalid_walk = failedit) then Ret bm
  else
    match fuel with
    | O => Abort
    | S fuel =>
        b ← deref (bm_index bm !! invalid_walk);
        let bm := mkBlockManager (<[invalid_walk := set_status b (Z.lor (nStatus b) BLOCK_FAILED_CHILD)]> (bm_index bm)) (bm_best_header bm)
                    ({[invalid_walk]} ∪ m_dirty_blockindex bm) (m_prev_block_index bm) in
        p ← deref (pprev b);
        mark_loop fuel bm p failedit
    end.

(** The loop over [m_failed_blocks]: the marked index, when the parent descends
    from one of them *)
Fixpoint failed_loop (failed : list uint256) (bm : BlockManager) (pindexPrev : uint256) : outcome (option BlockManager) :=
  match failed with
  | [] => Ret None
  | failedit :: failed =>
      f ← deref (bm_index bm !! failedit);
      a ← GetAncestor (bm_index bm) pindexPrev (nHeight f);
      if bool_decide (a = Some failedit) then
        if Z.land (nStatus f) BLOCK_FAILED_VALID =? 0 then Abort
        else
          prev ← deref (bm_index bm !! pindexPrev);
          bm ← mark_loop (Z.to_nat (nHeight prev)) bm pindexPrev failedit;
          Ret (Some bm)
      else failed_loop failed bm pindexPrev
  end.

Section accept.

(** The hash of a header (X11), the hash of the stake modifier, the settings of the
    chain, and the conflicts with the best ChainLock *)
Context (GetHash : CBlockHeader -> uint256) (Hash : list Z -> uint256) (rules : ChainRules).

(** The part of [AcceptBlockHeader] for a header that is not the genesis block nor
    known: the verdict and the state, which a refusal can have changed *)
Definition check_new_header (fCheckpointsEnabled : bool) (HasConflictingChainLock : Z -> uint256 -> bool) (nAdjustedTime : Z)
    (s : ChainstateManager) (block : CBlockHeader) (hash : uint256) (header_only : bool) : outcome (header_verdict * ChainstateManager) :=
  let bm := m_blockman s in
  match bm_index bm !! hashPrevBlock block with
  | None => Ret (invalid BLOCK_MISSING_PREV prev_blk_not_found, s)
  | Some prev =>
      let require_pow := nHeight prev + 1 <=? lastPowBlock (consensus rules) in
      match CheckBlockHeader rules block hash require_pow with
      | Reject e => Ret (Reject e, s)
      | Accept =>
          if negb (Z.land (nStatus prev) BLOCK_FAILED_MASK =? 0) then Ret (invalid BLOCK_INVALID_PREV bad_prevblk, s)
          else if negb (Z.land (nStatus prev) BLOCK_CONFLICT_CHAINLOCK =? 0) then Ret (invalid BLOCK_CHAINLOCK bad_prevblk_chainlock, s)
          else
            v ← ContextualCheckBlockHeader rules fCheckpointsEnabled (bm_index bm) block (hashPrevBlock block) nAdjustedTime;
            match v with
            | Reject e => Ret (Reject e, s)
            | Accept =>
                valid ← IsValid (nStatus prev) BLOCK_VALID_SCRIPTS;
                marked ← (if negb valid then failed_loop (m_failed_blocks s) bm (hashPrevBlock block) else Ret None);
                match marked with
                | Some bm => Ret (invalid BLOCK_INVALID_PREV bad_prevblk, mkManager bm (m_failed_blocks s))
                | None =>
                    if HasConflictingChainLock (nHeight prev + 1) hash then
                      bm ← (if negb header_only then AddToBlockIndex Hash bm block hash BLOCK_CONFLICT_CHAINLOCK else Ret bm);
                      Ret (invalid BLOCK_CHAINLOCK bad_chainlock, mkManager bm (m_failed_blocks s))
                    else Ret (Accept, s)
                end
            end
      end
  end.

(** [ChainstateManager::AcceptBlockHeader]: the verdict, the entry it sets and the state *)
Definition AcceptBlockHeader (fCheckpointsEnabled : bool) (HasConflictingChainLock : Z -> uint256 -> bool) (nAdjustedTime : Z)
    (s : ChainstateManager) (block : CBlockHeader) (header_only : bool) : outcome (header_verdict * option uint256 * ChainstateManager) :=
  let hash := GetHash block in
  let add (s : ChainstateManager) :=
    bm ← AddToBlockIndex Hash (m_blockman s) block hash BLOCK_VALID_TREE;
    Ret (Accept, Some hash, mkManager bm (m_failed_blocks s)) in
  if bool_decide (hash = hashGenesisBlock rules) then add s
  else
    match bm_index (m_blockman s) !! hash with
    | Some b =>
        if negb (Z.land (nStatus b) BLOCK_FAILED_MASK =? 0) then Ret (invalid BLOCK_CACHED_INVALID duplicate, Some hash, s)
        else if negb (Z.land (nStatus b) BLOCK_CONFLICT_CHAINLOCK =? 0) then Ret (invalid BLOCK_CHAINLOCK duplicate, Some hash, s)
        else Ret (Accept, Some hash, s)
    | None =>
        '(v, s) ← check_new_header fCheckpointsEnabled HasConflictingChainLock nAdjustedTime s block hash header_only;
        match v with
        | Reject e => Ret (Reject e, None, s)
        | Accept => add s
        end
    end.

(** The loop of [ProcessNewBlockHeaders]: the verdict, the last entry accepted *)
Fixpoint ProcessNewBlockHeaders (fCheckpointsEnabled : bool) (HasConflictingChainLock : Z -> uint256 -> bool) (nAdjustedTime : Z)
    (s : ChainstateManager) (headers : list CBlockHeader) (ppindex : option uint256) : outcome (header_verdict * option uint256 * ChainstateManager) :=
  match headers with
  | [] => Ret (Accept, ppindex, s)
  | header :: headers =>
      '(v, pindex, s) ← AcceptBlockHeader fCheckpointsEnabled HasConflictingChainLock nAdjustedTime s header true;
      match v with
      | Reject e => Ret (Reject e, ppindex, s)
      | Accept => ProcessNewBlockHeaders fCheckpointsEnabled HasConflictingChainLock nAdjustedTime s headers pindex
      end
  end.

End accept.

(** ** Indexes that agree on headers and links

    Entries change while a node runs: validity flags, file positions, transaction
    counts and the data of the stake. What comes from the header, the links and
    the accumulated work stays. *)

Record same_header (b b' : CBlockIndex) : Prop := {
  sh_pprev : pprev b' = pprev b;
  sh_pskip : pskip b' = pskip b;
  sh_height : nHeight b' = nHeight b;
  sh_work : nChainWork b' = nChainWork b;
  sh_version : nVersion b' = nVersion b;
  sh_root : hashMerkleRoot b' = hashMerkleRoot b;
  sh_time : nTime b' = nTime b;
  sh_bits : nBits b' = nBits b;
  sh_nonce : nNonce b' = nNonce b;
  sh_timemax : nTimeMax b' = nTimeMax b;
}.

(** The second index has the entries of the first, and perhaps others. *)
Definition extends (bi bi' : gmap uint256 CBlockIndex) : Prop :=
  forall h b, bi !! h = Some b -> exists b', bi' !! h = Some b' /\ same_header b b'.

Lemma same_header_refl b : same_header b b.
Proof. by split. Qed.
Lemma same_header_status b st : same_header b (set_status b st).
Proof. by split. Qed.
Lemma same_header_trans a b c : same_header a b -> same_header b c -> same_header a c.
Proof. intros [] []. split; congruence. Qed.
Lemma same_header_sym a b : same_header a b -> same_header b a.
Proof. intros []. by split. Qed.

#[local] Hint Resolve same_header_refl same_header_status : core.

Lemma extends_refl bi : extends bi bi.
Proof. intros h b Hb. eauto. Qed.
Lemma extends_trans a b c : extends a b -> extends b c -> extends a c.
Proof.
  intros H1 H2 h x Hx. destruct (H1 h x Hx) as (y & Hy & S1). destruct (H2 h y Hy) as (z & Hz & S2).
  exists z. split; [done|]. by apply (same_header_trans x y z).
Qed.
Lemma extends_insert bi h b : bi !! h = None -> extends bi (<[h := b]> bi).
Proof. intros Hn x y Hx. exists y. rewrite lookup_insert_ne by congruence. eauto. Qed.
Lemma extends_status bi h b st : bi !! h = Some b -> extends bi (<[h := set_status b st]> bi) /\ extends (<[h := set_status b st]> bi) bi.
Proof.
  intros Hb. split; intros x y Hy.
  - destruct (decide (h = x)) as [<-|Hn].
    + exists (set_status b st). rewrite lookup_insert_eq. split; [done|]. replace y with b by congruence. done.
    + exists y. rewrite lookup_insert_ne by done. eauto.
  - apply lookup_insert_Some in Hy as [[<- <-]|[Hn Hy]]; [|eauto]. exists b. split; [done|]. by apply same_header_sym.
Qed.

Section extension.

Context (bi bi' : gmap uint256 CBlockIndex) (Hwf : tree_wf bi) (Hext : extends bi bi').

Lemma ext_walk n : forall h b, bi !! h = Some b -> walk bi' n h = walk bi n h.
Proof.
  induction n as [|n IH]; intros h b Hb; [done|]. cbn [walk]. destruct (Hext h b Hb) as (b' & Hb' & S).
  rewrite Hb, Hb'. cbn [mbind option_bind]. rewrite (sh_pprev _ _ S). destruct (pprev b) as [p|] eqn:Hp; [|done]. cbn [mbind option_bind].
  destruct (pprev_height bi Hwf h b p Hb Hp) as (pb & Hpb & _). by apply (IH p pb).
Qed.

Lemma ext_times n : forall p, (forall h, p = Some h -> is_Some (bi !! h)) -> collect_times n bi' p = collect_times n bi p.
Proof.
  induction n as [|n IH]; intros p Hp; [done|]. cbn [collect_times]. destruct p as [h|]; [|done].
  destruct (Hp h eq_refl) as [b Hb]. destruct (Hext h b Hb) as (b' & Hb' & S). rewrite Hb, Hb'. unfold GetBlockTime.
  rewrite (sh_time _ _ S), (sh_pprev _ _ S). f_equal. apply IH. intros q Hq.
  destruct (pprev_height bi Hwf h b q Hb Hq) as (pb & Hpb & _). eauto.
Qed.

Lemma ext_median h : is_Some (bi !! h) -> GetMedianTimePast bi' h = GetMedianTimePast bi h.
Proof. intros Hh. unfold GetMedianTimePast. rewrite ext_times; [done|]. by intros ? [= <-]. Qed.

Context (Hwf' : tree_wf bi').

Lemma ext_ancestor h b k : bi !! h = Some b -> GetAncestor bi' h k = GetAncestor bi h k.
Proof.
  intros Hb. destruct (Hext h b Hb) as (b' & Hb' & S). rewrite (GetAncestor_walk bi' Hwf' h b' k Hb'), (GetAncestor_walk bi Hwf h b k Hb).
  by rewrite (sh_height _ _ S), (ext_walk _ h b).
Qed.

Lemma ancestor_known h b k a : bi !! h = Some b -> GetAncestor bi h k = Ret (Some a) -> is_Some (bi !! a).
Proof.
  intros Hb. rewrite (GetAncestor_walk bi Hwf h b k Hb). destruct (_ && _)%bool; [|done]. intros [= Hw].
  destruct (walk_height bi Hwf _ h b a Hb Hw) as (x & Hx & _). eauto.
Qed.

Lemma lwma_body_same T b b' s : same_header b b' -> lwma_body T b' s = lwma_body T b s.
Proof. intros S. unfold lwma_body, GetBlockTime. by rewrite (sh_time _ _ S), (sh_bits _ _ S). Qed.

(** The entry an ancestor pointer leads to *)
Lemma ext_ancestor_entry h b k : bi !! h = Some b ->
  exists a, GetAncestor bi h k = Ret a /\ GetAncestor bi' h k = Ret a /\
    match a ≫= (bi !!.), a ≫= (bi' !!.) with Some x, Some y => same_header x y | None, None => True | _, _ => False end.
Proof.
  intros Hb. rewrite (ext_ancestor h b k Hb). rewrite (GetAncestor_walk bi Hwf h b k Hb). eexists. split; [done|]. split; [done|].
  destruct (_ && _)%bool; [|done]. destruct (walk bi _ h) as [a|] eqn:Ew; [|done]. cbn.
  destruct (walk_height bi Hwf _ h b a Hb Ew) as (x & Hx & _). rewrite Hx. destruct (Hext a x Hx) as (y & Hy & S). by rewrite Hy.
Qed.

Lemma ext_lwma_loop h b T : bi !! h = Some b -> forall n i s, lwma_loop n bi' h T i s = lwma_loop n bi h T i s.
Proof.
  intros Hb. induction n as [|n IH]; intros i s; [done|]. cbn [lwma_loop].
  destruct (ext_ancestor_entry h b i Hb) as (a & -> & -> & Ha). cbn [mbind outcome_bind].
  destruct (a ≫= (bi !!.)) as [x|], (a ≫= (bi' !!.)) as [y|]; try done. cbn [deref mbind outcome_bind].
  rewrite (lwma_body_same T x y s Ha). destruct (lwma_body T x s); [|done]. cbn [mbind outcome_bind]. apply IH.
Qed.

Lemma ext_work h params : is_Some (bi !! h) -> GetNextWorkRequired bi' (Some h) params = GetNextWorkRequired bi (Some h) params.
Proof.
  intros [b Hb]. destruct (Hext h b Hb) as (b' & Hb' & S). unfold GetNextWorkRequired, Lwma3CalculateNextWorkRequired.
  cbn [deref mbind outcome_bind]. rewrite Hb, Hb'. cbn [deref mbind outcome_bind]. rewrite (sh_height _ _ S).
  destruct (_ <=? _); [done|]. destruct (_ <? _); [done|].
  destruct (ext_ancestor_entry h b (nHeight b - lwma_N) Hb) as (a & -> & -> & Ha). cbn [mbind outcome_bind].
  destruct (a ≫= (bi !!.)) as [x|], (a ≫= (bi' !!.)) as [y|]; try done. cbn [deref mbind outcome_bind].
  unfold GetBlockTime. by rewrite (sh_time _ _ Ha), (ext_lwma_loop h b).
Qed.

Lemma ext_anchor h height rules : is_Some (bi !! h) ->
  IsForkRecoveryAnchorValid bi' (Some h) height rules = IsForkRecoveryAnchorValid bi (Some h) height rules.
Proof.
  intros [b Hb]. destruct (Hext h b Hb) as (b' & Hb' & S). unfold IsForkRecoveryAnchorValid.
  destruct (_ || _)%bool; [done|]. destruct (_ || _)%bool; [done|]. rewrite Hb, Hb'. cbn [deref mbind outcome_bind].
  by rewrite (sh_height _ _ S), (ext_ancestor h b).
Qed.

End extension.

(** ** The invariants survive changes that keep headers and links *)

Lemma tree_wf_same bi bi' : tree_wf bi -> extends bi bi' -> extends bi' bi -> tree_wf bi'.
Proof.
  intros Hwf H1 H2 h b' Hb'. destruct (H2 h b' Hb') as (b & Hb & S). destruct (Hwf h b Hb) as [W1 W2 W3].
  split; rewrite <- (sh_height _ _ S).
  - done.
  - rewrite <- (sh_pprev _ _ S). destruct (pprev b) as [p|]; [|done]. destruct W2 as (pb & Hpb & Hh).
    destruct (H1 p pb Hpb) as (pb' & Hpb' & S'). exists pb'. split; [done|]. by rewrite (sh_height _ _ S').
  - intros s. rewrite <- (sh_pskip _ _ S). intros Hs. rewrite (ext_walk bi bi' Hwf H1 _ h b Hb). by apply W3.
Qed.

Lemma cumulative_same bi bi' b b' : tree_wf bi -> extends bi bi' -> same_header b b' ->
  (forall p, pprev b = Some p -> is_Some (bi !! p)) -> cumulative_wf bi b -> cumulative_wf bi' b'.
Proof.
  intros Hwf H1 S Hp [C1 C2 C3 C4]. destruct S as [S1 S2 S3 S4 S5 S6 S7 S8 S9 S10].
  assert (forall {A} (f : CBlockIndex -> A) d, (forall x y, same_header x y -> f y = f x) ->
    match pprev b' ≫= (bi' !!.) with Some p => f p | None => d end = match pprev b ≫= (bi !!.) with Some p => f p | None => d end) as Hprev.
  { intros A f d Hf. rewrite S1. destruct (pprev b) as [p|]; [|done]. cbn. destruct (Hp p eq_refl) as [pb Hpb].
    destruct (H1 p pb Hpb) as (pb' & Hpb' & S'). rewrite Hpb, Hpb'. by apply Hf. }
  split; rewrite ?S8, ?S4, ?S10, ?S7.
  - done.
  - done.
  - rewrite C3, (Hprev _ (fun p => val (nChainWork p)) 0); [|by intros x y []; congruence].
    do 2 f_equal. unfold block_proof, IsProofOfStake. by rewrite S8, S9.
  - rewrite C4. symmetry. apply (Hprev _ (fun p => Z.max (nTimeMax p) (nTime b)) (nTime b)). intros x y []. congruence.
Qed.

Lemma index_wf_same bi bi' : index_wf bi -> extends bi bi' -> extends bi' bi -> index_wf bi'.
Proof.
  intros [Hwf Hc] H1 H2. split; [by apply (tree_wf_same bi)|]. intros h b' Hb'. destruct (H2 h b' Hb') as (b & Hb & S).
  apply (cumulative_same bi bi' b b' Hwf H1); [by apply same_header_sym| |by apply (Hc h)].
  intros p Hp. destruct (pprev_height bi Hwf h b p Hb Hp) as (pb & Hpb & _). eauto.
Qed.

(** ** What a new entry is *)

Definition entry_of (block : CBlockHeader) (b : CBlockIndex) : Prop :=
  nVersion b = hdr_nVersion block /\ hashMerkleRoot b = hdr_hashMerkleRoot block /\ nTime b = hdr_nTime block /\
  nBits b = hdr_nBits block /\ nNonce b = hdr_nNonce block.

Lemma AddToBlockIndex_new Hash bm block hash status bm' : tree_wf (bm_index bm) -> hash <> hashPrevBlock block ->
  AddToBlockIndex Hash bm block hash status = Ret bm' -> bm_index bm !! hash = None ->
  exists b, bm_index bm' = <[hash := b]> (bm_index bm) /\ entry_of block b /\
    match bm_index bm !! hashPrevBlock block with
    | None => pprev b = None
    | Some p => pprev b = Some (hashPrevBlock block) /\ nHeight b = nHeight p + 1
    end.
Proof.
  intros Hwf Hne Hadd Hnew. unfold AddToBlockIndex in Hadd. destruct (negb _); [done|]. rewrite Hnew in Hadd.
  destruct (link_entry Hash (bm_index bm) block hash) as [b|] eqn:Hl; [|done]. cbn [mbind outcome_bind] in Hadd.
  destruct (finish_entry _ b status) as [b'|] eqn:Hf; [|done]. cbn [mbind outcome_bind] in Hadd. injection Hadd as <-.
  destruct (link_entry_spec _ Hwf hash Hnew Hash block b Hne Hl) as (_ & _ & Hlink). exists b'. split; [done|].
  assert (entry_of block b) as He.
  { unfold link_entry in Hl. rewrite lookup_insert_ne in Hl by done. destruct (bm_index bm !! hashPrevBlock block) as [p|]; [|by injection Hl as <-].
    destruct (BuildSkip _ _ _) as [sk|]; [|done]. cbn [mbind outcome_bind] in Hl. by injection Hl as <-. }
  assert (exists t w st, b' = set_work b t w st) as (t & w & st & ->).
  { unfold finish_entry in Hf. destruct (GetBlockProof b) as [w|]; [|done]. cbn [mbind outcome_bind] in Hf.
    destruct (negb _); [destruct (RaiseValidity _ status)|destruct (RaiseValidity _ BLOCK_VALID_TREE)]; try done; cbn [mbind outcome_bind] in Hf; injection Hf as <-; eauto. }
  split; [done|]. destruct (bm_index bm !! hashPrevBlock block) as [p|]; [|by destruct Hlink]. by destruct Hlink as (? & ? & _).
Qed.

Lemma AddToBlockIndex_known Hash bm block hash : is_Some (bm_index bm !! hash) -> AddToBlockIndex Hash bm block hash BLOCK_VALID_TREE = Ret bm.
Proof. intros [b Hb]. unfold AddToBlockIndex. by rewrite Hb. Qed.

(** ** Marking descendants of failed blocks *)

Definition failed_valid (bi : gmap uint256 CBlockIndex) (f : uint256) : Prop :=
  exists b, bi !! f = Some b /\ Z.land (nStatus b) BLOCK_FAILED_VALID <> 0.

(** Links kept, failures kept *)
Definition marked (bm bm' : BlockManager) : Prop :=
  extends (bm_index bm) (bm_index bm') /\ extends (bm_index bm') (bm_index bm) /\ bm_best_header bm' = bm_best_header bm /\
  forall f, failed_valid (bm_index bm) f -> failed_valid (bm_index bm') f.

Lemma failed_child_keeps st : Z.land st BLOCK_FAILED_VALID <> 0 -> Z.land (Z.lor st BLOCK_FAILED_CHILD) BLOCK_FAILED_VALID <> 0.
Proof.
  intros H E. apply H. rewrite Z.land_lor_distr_l in E. change (Z.land BLOCK_FAILED_CHILD BLOCK_FAILED_VALID) with 0 in E. by rewrite Z.lor_0_r in E.
Qed.

Lemma mark_one bm h b : bm_index bm !! h = Some b ->
  marked bm (mkBlockManager (<[h := set_status b (Z.lor (nStatus b) BLOCK_FAILED_CHILD)]> (bm_index bm)) (bm_best_header bm)
               ({[h]} ∪ m_dirty_blockindex bm) (m_prev_block_index bm)).
Proof.
  intros Hb. destruct (extends_status (bm_index bm) h b (Z.lor (nStatus b) BLOCK_FAILED_CHILD) Hb) as [H1 H2].
  split; [done|]. split; [done|]. split; [done|]. cbn [bm_index]. intros f (x & Hx & Hf). destruct (decide (h = f)) as [<-|Hn].
  - exists (set_status b (Z.lor (nStatus b) BLOCK_FAILED_CHILD)). rewrite lookup_insert_eq. split; [done|]. replace x with b in Hf by congruence.
    by apply failed_child_keeps.
  - exists x. by rewrite lookup_insert_ne.
Qed.

Lemma marked_trans a b c : marked a b -> marked b c -> marked a c.
Proof.
  intros (A1 & A2 & A3 & A4) (B1 & B2 & B3 & B4). split_and!; [by apply (extends_trans _ (bm_index b))|by apply (extends_trans _ (bm_index b))|congruence|auto].
Qed.

Lemma marked_refl bm : marked bm bm.
Proof. split_and!; try apply extends_refl; auto. Qed.

Lemma mark_loop_marked fuel : forall bm h f bm', mark_loop fuel bm h f = Ret bm' -> marked bm bm'.
Proof.
  induction fuel as [|fuel IH]; intros bm h f bm'; cbn [mark_loop]; (case_bool_decide; [intros [= <-]; apply marked_refl|]); [done|].
  destruct (bm_index bm !! h) as [b|] eqn:Hb; [|done]. cbn [deref mbind outcome_bind]. destruct (pprev b) as [p|]; [|done]. cbn [deref mbind outcome_bind].
  intros E%IH. eapply marked_trans; [by apply (mark_one bm h b)|done].
Qed.

Lemma mark_loop_total fuel : forall bm h f n, tree_wf (bm_index bm) -> is_Some (bm_index bm !! h) -> walk (bm_index bm) n h = Some f -> (n <= fuel)%nat ->
  exists bm', mark_loop fuel bm h f = Ret bm'.
Proof.
  induction fuel as [|fuel IH]; intros bm h f n Hwf [b Hb] Hw Hn; cbn [mark_loop]; (case_bool_decide as Hf; [eauto|]).
  - destruct n; [|lia]. cbn in Hw. congruence.
  - destruct n as [|n]; [cbn in Hw; congruence|]. cbn [walk] in Hw. rewrite Hb in Hw |- *. cbn [deref mbind outcome_bind option_bind] in Hw |- *.
    destruct (pprev b) as [p|] eqn:Hp; [|done]. cbn [deref mbind outcome_bind option_bind] in Hw |- *.
    destruct (mark_one bm h b Hb) as (H1 & H2 & _). destruct (pprev_height _ Hwf h b p Hb Hp) as (pb & Hpb & _).
    apply (IH _ p f n); [by apply (tree_wf_same (bm_index bm))| | |lia].
    + destruct (H1 p pb Hpb) as (x & Hx & _). eauto.
    + by rewrite (ext_walk _ _ Hwf H1 n p pb Hpb).
Qed.

Lemma failed_loop_marked failed : forall bm p bm', failed_loop failed bm p = Ret (Some bm') -> marked bm bm'.
Proof.
  induction failed as [|f failed IH]; intros bm p bm'; [done|]. cbn [failed_loop]. destruct (bm_index bm !! f) as [fb|]; [|done]. cbn [deref mbind outcome_bind].
  destruct (GetAncestor _ _ _) as [a|]; [|done]. cbn [mbind outcome_bind]. case_bool_decide; [|by apply IH]. destruct (_ =? 0); [done|].
  destruct (bm_index bm !! p) as [pb|]; [|done]. cbn [deref mbind outcome_bind]. destruct (mark_loop _ _ _ _) as [x|] eqn:E; [|done]. cbn [mbind outcome_bind].
  intros [= <-]. by eapply mark_loop_marked.
Qed.

Lemma failed_loop_total failed : forall bm p, tree_wf (bm_index bm) -> is_Some (bm_index bm !! p) -> Forall (failed_valid (bm_index bm)) failed ->
  exists r, failed_loop failed bm p = Ret r.
Proof.
  induction failed as [|f failed IH]; intros bm p Hwf [pb Hp] Hf; [cbn; eauto|]. apply Forall_cons_1 in Hf as [(fb & Hfb & Hst) Hf]. cbn [failed_loop].
  rewrite Hfb. cbn [deref mbind outcome_bind]. rewrite (GetAncestor_walk _ Hwf p pb _ Hp). cbn [mbind outcome_bind].
  case_bool_decide as Ha; [|by apply IH; eauto]. rewrite (proj2 (Z.eqb_neq _ 0) Hst), Hp. cbn [deref mbind outcome_bind].
  destruct (_ && _)%bool eqn:E; [|done]. apply andb_prop in E as [E1%Z.leb_le E2%Z.leb_le].
  destruct (mark_loop_total (Z.to_nat (nHeight pb)) bm p f _ Hwf ltac:(eauto) Ha) as [bm' ->]; [lia|]. cbn [mbind outcome_bind]. eauto.
Qed.

(** ** The required difficulty is always defined *)

(** Parameters within which the difficulty is computed *)
Record params_ok (params : ConsensusParams) : Prop := {
  po_spacing : 0 < posTargetSpacing params;
  po_k : 23976 * posTargetSpacing params < 2^64;
  po_pow : blob_wf (powLimit params);
  po_pos : blob_wf (posLimit params);
}.

Lemma lwma_body_total T b s : 0 < T -> 23976 * T < 2^64 -> is_u32 (nBits b) -> bu_wf (sumTarget s) ->
  exists s', lwma_body T b s = Ret s' /\ bu_wf (sumTarget s').
Proof.
  intros HT Hk Hb Hs. unfold lwma_body. destruct (SetCompact_target _ Hb) as (t & neg & ov & -> & Ht & _).
  rewrite lwma_kN, u64_id by (unfold is_u64; lia).
  destruct (bu_div_spec t (bu_of_u64 (23976 * T)) Ht (bu_of_u64_wf _)) as (q & -> & Hq & _); [rewrite val_of_u64 by (unfold is_u64; lia); lia|].
  cbn [deref mbind outcome_bind]. eexists. split; [reflexivity|]. cbn [sumTarget]. by apply bu_add_spec.
Qed.

Lemma lwma_loop_total bi h b T : tree_wf bi -> (forall x y, bi !! x = Some y -> is_u32 (nBits y)) -> 0 < T -> 23976 * T < 2^64 -> bi !! h = Some b ->
  forall n i s, 0 <= i -> i + Z.of_nat n <= nHeight b + 1 -> bu_wf (sumTarget s) ->
  exists s', lwma_loop n bi h T i s = Ret s' /\ bu_wf (sumTarget s').
Proof.
  intros Hwf Hu HT Hk Hb. induction n as [|n IH]; intros i s Hi Hn Hs; [cbn; eauto|]. cbn [lwma_loop].
  rewrite (GetAncestor_walk bi Hwf h b i Hb), (proj2 (Z.leb_le 0 i)), (proj2 (Z.leb_le i (nHeight b))) by lia. cbn [andb mbind outcome_bind].
  destruct (walk_total bi Hwf (Z.to_nat (nHeight b - i)) h b Hb) as (q & qb & -> & Hq & _); [lia|]. cbn [mbind option_bind]. rewrite Hq. cbn [deref mbind outcome_bind].
  destruct (lwma_body_total T qb s HT Hk (Hu q qb Hq) Hs) as (s' & -> & Hs'). cbn [mbind outcome_bind]. apply IH; [lia|lia|done].
Qed.

Lemma GetNextWorkRequired_total bi h params : tree_wf bi -> (forall x y, bi !! x = Some y -> is_u32 (nBits y)) -> params_ok params -> is_Some (bi !! h) ->
  exists c, GetNextWorkRequired bi (Some h) params = Ret c.
Proof.
  intros Hwf Hu [P1 P2 P3 P4] [b Hb]. destruct (UintToArith256_spec _ P3) as [Hpow _]. destruct (UintToArith256_spec _ P4) as [Hpos _].
  unfold GetNextWorkRequired, Lwma3CalculateNextWorkRequired. cbn [deref mbind outcome_bind]. rewrite Hb. cbn [deref mbind outcome_bind].
  destruct (_ <=? _); [rewrite GetCompact_spec by done; eexists; reflexivity|].
  destruct (Z.ltb_spec (nHeight b) lwma_N) as [|HN]; [rewrite GetCompact_spec by done; eexists; reflexivity|]. unfold lwma_N in *.
  rewrite (GetAncestor_walk bi Hwf h b _ Hb), (proj2 (Z.leb_le 0 _)), (proj2 (Z.leb_le (nHeight b - 36) _)) by lia. cbn [andb mbind outcome_bind].
  destruct (walk_total bi Hwf (Z.to_nat (nHeight b - (nHeight b - 36))) h b Hb) as (q & qb & -> & Hq & _); [lia|]. cbn [mbind option_bind]. rewrite Hq. cbn [deref mbind outcome_bind].
  destruct (lwma_loop_total bi h b (posTargetSpacing params) Hwf Hu P1 P2 Hb (Z.to_nat 36) (nHeight b - 36 + 1) (mkLwma bu_zero 0 0 (GetBlockTime qb))) as (s & -> & Hs);
    [lia|lia|cbn [sumTarget]; auto with word|]. cbn [mbind outcome_bind].
  destruct (bu_mul_spec (bu_of_u64 (u64 (lw_t s))) (sumTarget s) (bu_of_u64_wf _) Hs) as [Hm _].
  rewrite GetCompact_spec; [eexists; reflexivity|]. by destruct (bu_gt _ _).
Qed.

(** ** The rules every entry follows *)

Section rules.

Context (GetHash : CBlockHeader -> uint256) (Hash : list Z -> uint256) (rules : ChainRules) (genesis : CBlockHeader).

(** The entry at [h] against its parent [pb] at [p] *)
Record follows_rules (bi : gmap uint256 CBlockIndex) (h : uint256) (b : CBlockIndex) (p : uint256) (pb : CBlockIndex) : Prop := {
  fr_hash : GetHash (mkHeader (nVersion b) p (hashMerkleRoot b) (nTime b) (nBits b) (nNonce b)) = h;
  fr_height : nHeight b = nHeight pb + 1;
  fr_pow : nHeight b <= lastPowBlock (consensus rules) -> CheckProofOfWork h (nBits b) (consensus rules) = true;
  fr_nonce : lastPowBlock (consensus rules) < nHeight b -> nNonce b = 0;
  fr_time : nPosBlockTimeBoundActivationHeight rules <= nHeight b -> lastPowBlock (consensus rules) < nHeight b -> nTime pb < nTime b;
  fr_median : GetMedianTimePast bi p < nTime b;
  fr_bits : GetNextWorkRequired bi (Some p) (consensus rules) = Ret (nBits b);
  fr_anchor : 0 <= nForkRecoveryActivationHeight rules <= nHeight b ->
    0 <= nForkRecoveryAnchorHeight rules <= nHeight pb /\
    walk bi (Z.to_nat (nHeight pb - nForkRecoveryAnchorHeight rules)) p = Some (hashForkRecoveryAnchor rules);
  fr_version : (BIP34Height rules <= nHeight b -> 2 <= nVersion b) /\ (BIP66Height rules <= nHeight b -> 3 <= nVersion b) /\
    (BIP65Height rules <= nHeight b -> 4 <= nVersion b);
}.

(** Every entry but the genesis block has a parent and follows the rules. *)
Definition index_rules (bi : gmap uint256 CBlockIndex) : Prop :=
  forall h b, bi !! h = Some b ->
    match pprev b with
    | None => h = hashGenesisBlock rules
    | Some p => exists pb, bi !! p = Some pb /\ follows_rules bi h b p pb
    end.

Lemma follows_rules_ext bi bi' h b b' p pb pb' : tree_wf bi -> tree_wf bi' -> extends bi bi' -> bi !! p = Some pb ->
  same_header b b' -> same_header pb pb' -> follows_rules bi h b p pb -> follows_rules bi' h b' p pb'.
Proof.
  intros Hwf Hwf' Hext Hp [S1 S2 S3 S4 S5 S6 S7 S8 S9 S10] [T1 T2 T3 T4 T5 T6 T7 T8 T9 T10] [F1 F2 F3 F4 F5 F6 F7 F8 F9].
  assert (is_Some (bi !! p)) as Hp' by eauto.
  split; rewrite ?S3, ?S5, ?S6, ?S7, ?S8, ?S9, ?T3, ?T7; try done.
  - by rewrite (ext_median bi bi' Hwf Hext).
  - by rewrite (ext_work bi bi' Hwf Hext Hwf').
  - by rewrite (ext_walk bi bi' Hwf Hext _ p pb Hp).
Qed.

Lemma index_rules_same bi bi' : tree_wf bi -> extends bi bi' -> extends bi' bi -> index_rules bi -> index_rules bi'.
Proof.
  intros Hwf H1 H2 Hr h b' Hb'. destruct (H2 h b' Hb') as (b & Hb & S). pose proof (Hr h b Hb) as Hrule. rewrite (sh_pprev _ _ S) in Hrule.
  destruct (pprev b') as [p|]; [|done]. destruct Hrule as (pb & Hpb & Hf). destruct (H1 p pb Hpb) as (pb' & Hpb' & S').
  exists pb'. split; [done|]. apply (follows_rules_ext bi bi' h b b' p pb pb'); try done; [by apply (tree_wf_same bi)|by apply same_header_sym].
Qed.

(** Anything else the node does to the index and to the set of failed blocks: the
    headers, links and accumulated work stay. *)
Definition other_change (s s' : ChainstateManager) : Prop :=
  extends (bm_index (m_blockman s)) (bm_index (m_blockman s')) /\ extends (bm_index (m_blockman s')) (bm_index (m_blockman s)) /\
  (forall h, bm_best_header (m_blockman s') = Some h -> is_Some (bm_index (m_blockman s') !! h)) /\
  Forall (failed_valid (bm_index (m_blockman s'))) (m_failed_blocks s').

(** The states of a node that starts with the genesis block *)
Inductive node_reachable : ChainstateManager -> Prop :=
| nr_genesis bm : AddToBlockIndex Hash empty_manager genesis (hashGenesisBlock rules) BLOCK_VALID_TREE = Ret bm -> node_reachable (mkManager bm [])
| nr_header s fCheckpointsEnabled HasConflictingChainLock nAdjustedTime block header_only v p s' : node_reachable s -> is_u32 (hdr_nBits block) ->
    AcceptBlockHeader GetHash Hash rules fCheckpointsEnabled HasConflictingChainLock nAdjustedTime s block header_only = Ret (v, p, s') -> node_reachable s'
| nr_other s s' : node_reachable s -> other_change s s' -> node_reachable s'.

Record node_wf (s : ChainstateManager) : Prop := {
  nw_manager : manager_wf (m_blockman s);
  nw_rules : index_rules (bm_index (m_blockman s));
  nw_failed : Forall (failed_valid (bm_index (m_blockman s))) (m_failed_blocks s);
  nw_genesis : is_Some (bm_index (m_blockman s) !! hashGenesisBlock rules);
}.

Lemma extends_Some bi bi' h : extends bi bi' -> is_Some (bi !! h) -> is_Some (bi' !! h).
Proof. intros He [b Hb]. destruct (He h b Hb) as (b' & -> & _). eauto. Qed.

Lemma node_wf_other s s' : node_wf s -> other_change s s' -> node_wf s'.
Proof.
  intros [[Hi Hb] Hr Hf Hg] (H1 & H2 & H3 & H4). destruct (Hi) as [Ht _]. split; [split|..].
  - by apply (index_wf_same (bm_index (m_blockman s))).
  - done.
  - by apply (index_rules_same (bm_index (m_blockman s))).
  - done.
  - by apply (extends_Some (bm_index (m_blockman s))).
Qed.

Lemma node_wf_marked s bm : node_wf s -> marked (m_blockman s) bm -> node_wf (mkManager bm (m_failed_blocks s)).
Proof.
  intros Hs (H1 & H2 & H3 & H4). apply (node_wf_other s); [done|]. destruct Hs as [[_ Hb] _ Hf _]. split_and!; try done; cbn [m_blockman m_failed_blocks].
  - intros h. rewrite H3. intros Hh. apply (extends_Some (bm_index (m_blockman s))); [done|auto].
  - eapply List.Forall_impl; [|exact Hf]. done.
Qed.

(** The conditions [ContextualCheckBlockHeader] leaves *)
Lemma contextual_accepts cp bi block p pb now : bi !! p = Some pb -> tree_wf bi ->
  ContextualCheckBlockHeader rules cp bi block p now = Ret Accept ->
  CheckPosBlockNonce (nHeight pb + 1) (hdr_nNonce block) rules = true /\
  CheckPosBlockTime (nHeight pb + 1) (hdr_nTime block) (nTime pb) rules = true /\
  IsForkRecoveryAnchorValid bi (Some p) (nHeight pb + 1) rules = Ret true /\
  GetNextWorkRequired bi (Some p) (consensus rules) = Ret (hdr_nBits block) /\
  GetMedianTimePast bi p < hdr_nTime block /\ hdr_nTime block <= now + MAX_FUTURE_BLOCK_TIME /\
  (BIP34Height rules <= nHeight pb + 1 -> 2 <= hdr_nVersion block) /\ (BIP66Height rules <= nHeight pb + 1 -> 3 <= hdr_nVersion block) /\
  (BIP65Height rules <= nHeight pb + 1 -> 4 <= hdr_nVersion block).
Proof.
  intros Hp Hwf. unfold ContextualCheckBlockHeader. rewrite Hp. cbn [deref mbind outcome_bind].
  destruct (CheckPosBlockNonce _ _ _); [|done]. destruct (CheckPosBlockTime _ _ _ _) eqn:E2; [|done]. cbn [negb].
  destruct (IsForkRecoveryAnchorValid _ _ _ _) as [[]|]; try done. cbn [mbind outcome_bind negb].
  destruct (GetNextWorkRequired _ _ _) as [required|]; [|done]. cbn [mbind outcome_bind].
  destruct (Z.eqb_spec (hdr_nBits block) required) as [->|]; [|done]. cbn [negb]. destruct (cp && _)%bool; [done|].
  destruct (Z.leb_spec (hdr_nTime block) (GetMedianTimePast bi p)) as [|Hm]; [done|]. rewrite Z.gtb_ltb.
  destruct (Z.ltb_spec (now + MAX_FUTURE_BLOCK_TIME) (hdr_nTime block)) as [|Hf]; [done|].
  unfold DeploymentActiveAfter, DeploymentHeight. destruct (_ || _ || _)%bool eqn:E; [done|]. intros _.
  apply orb_false_elim in E as [[E34 E66]%orb_false_elim E65].
  assert (forall n h, (hdr_nVersion block <? n) && (nHeight pb + 1 >=? h) = false -> h <= nHeight pb + 1 -> n <= hdr_nVersion block) as Hv.
  { intros n h En Hh. rewrite (proj2 (Z.geb_le _ _) Hh), andb_true_r in En. by apply Z.ltb_ge. }
  split_and!; try done; [by apply Hv|by apply Hv|by apply Hv].
Qed.

Lemma anchor_walk bi p pb height : bi !! p = Some pb -> tree_wf bi -> IsForkRecoveryAnchorValid bi (Some p) height rules = Ret true ->
  0 <= nForkRecoveryActivationHeight rules <= height -> 0 <= nForkRecoveryAnchorHeight rules <= nHeight pb /\
  walk bi (Z.to_nat (nHeight pb - nForkRecoveryAnchorHeight rules)) p = Some (hashForkRecoveryAnchor rules).
Proof.
  intros Hp Hwf Ha Hh. revert Ha. unfold IsForkRecoveryAnchorValid.
  rewrite (proj2 (Z.ltb_ge (nForkRecoveryActivationHeight rules) 0)), (proj2 (Z.ltb_ge height _)) by lia. cbn [orb].
  destruct (Z.ltb_spec (nForkRecoveryAnchorHeight rules) 0) as [|H0]; [done|]. destruct (IsNull _); [done|]. cbn [orb]. rewrite Hp. cbn [deref mbind outcome_bind].
  destruct (Z.ltb_spec (nHeight pb) (nForkRecoveryAnchorHeight rules)) as [|H1]; [done|].
  rewrite (GetAncestor_walk bi Hwf p pb _ Hp), (proj2 (Z.leb_le 0 _)), (proj2 (Z.leb_le (nForkRecoveryAnchorHeight rules) _)) by lia. cbn [andb mbind outcome_bind].
  destruct (walk _ _ _) as [a|]; [|done]. intros [= Ea%bool_decide_eq_true]. split; [lia|by rewrite Ea].
Qed.

Lemma add_header_wf cp now s block bm' status pb : node_wf s -> is_u32 (hdr_nBits block) -> add_status status ->
  let bi := bm_index (m_blockman s) in
  bi !! GetHash block = None -> bi !! hashPrevBlock block = Some pb ->
  CheckBlockHeader rules block (GetHash block) (nHeight pb + 1 <=? lastPowBlock (consensus rules)) = Accept ->
  ContextualCheckBlockHeader rules cp bi block (hashPrevBlock block) now = Ret Accept ->
  AddToBlockIndex Hash (m_blockman s) block (GetHash block) status = Ret bm' -> node_wf (mkManager bm' (m_failed_blocks s)).
Proof.
  intros [Hm Hr Hfl Hg] Hbits Hst bi Hnew Hp Hch Hctx Hadd. subst bi. destruct (Hm) as [[Hwf _] _].
  assert (GetHash block <> hashPrevBlock block) as Hne by congruence.
  pose proof (AddToBlockIndex_wf Hash _ _ _ _ _ Hm Hne Hbits Hadd) as Hm'. destruct (Hm') as [[Hwf' _] _].
  destruct (AddToBlockIndex_new Hash _ _ _ _ _ Hwf Hne Hadd Hnew) as (b & Ebi & (V1 & V2 & V3 & V4 & V5) & Hlink). rewrite Hp in Hlink. destruct Hlink as [Hprev Hheight].
  pose proof (extends_insert _ _ b Hnew) as Hext. rewrite <- Ebi in Hext.
  destruct (contextual_accepts cp _ _ _ _ _ Hp Hwf Hctx) as (C1 & C2 & C3 & C4 & C5 & _ & C7).
  split; [done| | |].
  - cbn [m_blockman]. intros h x Hx. rewrite Ebi in Hx. apply lookup_insert_Some in Hx as [[<- <-]|[Hn Hx]].
    + rewrite Hprev. exists pb. split; [rewrite Ebi; by rewrite lookup_insert_ne|].
      assert (is_Some (bm_index (m_blockman s) !! hashPrevBlock block)) as Hp' by eauto.
      split; rewrite ?V1, ?V2, ?V3, ?V4, ?V5, ?Hheight; try done.
      * f_equal. by destruct block.
      * intros Hle. unfold CheckBlockHeader in Hch. rewrite (proj2 (Z.leb_le _ _) Hle) in Hch. cbn [andb] in Hch.
        by destruct (CheckProofOfWork _ _ _).
      * intros Hlt. unfold CheckPosBlockNonce in C1. rewrite (proj2 (Z.leb_gt _ _) Hlt) in C1. by apply Z.eqb_eq.
      * intros Ha Hlt. unfold CheckPosBlockTime in C2. rewrite (proj2 (Z.ltb_ge _ _) Ha), (proj2 (Z.leb_gt _ _) Hlt), Z.gtb_ltb in C2. by apply Z.ltb_lt.
      * by rewrite (ext_median _ _ Hwf Hext).
      * by rewrite (ext_work _ _ Hwf Hext Hwf').
      * intros Ha. rewrite (ext_walk _ _ Hwf Hext _ _ pb Hp). by apply (anchor_walk _ _ _ (nHeight pb + 1)).
    + pose proof (Hr h x Hx) as Hrule. destruct (pprev x) as [q|]; [|done]. destruct Hrule as (qb & Hqb & Hf).
      exists qb. split; [rewrite Ebi, lookup_insert_ne by congruence; done|].
      by apply (follows_rules_ext (bm_index (m_blockman s)) _ h x x q qb qb).
  - cbn [m_blockman m_failed_blocks]. eapply List.Forall_impl; [|exact Hfl]. intros f (x & Hx & Hf). exists x. rewrite Ebi, lookup_insert_ne by congruence. done.
  - cbn [m_blockman]. by apply (extends_Some (bm_index (m_blockman s))).
Qed.

(** What [check_new_header] does to the state: nothing, marks, or an entry for a
    block that conflicts with a ChainLock *)
Lemma check_new_header_cases cp lock now s block only v s' : node_wf s -> is_u32 (hdr_nBits block) ->
  bm_index (m_blockman s) !! GetHash block = None ->
  check_new_header Hash rules cp lock now s block (GetHash block) only = Ret (v, s') ->
  node_wf s' /\
  (v = Accept -> s' = s /\ exists pb, bm_index (m_blockman s) !! hashPrevBlock block = Some pb /\
     CheckBlockHeader rules block (GetHash block) (nHeight pb + 1 <=? lastPowBlock (consensus rules)) = Accept /\
     ContextualCheckBlockHeader rules cp (bm_index (m_blockman s)) block (hashPrevBlock block) now = Ret Accept) /\
  (only = true -> other_change s s').
Proof.
  intros Hs Hbits Hnew. assert (other_change s s) as Hrefl.
  { destruct Hs as [[_ Hb] _ Hf _]. split_and!; try done; apply extends_refl. }
  assert (forall e, Ret (Reject e, s) = Ret (v, s') -> node_wf s' /\
    (v = Accept -> s' = s /\ exists pb, bm_index (m_blockman s) !! hashPrevBlock block = Some pb /\
     CheckBlockHeader rules block (GetHash block) (nHeight pb + 1 <=? lastPowBlock (consensus rules)) = Accept /\
     ContextualCheckBlockHeader rules cp (bm_index (m_blockman s)) block (hashPrevBlock block) now = Ret Accept) /\
    (only = true -> other_change s s')) as Hrej by (by intros e [= <- <-]).
  unfold check_new_header. destruct (bm_index (m_blockman s) !! hashPrevBlock block) as [pb|] eqn:Hp; [|by apply Hrej].
  destruct (CheckBlockHeader _ _ _ _) as [|e] eqn:Hch; [|by apply Hrej]. destruct (negb _); [by apply Hrej|]. destruct (negb _); [by apply Hrej|].
  destruct (ContextualCheckBlockHeader _ _ _ _ _ _) as [[|e]|] eqn:Hctx; [|by apply Hrej|done]. cbn [mbind outcome_bind].
  destruct (IsValid _ _) as [valid|]; [|done]. cbn [mbind outcome_bind].
  destruct (if negb valid then _ else _) as [[bm|]|] eqn:Hm; [| |done]; cbn [mbind outcome_bind].
  - destruct valid; [done|]. cbn [negb] in Hm. apply failed_loop_marked in Hm. intros [= <- <-].
    pose proof (node_wf_marked s bm Hs Hm) as Hwf'. split; [done|]. split; [done|]. intros _. destruct Hm as (H1 & H2 & _). destruct Hwf' as [[_ Hb] _ Hf _]. done.
  - destruct (lock _ _).
    + destruct only; cbn [negb mbind outcome_bind].
      * intros [= <- <-]. split; [by destruct s|]. split; [done|]. intros _. by destruct s.
      * destruct (AddToBlockIndex _ _ _ _ _) as [bm'|] eqn:Hadd; [|done]. cbn [mbind outcome_bind]. intros [= <- <-]. split; [|done].
        by apply (add_header_wf cp now s block bm' BLOCK_CONFLICT_CHAINLOCK pb); try done; right.
    + intros [= <- <-]. split; [done|]. split; [|done]. intros _. split; [done|]. by exists pb.
Qed.

Lemma AcceptBlockHeader_wf cp lock now s block only v p s' : node_wf s -> is_u32 (hdr_nBits block) ->
  AcceptBlockHeader GetHash Hash rules cp lock now s block only = Ret (v, p, s') ->
  node_wf s' /\ (forall e, v = Reject e -> only = true -> other_change s s').
Proof.
  intros Hs Hbits. assert (other_change s s) as Hrefl.
  { destruct Hs as [[_ Hb] _ Hf _]. split_and!; try done; apply extends_refl. }
  unfold AcceptBlockHeader. case_bool_decide as Hg.
  - destruct (nw_genesis _ Hs) as [g Hgen]. rewrite Hg. rewrite AddToBlockIndex_known by eauto. cbn [mbind outcome_bind].
    intros [= <- <- <-]. split; [by destruct s|done].
  - destruct (bm_index (m_blockman s) !! GetHash block) as [b|] eqn:Hb.
    { destruct (negb _); [by intros [= <- <- <-]|]. destruct (negb _); by intros [= <- <- <-]. }
    destruct (check_new_header _ _ _ _ _ _ _ _ _) as [[w s1]|] eqn:Hc; [|done]. cbn [mbind outcome_bind].
    destruct (check_new_header_cases _ _ _ _ _ _ _ _ Hs Hbits Hb Hc) as (Hwf & Hacc & Honly). destruct w as [|e]; [|by intros [= <- <- <-]].
    destruct (Hacc eq_refl) as (-> & pb & Hp & Hch & Hctx). destruct (AddToBlockIndex _ _ _ _ _) as [bm'|] eqn:Hadd; [|done]. cbn [mbind outcome_bind].
    intros [= <- <- <-]. split; [|done]. apply (add_header_wf cp now s block bm' BLOCK_VALID_TREE pb); try done. by left.
Qed.

Lemma node_reachable_wf s : hashGenesisBlock rules <> hashPrevBlock genesis -> is_u32 (hdr_nBits genesis) -> node_reachable s -> node_wf s.
Proof.
  intros Hne Hbits. induction 1 as [bm Hadd|s cp lock now block only v p s' _ IH Hb Hacc|s s' _ IH Hother].
  - assert (manager_wf empty_manager) as Hm by (apply (reachable_wf Hash); constructor).
    pose proof (AddToBlockIndex_wf Hash _ _ _ _ _ Hm Hne Hbits Hadd) as Hm'. destruct (Hm) as [[Ht _] _].
    destruct (AddToBlockIndex_new Hash _ _ _ _ _ Ht Hne Hadd eq_refl) as (b & Ebi & _ & Hlink). cbn in Hlink.
    split; cbn [m_blockman m_failed_blocks]; [done| |constructor|rewrite Ebi, lookup_insert_eq; eauto].
    intros h x. rewrite Ebi. intros [[<- <-]|[_ Hx]]%lookup_insert_Some; [|unfold empty_manager in Hx; cbn [bm_index] in Hx; by rewrite lookup_empty in Hx]. by rewrite Hlink.
  - by apply (AcceptBlockHeader_wf cp lock now s block only v p s').
  - by apply (node_wf_other s).
Qed.

(** No assertion of [AcceptBlockHeader] fails. *)
Lemma contextual_total cp bi block p now : tree_wf bi -> (forall x y, bi !! x = Some y -> is_u32 (nBits y)) -> params_ok (consensus rules) -> is_Some (bi !! p) ->
  exists v, ContextualCheckBlockHeader rules cp bi block p now = Ret v.
Proof.
  intros Hwf Hu Hpar [b Hb]. unfold ContextualCheckBlockHeader. rewrite Hb. cbn [deref mbind outcome_bind].
  destruct (negb _); [eauto|]. destruct (negb _); [eauto|].
  assert (exists a, IsForkRecoveryAnchorValid bi (Some p) (nHeight b + 1) rules = Ret a) as [a ->].
  { unfold IsForkRecoveryAnchorValid. destruct (_ || _)%bool; [eauto|]. destruct (_ || _)%bool; [eauto|]. rewrite Hb. cbn [deref mbind outcome_bind].
    destruct (_ <? _); [eauto|]. rewrite (GetAncestor_walk bi Hwf p b _ Hb). cbn [mbind outcome_bind]. eauto. }
  cbn [mbind outcome_bind]. destruct (negb a); [eauto|]. destruct (GetNextWorkRequired_total bi p (consensus rules) Hwf Hu Hpar ltac:(eauto)) as [c ->]. cbn [mbind outcome_bind].
  repeat case_match; eauto.
Qed.

Lemma AcceptBlockHeader_total cp lock now s block only : node_wf s -> params_ok (consensus rules) -> is_u32 (hdr_nBits block) ->
  exists r, AcceptBlockHeader GetHash Hash rules cp lock now s block only = Ret r.
Proof.
  intros Hs Hpar Hbits. destruct (Hs) as [Hm _ Hf [g Hg]]. destruct (Hm) as [[Hwf Hcum] _].
  assert (forall x y, bm_index (m_blockman s) !! x = Some y -> is_u32 (nBits y)) as Hu by (intros x y Hx; apply (cw_bits _ _ (Hcum x y Hx))).
  unfold AcceptBlockHeader. case_bool_decide as Hgen.
  - rewrite Hgen. rewrite AddToBlockIndex_known by eauto. cbn [mbind outcome_bind]. eauto.
  - destruct (bm_index (m_blockman s) !! GetHash block) as [b|] eqn:Hb; [destruct (negb _); [eauto|]; destruct (negb _); eauto|].
    assert (forall bm st, bm_index bm = bm_index (m_blockman s) -> manager_wf bm -> is_Some (bm_index (m_blockman s) !! hashPrevBlock block) -> add_status st ->
      exists bm', AddToBlockIndex Hash bm block (GetHash block) st = Ret bm') as Hadd.
    { intros bm st E Hbm [pb Hp] Hst. apply AddToBlockIndex_total; try done. congruence. }
    unfold check_new_header. destruct (bm_index (m_blockman s) !! hashPrevBlock block) as [pb|] eqn:Hp; [|cbn; eauto].
    assert (is_Some (bm_index (m_blockman s) !! hashPrevBlock block)) as Hp' by eauto.
    destruct (CheckBlockHeader _ _ _ _) as [|e]; [|cbn; eauto]. destruct (negb _); [cbn; eauto|]. destruct (negb _); [cbn; eauto|].
    destruct (contextual_total cp _ block _ now Hwf Hu Hpar Hp') as [[|e] ->]; [|cbn; eauto]. cbn [mbind outcome_bind].
    assert (exists valid, IsValid (nStatus pb) BLOCK_VALID_SCRIPTS = Ret valid) as [valid ->].
    { unfold IsValid. change (Z.ldiff BLOCK_VALID_SCRIPTS BLOCK_VALID_MASK =? 0) with true. cbn [negb]. destruct (negb _); eauto. }
    cbn [mbind outcome_bind].
    assert (exists r, (if negb valid then failed_loop (m_failed_blocks s) (m_blockman s) (hashPrevBlock block) else Ret None) = Ret r) as [r ->].
    { destruct valid; cbn [negb]; [eauto|]. by apply failed_loop_total. }
    cbn [mbind outcome_bind]. destruct r as [bm|]; [cbn; eauto|].
    destruct (lock _ _); cbn [mbind outcome_bind].
    + destruct only; cbn [negb mbind outcome_bind]; [eauto|]. destruct (Hadd (m_blockman s) BLOCK_CONFLICT_CHAINLOCK eq_refl Hm (mk_is_Some _ _ eq_refl)) as [bm' ->]; [by right|]. cbn; eauto.
    + destruct (Hadd (m_blockman s) BLOCK_VALID_TREE eq_refl Hm (mk_is_Some _ _ eq_refl)) as [bm' ->]; [by left|]. cbn; eauto.
Qed.

End rules.

(** The chain on which deployments are decided: what [VersionBits] asks of the
    index holds of every index the node builds. *)
Lemma node_deployment_laws GetHash Hash rules genesis s `{ThresholdChecker} :
  hashGenesisBlock rules <> hashPrevBlock genesis -> is_u32 (hdr_nBits genesis) -> node_reachable GetHash Hash rules genesis s ->
  let bi := bm_index (m_blockman s) in
  (forall h b, bi !! h = Some b -> nHeight b + 1 < INT_MAX) -> 0 < Period ->
  (forall q n h b, walk bi n q = Some h -> bi !! h = Some b -> (SignalHeight (Some q) <= nHeight b <-> SignalHeight (Some h) <= nHeight b)) ->
  deployment_laws bi.
Proof.
  intros Hne Hbits Hr bi Hheight Hper Hsig. destruct (node_reachable_wf GetHash Hash rules genesis s Hne Hbits Hr) as [[[Hwf _] _] Hrules _ _].
  split; try done. intros h b p Hb Hp. pose proof (Hrules h b Hb) as Hrule. rewrite Hp in Hrule. destruct Hrule as (pb & _ & Hf). apply (fr_median _ _ _ _ _ _ _ Hf).
Qed.

(** ** Properties *)

(** C6: every entry of the block index satisfies the header rules, whatever
    headers arrive in whatever order and whatever else the node records about
    blocks meanwhile. The index is well formed, the genesis block is its only
    root, and every other entry is stored under the hash of its header, carries
    proof of work up to the last proof-of-work block and a zero nonce above it,
    has the difficulty that its ancestors determine, a time after the median of
    its ancestors (and after its parent once that rule is active), the anchor of
    the recovery among its ancestors and a version that is not outdated; the
    median time never decreases along a chain. [AcceptBlockHeader] never fails an
    assertion, and a header that is refused without its block leaves no entry. *)
Theorem accepted_headers_follow_rules GetHash Hash rules genesis s :
  params_ok (consensus rules) -> hashGenesisBlock rules <> hashPrevBlock genesis -> is_u32 (hdr_nBits genesis) ->
  node_reachable GetHash Hash rules genesis s ->
  let bi := bm_index (m_blockman s) in
  index_wf bi /\ index_rules GetHash rules bi /\
  (forall h b p, bi !! h = Some b -> pprev b = Some p -> GetMedianTimePast bi p <= GetMedianTimePast bi h) /\
  (forall fCheckpointsEnabled HasConflictingChainLock nAdjustedTime block header_only, is_u32 (hdr_nBits block) ->
     exists v p s', AcceptBlockHeader GetHash Hash rules fCheckpointsEnabled HasConflictingChainLock nAdjustedTime s block header_only = Ret (v, p, s') /\
       (forall e, v = Reject e -> header_only = true -> other_change s s')).
Proof.
  intros Hpar Hne Hbits Hr bi. pose proof (node_reachable_wf GetHash Hash rules genesis s Hne Hbits Hr) as Hwf.
  destruct (Hwf) as [[Hi _] Hrules _ _]. split; [done|]. split; [done|]. split.
  - intros h b p Hb Hp. pose proof (Hrules h b Hb) as Hrule. rewrite Hp in Hrule. destruct Hrule as (pb & Hpb & Hf).
    apply (GetMedianTimePast_mono bi h b p pb); try done. apply (fr_median _ _ _ _ _ _ _ Hf).
  - intros cp lock now block only Hb. destruct (AcceptBlockHeader_total GetHash Hash rules cp lock now s block only Hwf Hpar Hb) as [[[v p] s'] E].
    exists v, p, s'. split; [done|]. apply (AcceptBlockHeader_wf GetHash Hash rules cp lock now s block only v p s' Hwf Hb E).
Qed.

Definition demo_rules : ChainRules :=
  mkRules main_params (demo_hash 1) uint256_zero 1 1 1 1 2 1000 144900 144888 144888 144888 103536 (demo_hash 3) 113117 [].
Definition demo_genesis : CBlockHeader := mkHeader 1 uint256_zero (demo_hash 9) 1000 0x207fffff 7.
Definition demo_GetHash (block : CBlockHeader) : uint256 := demo_hash (hdr_nTime block / 1000).

Definition demo_header : CBlockHeader := mkHeader 4 (demo_hash 1) (demo_hash 8) 2000 0x207fffff 3.

Lemma accepted_headers_follow_rules_witness :
  exists s s' p, AcceptBlockHeader demo_GetHash (fun _ => uint256_zero) demo_rules true (fun _ _ => false) 5000 s demo_header true = Ret (Accept, p, s') /\
    index_rules demo_GetHash demo_rules (bm_index (m_blockman s')).
Proof.
  assert (params_ok main_params) as Hpar.
  { split; [by vm_compute|by vm_compute|apply (bool_decide_unpack _); vm_compute; exact I|apply (bool_decide_unpack _); vm_compute; exact I]. }
  assert (is_u32 0x207fffff) as Hu by (unfold is_u32; lia).
  assert (hashGenesisBlock demo_rules <> hashPrevBlock demo_genesis) as Hne by discriminate.
  assert (match (bm ← AddToBlockIndex (fun _ => uint256_zero) empty_manager demo_genesis (hashGenesisBlock demo_rules) BLOCK_VALID_TREE;
                 AcceptBlockHeader demo_GetHash (fun _ => uint256_zero) demo_rules true (fun _ _ => false) 5000 (mkManager bm []) demo_header true) with
          | Ret (Accept, _, _) => True | _ => False end) as Hrun by (vm_compute; exact I).
  destruct (AddToBlockIndex (fun _ => uint256_zero) empty_manager demo_genesis (hashGenesisBlock demo_rules) BLOCK_VALID_TREE) as [bm|] eqn:E; [|destruct Hrun].
  pose proof (nr_genesis demo_GetHash (fun _ => uint256_zero) demo_rules demo_genesis bm E) as Hr. cbn [mbind outcome_bind] in Hrun.
  destruct (accepted_headers_follow_rules demo_GetHash (fun _ => uint256_zero) demo_rules demo_genesis _ Hpar Hne Hu Hr) as (_ & _ & _ & Hacc).
  destruct (Hacc true (fun _ _ => false) 5000 demo_header true Hu) as (v & p & s' & Ea & _).
  pose proof (nr_header _ _ _ _ (mkManager bm []) true (fun _ _ => false) 5000 demo_header true v p s' Hr Hu Ea) as Hr'. rewrite Ea in Hrun.
  destruct v as [|e]; [|destruct Hrun]. exists (mkManager bm []), s', p. split; [exact Ea|].
  apply (accepted_headers_follow_rules demo_GetHash (fun _ => uint256_zero) demo_rules demo_genesis _ Hpar Hne Hu Hr').
Defined.
