(* ===== verification/ChainSelect.v ===== *)
(** * ChainSelect: which chain is active
      (src/src/validation.{h,cpp}, src/src/node/blockstorage.cpp)

    The state of the chain: the active chain, the candidates for its tip, the blocks
    that wait for a parent, what is known to be invalid, and what connecting blocks
    answered so far. [FindMostWorkChain] picks the candidate to move to,
    [ActivateBestChain] moves there. *)

From Stdlib Require Import ZArith Lia.
From stdpp Require Import base list numbers option gmap.
From S2P Require Import Prelude Arith256 Uint256 Serialize Transaction Compact Chain ActiveChain VersionBits Params Pow Kernel BlockStorage HeaderCheck.

(** ** What connecting a block answers *)

(** How [ConnectTip] ends for a block: connected, refused by [ConnectBlock], or ended by
    an error that says nothing about the block *)
Inductive connect_verdict : Type :=
| Connected
| Invalid (result : BlockValidationResult)
| SystemError.

(** What [ConnectBlock] wrote to the entry of the block until it returned: the kernel,
    the modifier if it was recomputed and the proof if it was checked; the amounts; the
    position of the undo data if it was written; whether it got to the level of validity *)
Record connect_writes : Type := mkWrites {
  wr_stake : option (COutPoint * option uint256 * option uint256);
  wr_supply : option (Z * Z);
  wr_undo : option Z;
  wr_scripts : bool;
}.

(** The rules that connecting a block is subject to, with all they read and change
    besides the index: coins, masternodes, ChainLocks, InstantSend locks and files make
    up a world that is left open. [ConnectRules] stands for the checks of [ConnectBlock]
    together with reading the block before and flushing after, [DisconnectBlock] for
    taking a block back, which can fail. Nothing is asked of their answers: the same
    block can be accepted in one world and refused in another. *)
Class BlockConnector : Type := {
  World : Type;
  ConnectRules : World -> uint256 -> CBlockIndex -> connect_verdict * connect_writes * World;
  DisconnectBlock : World -> uint256 -> bool * World;
}.

(** ** The state *)

Section state.

Context `{BlockConnector}.

(** [CChainState], with the manager it belongs to, the world its rules read, and what
    [ConnectTip] answered so far, as [BlockChecked] reports it, with the failures of
    [DisconnectTip]. The candidates are a set ordered by [CBlockIndexWorkComparator]; the
    order is computed when it is asked for. *)
Record CChainState : Type := mkChainState {
  m_chainman : ChainstateManager;
  m_best_invalid : option uint256;
  m_chain : list (option uint256);
  setBlockIndexCandidates : gset uint256;
  m_blocks_unlinked : list (uint256 * uint256);
  nBlockSequenceId : Z;
  world : World;
  connect_log : list (uint256 * connect_verdict);
}.

Definition block_index (s : CChainState) : gmap uint256 CBlockIndex := bm_index (m_blockman (m_chainman s)).
Definition tip (s : CChainState) : option uint256 := chain_Tip (m_chain s).

Definition set_chainman (s : CChainState) (m : ChainstateManager) : CChainState :=
  mkChainState m (m_best_invalid s) (m_chain s) (setBlockIndexCandidates s) (m_blocks_unlinked s) (nBlockSequenceId s) (world s) (connect_log s).
Definition set_candidates (s : CChainState) (c : gset uint256) : CChainState :=
  mkChainState (m_chainman s) (m_best_invalid s) (m_chain s) c (m_blocks_unlinked s) (nBlockSequenceId s) (world s) (connect_log s).
Definition set_unlinked (s : CChainState) (u : list (uint256 * uint256)) : CChainState :=
  mkChainState (m_chainman s) (m_best_invalid s) (m_chain s) (setBlockIndexCandidates s) u (nBlockSequenceId s) (world s) (connect_log s).
Definition set_sequence (s : CChainState) (n : Z) : CChainState :=
  mkChainState (m_chainman s) (m_best_invalid s) (m_chain s) (setBlockIndexCandidates s) (m_blocks_unlinked s) n (world s) (connect_log s).
Definition set_chain (s : CChainState) (v : list (option uint256)) : CChainState :=
  mkChainState (m_chainman s) (m_best_invalid s) v (setBlockIndexCandidates s) (m_blocks_unlinked s) (nBlockSequenceId s) (world s) (connect_log s).
Definition set_best_invalid (s : CChainState) (h : uint256) : CChainState :=
  mkChainState (m_chainman s) (Some h) (m_chain s) (setBlockIndexCandidates s) (m_blocks_unlinked s) (nBlockSequenceId s) (world s) (connect_log s).
Definition set_world (s : CChainState) (w : World) : CChainState :=
  mkChainState (m_chainman s) (m_best_invalid s) (m_chain s) (setBlockIndexCandidates s) (m_blocks_unlinked s) (nBlockSequenceId s) w (connect_log s).
Definition log_answer (s : CChainState) (h : uint256) (v : connect_verdict) : CChainState :=
  mkChainState (m_chainman s) (m_best_invalid s) (m_chain s) (setBlockIndexCandidates s) (m_blocks_unlinked s) (nBlockSequenceId s) (world s)
    (connect_log s ++ [(h, v)]).

(** An entry changed, and perhaps marked as changed *)
Definition put (dirty : bool) (s : CChainState) (h : uint256) (b : CBlockIndex) : CChainState :=
  let bm := m_blockman (m_chainman s) in
  set_chainman s
    (mkManager (mkBlockManager (<[h := b]> (bm_index bm)) (bm_best_header bm)
                  (if dirty then {[h]} ∪ m_dirty_blockindex bm else m_dirty_blockindex bm) (m_prev_block_index bm))
               (m_failed_blocks (m_chainman s))).
Definition set_best_header (s : CChainState) (h : option uint256) : CChainState :=
  let bm := m_blockman (m_chainman s) in
  set_chainman s (mkManager (mkBlockManager (bm_index bm) h (m_dirty_blockindex bm) (m_prev_block_index bm)) (m_failed_blocks (m_chainman s))).
Definition set_failed (s : CChainState) (f : list uint256) : CChainState :=
  set_chainman s (mkManager (m_blockman (m_chainman s)) f).

End state.

Definition has_flag (b : CBlockIndex) (f : Z) : bool := negb (Z.land (nStatus b) f =? 0).
Definition add_flag (b : CBlockIndex) (f : Z) : CBlockIndex := set_status b (Z.lor (nStatus b) f).

(** The fields a received block sets, and those that linking it sets *)
Definition set_received (b : CBlockIndex) (file datapos tx status : Z) : CBlockIndex :=
  mkBlockIndex (pprev b) (pskip b) (nHeight b) file datapos 0 (nChainWork b) tx 0 status
    (nVersion b) (hashMerkleRoot b) (nTime b) (nBits b) (nNonce b) (nSequenceId b) (nTimeMax b) (nMint b)
    (nMoneySupply b) (nStakeModifier b) (prevoutStake b) (hashProof b).
Definition set_linked (b : CBlockIndex) (chaintx seq : Z) : CBlockIndex :=
  mkBlockIndex (pprev b) (pskip b) (nHeight b) (nFile b) (nDataPos b) (nUndoPos b) (nChainWork b) (nTx b) chaintx (nStatus b)
    (nVersion b) (hashMerkleRoot b) (nTime b) (nBits b) (nNonce b) seq (nTimeMax b) (nMint b)
    (nMoneySupply b) (nStakeModifier b) (prevoutStake b) (hashProof b).

(** ** The entry of a block that is being connected *)

Definition set_stake (b : CBlockIndex) (prevout : COutPoint) (modifier proof : uint256) : CBlockIndex :=
  mkBlockIndex (pprev b) (pskip b) (nHeight b) (nFile b) (nDataPos b) (nUndoPos b) (nChainWork b) (nTx b) (nChainTx b) (nStatus b)
    (nVersion b) (hashMerkleRoot b) (nTime b) (nBits b) (nNonce b) (nSequenceId b) (nTimeMax b) (nMint b)
    (nMoneySupply b) modifier prevout proof.
Definition set_supply (b : CBlockIndex) (mint supply : Z) : CBlockIndex :=
  mkBlockIndex (pprev b) (pskip b) (nHeight b) (nFile b) (nDataPos b) (nUndoPos b) (nChainWork b) (nTx b) (nChainTx b) (nStatus b)
    (nVersion b) (hashMerkleRoot b) (nTime b) (nBits b) (nNonce b) (nSequenceId b) (nTimeMax b) mint
    supply (nStakeModifier b) (prevoutStake b) (hashProof b).
Definition set_undo (b : CBlockIndex) (pos : Z) : CBlockIndex :=
  mkBlockIndex (pprev b) (pskip b) (nHeight b) (nFile b) (nDataPos b) pos (nChainWork b) (nTx b) (nChainTx b) (Z.lor (nStatus b) BLOCK_HAVE_UNDO)
    (nVersion b) (hashMerkleRoot b) (nTime b) (nBits b) (nNonce b) (nSequenceId b) (nTimeMax b) (nMint b)
    (nMoneySupply b) (nStakeModifier b) (prevoutStake b) (hashProof b).

(** The data of the stake, written before it is checked; the flag says that the entry is
    to be stored *)
Definition write_stake (b : CBlockIndex) (w : option (COutPoint * option uint256 * option uint256)) : CBlockIndex * bool :=
  match w with
  | None => (b, false)
  | Some (prevout, modifier, proof) => (set_stake b prevout (default (nStakeModifier b) modifier) (default (hashProof b) proof), true)
  end.

(** The amounts, the undo data and the level of validity, written once all checks are passed *)
Definition write_connected (b : CBlockIndex) (supply : option (Z * Z)) (undo : option Z) (scripts : bool) : outcome (CBlockIndex * bool) :=
  let b := match supply with None => b | Some (mint, total) => set_supply b mint total end in
  let '(b, dirty) := match undo with None => (b, false) | Some pos => (set_undo b pos, true) end in
  if negb scripts then Ret (b, dirty)
  else
    valid ← IsValid (nStatus b) BLOCK_VALID_SCRIPTS;
    if (valid : bool) then Ret (b, dirty)
    else r ← RaiseValidity (nStatus b) BLOCK_VALID_SCRIPTS; Ret (set_status b (r : Z * bool).1, true).

(** [ConnectBlock]: its answer, the entry, whether it is to be stored, and the world. A
    block found to be mutated ends the node instead of being refused. *)
Definition ConnectBlock `{BlockConnector} (w : World) (h : uint256) (b : CBlockIndex) : outcome (connect_verdict * CBlockIndex * bool * World) :=
  let '(verdict, wr, w) := ConnectRules w h b in
  let '(b, dirty) := write_stake b (wr_stake wr) in
  '(b, dirty') ← write_connected b (wr_supply wr) (wr_undo wr) (wr_scripts wr);
  let verdict := match verdict with Invalid BLOCK_MUTATED => SystemError | v => v end in
  Ret (verdict, b, (dirty || dirty')%bool, w).

Section chainstate.

Context `{BlockConnector}.

(** The addresses of the entries, which break ties *)
Context (addr : uint256 -> Z).

(** [CBlockIndexWorkComparator] *)
Definition CBlockIndexWorkComparator (ha : uint256) (pa : CBlockIndex) (hb : uint256) (pb : CBlockIndex) : bool :=
  if bu_gt (nChainWork pa) (nChainWork pb) then false
  else if bu_lt (nChainWork pa) (nChainWork pb) then true
  else if nSequenceId pa <? nSequenceId pb then false
  else if nSequenceId pa >? nSequenceId pb then true
  else if addr ha <? addr hb then false
  else if addr ha >? addr hb then true
  else false.

(** The comparison of two pointers *)
Definition worse (bi : gmap uint256 CBlockIndex) (ha hb : uint256) : bool :=
  match bi !! ha, bi !! hb with
  | Some a, Some b => CBlockIndexWorkComparator ha a hb b
  | _, _ => false
  end.

(** [setBlockIndexCandidates.rbegin()] *)
Definition best_of (bi : gmap uint256 CBlockIndex) (l : list uint256) : option uint256 :=
  foldr (fun c best => match best with None => Some c | Some d => if worse bi d c then Some c else Some d end) None l.

(** [m_failed_blocks.insert] *)
Definition failed_insert (h : uint256) (f : list uint256) : list uint256 :=
  if bool_decide (h ∈ f) then f else insert_sorted (fun x y => addr x <? addr y) h f.

(** ** ReceivedBlockTransactions *)

(** The queue of blocks that can be linked now *)
Fixpoint link_loop (fuel : nat) (s : CChainState) (queue : list uint256) : outcome CChainState :=
  match queue with
  | [] => Ret s
  | pindex :: queue =>
      match fuel with
      | O => Abort
      | S fuel =>
          b ← deref (block_index s !! pindex);
          before ← match pprev b with
                   | Some p => pb ← deref (block_index s !! p); Ret (nChainTx pb)
                   | None => Ret 0
                   end;
          let b := set_linked b (u32 (before + nTx b)) (nBlockSequenceId s) in
          let s := put false s pindex b in
          let s := set_sequence s (i32 (nBlockSequenceId s + 1)) in
          let better := match tip s with None => true | Some t => negb (worse (block_index s) pindex t) end in
          let s := if (better && negb (has_flag b BLOCK_CONFLICT_CHAINLOCK))%bool
                   then set_candidates s ({[pindex]} ∪ setBlockIndexCandidates s) else s in
          let range := filter (fun e => e.1 = pindex) (m_blocks_unlinked s) in
          let s := set_unlinked s (filter (fun e => e.1 <> pindex) (m_blocks_unlinked s)) in
          link_loop fuel s (queue ++ map snd range)
      end
  end.

(** [ReceivedBlockTransactions]; [ntx] is the number of transactions *)
Definition ReceivedBlockTransactions (s : CChainState) (ntx : nat) (pindexNew : uint256) (file datapos : Z) : outcome CChainState :=
  b ← deref (block_index s !! pindexNew);
  r ← RaiseValidity (Z.lor (nStatus b) BLOCK_HAVE_DATA) BLOCK_VALID_TRANSACTIONS;
  let b := set_received b file datapos (u32 (Z.of_nat ntx)) (r : Z * bool).1 in
  let s := put true s pindexNew b in
  match pprev b with
  | None => link_loop (S (length (m_blocks_unlinked s))) s [pindexNew]
  | Some p =>
      pb ← deref (block_index s !! p);
      if HaveTxsDownloaded pb then link_loop (S (length (m_blocks_unlinked s))) s [pindexNew]
      else
        valid ← IsValid (nStatus pb) BLOCK_VALID_TREE;
        Ret (if (valid : bool) then set_unlinked s (m_blocks_unlinked s ++ [(p, pindexNew)]) else s)
  end.

(** ** FindMostWorkChain *)

(** The walk from the candidate to the active chain: the first block that cannot be
    used *)
Fixpoint find_unusable (fuel : nat) (s : CChainState) (pindexTest : option uint256) : outcome (option uint256) :=
  match pindexTest with
  | None => Ret None
  | Some h =>
      if chain_Contains (block_index s) (m_chain s) h then Ret None
      else
        b ← deref (block_index s !! h);
        if negb (HaveTxsDownloaded b || (nHeight b =? 0))%bool then Abort
        else if (has_flag b BLOCK_FAILED_MASK || negb (has_flag b BLOCK_HAVE_DATA) || has_flag b BLOCK_CONFLICT_CHAINLOCK)%bool then Ret (Some h)
        else match fuel with O => Abort | S fuel => find_unusable fuel s (pprev b) end
  end.

(** Removing the chain from the candidate down to [pindexTest] from the set; [t] is
    the entry of [pindexTest] *)
Fixpoint remove_chain (fuel : nat) (s : CChainState) (pindexFailed pindexTest : uint256) (t : CBlockIndex) : outcome CChainState :=
  if bool_decide (pindexTest = pindexFailed) then Ret s
  else
    match fuel with
    | O => Abort
    | S fuel =>
        b ← deref (block_index s !! pindexFailed);
        p ← deref (pprev b);
        let s := if has_flag t BLOCK_FAILED_MASK then put false s pindexFailed (add_flag b BLOCK_FAILED_CHILD)
                 else if has_flag t BLOCK_CONFLICT_CHAINLOCK then put false s pindexFailed (add_flag b BLOCK_CONFLICT_CHAINLOCK)
                 else set_unlinked s (m_blocks_unlinked s ++ [(p, pindexFailed)]) in
        remove_chain fuel (set_candidates s (setBlockIndexCandidates s ∖ {[pindexFailed]})) p pindexTest t
    end.

(** More work than the best invalid block *)
Definition beats_best_invalid (s : CChainState) (b : CBlockIndex) : bool :=
  match m_best_invalid s ≫= (block_index s !!.) with
  | None => true
  | Some best => bu_gt (nChainWork b) (nChainWork best)
  end.

(** [FindMostWorkChain]; each turn removes a candidate. *)
Fixpoint FindMostWorkChain (fuel : nat) (s : CChainState) : outcome (option uint256 * CChainState) :=
  match best_of (block_index s) (elements (setBlockIndexCandidates s)) with
  | None => Ret (None, s)
  | Some pindexNew =>
      new ← deref (block_index s !! pindexNew);
      let steps := S (Z.to_nat (nHeight new)) in
      bad ← find_unusable steps s (Some pindexNew);
      match bad with
      | None => Ret (Some pindexNew, s)
      | Some pindexTest =>
          match fuel with
          | O => Abort
          | S fuel =>
              t ← deref (block_index s !! pindexTest);
              let s := if (has_flag t BLOCK_FAILED_MASK && beats_best_invalid s new)%bool then set_best_invalid s pindexNew else s in
              s ← remove_chain steps s pindexNew pindexTest t;
              FindMostWorkChain fuel (set_candidates s (setBlockIndexCandidates s ∖ {[pindexTest]}))
          end
      end
  end.

(** [PruneBlockIndexCandidates]: what is worse than the tip goes *)
Definition PruneBlockIndexCandidates (s : CChainState) : outcome CChainState :=
  t ← deref (tip s);
  let c := filter (fun h => worse (block_index s) h t = false) (setBlockIndexCandidates s) in
  if bool_decide (c = ∅) then Abort else Ret (set_candidates s c).

(** [InvalidChainFound], [InvalidBlockFound] *)
Definition InvalidChainFound (s : CChainState) (pindexNew : uint256) : outcome CChainState :=
  new ← deref (block_index s !! pindexNew);
  let s := if beats_best_invalid s new then set_best_invalid s pindexNew else s in
  s ← match bm_best_header (m_blockman (m_chainman s)) with
      | None => Ret s
      | Some best =>
          a ← GetAncestor (block_index s) best (nHeight new);
          Ret (if bool_decide (a = Some pindexNew) then set_best_header s (tip s) else s)
      end;
  _ ← deref (tip s);
  Ret s.
Definition InvalidBlockFound (s : CChainState) (pindex : uint256) (result : BlockValidationResult) : outcome CChainState :=
  if bool_decide (result = BLOCK_MUTATED) then Ret s
  else
    b ← deref (block_index s !! pindex);
    let s := put true s pindex (add_flag b BLOCK_FAILED_VALID) in
    let s := set_failed s (failed_insert pindex (m_failed_blocks (m_chainman s))) in
    InvalidChainFound (set_candidates s (setBlockIndexCandidates s ∖ {[pindex]})) pindex.

(** ** Moving the tip *)

(** [DisconnectTip]: whether the tip could be taken back *)
Definition DisconnectTip (s : CChainState) : outcome (bool * CChainState) :=
  pindexDelete ← deref (tip s);
  b ← deref (block_index s !! pindexDelete);
  let '(ok, w) := DisconnectBlock (world s) pindexDelete in
  let s := set_world s w in
  if negb ok then Ret (false, log_answer s pindexDelete SystemError)
  else v ← SetTip (block_index s) (m_chain s) (pprev b); Ret (true, set_chain s v).

(** [ConnectTip] *)
Definition ConnectTip (s : CChainState) (pindexNew : uint256) : outcome (connect_verdict * CChainState) :=
  b ← deref (block_index s !! pindexNew);
  if negb (bool_decide (pprev b = tip s)) then Abort
  else
    '(verdict, b, dirty, w) ← ConnectBlock (world s) pindexNew b;
    let s := log_answer (set_world (put dirty s pindexNew b) w) pindexNew verdict in
    match verdict with
    | Connected => v ← SetTip (block_index s) (m_chain s) (Some pindexNew); Ret (Connected, set_chain s v)
    | Invalid result => s ← InvalidBlockFound s pindexNew result; Ret (Invalid result, s)
    | SystemError => Ret (SystemError, s)
    end.

(** [while (m_chain.Tip() && m_chain.Tip() != pindexFork)] *)
Fixpoint disconnect_to (fuel : nat) (s : CChainState) (pindexFork : option uint256) : outcome (bool * CChainState) :=
  match tip s with
  | None => Ret (true, s)
  | Some t =>
      if bool_decide (Some t = pindexFork) then Ret (true, s)
      else
        match fuel with
        | O => Abort
        | S fuel =>
            '(ok, s) ← DisconnectTip s;
            if (ok : bool) then disconnect_to fuel s pindexFork else Ret (false, s)
        end
  end.

(** The blocks from [pindexIter] down to the height [height], which is left out *)
Fixpoint to_connect (fuel : nat) (bi : gmap uint256 CBlockIndex) (pindexIter : option uint256) (height : Z) : outcome (list uint256) :=
  match pindexIter with
  | None => Ret []
  | Some h =>
      b ← deref (bi !! h);
      if nHeight b =? height then Ret []
      else match fuel with
           | O => Abort
           | S fuel => l ← to_connect fuel bi (pprev b) height; Ret (h :: l)
           end
  end.

(** How connecting a list of blocks ends *)
Inductive connect_end : Type :=
| ReachedEnd
| BetterTip
| InvalidFound
| ConnectFailed.

(** [front] is the last block of the list *)
Fixpoint connect_blocks (s : CChainState) (pindexOldTip : option uint256) (front : uint256) (l : list uint256) : outcome (connect_end * CChainState) :=
  match l with
  | [] => Ret (ReachedEnd, s)
  | pindexConnect :: l =>
      '(verdict, s) ← ConnectTip s pindexConnect;
      match verdict with
      | SystemError => Ret (ConnectFailed, s)
      | Invalid result =>
          s ← (if bool_decide (result = BLOCK_MUTATED) then Ret s else InvalidChainFound s front);
          Ret (InvalidFound, s)
      | Connected =>
          s ← PruneBlockIndexCandidates s;
          t ← deref (tip s);
          b ← deref (block_index s !! t);
          better ← match pindexOldTip with
                   | None => Ret true
                   | Some o => ob ← deref (block_index s !! o); Ret (bu_gt (nChainWork b) (nChainWork ob))
                   end;
          if (better : bool) then Ret (BetterTip, s) else connect_blocks s pindexOldTip front l
      end
  end.

(** [while (fContinue && nHeight != pindexMostWork->nHeight)]: at most 32 blocks at a time *)
Fixpoint connect_towards (fuel : nat) (s : CChainState) (pindexOldTip : option uint256) (pindexMostWork : uint256) (height : Z) : outcome (connect_end * CChainState) :=
  m ← deref (block_index s !! pindexMostWork);
  if height =? nHeight m then Ret (ReachedEnd, s)
  else
    match fuel with
    | O => Abort
    | S fuel =>
        let nTargetHeight := Z.min (height + 32) (nHeight m) in
        pindexIter ← GetAncestor (block_index s) pindexMostWork nTargetHeight;
        l ← to_connect (Z.to_nat (nTargetHeight - height)) (block_index s) pindexIter height;
        '(e, s) ← connect_blocks s pindexOldTip (default pindexMostWork (head l)) (rev l);
        match e with
        | ReachedEnd => connect_towards fuel s pindexOldTip pindexMostWork nTargetHeight
        | _ => Ret (e, s)
        end
    end.

(** [ActivateBestChainStep]: whether it succeeded, and [fInvalidFound] *)
Definition ActivateBestChainStep (s : CChainState) (pindexMostWork : uint256) : outcome (bool * bool * CChainState) :=
  let pindexOldTip := tip s in
  m ← deref (block_index s !! pindexMostWork);
  pindexFork ← FindFork (block_index s) (m_chain s) (Some pindexMostWork);
  '(ok, s) ← disconnect_to (length (m_chain s)) s pindexFork;
  if negb ok then Ret (false, false, s)
  else
    height ← match pindexFork with None => Ret (-1) | Some f => fb ← deref (block_index s !! f); Ret (nHeight fb) end;
    '(e, s) ← connect_towards (S (Z.to_nat (nHeight m))) s pindexOldTip pindexMostWork height;
    Ret (match e with ConnectFailed => (false, false, s) | InvalidFound => (true, true, s) | _ => (true, false, s) end).

(** ** ActivateBestChain *)

(** The state of its loops *)
Record activation : Type := mkActivation {
  act_state : CChainState;
  act_most_work : option uint256;
  act_new_tip : option uint256;
  act_connected : bool;
}.

(** The inner loop, which holds the lock until the tip is no worse than it was; the
    flag is [false] after a system error *)
Fixpoint activate_inner (fuel : nat) (starting_tip : option uint256) (a : activation) : outcome (bool * activation) :=
  '(most, s) ← match act_most_work a with
               | Some m => Ret (Some m, act_state a)
               | None => FindMostWorkChain (size (setBlockIndexCandidates (act_state a))) (act_state a)
               end;
  match most with
  | None => Ret (true, mkActivation s None (act_new_tip a) (act_connected a))
  | Some m =>
      if bool_decide (most = tip s) then Ret (true, mkActivation s most (act_new_tip a) (act_connected a))
      else
        '(ok, fInvalidFound, s) ← ActivateBestChainStep s m;
        if negb ok then Ret (false, mkActivation s most (act_new_tip a) (act_connected a))
        else
          let a := mkActivation s (if (fInvalidFound : bool) then None else most) (tip s) true in
          let again := match tip s, starting_tip with
                       | None, _ => true
                       | Some t, Some t0 => worse (block_index s) t t0
                       | Some _, None => false
                       end in
          if again then match fuel with O => Abort | S fuel => activate_inner fuel starting_tip a end
          else Ret (true, a)
  end.

Fixpoint activate_outer (fuel : nat) (s : CChainState) (most new_tip : option uint256) : outcome (bool * CChainState) :=
  '(ok, a) ← activate_inner fuel (tip s) (mkActivation s most new_tip false);
  if negb ok then Ret (false, act_state a)
  else if negb (act_connected a) then Ret (true, act_state a)
  else if bool_decide (act_new_tip a = act_most_work a) then Ret (true, act_state a)
  else match fuel with O => Abort | S fuel => activate_outer fuel (act_state a) (act_most_work a) (act_new_tip a) end.

(** [ActivateBestChain]: whether it succeeded. Each step marks a block as failed or
    improves the tip. *)
Definition activation_fuel (s : CChainState) : nat := S (size (block_index s)) * S (size (block_index s)).
Definition ActivateBestChain (s : CChainState) : outcome (bool * CChainState) := activate_outer (activation_fuel s) s None None.

End chainstate.

(** ** The order of the candidates *)

Section order.

Context (addr : uint256 -> Z) `{!Inj (=) (=) addr} (bi : gmap uint256 CBlockIndex).
Context (Hwork : forall h b, bi !! h = Some b -> bu_wf (nChainWork b)).

#[local] Notation "a '<<' b" := (worse addr bi a b = true) (at level 70).

Lemma worse_spec ha a hb b : bi !! ha = Some a -> bi !! hb = Some b ->
  ha << hb <-> val (nChainWork a) < val (nChainWork b) \/
    (val (nChainWork a) = val (nChainWork b) /\
     (nSequenceId b < nSequenceId a \/ (nSequenceId b = nSequenceId a /\ addr hb < addr ha))).
Proof.
  intros Ha Hb. unfold worse, CBlockIndexWorkComparator. rewrite Ha, Hb, bu_gt_spec, bu_lt_spec by eauto. rewrite !Z.gtb_ltb.
  repeat match goal with |- context [?x <? ?y] => destruct (Z.ltb_spec x y) end; split; intros; try lia; done.
Qed.

Lemma worse_known a b : a << b -> is_Some (bi !! a) /\ is_Some (bi !! b).
Proof. unfold worse. destruct (bi !! a), (bi !! b); done || eauto. Qed.

Lemma worse_irrefl a : ~ a << a.
Proof. intros H. destruct (worse_known a a H) as [[b Hb] _]. apply (worse_spec a b a b Hb Hb) in H. lia. Qed.

Lemma worse_trans a b c : a << b -> b << c -> a << c.
Proof.
  intros H1 H2. destruct (worse_known _ _ H1) as [[x Hx] [y Hy]]. destruct (worse_known _ _ H2) as [_ [z Hz]].
  apply (worse_spec a x b y Hx Hy) in H1. apply (worse_spec b y c z Hy Hz) in H2. apply (worse_spec a x c z Hx Hz). lia.
Qed.

Lemma worse_total a b : is_Some (bi !! a) -> is_Some (bi !! b) -> a = b \/ a << b \/ b << a.
Proof.
  intros [x Hx] [y Hy]. destruct (decide (a = b)) as [|Hn]; [by left|right].
  assert (addr a <> addr b) by (by intros E%(inj addr)). rewrite (worse_spec a x b y Hx Hy), (worse_spec b y a x Hy Hx). lia.
Qed.

(** At most as good *)
Definition le_tip (a b : uint256) : Prop := a = b \/ a << b.

Lemma le_tip_trans a b c : le_tip a b -> le_tip b c -> le_tip a c.
Proof. intros [->|H1] [->|H2]; [by left|by right|by right|right; by apply (worse_trans a b c)]. Qed.

Lemma not_worse a b : is_Some (bi !! a) -> is_Some (bi !! b) -> worse addr bi a b = false -> le_tip b a.
Proof. intros Ha Hb H. destruct (worse_total a b Ha Hb) as [->|[E|E]]; [by left|congruence|by right]. Qed.

Lemma best_of_spec l : (forall c, c ∈ l -> is_Some (bi !! c)) ->
  match best_of addr bi l with
  | None => l = []
  | Some m => m ∈ l /\ forall c, c ∈ l -> le_tip c m
  end.
Proof.
  induction l as [|c l IH]; intros Hl; [done|]. cbn [best_of foldr]. specialize (IH ltac:(set_solver)). fold (best_of addr bi l).
  destruct (best_of addr bi l) as [d|].
  - destruct IH as [Hd Hmax]. destruct (worse addr bi d c) eqn:E.
    + split; [set_solver|]. intros x [->|Hx]%elem_of_cons; [by left|]. apply (le_tip_trans x d c); [auto|by right].
    + split; [set_solver|]. intros x [->|Hx]%elem_of_cons; [|auto]. apply not_worse; [|auto with set_solver|done]; apply Hl; set_solver.
  - subst l. split; [set_solver|]. intros x [->|Hx]%elem_of_cons; [by left|set_solver].
Qed.

End order.

(** ** Properties of a block and all its ancestors *)

Inductive all_along (P : uint256 -> CBlockIndex -> Prop) (bi : gmap uint256 CBlockIndex) : uint256 -> Prop :=
| aa_root h b : bi !! h = Some b -> pprev b = None -> P h b -> all_along P bi h
| aa_step h b p : bi !! h = Some b -> pprev b = Some p -> P h b -> all_along P bi p -> all_along P bi h.

Lemma all_along_here P bi h : all_along P bi h -> exists b, bi !! h = Some b /\ P h b.
Proof. intros []; eauto. Qed.

Lemma all_along_prev P bi h b p : all_along P bi h -> bi !! h = Some b -> pprev b = Some p -> all_along P bi p.
Proof. intros [h' b' Hb' Hp|h' b' p' Hb' Hp _ H] Hb Hp'; [congruence|]. by replace p with p' by congruence. Qed.

Lemma all_along_ancestor P bi h q : all_along P bi h -> is_ancestor bi h q -> all_along P bi q.
Proof.
  intros H [n Hn]. revert h H Hn. induction n as [|n IH]; intros h H Hn; [by injection Hn as <-|]. cbn [walk] in Hn.
  destruct (all_along_here _ _ _ H) as (b & Hb & _). rewrite Hb in Hn. cbn in Hn. destruct (pprev b) as [p|] eqn:Hp; [|done].
  apply (IH p); [by apply (all_along_prev P bi h b)|done].
Qed.

(** The property can change with the entries, as long as the links stay. *)
Lemma all_along_mono P P' bi bi' h : extends bi bi' ->
  (forall x b b', bi !! x = Some b -> bi' !! x = Some b' -> all_along P bi x -> is_ancestor bi h x -> P' x b') ->
  all_along P bi h -> all_along P' bi' h.
Proof.
  intros Hext HP Ha. assert (is_ancestor bi h h) as Hr by apply is_ancestor_refl. revert Ha Hr. generalize h at 1 3 4 as x. intros x Ha.
  induction Ha as [x b Hb Hp Px|x b p Hb Hp Px Hpa IH]; intros Hr; destruct (Hext x b Hb) as (b' & Hb' & S).
  - apply (aa_root _ _ x b'); [done|by rewrite (sh_pprev _ _ S)|]. apply (HP x b b'); try done. by apply (aa_root _ _ x b).
  - apply (aa_step _ _ x b' p); [done|by rewrite (sh_pprev _ _ S)|apply (HP x b b'); try done; by apply (aa_step _ _ x b p)|].
    apply IH. apply (is_ancestor_trans bi h x p); [done|by apply (is_ancestor_prev bi x b)].
Qed.

(** A block whose data is there, not known to be invalid nor in conflict with a ChainLock *)
Definition block_ok (b : CBlockIndex) : bool :=
  has_flag b BLOCK_HAVE_DATA && negb (has_flag b BLOCK_FAILED_MASK) && negb (has_flag b BLOCK_CONFLICT_CHAINLOCK).

(** Known to be invalid, or in conflict with a ChainLock *)
Definition flagged (b : CBlockIndex) : bool := has_flag b BLOCK_FAILED_MASK || has_flag b BLOCK_CONFLICT_CHAINLOCK.

Lemma block_ok_flagged b : block_ok b = (has_flag b BLOCK_HAVE_DATA && negb (flagged b))%bool.
Proof. unfold block_ok, flagged. by rewrite negb_orb, andb_assoc. Qed.

(** The chains that can be activated as far as the index knows *)
Definition usable (bi : gmap uint256 CBlockIndex) : uint256 -> Prop := all_along (fun _ b => block_ok b = true) bi.

(** ** Changes of an entry that keep its links and its place in the order *)

Record entry_step (b b' : CBlockIndex) : Prop := {
  es_header : same_header b b';
  es_tx : nTx b' = nTx b;
  es_chaintx : nChainTx b' = nChainTx b;
  es_seq : nSequenceId b' = nSequenceId b;
  es_data : has_flag b' BLOCK_HAVE_DATA = has_flag b BLOCK_HAVE_DATA;
  es_failed : has_flag b BLOCK_FAILED_MASK = true -> has_flag b' BLOCK_FAILED_MASK = true;
  es_failed_valid : has_flag b BLOCK_FAILED_VALID = true -> has_flag b' BLOCK_FAILED_VALID = true;
  es_conflict : has_flag b BLOCK_CONFLICT_CHAINLOCK = true -> has_flag b' BLOCK_CONFLICT_CHAINLOCK = true;
  es_level : Z.land (nStatus b) BLOCK_VALID_MASK <= Z.land (nStatus b') BLOCK_VALID_MASK;
}.

Definition evolves (bi bi' : gmap uint256 CBlockIndex) : Prop :=
  (forall h b, bi !! h = Some b -> exists b', bi' !! h = Some b' /\ entry_step b b') /\ (forall h, is_Some (bi' !! h) -> is_Some (bi !! h)).

Lemma entry_step_refl b : entry_step b b.
Proof. by split. Qed.
Lemma entry_step_trans a b c : entry_step a b -> entry_step b c -> entry_step a c.
Proof. intros [] []. split; try congruence; try lia; auto. by apply (same_header_trans a b c). Qed.

Lemma evolves_refl bi : evolves bi bi.
Proof. split; [|done]. intros h b Hb. eauto using entry_step_refl. Qed.
Lemma evolves_trans a b c : evolves a b -> evolves b c -> evolves a c.
Proof.
  intros [A1 A2] [B1 B2]. split; [|auto]. intros h x Hx. destruct (A1 h x Hx) as (y & Hy & S1). destruct (B1 h y Hy) as (z & Hz & S2).
  exists z. split; [done|by apply (entry_step_trans x y z)].
Qed.

Lemma evolves_insert bi h b b' : bi !! h = Some b -> entry_step b b' -> evolves bi (<[h := b']> bi).
Proof.
  intros Hb S. split.
  - intros x y Hy. destruct (decide (h = x)) as [<-|Hn].
    + exists b'. rewrite lookup_insert_eq. split; [done|]. by replace y with b by congruence.
    + exists y. rewrite lookup_insert_ne by done. split; [done|apply entry_step_refl].
  - intros x. destruct (decide (h = x)) as [<-|Hn]; [eauto|by rewrite lookup_insert_ne].
Qed.

Lemma evolves_extends bi bi' : evolves bi bi' -> extends bi bi' /\ extends bi' bi.
Proof.
  intros [H1 H2]. split.
  - intros h b Hb. destruct (H1 h b Hb) as (b' & Hb' & S). exists b'. split; [done|apply S].
  - intros h b' Hb'. destruct (H2 h ltac:(eauto)) as [b Hb]. destruct (H1 h b Hb) as (x & Hx & S). exists b. split; [done|].
    replace b' with x by congruence. apply same_header_sym, S.
Qed.

Lemma evolves_back bi bi' h b' : evolves bi bi' -> bi' !! h = Some b' -> exists b, bi !! h = Some b /\ entry_step b b'.
Proof.
  intros [H1 H2] Hb'. destruct (H2 h ltac:(eauto)) as [b Hb]. destruct (H1 h b Hb) as (x & Hx & S). exists b. split; [done|].
  by replace b' with x by congruence.
Qed.

Lemma evolves_worse addr bi bi' a b : evolves bi bi' -> worse addr bi' a b = worse addr bi a b.
Proof.
  intros He. unfold worse, CBlockIndexWorkComparator. destruct He as [H1 H2].
  destruct (bi !! a) as [x|] eqn:Hx; [|destruct (bi' !! a) eqn:Hy; [|done]; destruct (H2 a ltac:(eauto)); congruence].
  destruct (H1 a x Hx) as (x' & -> & []).
  destruct (bi !! b) as [y|] eqn:Hy; [|destruct (bi' !! b) eqn:Hz; [|done]; destruct (H2 b ltac:(eauto)); congruence].
  destruct (H1 b y Hy) as (y' & -> & []). by rewrite (sh_work _ _ es_header0), (sh_work _ _ es_header1), es_seq0, es_seq1.
Qed.

Lemma evolves_ok b b' : entry_step b b' -> block_ok b' = true -> block_ok b = true.
Proof.
  intros [] H. unfold block_ok in *. rewrite es_data0 in H. destruct (has_flag b BLOCK_HAVE_DATA); [|done].
  destruct (has_flag b BLOCK_FAILED_MASK); [by rewrite es_failed0 in H|]. destruct (has_flag b BLOCK_CONFLICT_CHAINLOCK); [|done].
  rewrite es_conflict0 in H by done. by rewrite andb_false_r in H.
Qed.

(** Flags are only added, so nothing becomes usable. *)
Lemma evolves_usable bi bi' h : evolves bi bi' -> usable bi' h -> usable bi h.
Proof.
  intros He. destruct (evolves_extends _ _ He) as [_ Hx]. apply all_along_mono; [done|]. intros x b' b Hb' Hb Hx' _.
  destruct (all_along_here _ _ _ Hx') as (y & Hy & Hok). destruct (evolves_back bi bi' x b' He Hb') as (z & Hz & S). simplify_eq. by eapply evolves_ok.
Qed.

Lemma evolves_ancestor bi bi' h q : tree_wf bi -> evolves bi bi' -> is_Some (bi !! h) -> is_ancestor bi' h q <-> is_ancestor bi h q.
Proof.
  intros Hwf He [b Hb]. destruct (evolves_extends _ _ He) as [Hx _]. unfold is_ancestor.
  split; intros [n Hn]; exists n; by rewrite (ext_walk bi bi' Hwf Hx n h b Hb) in *.
Qed.

Lemma chain_wf_ext bi bi' v : extends bi bi' -> chain_wf bi v -> chain_wf bi' v.
Proof.
  intros Hx Hv i Hi. destruct (Hv i Hi) as (h & b & Hh & Hb & Hn & Hp). destruct (Hx h b Hb) as (b' & Hb' & S).
  exists h, b'. by rewrite (sh_height _ _ S), (sh_pprev _ _ S).
Qed.

(** ** Flags *)

Lemma has_flag_add b f g : has_flag (add_flag b f) g = (has_flag b g || negb (Z.land f g =? 0))%bool.
Proof.
  unfold has_flag, add_flag. cbn [nStatus set_status]. rewrite Z.land_lor_distr_l.
  destruct (Z.eqb_spec (Z.land (nStatus b) g) 0) as [E|E].
  - by rewrite E, Z.lor_0_l.
  - destruct (Z.eqb_spec (Z.lor (Z.land (nStatus b) g) (Z.land f g)) 0) as [E'|]; [|done]. apply Z.lor_eq_0_iff in E'. lia.
Qed.

(** A flag outside the level of validity and the data *)
Definition verdict_flag (f : Z) : Prop := f = BLOCK_FAILED_VALID \/ f = BLOCK_FAILED_CHILD \/ f = BLOCK_CONFLICT_CHAINLOCK.

Lemma entry_step_flag b f : verdict_flag f -> entry_step b (add_flag b f).
Proof.
  intros Hf. split; try done; rewrite ?has_flag_add.
  - destruct Hf as [->|[->| ->]]; by rewrite orb_false_r.
  - by intros ->.
  - by intros ->.
  - by intros ->.
  - cbn [nStatus add_flag set_status]. rewrite Z.land_lor_distr_l. destruct Hf as [->|[->| ->]]; by rewrite Z.lor_0_r.
Qed.

Lemma flagged_step b b' : entry_step b b' -> flagged b = true -> flagged b' = true.
Proof. intros [] [Hf|Hf]%orb_prop; unfold flagged; [by rewrite es_failed0|rewrite es_conflict0 by done; apply orb_true_r]. Qed.

Lemma flagged_not_ok b f : verdict_flag f -> block_ok (add_flag b f) = false.
Proof.
  intros Hf. unfold block_ok. rewrite !has_flag_add. destruct Hf as [->|[->| ->]];
    change (negb (Z.land _ BLOCK_FAILED_MASK =? 0)) with true || change (negb (Z.land _ BLOCK_FAILED_MASK =? 0)) with false;
    change (negb (Z.land _ BLOCK_CONFLICT_CHAINLOCK =? 0)) with true || change (negb (Z.land _ BLOCK_CONFLICT_CHAINLOCK =? 0)) with false;
    rewrite ?orb_true_r, ?andb_false_r; done.
Qed.

(** ** Status bits *)

Lemma land_masked st m v f : Z.land m f = 0 -> Z.land v f = 0 -> Z.land (Z.lor (Z.ldiff st m) v) f = Z.land st f.
Proof.
  intros Hm Hv. apply Z.bits_inj'. intros n Hn. rewrite !Z.land_spec, Z.lor_spec, Z.ldiff_spec.
  assert (Z.testbit m n && Z.testbit f n = false) as E1 by (rewrite <- Z.land_spec, Hm; apply Z.bits_0).
  assert (Z.testbit v n && Z.testbit f n = false) as E2 by (rewrite <- Z.land_spec, Hv; apply Z.bits_0).
  by destruct (Z.testbit m n), (Z.testbit v n), (Z.testbit f n), (Z.testbit st n).
Qed.

Lemma land_ldiff_disjoint st m f : Z.land m f = 0 -> Z.land (Z.ldiff st m) f = Z.land st f.
Proof. intros Hm. rewrite <- (land_masked st m 0 f Hm (Z.land_0_l f)). by rewrite Z.lor_0_r. Qed.

Lemma land_level st v : Z.land v BLOCK_VALID_MASK = v -> Z.land (Z.lor (Z.ldiff st BLOCK_VALID_MASK) v) BLOCK_VALID_MASK = v.
Proof.
  intros Hv. rewrite Z.land_lor_distr_l, Hv. replace (Z.land (Z.ldiff st BLOCK_VALID_MASK) BLOCK_VALID_MASK) with 0; [done|].
  apply Z.bits_inj'. intros n Hn. rewrite Z.land_spec, Z.ldiff_spec, Z.bits_0. by destruct (Z.testbit st n), (Z.testbit BLOCK_VALID_MASK n).
Qed.

(** [RaiseValidity] touches the level and the mark of assumed validity only. *)
Lemma RaiseValidity_spec st v : Z.ldiff v BLOCK_VALID_MASK = 0 -> Z.land v BLOCK_VALID_MASK = v -> exists st' c, RaiseValidity st v = Ret (st', c) /\
  Z.land st BLOCK_VALID_MASK <= Z.land st' BLOCK_VALID_MASK /\
  forall f, Z.land BLOCK_VALID_MASK f = 0 -> Z.land v f = 0 -> Z.land BLOCK_ASSUMED_VALID f = 0 -> Z.land st' f = Z.land st f.
Proof.
  intros Hd Hv. unfold RaiseValidity. rewrite Hd. cbn [negb Z.eqb]. destruct (negb _); [eexists _, _; split; [reflexivity|]; split; [lia|done]|].
  destruct (Z.ltb_spec (Z.land st BLOCK_VALID_MASK) v) as [Hlt|]; [|eexists _, _; split; [reflexivity|]; split; [lia|done]].
  eexists _, _. split; [reflexivity|]. split; [rewrite land_level by done; lia|]. intros f H1 H2 H3. rewrite land_masked by done.
  destruct (_ && _)%bool; [by apply land_ldiff_disjoint|done].
Qed.

(** ** The entry [ConnectBlock] leaves *)

(** The flags that the choice of a chain reads *)
Definition choice_flag (f : Z) : Prop := f = BLOCK_HAVE_DATA \/ f = BLOCK_FAILED_MASK \/ f = BLOCK_FAILED_VALID \/ f = BLOCK_CONFLICT_CHAINLOCK.

(** Other flags and other data *)
Definition same_choice (b b' : CBlockIndex) : Prop := entry_step b b' /\ flagged b' = flagged b.

Lemma same_choice_trans a b c : same_choice a b -> same_choice b c -> same_choice a c.
Proof. intros [S1 F1] [S2 F2]. split; [by apply (entry_step_trans a b c)|congruence]. Qed.

Lemma same_choice_status b b' : same_header b b' -> nTx b' = nTx b -> nChainTx b' = nChainTx b -> nSequenceId b' = nSequenceId b ->
  (forall f, choice_flag f -> Z.land (nStatus b') f = Z.land (nStatus b) f) ->
  Z.land (nStatus b) BLOCK_VALID_MASK <= Z.land (nStatus b') BLOCK_VALID_MASK -> same_choice b b'.
Proof.
  intros Hh H1 H2 H3 Hf Hl. assert (forall f, choice_flag f -> has_flag b' f = has_flag b f) as E by (intros f Hc; unfold has_flag; by rewrite Hf).
  assert (choice_flag BLOCK_HAVE_DATA /\ choice_flag BLOCK_FAILED_MASK /\ choice_flag BLOCK_FAILED_VALID /\ choice_flag BLOCK_CONFLICT_CHAINLOCK) as (C1 & C2 & C3 & C4) by (unfold choice_flag; tauto).
  split; [split; rewrite ?E by done; done|]. unfold flagged. by rewrite !E.
Qed.

Lemma choice_status b st : (forall f, choice_flag f -> Z.land st f = Z.land (nStatus b) f) ->
  Z.land (nStatus b) BLOCK_VALID_MASK <= Z.land st BLOCK_VALID_MASK -> same_choice b (set_status b st).
Proof. intros Hf Hl. by apply same_choice_status. Qed.

Lemma write_connected_spec b supply undo scripts : exists b' dirty, write_connected b supply undo scripts = Ret (b', dirty) /\ same_choice b b'.
Proof.
  unfold write_connected. set (b1 := match supply with None => b | Some _ => _ end).
  assert (same_choice b b1) as S1 by (unfold b1; destruct supply as [[]|]; by apply same_choice_status).
  set (r := match undo with None => _ | Some _ => _ end). assert (same_choice b r.1) as S2.
  { apply (same_choice_trans b b1); [done|]. unfold r. destruct undo as [pos|]; [|by apply same_choice_status]. apply same_choice_status; try done; cbn [nStatus set_undo fst].
    - intros f Hf. rewrite Z.land_lor_distr_l. by destruct Hf as [->|[->|[->| ->]]]; rewrite Z.lor_0_r.
    - by rewrite Z.land_lor_distr_l, Z.lor_0_r. }
  destruct r as [b2 d]. cbn [fst] in S2. destruct scripts; cbn [negb]; [|by eexists _, _].
  destruct (RaiseValidity_spec (nStatus b2) BLOCK_VALID_SCRIPTS eq_refl eq_refl) as (st & c & Hst & Hle & Hf).
  assert (exists v, IsValid (nStatus b2) BLOCK_VALID_SCRIPTS = Ret v) as [v ->] by (unfold IsValid; destruct (negb _) eqn:E; [done|]; destruct (negb (Z.land (nStatus b2) _ =? 0)); eauto).
  cbn [mbind outcome_bind]. destruct v; [by eexists _, _|]. rewrite Hst. cbn [mbind outcome_bind]. eexists _, _. split; [reflexivity|].
  apply (same_choice_trans b b2); [done|]. apply choice_status; [|done]. intros f [->|[->|[->| ->]]]; by apply Hf.
Qed.

(** [ConnectBlock] returns, leaves the links and the flags of the entry, and connects or
    refuses a block only when its rules do. *)
Lemma ConnectBlock_spec `{BlockConnector} w h b : exists v b' dirty w', ConnectBlock w h b = Ret (v, b', dirty, w') /\ same_choice b b' /\
  v <> Invalid BLOCK_MUTATED /\ (v <> SystemError -> (ConnectRules w h b).1.1 = v).
Proof.
  unfold ConnectBlock. destruct (ConnectRules w h b) as [[v wr] w'].
  assert (same_choice b (write_stake b (wr_stake wr)).1) as S1 by (destruct (wr_stake wr) as [[[] ]|]; by apply same_choice_status).
  destruct (write_stake b (wr_stake wr)) as [b1 d1]. destruct (write_connected_spec b1 (wr_supply wr) (wr_undo wr) (wr_scripts wr)) as (b2 & d2 & -> & S2).
  cbn [mbind outcome_bind fst] in *. eexists _, _, _, _. split; [reflexivity|]. split; [by apply (same_choice_trans b b1)|].
  split; by destruct v as [|[]|].
Qed.

(** ** Which blocks are linked *)

(** The transactions of the chain before a block *)
Definition txs_before (bi : gmap uint256 CBlockIndex) (b : CBlockIndex) : Z :=
  match pprev b ≫= (bi !!.) with Some p => nChainTx p | None => 0 end.

(** Blocks count the transactions of their chain once all are there; a block that has
    its data and waits for its parent is in [m_blocks_unlinked], unless the parent was
    known to be invalid. *)
Record links_inv (bi : gmap uint256 CBlockIndex) (unlinked : list (uint256 * uint256)) : Prop := {
  li_index : index_wf bi;
  li_level : forall h b, bi !! h = Some b -> BLOCK_VALID_TREE <= Z.land (nStatus b) BLOCK_VALID_MASK;
  li_tx : forall h b, bi !! h = Some b -> 0 <= nTx b /\ 0 <= nChainTx b /\ (has_flag b BLOCK_HAVE_DATA = true <-> nTx b <> 0);
  li_linked : forall h b, bi !! h = Some b -> HaveTxsDownloaded b = true ->
    has_flag b BLOCK_HAVE_DATA = true /\ nChainTx b = nTx b + txs_before bi b /\
    (forall p pb, pprev b = Some p -> bi !! p = Some pb -> HaveTxsDownloaded pb = true);
  li_waiting : forall h b, bi !! h = Some b -> has_flag b BLOCK_HAVE_DATA = true -> HaveTxsDownloaded b = false ->
    exists p pb, pprev b = Some p /\ bi !! p = Some pb /\
      (has_flag pb BLOCK_FAILED_MASK = true \/ (HaveTxsDownloaded pb = false /\ (p, h) ∈ unlinked));
  li_unlinked : forall p h, (p, h) ∈ unlinked -> exists b pb, bi !! h = Some b /\ pprev b = Some p /\ has_flag b BLOCK_HAVE_DATA = true /\
    HaveTxsDownloaded b = false /\ bi !! p = Some pb /\ HaveTxsDownloaded pb = false;
  li_nodup : NoDup unlinked;
}.

Lemma entry_step_linked b b' : entry_step b b' -> HaveTxsDownloaded b' = HaveTxsDownloaded b.
Proof. intros []. unfold HaveTxsDownloaded. congruence. Qed.

Lemma links_evolve bi bi' u : evolves bi bi' -> links_inv bi u -> links_inv bi' u.
Proof.
  intros He [L1 L2 L3 L4 L5 L6 L7]. destruct (evolves_extends _ _ He) as [X1 X2]. split; [by apply (index_wf_same bi)|..|done].
  - intros h b' Hb'. destruct (evolves_back _ _ _ _ He Hb') as (b & Hb & []). specialize (L2 h b Hb). lia.
  - intros h b' Hb'. destruct (evolves_back _ _ _ _ He Hb') as (b & Hb & []). rewrite es_tx0, es_chaintx0, es_data0. by apply (L3 h).
  - intros h b' Hb' Hl. destruct (evolves_back _ _ _ _ He Hb') as (b & Hb & S). rewrite (entry_step_linked _ _ S) in Hl.
    destruct (L4 h b Hb Hl) as (D & C & P). destruct S. rewrite es_data0, es_chaintx0, es_tx0, C. split; [done|]. split.
    + f_equal. unfold txs_before. rewrite (sh_pprev _ _ es_header0). destruct (pprev b) as [p|] eqn:Hp; [|done]. cbn.
      destruct (pprev_height bi (proj1 L1) h b p Hb Hp) as (pb & Hpb & _). destruct (proj1 He p pb Hpb) as (pb' & Hpb' & []). rewrite Hpb, Hpb'. congruence.
    + intros p pb'. rewrite (sh_pprev _ _ es_header0). intros Hp Hpb'. destruct (evolves_back _ _ _ _ He Hpb') as (pb & Hpb & S').
      rewrite (entry_step_linked _ _ S'). by apply (P p).
  - intros h b' Hb' Hd Hl. destruct (evolves_back _ _ _ _ He Hb') as (b & Hb & S). rewrite (entry_step_linked _ _ S) in Hl.
    rewrite (es_data _ _ S) in Hd. destruct (L5 h b Hb Hd Hl) as (p & pb & Hp & Hpb & Hw). destruct (proj1 He p pb Hpb) as (pb' & Hpb' & S').
    exists p, pb'. rewrite (sh_pprev _ _ (es_header _ _ S)), (entry_step_linked _ _ S'). split_and!; try done.
    destruct Hw as [Hf|?]; [left; by apply (es_failed _ _ S')|by right].
  - intros p h Hu. destruct (L6 p h Hu) as (b & pb & Hb & Hp & Hd & Hl & Hpb & Hpl). destruct (proj1 He h b Hb) as (b' & Hb' & S).
    destruct (proj1 He p pb Hpb) as (pb' & Hpb' & S'). exists b', pb'.
    by rewrite (sh_pprev _ _ (es_header _ _ S)), (es_data _ _ S), (entry_step_linked _ _ S), (entry_step_linked _ _ S').
Qed.

Lemma usable_linked bi u h b : links_inv bi u -> usable bi h -> bi !! h = Some b -> HaveTxsDownloaded b = true.
Proof.
  intros Hl Hu. revert b. induction Hu as [h b Hb Hp Hok|h b p Hb Hp Hok Hpu IH]; intros b' Hb'; replace b' with b by congruence; clear b' Hb';
    destruct (HaveTxsDownloaded b) eqn:Ht; try done; unfold block_ok in Hok; apply andb_prop in Hok as [[Hd _]%andb_prop _];
    destruct (li_waiting _ _ Hl h b Hb Hd Ht) as (q & qb & Hq & Hqb & Hw); [congruence|].
  replace q with p in * by congruence. specialize (IH qb Hqb). destruct (all_along_here _ _ _ Hpu) as (x & Hx & Hxok). simplify_eq.
  destruct Hw as [Hf|[Hf _]]; [|congruence]. unfold block_ok in Hxok. rewrite Hf in Hxok. by rewrite andb_false_r in Hxok.
Qed.

Lemma linked_ancestor bi u h b q qb : links_inv bi u -> bi !! h = Some b -> HaveTxsDownloaded b = true -> is_ancestor bi h q -> bi !! q = Some qb ->
  HaveTxsDownloaded qb = true.
Proof.
  intros Hl Hb Ht [n Hn] Hq. revert h b Hb Ht Hn. induction n as [|n IH]; intros h b Hb Ht Hn; [cbn in Hn; congruence|].
  cbn [walk] in Hn. rewrite Hb in Hn. cbn in Hn. destruct (pprev b) as [p|] eqn:Hp; [|done].
  destruct (pprev_height bi (proj1 (li_index _ _ Hl)) h b p Hb Hp) as (pb & Hpb & _).
  apply (IH p pb); [done| |done]. destruct (li_linked _ _ Hl h b Hb Ht) as (_ & _ & H). by apply (H p).
Qed.

(** ** What was answered so far *)

(** A block was connected; a block was refused. *)
Definition accepted (log : list (uint256 * connect_verdict)) (h : uint256) : Prop := (h, Connected) ∈ log.
Definition refused (log : list (uint256 * connect_verdict)) (h : uint256) : Prop := exists result, (h, Invalid result) ∈ log.

(** No block was both: an answer was never taken back. *)
Definition stable (log : list (uint256 * connect_verdict)) : Prop := forall h, accepted log h -> ~ refused log h.
(** A block could not be read, checked, written or taken back. *)
Definition had_error (log : list (uint256 * connect_verdict)) : Prop := exists h, (h, SystemError) ∈ log.

Lemma accepted_app l k h : accepted (l ++ k) h <-> accepted l h \/ accepted k h.
Proof. apply elem_of_app. Qed.
Lemma refused_app l k h : refused (l ++ k) h <-> refused l h \/ refused k h.
Proof. unfold refused. setoid_rewrite elem_of_app. naive_solver. Qed.
Lemma had_error_app l k : had_error (l ++ k) <-> had_error l \/ had_error k.
Proof. unfold had_error. setoid_rewrite elem_of_app. naive_solver. Qed.
Lemma stable_prefix l k : stable (l ++ k) -> stable l.
Proof. intros Hs h Ha Hr. apply (Hs h); [apply accepted_app; by left|apply refused_app; by left]. Qed.

(** Work accumulates strictly. *)
Definition work_grows (bi : gmap uint256 CBlockIndex) : Prop :=
  forall h b p pb, bi !! h = Some b -> pprev b = Some p -> bi !! p = Some pb -> val (nChainWork pb) < val (nChainWork b).

Lemma work_grows_back bi bi' : extends bi bi' -> work_grows bi' -> work_grows bi.
Proof.
  intros Hx Hg h b p pb Hb Hp Hpb. destruct (Hx h b Hb) as (b' & Hb' & S). destruct (Hx p pb Hpb) as (pb' & Hpb' & S').
  rewrite <- (sh_work _ _ S), <- (sh_work _ _ S'). apply (Hg h b' p pb'); try done. by rewrite (sh_pprev _ _ S).
Qed.

Section selection.

Context `{BlockConnector} (addr : uint256 -> Z) `{!Inj (=) (=) addr}.

(** A usable chain all of whose blocks were connected *)
Definition good (log : list (uint256 * connect_verdict)) (bi : gmap uint256 CBlockIndex) (h : uint256) : Prop :=
  usable bi h /\ all_along (fun x _ => accepted log x) bi h.

(** A block with a reason to be marked among it and its ancestors: one that was refused
    when it was connected, or before its data was stored *)
Definition faulty (log : list (uint256 * connect_verdict)) (bi : gmap uint256 CBlockIndex) (h : uint256) : Prop :=
  exists q qb, is_ancestor bi h q /\ bi !! q = Some qb /\ (refused log q \/ (has_flag qb BLOCK_HAVE_DATA = false /\ flagged qb = true)).

(** No block is marked without such a reason. *)
Definition flags_sound (log : list (uint256 * connect_verdict)) (bi : gmap uint256 CBlockIndex) : Prop :=
  forall h b, bi !! h = Some b -> flagged b = true -> faulty log bi h.

Lemma ext_is_ancestor bi bi' h q : extends bi bi' -> is_ancestor bi h q -> is_ancestor bi' h q.
Proof.
  intros Hx [n Hn]. exists n. revert h Hn. induction n as [|n IH]; intros h Hn; [done|]. cbn [walk] in *.
  destruct (bi !! h) as [b|] eqn:Hb; [|done]. destruct (Hx h b Hb) as (b' & -> & S). cbn in *. rewrite (sh_pprev _ _ S). destruct (pprev b); [by apply IH|done].
Qed.

Lemma faulty_evolves log bi bi' h : evolves bi bi' -> faulty log bi h -> faulty log bi' h.
Proof.
  intros He (q & qb & Ha & Hq & Hr). destruct (proj1 He q qb Hq) as (qb' & Hq' & S). exists q, qb'.
  destruct (evolves_extends _ _ He) as [Hx _]. split; [by apply (ext_is_ancestor bi)|]. split; [done|]. destruct Hr as [|[Hd Hf]]; [by left|right].
  rewrite (es_data _ _ S). split; [done|by apply (flagged_step qb)].
Qed.

Lemma faulty_log log k bi h : faulty log bi h -> faulty (log ++ k) bi h.
Proof. intros (q & qb & Ha & Hq & Hr). exists q, qb. split_and!; try done. destruct Hr as [|]; [left; apply refused_app; by left|by right]. Qed.

Lemma flags_sound_insert log bi h b b' : bi !! h = Some b -> entry_step b b' -> (flagged b' = true -> flagged b = true \/ faulty log (<[h := b']> bi) h) ->
  flags_sound log bi -> flags_sound log (<[h := b']> bi).
Proof.
  intros Hb S Hf Hs x c [[<- <-]|[_ Hc]]%lookup_insert_Some Hfl; [destruct (Hf Hfl); [|done]|];
    (eapply faulty_evolves; [by apply (evolves_insert bi h b)|by eapply Hs]).
Qed.

(** A descendant of a marked block *)
Lemma faulty_descendant log bi h t tb : flags_sound log bi -> is_ancestor bi h t -> bi !! t = Some tb -> flagged tb = true -> faulty log bi h.
Proof. intros Hs Ha Ht Hf. destruct (Hs t tb Ht Hf) as (q & qb & Hq & Hqb & Hr). exists q, qb. split; [by apply (is_ancestor_trans bi h t q)|done]. Qed.

Lemma marked_unusable bi h t tb : is_ancestor bi h t -> bi !! t = Some tb -> flagged tb = true -> ~ usable bi h.
Proof.
  intros Ha Ht Hf Hu. destruct (all_along_here _ _ _ (all_along_ancestor _ _ _ _ Hu Ha)) as (x & Hx & Hok). rewrite block_ok_flagged in Hok.
  replace x with tb in Hok by congruence. rewrite Hf in Hok. by rewrite andb_false_r in Hok.
Qed.

(** The tip leads a chain of connected blocks. As long as no answer was taken back, every
    usable block is a candidate or worse than [r], a good candidate: the tip, or the tip
    before a reorganisation. *)
Record chain_inv (s : CChainState) (r : option uint256) : Prop := {
  ci_links : links_inv (block_index s) (m_blocks_unlinked s);
  ci_chain : chain_wf (block_index s) (m_chain s);
  ci_candidates : forall c, c ∈ setBlockIndexCandidates s -> exists b, block_index s !! c = Some b /\ HaveTxsDownloaded b = true;
  ci_tip : forall t, tip s = Some t -> good (connect_log s) (block_index s) t /\ is_Some r;
  ci_ref : stable (connect_log s) -> forall r0, r = Some r0 -> r0 ∈ setBlockIndexCandidates s /\ good (connect_log s) (block_index s) r0;
  ci_covered : stable (connect_log s) -> forall h, usable (block_index s) h ->
    h ∈ setBlockIndexCandidates s \/ exists r0, r = Some r0 /\ worse addr (block_index s) h r0 = true;
  ci_best : forall h, bm_best_header (m_blockman (m_chainman s)) = Some h -> is_Some (block_index s !! h);
  ci_failed : Forall (failed_valid (block_index s)) (m_failed_blocks (m_chainman s));
  ci_grows : work_grows (block_index s);
}.

(** No candidate is worse than the tip. *)
Definition above_tip (s : CChainState) : Prop :=
  forall t c, tip s = Some t -> c ∈ setBlockIndexCandidates s -> worse addr (block_index s) c t = false.

Lemma inv_works s r : chain_inv s r -> forall h b, block_index s !! h = Some b -> bu_wf (nChainWork b).
Proof. intros Hi h b Hb. apply (cw_work _ _ (proj2 (li_index _ _ (ci_links _ _ Hi)) h b Hb)). Qed.

Lemma inv_tree s r : chain_inv s r -> tree_wf (block_index s).
Proof. intros Hi. apply (li_index _ _ (ci_links _ _ Hi)). Qed.

Lemma all_along_known P bi h : all_along P bi h -> is_Some (bi !! h).
Proof. intros Ha. destruct (all_along_here _ _ _ Ha) as (b & -> & _). eauto. Qed.

Lemma le_tip_evolves bi bi' a b : evolves bi bi' -> le_tip addr bi a b -> le_tip addr bi' a b.
Proof. intros He [->|Hw]; [by left|right]. by rewrite (evolves_worse addr bi bi'). Qed.

Lemma good_evolves log bi bi' h : evolves bi bi' -> usable bi' h -> good log bi h -> good log bi' h.
Proof.
  intros He Hu [_ Hv]. split; [done|]. revert Hv. apply all_along_mono; [apply (evolves_extends _ _ He)|].
  intros x b b' _ _ Hx _. by destruct (all_along_here _ _ _ Hx) as (? & _ & ?).
Qed.

Lemma good_log log k bi h : good log bi h -> good (log ++ k) bi h.
Proof.
  intros [Hu Hv]. split; [done|]. revert Hv. apply all_along_mono; [apply extends_refl|].
  intros x b b' _ _ Hx _. destruct (all_along_here _ _ _ Hx) as (? & _ & ?). apply accepted_app. by left.
Qed.

Lemma failed_valid_evolves bi bi' f : evolves bi bi' -> failed_valid bi f -> failed_valid bi' f.
Proof.
  intros He (b & Hb & Hf). destruct (proj1 He f b Hb) as (b' & Hb' & S). exists b'. split; [done|]. pose proof (es_failed_valid _ _ S) as Hs.
  unfold has_flag in Hs. rewrite (proj2 (Z.eqb_neq _ _) Hf) in Hs. specialize (Hs eq_refl). by destruct (Z.eqb_spec (Z.land (nStatus b') BLOCK_FAILED_VALID) 0).
Qed.

(** A change that adds flags to unusable blocks and drops unusable candidates *)
Record settles (s s' : CChainState) : Prop := {
  st_evolves : evolves (block_index s) (block_index s');
  st_usable : forall h, usable (block_index s) h -> usable (block_index s') h;
  st_chain : m_chain s' = m_chain s;
  st_unlinked : m_blocks_unlinked s' = m_blocks_unlinked s;
  st_best : bm_best_header (m_blockman (m_chainman s')) = bm_best_header (m_blockman (m_chainman s));
  st_failed : m_failed_blocks (m_chainman s') = m_failed_blocks (m_chainman s);
  st_candidates : setBlockIndexCandidates s' ⊆ setBlockIndexCandidates s;
  st_kept : forall c, c ∈ setBlockIndexCandidates s -> usable (block_index s) c -> c ∈ setBlockIndexCandidates s';
  st_log : connect_log s' = connect_log s;
  st_flags : flags_sound (connect_log s) (block_index s) -> flags_sound (connect_log s') (block_index s');
}.

Lemma settles_refl s : settles s s.
Proof. split; try done. apply evolves_refl. Qed.

Lemma settles_trans a b c : settles a b -> settles b c -> settles a c.
Proof.
  intros [A1 A2 A3 A4 A5 A6 A7 A8 A9 A10] [B1 B2 B3 B4 B5 B6 B7 B8 B9 B10]. split; [|auto|congruence..|by transitivity (setBlockIndexCandidates b)|auto|congruence|auto].
  by apply (evolves_trans _ (block_index b)).
Qed.

Lemma settles_inv s s' r : settles s s' -> chain_inv s r -> chain_inv s' r.
Proof.
  intros [S1 S2 S3 S4 S5 S6 S7 S8 S9 _] [C1 C2 C3 C4 C5 C6 C7 C8 C9]. destruct (evolves_extends _ _ S1) as [X1 X2].
  assert (forall h, good (connect_log s) (block_index s) h -> good (connect_log s) (block_index s') h) as Hg by (intros h G; apply (good_evolves _ (block_index s)); [done|apply S2, G|done]).
  split; rewrite ?S9.
  - rewrite S4. by apply (links_evolve (block_index s)).
  - rewrite S3. by apply (chain_wf_ext (block_index s)).
  - intros c Hc. destruct (C3 c (S7 c Hc)) as (b & Hb & Ht). destruct (proj1 S1 c b Hb) as (b' & Hb' & S). exists b'. by rewrite (entry_step_linked _ _ S).
  - intros t. unfold tip. rewrite S3. intros Ht. destruct (C4 t Ht). auto.
  - intros Hst r0 Hr. destruct (C5 Hst r0 Hr) as [Hc G]. split; [|auto]. apply S8; [done|apply G].
  - intros Hst h Hu. destruct (C6 Hst h) as [Hc|(r0 & -> & Hw)]; [by apply (evolves_usable _ (block_index s'))| |].
    + left. apply S8; [done|]. by apply (evolves_usable _ (block_index s')).
    + right. exists r0. by rewrite (evolves_worse addr _ _ _ _ S1).
  - intros h. rewrite S5. intros Hh. by apply (extends_Some (block_index s)), C7.
  - rewrite S6. eapply List.Forall_impl; [|exact C8]. intros f. by apply failed_valid_evolves.
  - by apply (work_grows_back _ (block_index s)).
Qed.

Lemma settles_above s s' : settles s s' -> above_tip s -> above_tip s'.
Proof.
  intros Hs Ha t c. unfold tip. rewrite (st_chain _ _ Hs), (evolves_worse addr _ _ _ _ (st_evolves _ _ Hs)). intros Ht Hc. apply (Ha t c Ht). by apply (st_candidates _ _ Hs).
Qed.

(** Marking one block with a marked ancestor; the rest of the state can change in ways
    that the selection does not see. *)
Lemma settles_flag s s' h b t tb f : block_index s !! h = Some b -> is_ancestor (block_index s) h t -> block_index s !! t = Some tb -> flagged tb = true -> verdict_flag f ->
  block_index s' = <[h := add_flag b f]> (block_index s) -> m_chain s' = m_chain s -> m_blocks_unlinked s' = m_blocks_unlinked s ->
  bm_best_header (m_blockman (m_chainman s')) = bm_best_header (m_blockman (m_chainman s)) -> m_failed_blocks (m_chainman s') = m_failed_blocks (m_chainman s) ->
  setBlockIndexCandidates s ∖ {[h]} ⊆ setBlockIndexCandidates s' -> setBlockIndexCandidates s' ⊆ setBlockIndexCandidates s -> connect_log s' = connect_log s -> settles s s'.
Proof.
  intros Hb Ha Ht Htf Hf Ei Ec Eu Eb Ef Hc1 Hc2 El. pose proof (evolves_insert (block_index s) h b _ Hb (entry_step_flag b f Hf)) as He.
  pose proof (marked_unusable _ h t tb Ha Ht Htf) as Hn. split; try done; rewrite ?Ei, ?El; try done.
  - intros x Hu. revert Hu. apply all_along_mono; [apply (evolves_extends _ _ He)|]. intros y c c' Hc Hc' Hy _.
    apply lookup_insert_Some in Hc' as [[<- _]|[_ Hc']]; [done|]. destruct (all_along_here _ _ _ Hy) as (z & Hz & Hok). congruence.
  - intros c Hc Hu. apply Hc1, elem_of_difference. split; [done|]. intros ->%elem_of_singleton. done.
  - intros Hs. apply (flags_sound_insert _ _ h b); [done|by apply entry_step_flag|intros _; right|done]. apply (faulty_evolves _ (block_index s)); [done|]. by apply (faulty_descendant _ _ h t tb).
Qed.

Lemma settles_mark s h b t tb f : block_index s !! h = Some b -> is_ancestor (block_index s) h t -> block_index s !! t = Some tb -> flagged tb = true -> verdict_flag f ->
  settles s (set_candidates (put false s h (add_flag b f)) (setBlockIndexCandidates s ∖ {[h]})).
Proof. intros Hb Ha Ht Htf Hf. apply (settles_flag s _ h b t tb f); try done. cbn. set_solver. Qed.

Lemma settles_drop s h : ~ usable (block_index s) h -> settles s (set_candidates s (setBlockIndexCandidates s ∖ {[h]})).
Proof.
  intros Hn. split; try done; [apply evolves_refl|cbn; set_solver|]. cbn. intros c Hc Hu. apply elem_of_difference. split; [done|].
  intros ->%elem_of_singleton. done.
Qed.

Lemma settles_best_invalid s h : settles s (set_best_invalid s h).
Proof. split; try done. apply evolves_refl. Qed.

(** ** FindMostWorkChain *)

Lemma contains_tip bi v h : chain_wf bi v -> chain_Contains bi v h = true -> exists t, chain_Tip v = Some t.
Proof.
  intros Hv Hc. unfold chain_Contains, chain_at in Hc. destruct (bi !! h) as [b|]; [|done]. apply bool_decide_eq_true in Hc.
  destruct (_ || _)%bool; [done|]. assert (0 < length v)%nat as Hl.
  { destruct v; [|cbn; lia]. by rewrite lookup_nil in Hc. }
  destruct (Hv (length v - 1)%nat ltac:(lia)) as (t & _ & Ht & _). exists t. unfold chain_Tip. rewrite last_lookup.
  replace (Nat.pred (length v)) with (length v - 1)%nat by lia. by rewrite Ht.
Qed.

(** Blocks of the active chain are good. *)
Lemma contains_good s r h : chain_inv s r -> chain_Contains (block_index s) (m_chain s) h = true -> good (connect_log s) (block_index s) h.
Proof.
  intros Hi Hc. destruct (contains_tip _ _ _ (ci_chain _ _ Hi) Hc) as [t Ht].
  apply (Contains_ancestor _ (inv_tree _ _ Hi) _ t h (ci_chain _ _ Hi) Ht) in Hc. destruct (ci_tip _ _ Hi t Ht) as [[G1 G2] _].
  split; by eapply all_along_ancestor.
Qed.

Lemma find_unusable_spec s r fuel : chain_inv s r -> forall h b, block_index s !! h = Some b -> HaveTxsDownloaded b = true -> (Z.to_nat (nHeight b) < fuel)%nat ->
  exists res, find_unusable fuel s (Some h) = Ret res /\
    match res with
    | None => usable (block_index s) h
    | Some t => is_ancestor (block_index s) h t /\ exists tb, block_index s !! t = Some tb /\ block_ok tb = false /\
        (has_flag tb BLOCK_FAILED_MASK = true \/ has_flag tb BLOCK_CONFLICT_CHAINLOCK = true)
    end.
Proof.
  intros Hi. induction fuel as [|fuel IH]; intros h b Hb Ht Hf; [lia|]. cbn [find_unusable].
  destruct (chain_Contains _ _ h) eqn:Hc; [exists None; split; [done|]; by apply (contains_good s r)|].
  rewrite Hb. cbn [deref mbind outcome_bind]. rewrite Ht. cbn [orb negb].
  destruct (li_linked _ _ (ci_links _ _ Hi) h b Hb Ht) as (Hd & _ & Hprev). rewrite Hd. cbn [negb]. rewrite orb_false_r.
  destruct (_ || _)%bool eqn:Hbad.
  { exists (Some h). split; [done|]. split; [apply is_ancestor_refl|]. exists b. split; [done|]. apply orb_prop in Hbad. split; [|done].
    unfold block_ok. destruct Hbad as [->| ->]; by rewrite ?andb_false_r. }
  apply orb_false_elim in Hbad as [Hb1 Hb2]. assert (block_ok b = true) as Hok by (unfold block_ok; by rewrite Hd, Hb1, Hb2).
  destruct (pprev b) as [p|] eqn:Hp; [|exists None; split; [by destruct fuel|by apply (aa_root _ _ h b)]].
  destruct (pprev_height _ (inv_tree _ _ Hi) h b p Hb Hp) as (pb & Hpb & Hh). pose proof (height_nonneg _ (inv_tree _ _ Hi) p pb Hpb) as H0.
  destruct (IH p pb Hpb (Hprev p pb eq_refl Hpb) ltac:(lia)) as (res & Hres & Hspec). exists res. split; [done|]. destruct res as [t|].
  - destruct Hspec as [Ha Hs]. split; [|done]. apply (is_ancestor_trans _ h p t); [by apply (is_ancestor_prev _ h b)|done].
  - by apply (aa_step _ _ h b p).
Qed.

Lemma remove_chain_spec t tb fuel : forall s h b n, tree_wf (block_index s) -> block_index s !! h = Some b -> walk (block_index s) n h = Some t -> (n <= fuel)%nat ->
  (exists x, block_index s !! t = Some x /\ flagged x = true) -> (has_flag tb BLOCK_FAILED_MASK = true \/ has_flag tb BLOCK_CONFLICT_CHAINLOCK = true) ->
  exists s', remove_chain fuel s h t tb = Ret s' /\ settles s s' /\ (h <> t -> h ∉ setBlockIndexCandidates s').
Proof.
  induction fuel as [|fuel IH]; intros s h b n Hwf Hb Hw Hn Hu Hbad; cbn [remove_chain]; (case_bool_decide as E; [exists s; split; [done|]; split; [apply settles_refl|congruence]|]).
  { destruct n; [|lia]. cbn in Hw. congruence. }
  destruct n as [|n]; [cbn in Hw; congruence|]. cbn [walk] in Hw. rewrite Hb in Hw |- *. cbn [deref mbind outcome_bind option_bind] in Hw |- *.
  destruct (pprev b) as [p|] eqn:Hp; [|done]. cbn [deref mbind outcome_bind option_bind] in Hw |- *.
  assert (exists f, verdict_flag f /\ (if has_flag tb BLOCK_FAILED_MASK then put false s h (add_flag b BLOCK_FAILED_CHILD)
      else if has_flag tb BLOCK_CONFLICT_CHAINLOCK then put false s h (add_flag b BLOCK_CONFLICT_CHAINLOCK)
      else set_unlinked s (m_blocks_unlinked s ++ [(p, h)])) = put false s h (add_flag b f)) as (f & Hf & ->).
  { destruct (has_flag tb BLOCK_FAILED_MASK); [exists BLOCK_FAILED_CHILD; split; [right; by left|done]|].
    destruct (has_flag tb BLOCK_CONFLICT_CHAINLOCK); [exists BLOCK_CONFLICT_CHAINLOCK; split; [right; by right|done]|by destruct Hbad]. }
  assert (is_ancestor (block_index s) h t) as Ha.
  { exists (S n). cbn [walk]. rewrite Hb. cbn. by rewrite Hp. }
  destruct Hu as (x & Hx & Hxf). pose proof (settles_mark s h b t x f Hb Ha Hx Hxf Hf) as Hs. set (s1 := set_candidates _ _) in *.
  destruct (pprev_height _ Hwf h b p Hb Hp) as (pb & Hpb & _). destruct (st_evolves _ _ Hs) as [He1 He2].
  destruct (He1 p pb Hpb) as (pb' & Hpb' & _). destruct (evolves_extends _ _ (conj He1 He2)) as [X1 X2].
  destruct (IH s1 p pb' n) as (s' & Hr & Hs' & _); try done.
  - by apply (tree_wf_same (block_index s)).
  - by rewrite (ext_walk _ _ Hwf X1 n p pb Hpb).
  - lia.
  - destruct (He1 t x Hx) as (x' & Hx' & S). exists x'. split; [done|by apply (flagged_step x)].
  - exists s'. split; [done|]. split; [by apply (settles_trans s s1)|]. intros _ Hin. apply (st_candidates _ _ Hs') in Hin. cbn in Hin. set_solver.
Qed.

(** [FindMostWorkChain] finds a usable candidate, without failing an assertion, and
    forgets only unusable ones; it is the best usable block if no answer was taken back. *)
Lemma FindMostWorkChain_spec fuel : forall s r, chain_inv s r -> (size (setBlockIndexCandidates s) <= fuel)%nat ->
  exists res s', FindMostWorkChain addr fuel s = Ret (res, s') /\ settles s s' /\
    match res with
    | None => stable (connect_log s) -> forall h, ~ usable (block_index s) h
    | Some m => usable (block_index s) m /\ m ∈ setBlockIndexCandidates s' /\
        (stable (connect_log s) -> forall h, usable (block_index s) h -> le_tip addr (block_index s) h m)
    end.
Proof.
  induction fuel as [|fuel IH]; intros s r Hi Hf; cbn [FindMostWorkChain];
    pose proof (best_of_spec addr (block_index s) (inv_works _ _ Hi) (elements (setBlockIndexCandidates s))
      ltac:(intros c Hc%elem_of_elements; destruct (ci_candidates _ _ Hi c Hc) as (? & -> & _); eauto)) as Hbest;
    destruct (best_of _ _ _) as [m|].
  2, 4: exists None, s; split; [done|]; split; [apply settles_refl|]; intros Hst h Hu; apply elements_empty_inv in Hbest;
    destruct (ci_covered _ _ Hi Hst h Hu) as [Hc|(r0 & Hr & _)]; [set_solver|]; destruct (ci_ref _ _ Hi Hst r0 Hr); set_solver.
  all: destruct Hbest as [Hm%elem_of_elements Hmax].
  { assert (size (setBlockIndexCandidates s) = 0%nat) as E%size_empty_inv by lia. exfalso. set_solver. }
  destruct (ci_candidates _ _ Hi m Hm) as (b & Hb & Ht). rewrite Hb. cbn [deref mbind outcome_bind].
  destruct (find_unusable_spec s r (S (Z.to_nat (nHeight b))) Hi m b Hb Ht ltac:(lia)) as (res & -> & Hres). cbn [mbind outcome_bind].
  destruct res as [t|].
  - destruct Hres as ((n & Hn) & tb & Htb & Hok & Hbad). rewrite Htb. cbn [deref mbind outcome_bind]. set (s1 := if (_ && _)%bool then _ else s).
    assert (settles s s1 /\ block_index s1 = block_index s /\ setBlockIndexCandidates s1 = setBlockIndexCandidates s) as (S1 & E1 & E2).
    { unfold s1. destruct (_ && _)%bool; split; try done; [apply settles_best_invalid|apply settles_refl]. }
    assert (flagged tb = true) as Htf by (unfold flagged; destruct Hbad as [-> | ->]; by rewrite ?orb_true_r).
    pose proof (marked_unusable _ t t tb (is_ancestor_refl _ t) Htb Htf) as Hut.
    destruct (walk_height _ (inv_tree _ _ Hi) n m b t Hb Hn) as (tb' & Htb' & Hh). pose proof (height_nonneg _ (inv_tree _ _ Hi) t tb' Htb') as H0.
    destruct (remove_chain_spec t tb (S (Z.to_nat (nHeight b))) s1 m b n) as (s2 & -> & S2 & Hout); rewrite ?E1; try done; [apply (inv_tree _ _ Hi)|lia|eauto|].
    cbn [mbind outcome_bind]. pose proof (settles_trans _ _ _ S1 S2) as S12.
    assert (~ usable (block_index s2) t) as Hut2 by (intros Hu; apply Hut; by apply (evolves_usable _ (block_index s2)), Hu; apply S12).
    pose proof (settles_trans _ _ _ S12 (settles_drop s2 t Hut2)) as S3. set (s3 := set_candidates s2 _) in *.
    assert (m ∉ setBlockIndexCandidates s3) as Hm3.
    { unfold s3. cbn. destruct (decide (m = t)) as [->|Hne]; [set_solver|]. specialize (Hout Hne). set_solver. }
    destruct (IH s3 r (settles_inv _ _ _ S3 Hi)) as (res & s' & Hr & S4 & Hspec).
    { assert (size (setBlockIndexCandidates s3) < size (setBlockIndexCandidates s))%nat; [|lia]. apply subset_size. split; [apply S3|]. intros Hsub. by apply Hm3, Hsub. }
    exists res, s'. split; [done|]. split; [by apply (settles_trans s s3)|].
    assert (forall h, usable (block_index s3) h <-> usable (block_index s) h) as Hiff.
    { intros h. split; [apply evolves_usable, S3|apply S3]. }
    rewrite (st_log _ _ S3) in Hspec.
    destruct res as [x|]; [|intros Hst h Hh'; by apply (Hspec Hst h), Hiff]. destruct Hspec as (U & C & M). split; [by apply Hiff|]. split; [done|].
    intros Hst h Hu%Hiff. destruct (M Hst h Hu) as [->|Hw]; [by left|right]. by rewrite <- (evolves_worse addr _ _ h x (st_evolves _ _ S3)).
  - exists (Some m), s. split; [done|]. split; [apply settles_refl|]. split; [done|]. split; [done|]. intros Hst h Hu.
    destruct (ci_covered _ _ Hi Hst h Hu) as [Hc|(r0 & Hr & Hw)]; [by apply Hmax, elem_of_elements|].
    apply (le_tip_trans addr _ (inv_works _ _ Hi) h r0 m); [by right|]. apply Hmax, elem_of_elements. by apply (ci_ref _ _ Hi).
Qed.

End selection.
