(* ===== verification/BestChain.v ===== *)
(** * BestChain: the choice of the best chain (src/src/validation.cpp)

    The steps of [ActivateBestChain] keep the invariant of [ChainSelect], whatever
    connecting and disconnecting blocks answers; each of them marks a block as failed,
    improves the tip or ends with an error. If no answer was taken back, the loops end
    with the best chain that has not been found to be invalid. *)

From Stdlib Require Import ZArith Lia.
From stdpp Require Import base list numbers option gmap.
From S2P Require Import Prelude Arith256 Uint256 Serialize Transaction Compact Chain ActiveChain VersionBits Params Pow Kernel BlockStorage HeaderCheck ChainSelect.

Section best.

Context `{BlockConnector} (addr : uint256 -> Z) `{!Inj (=) (=) addr}.

#[local] Notation inv := (chain_inv addr).
#[local] Notation above := (above_tip addr).

(** ** What moving the tip changes *)

(** The rules gave the answer that the log says they gave. *)
Definition answered (e : uint256 * connect_verdict) : Prop := e.2 <> SystemError -> exists w b, (ConnectRules w e.1 b).1.1 = e.2.

(** Flags are added, to blocks that were refused and their descendants, and answers. *)
Record advances (s s' : CChainState) : Prop := {
  ad_evolves : evolves (block_index s) (block_index s');
  ad_log : exists l, connect_log s' = connect_log s ++ l /\ Forall answered l;
  ad_flags : flags_sound (connect_log s) (block_index s) -> flags_sound (connect_log s') (block_index s');
}.

Lemma advances_refl s : advances s s.
Proof. split; [apply evolves_refl|exists []; by rewrite app_nil_r|done]. Qed.
Lemma advances_trans a b c : advances a b -> advances b c -> advances a c.
Proof.
  intros [A1 (l & El & Fl) A3] [B1 (k & Ek & Fk) B3]. split; [by apply (evolves_trans _ (block_index b))| |auto].
  exists (l ++ k). rewrite Ek, El, app_assoc. split; [done|]. by apply Forall_app.
Qed.
Lemma settles_advances s s' : settles s s' -> advances s s'.
Proof. intros Hs. split; [apply Hs|exists []; rewrite app_nil_r; split; [apply Hs|done]|apply Hs]. Qed.

Lemma advances_stable s s' : advances s s' -> stable (connect_log s') -> stable (connect_log s).
Proof. intros [_ (l & -> & _) _]. apply stable_prefix. Qed.

(** ** Taking blocks back *)

Lemma chain_tip_spec bi v t : tree_wf bi -> chain_wf bi v -> chain_Tip v = Some t ->
  exists b, bi !! t = Some b /\ nHeight b = Z.of_nat (length v) - 1.
Proof.
  intros Hwf Hv Ht. unfold chain_Tip in Ht. rewrite last_lookup in Ht. destruct (v !! Nat.pred (length v)) as [t'|] eqn:E; [|done]. cbn in Ht. subst t'.
  pose proof (lookup_lt_Some _ _ _ E) as Hl. destruct (Hv _ Hl) as (x & b & Hx & Hb & Hh & _). rewrite E in Hx. injection Hx as <-.
  exists b. split; [done|lia].
Qed.

Lemma ancestor_less bi h q b qb : tree_wf bi -> work_grows bi -> bi !! h = Some b -> bi !! q = Some qb -> is_ancestor bi h q -> q = h \/ val (nChainWork qb) < val (nChainWork b).
Proof.
  intros Hwf Hg Hb Hq [n Hn]. revert h b Hb Hn. induction n as [|n IH]; intros h b Hb Hn; [left; cbn in Hn; congruence|right]. cbn [walk] in Hn. rewrite Hb in Hn. cbn in Hn.
  destruct (pprev b) as [p|] eqn:Hp; [|done]. destruct (pprev_height bi Hwf h b p Hb Hp) as (pb & Hpb & _). specialize (Hg h b p pb Hb Hp Hpb).
  destruct (IH p pb Hpb Hn) as [->|]; [replace pb with qb in Hg by congruence; done|lia].
Qed.

(** An ancestor is no better than its descendant. *)
Lemma ancestor_not_better s r h q : inv s r -> is_Some (block_index s !! h) -> is_ancestor (block_index s) h q -> worse addr (block_index s) h q = false.
Proof.
  intros Hi [b Hb] Ha. apply not_true_iff_false. intros Hw. destruct (worse_known addr _ _ _ Hw) as [_ [qb Hq]].
  apply (worse_spec addr _ (inv_works addr _ _ Hi) h b q qb Hb Hq) in Hw.
  destruct (ancestor_less _ h q b qb (inv_tree addr _ _ Hi) (ci_grows _ _ _ Hi) Hb Hq Ha) as [->|]; [replace qb with b in Hw by congruence|]; lia.
Qed.

(** The chain cut back *)
Lemma set_chain_inv s r v w : inv s r -> chain_wf (block_index s) v ->
  (forall t, chain_Tip v = Some t -> good (connect_log s) (block_index s) t /\ is_Some r) -> inv (set_chain (set_world s w) v) r.
Proof. intros [C1 C2 C3 C4 C5 C6 C7 C8 C9] Hv Ht. by split. Qed.

Lemma error_stable l h : stable (l ++ [(h, SystemError)]) <-> stable l.
Proof.
  split; [apply stable_prefix|]. intros Hs x [Ha|Ha]%accepted_app; [|by apply list_elem_of_singleton in Ha]. intros [Hr|[r Hr]]%refused_app; [by apply (Hs x)|by apply list_elem_of_singleton in Hr].
Qed.

Lemma log_error_inv s r w h : inv s r -> inv (log_answer (set_world s w) h SystemError) r.
Proof.
  intros [C1 C2 C3 C4 C5 C6 C7 C8 C9]. split; try done; cbn [connect_log log_answer set_world].
  - intros t Ht. destruct (C4 t Ht). split; [by apply good_log|done].
  - intros Hst%error_stable r0 Hr. destruct (C5 Hst r0 Hr). split; [done|by apply good_log].
  - intros Hst%error_stable. by apply C6.
Qed.

Lemma log_error_advances s s' h : block_index s' = block_index s -> connect_log s' = connect_log s ++ [(h, SystemError)] -> advances s s' /\ had_error (connect_log s').
Proof.
  intros Ei El. split.
  - split; [rewrite Ei; apply evolves_refl|exists [(h, SystemError)]; split; [done|]; constructor; [by intros []|done]|]. rewrite Ei, El. intros Hf x b Hb Hx. apply faulty_log. by apply (Hf x b).
  - exists h. rewrite El. apply elem_of_app. right. by apply list_elem_of_singleton.
Qed.

Lemma DisconnectTip_spec s r t b : inv s r -> above s -> tip s = Some t -> block_index s !! t = Some b ->
  exists ok s', DisconnectTip s = Ret (ok, s') /\ inv s' r /\ above s' /\ advances s s' /\ block_index s' = block_index s /\ setBlockIndexCandidates s' = setBlockIndexCandidates s /\
    if (ok : bool) then tip s' = pprev b /\ (length (m_chain s') < length (m_chain s))%nat else had_error (connect_log s').
Proof.
  intros Hi Ha Ht Hb. destruct (chain_tip_spec _ _ _ (inv_tree addr _ _ Hi) (ci_chain _ _ _ Hi) Ht) as (b' & Hb' & Hh). replace b' with b in * by congruence.
  unfold DisconnectTip. rewrite Ht. cbn [deref mbind outcome_bind]. rewrite Hb. cbn [deref mbind outcome_bind]. destruct (DisconnectBlock (world s) t) as [ok w]. destruct ok; cbn [negb].
  2:{ destruct (log_error_advances s (log_answer (set_world s w) t SystemError) t eq_refl eq_refl) as [A E]. eexists _, _. split; [reflexivity|]. split_and!; try done. by apply log_error_inv. }
  change (block_index (set_world s w)) with (block_index s). change (m_chain (set_world s w)) with (m_chain s).
  pose proof (height_nonneg _ (inv_tree addr _ _ Hi) t b Hb) as H0.
  assert (forall v, advances s (set_chain (set_world s w) v)) as Hadv by (intros v; split; [apply evolves_refl|exists []; by rewrite app_nil_r|done]).
  destruct (pprev b) as [p|] eqn:Hp.
  - destruct (pprev_height _ (inv_tree addr _ _ Hi) t b p Hb Hp) as (pb & Hpb & Hph).
    destruct (SetTip_spec _ (inv_tree addr _ _ Hi) (m_chain s) p pb (ci_chain _ _ _ Hi) Hpb) as (v & -> & Hv & Hl & Htip). cbn [mbind outcome_bind].
    exists true, (set_chain (set_world s w) v). split; [done|]. split_and!; try done; [| |cbn; lia].
    + apply set_chain_inv; [done|done|]. rewrite Htip. intros x [= <-]. destruct (ci_tip _ _ _ Hi t Ht) as [[G1 G2] Hr].
      split; [|done]. split; by apply (all_along_prev _ _ t b p).
    + intros x c Hx Hc. change (chain_Tip v = Some x) in Hx. replace x with p by congruence. change (worse addr (block_index s) c p = false).
      apply not_true_iff_false. intros Hw. specialize (Ha t c Ht Hc). assert (worse addr (block_index s) c t = true); [|congruence].
      apply (worse_trans addr _ (inv_works addr _ _ Hi) c p t); [done|]. apply (worse_spec addr _ (inv_works addr _ _ Hi) p pb t b Hpb Hb). left. by apply (ci_grows _ _ _ Hi t b p pb).
  - exists true, (set_chain (set_world s w) []). cbn [SetTip mbind outcome_bind]. split; [done|]. split_and!; try done; [|cbn; lia].
    apply set_chain_inv; [done| |done]. intros i Hi'. cbn in Hi'. lia.
Qed.

Lemma disconnect_to_spec r fork fuel : forall s, inv s r -> above s -> (length (m_chain s) <= fuel)%nat ->
  match fork with None => True | Some f => exists t, tip s = Some t /\ is_ancestor (block_index s) t f end ->
  exists ok s', disconnect_to fuel s fork = Ret (ok, s') /\ inv s' r /\ above s' /\ advances s s' /\ block_index s' = block_index s /\ setBlockIndexCandidates s' = setBlockIndexCandidates s /\
    if (ok : bool) then tip s' = fork else had_error (connect_log s').
Proof.
  assert (forall s, tip s = fork -> inv s r -> above s -> exists ok s', @Ret (bool * CChainState) (true, s) = Ret (ok, s') /\ inv s' r /\ above s' /\ advances s s' /\ block_index s' = block_index s /\
    setBlockIndexCandidates s' = setBlockIndexCandidates s /\ if (ok : bool) then tip s' = fork else had_error (connect_log s')) as Hstop.
  { intros s E Hi Ha. exists true, s. split_and!; try done. apply advances_refl. }
  induction fuel as [|fuel IH]; intros s Hi Ha Hf Hfork.
  - assert (m_chain s = []) as E by (destruct (m_chain s); [done|cbn in Hf; lia]). cbn [disconnect_to]. assert (tip s = None) as Ht by (unfold tip; by rewrite E). rewrite Ht in *.
    destruct fork as [f|]; [by destruct Hfork as (t & ? & _)|]. by apply Hstop.
  - cbn [disconnect_to]. destruct (tip s) as [t|] eqn:Ht; [|destruct fork as [f|]; [by destruct Hfork as (t & ? & _)|by apply Hstop]].
    case_bool_decide as E; [apply Hstop; [congruence|done|done]|].
    destruct (chain_tip_spec _ _ _ (inv_tree addr _ _ Hi) (ci_chain _ _ _ Hi) Ht) as (b & Hb & _).
    destruct (DisconnectTip_spec s r t b Hi Ha Ht Hb) as (ok & s1 & -> & Hi1 & Ha1 & Hadv1 & Ei & Ec & Hres). cbn [mbind outcome_bind].
    destruct ok; [|by exists false, s1; split_and!]. destruct Hres as [Ht1 Hl1].
    destruct (IH s1 Hi1 Ha1) as (ok & s2 & Hr & Hi2 & Ha2 & Hadv2 & Ei2 & Ec2 & Hres2); [lia| |].
    + destruct fork as [f|]; [|done]. destruct Hfork as (t' & [= <-] & Han). rewrite Ei.
      destruct (is_ancestor_step _ t b f Hb Han) as [->|(p & Hp & Hpa)]; [done|]. exists p. split; [congruence|done].
    + exists ok, s2. split_and!; try done; [by apply (advances_trans s s1)|congruence|congruence].
Qed.

(** ** Connecting a path *)

(** The blocks from above [a] up to [e], each the parent of the next *)
Inductive climbs (bi : gmap uint256 CBlockIndex) : option uint256 -> list uint256 -> option uint256 -> Prop :=
| climbs_nil a : climbs bi a [] a
| climbs_cons a x b l e : bi !! x = Some b -> pprev b = a -> climbs bi (Some x) l e -> climbs bi a (x :: l) e.

Lemma climbs_snoc bi a l p x b : climbs bi a l p -> bi !! x = Some b -> pprev b = p -> climbs bi a (l ++ [x]) (Some x).
Proof.
  induction 1 as [a|a y c l e Hy Hc _ IH]; intros Hb Hp; cbn [app].
  - by apply (climbs_cons _ _ _ b); [..|constructor].
  - apply (climbs_cons _ _ _ c); auto.
Qed.

Lemma climbs_ext bi bi' a l e : extends bi bi' -> climbs bi a l e -> climbs bi' a l e.
Proof.
  intros Hx. induction 1 as [a|a y c l e Hy Hc _ IH]; [constructor|]. destruct (Hx y c Hy) as (c' & Hy' & S).
  by apply (climbs_cons _ _ _ c'); [|rewrite (sh_pprev _ _ S)|].
Qed.

(** More work than the old tip *)
Definition more_work (bi : gmap uint256 CBlockIndex) (old : option uint256) (t : uint256) : Prop :=
  match old with None => True | Some o => worse addr bi o t = true end.

Lemma more_work_evolves bi bi' old t : evolves bi bi' -> more_work bi old t -> more_work bi' old t.
Proof. intros He. destruct old as [o|]; [|done]. cbn. by rewrite (evolves_worse addr bi bi'). Qed.

Lemma not_failed_back bi bi' x b : evolves bi bi' -> bi !! x = Some b ->
  (exists b', bi' !! x = Some b' /\ has_flag b' BLOCK_FAILED_MASK = false) -> has_flag b BLOCK_FAILED_MASK = false.
Proof.
  intros He Hb (b' & Hb' & Hf). destruct (evolves_back _ _ _ _ He Hb') as (c & Hc & S). replace c with b in S by congruence.
  destruct (has_flag b BLOCK_FAILED_MASK) eqn:E; [|done]. by rewrite (es_failed _ _ S E) in Hf.
Qed.

(** A block that failed in between *)
Definition newly_failed (bi bi' : gmap uint256 CBlockIndex) : Prop :=
  exists x b b', bi !! x = Some b /\ has_flag b BLOCK_FAILED_MASK = false /\ bi' !! x = Some b' /\ has_flag b' BLOCK_FAILED_MASK = true.

Lemma newly_failed_l bi bi' bi'' : evolves bi bi' -> newly_failed bi' bi'' -> newly_failed bi bi''.
Proof.
  intros He (x & b' & b'' & Hb' & Hf' & Hb'' & Hf''). destruct (evolves_back _ _ _ _ He Hb') as (b & Hb & _).
  exists x, b, b''. split_and!; try done. apply (not_failed_back bi bi' x b He Hb). eauto.
Qed.
Lemma newly_failed_r bi bi' bi'' : evolves bi' bi'' -> newly_failed bi bi' -> newly_failed bi bi''.
Proof.
  intros He (x & b & b' & Hb & Hf & Hb' & Hf'). destruct (proj1 He x b' Hb') as (b'' & Hb'' & S). exists x, b, b''. split_and!; try done. by apply (es_failed _ _ S).
Qed.

(** ** Connecting a block *)

(** The rules never refuse the block. *)
Definition never_refused (h : uint256) : Prop := forall w b r, (ConnectRules w h b).1.1 <> Invalid r.

(** Another entry that the choice of a chain does not tell apart *)
Lemma put_settles s h b b' dirty w : block_index s !! h = Some b -> same_choice b b' -> settles s (set_world (put dirty s h b') w).
Proof.
  intros Hb [S F]. pose proof (evolves_insert (block_index s) h b _ Hb S) as He. split; try done.
  - intros x. apply all_along_mono; [apply (evolves_extends _ _ He)|]. intros y c c' Hc Hc' Hy _. change (<[h := b']> (block_index s) !! y = Some c') in Hc'.
    destruct (all_along_here _ _ _ Hy) as (z & Hz & Hok). apply lookup_insert_Some in Hc' as [[<- <-]|[_ Hc']]; [|congruence].
    rewrite block_ok_flagged, F, (es_data _ _ S), <- block_ok_flagged. congruence.
  - intros Hs. apply (flags_sound_insert _ _ h b); [done|done|rewrite F; by left|done].
Qed.

Lemma add_flag_usable s h b f x : block_index s !! h = Some b -> verdict_flag f ->
  usable (<[h := add_flag b f]> (block_index s)) x <-> usable (block_index s) x /\ ~ is_ancestor (block_index s) x h.
Proof.
  intros Hb Hf. pose proof (evolves_insert (block_index s) h b _ Hb (entry_step_flag b f Hf)) as He. destruct (evolves_extends _ _ He) as [X1 X2]. split.
  - intros Hu. split; [by apply (evolves_usable _ _ _ He)|]. intros Ha.
    assert (usable (<[h := add_flag b f]> (block_index s)) h) as Hh.
    { revert Hu Ha. intros Hu [n Hn]. revert x Hu Hn. induction n as [|n IH]; intros x Hu Hn; [by injection Hn as <-|].
      cbn [walk] in Hn. destruct (block_index s !! x) as [xb|] eqn:Hx; [|done]. cbn in Hn. destruct (pprev xb) as [p|] eqn:Hp; [|done].
      destruct (X1 x xb Hx) as (xb' & Hx' & S). apply (IH p); [|done]. apply (all_along_prev _ _ x xb' p Hu Hx'). by rewrite (sh_pprev _ _ S). }
    destruct (all_along_here _ _ _ Hh) as (y & Hy & Hok). rewrite lookup_insert_eq in Hy. injection Hy as <-. by rewrite flagged_not_ok in Hok.
  - intros [Hu Hn]. revert Hu. apply all_along_mono; [done|]. intros y c c' Hc Hc' Hy Ha. destruct (all_along_here _ _ _ Hy) as (z & Hz & Hok).
    apply lookup_insert_Some in Hc' as [[<- _]|[_ Hc']]; [done|congruence].
Qed.

(** [InvalidChainFound] changes the best invalid block and the best header only. *)
Lemma InvalidChainFound_spec s r h : inv s r -> above s -> is_Some (block_index s !! h) -> is_Some (tip s) ->
  exists s', InvalidChainFound s h = Ret s' /\ inv s' r /\ above s' /\ block_index s' = block_index s /\ tip s' = tip s /\ connect_log s' = connect_log s.
Proof.
  intros Hi Ha [b Hb] [t Ht]. unfold InvalidChainFound. rewrite Hb. cbn [deref mbind outcome_bind]. set (s1 := if beats_best_invalid s b then _ else s).
  assert (inv s1 r /\ above s1 /\ block_index s1 = block_index s /\ tip s1 = tip s /\ m_chainman s1 = m_chainman s /\ connect_log s1 = connect_log s) as (Hi1 & Ha1 & E1 & E2 & E3 & E4).
  { unfold s1. destruct (beats_best_invalid s b); [|done]. split; [|done]. by apply (settles_inv addr s); [apply settles_best_invalid|]. }
  rewrite E3. destruct (bm_best_header (m_blockman (m_chainman s))) as [best|] eqn:Hbest; cbn [mbind outcome_bind].
  - destruct (ci_best _ _ _ Hi best Hbest) as [bb Hbb]. rewrite E1, (GetAncestor_walk _ (inv_tree addr _ _ Hi) best bb _ Hbb). cbn [mbind outcome_bind].
    case_bool_decide.
    + change (tip (set_best_header s1 (tip s1))) with (tip s1). rewrite E2, Ht. cbn [deref mbind outcome_bind]. eexists. split; [done|]. split_and!; [|done|exact E1|by rewrite <- Ht, <- E2|exact E4].
      destruct Hi1 as [C1 C2 C3 C4 C5 C6 C7 C8 C9]. split; try done. intros x. change (Some t = Some x -> is_Some (block_index s1 !! x)).
      intros [= <-]. rewrite E1. destruct (ci_tip _ _ _ Hi t Ht) as [[G _] _]. by apply all_along_known in G.
    + rewrite E2, Ht. cbn [deref mbind outcome_bind]. exists s1. by rewrite E2.
  - rewrite E2, Ht. cbn [deref mbind outcome_bind]. exists s1. by rewrite E2.
Qed.

(** The block becomes the tip. *)
Lemma connected_inv s r h b v : inv s r -> block_index s !! h = Some b -> pprev b = tip s -> usable (block_index s) h -> chain_wf (block_index s) v -> chain_Tip v = Some h ->
  inv (set_chain (log_answer s h Connected) v) (Some (default h r)).
Proof.
  intros [C1 C2 C3 C4 C5 C6 C7 C8 C9] Hb Hp Hu Hv Htip. set (log := connect_log s) in *.
  assert (good (log ++ [(h, Connected)]) (block_index s) h) as Hg.
  { split; [done|]. assert (accepted (log ++ [(h, Connected)]) h) by (apply accepted_app; right; by apply list_elem_of_singleton). destruct (tip s) as [t|] eqn:Ht.
    - apply (aa_step _ _ h b t); try done. destruct (C4 t eq_refl) as [G _]. apply (good_log _ _ _ _ G).
    - by apply (aa_root _ _ h b). }
  split; try done; cbn [connect_log log_answer set_chain]; fold log.
  - intros t Ht. change (chain_Tip v = Some t) in Ht. rewrite Htip in Ht. injection Ht as <-. split; [done|eauto].
  - intros Hst%stable_prefix r0 [= <-]. destruct r as [r|]; cbn; [destruct (C5 Hst r eq_refl); split; [done|by apply good_log]|]. split; [|done]. by destruct (C6 Hst h Hu) as [|(r0 & ? & _)].
  - intros Hst%stable_prefix x Hx. destruct (C6 Hst x Hx) as [|(r0 & -> & Hw)]; [by left|right; by exists r0].
Qed.

(** The block is marked. *)
Lemma refused_inv s r h b result : let s' := log_answer s h (Invalid result) in
  let s2 := set_candidates (set_failed (put true s' h (add_flag b BLOCK_FAILED_VALID)) (failed_insert addr h (m_failed_blocks (m_chainman s)))) (setBlockIndexCandidates s ∖ {[h]}) in
  inv s r -> above s -> block_index s !! h = Some b -> (forall t, tip s = Some t -> ~ is_ancestor (block_index s) t h) -> inv s2 r /\ above s2 /\ evolves (block_index s) (block_index s2).
Proof.
  intros s' s2 Hi Ha Hb Htip. set (b2 := add_flag b BLOCK_FAILED_VALID) in *. assert (verdict_flag BLOCK_FAILED_VALID) as Hflag by (by left).
  assert (block_index s2 = <[h := b2]> (block_index s)) as E2 by done. pose proof (evolves_insert (block_index s) h b b2 Hb (entry_step_flag b _ Hflag)) as He. rewrite <- E2 in He.
  assert (forall x, usable (block_index s2) x <-> usable (block_index s) x /\ ~ is_ancestor (block_index s) x h) as Hus by (intros x; rewrite E2; by apply add_flag_usable).
  set (log := connect_log s) in *. assert (connect_log s2 = log ++ [(h, Invalid result)]) as El by done.
  assert (forall x, good log (block_index s) x -> ~ is_ancestor (block_index s) x h -> good (log ++ [(h, Invalid result)]) (block_index s2) x) as Hgood.
  { intros x G Hn. apply good_log, (good_evolves _ (block_index s)); [done| |done]. apply Hus. split; [apply G|done]. }
  assert (stable (log ++ [(h, Invalid result)]) -> forall x, good log (block_index s) x -> ~ is_ancestor (block_index s) x h) as Hoff.
  { intros Hst x G Hax. destruct (all_along_here _ _ _ (all_along_ancestor _ _ _ _ (proj2 G) Hax)) as (? & _ & Hacc). apply (Hst h); [apply accepted_app; by left|].
    exists result. apply elem_of_app. right. by apply list_elem_of_singleton. }
  destruct (evolves_extends _ _ He) as [X1 X2]. destruct Hi as [C1 C2 C3 C4 C5 C6 C7 C8 C9]. split; [|split; [|done]].
  2:{ intros t c Ht Hc. change (setBlockIndexCandidates s2) with (setBlockIndexCandidates s ∖ {[h]}) in Hc. rewrite (evolves_worse addr _ _ _ _ He). apply (Ha t c Ht). set_solver. }
  split; rewrite ?El.
  - change (m_blocks_unlinked s2) with (m_blocks_unlinked s). by apply (links_evolve (block_index s)).
  - change (m_chain s2) with (m_chain s). by apply (chain_wf_ext (block_index s)).
  - intros c Hc'. change (setBlockIndexCandidates s2) with (setBlockIndexCandidates s ∖ {[h]}) in Hc'.
    destruct (C3 c ltac:(set_solver)) as (y & Hy & Hy'). destruct (proj1 He c y Hy) as (y' & Hy2 & S). exists y'. by rewrite (entry_step_linked _ _ S).
  - intros t Ht. destruct (C4 t Ht). auto.
  - intros Hst r0 Hr. destruct (C5 (stable_prefix _ _ Hst) r0 Hr) as [Hc' G]. pose proof (Hoff Hst r0 G) as Hn. split; [|auto].
    change (setBlockIndexCandidates s2) with (setBlockIndexCandidates s ∖ {[h]}). apply elem_of_difference. split; [done|]. intros ->%elem_of_singleton. apply Hn, is_ancestor_refl.
  - intros Hst x Hx. pose proof Hx as [Hx1 Hn]%Hus. destruct (C6 (stable_prefix _ _ Hst) x Hx1) as [Hc'|(r0 & -> & Hw)].
    + left. change (setBlockIndexCandidates s2) with (setBlockIndexCandidates s ∖ {[h]}). apply elem_of_difference. split; [done|].
      intros ->%elem_of_singleton. apply Hn, is_ancestor_refl.
    + right. exists r0. by rewrite (evolves_worse addr _ _ _ _ He).
  - intros x Hx. by apply (extends_Some (block_index s)), C7.
  - change (m_failed_blocks (m_chainman s2)) with (failed_insert addr h (m_failed_blocks (m_chainman s))).
    assert (Forall (failed_valid (block_index s2)) (m_failed_blocks (m_chainman s))) as Hf.
    { eapply List.Forall_impl; [|exact C8]. intros f. by apply failed_valid_evolves. }
    unfold failed_insert. case_bool_decide; [done|]. rewrite insert_sorted_perm. constructor; [|done]. exists b2. rewrite E2, lookup_insert_eq. split; [done|].
    pose proof (has_flag_add b BLOCK_FAILED_VALID BLOCK_FAILED_VALID) as Hf'. fold b2 in Hf'. change (negb (Z.land BLOCK_FAILED_VALID BLOCK_FAILED_VALID =? 0)) with true in Hf'.
    rewrite orb_true_r in Hf'. unfold has_flag in Hf'. intros E. by rewrite E in Hf'.
  - by apply (work_grows_back _ (block_index s)).
Qed.

Lemma not_above_child s r h b t : inv s r -> block_index s !! h = Some b -> pprev b = Some t -> ~ is_ancestor (block_index s) t h.
Proof.
  intros Hi Hb Hp [n Hn]. destruct (pprev_height _ (inv_tree addr _ _ Hi) h b t Hb Hp) as (tb & Htb & Hh).
  destruct (walk_height _ (inv_tree addr _ _ Hi) n t tb h Htb Hn) as (b' & Hb' & Hh'). replace b' with b in Hh' by congruence. lia.
Qed.

(** What [ConnectTip] does on a usable child of the tip *)
Definition connect_tip_result (s : CChainState) (r : option uint256) (h : uint256) (v : connect_verdict) (s' : CChainState) : Prop :=
  match v with
  | Connected => inv s' (Some (default h r)) /\ tip s' = Some h /\ setBlockIndexCandidates s' = setBlockIndexCandidates s /\
      (forall x, usable (block_index s) x -> usable (block_index s') x)
  | Invalid result => result <> BLOCK_MUTATED /\ inv s' r /\ above s' /\ is_Some (tip s') /\ newly_failed (block_index s) (block_index s')
  | SystemError => inv s' r /\ above s' /\ had_error (connect_log s')
  end.

Lemma ConnectTip_spec s r h b : inv s r -> above s -> block_index s !! h = Some b -> pprev b = tip s -> usable (block_index s) h -> (pprev b = None -> never_refused h) ->
  exists v s', ConnectTip addr s h = Ret (v, s') /\ advances s s' /\ connect_tip_result s r h v s'.
Proof.
  intros Hi Ha Hb Hp Hu Hroot. unfold ConnectTip. rewrite Hb. cbn [deref mbind outcome_bind]. rewrite bool_decide_eq_true_2 by done. cbn [negb].
  destruct (ConnectBlock_spec (world s) h b) as (v & b1 & dirty & w & -> & Hsame & Hmut & Hans). cbn [mbind outcome_bind].
  pose proof (put_settles s h b b1 dirty w Hb Hsame) as Hs. set (s1 := set_world (put dirty s h b1) w) in *.
  pose proof (settles_inv addr _ _ _ Hs Hi) as Hi1. pose proof (settles_above addr _ _ Hs Ha) as Ha1. pose proof (settles_advances _ _ Hs) as A1.
  assert (block_index s1 !! h = Some b1) as Hb1 by (unfold s1, block_index; cbn; by rewrite lookup_insert_eq).
  assert (pprev b1 = pprev b) as Hp1 by apply Hsame. assert (tip s1 = tip s) as T1 by done. pose proof (st_usable _ _ Hs h Hu) as Hu1.
  destruct v as [|result|].
  - change (block_index (log_answer s1 h Connected)) with (block_index s1). change (m_chain (log_answer s1 h Connected)) with (m_chain s1).
    destruct (SetTip_spec _ (inv_tree addr _ _ Hi1) (m_chain s1) h b1 (ci_chain _ _ _ Hi1) Hb1) as (v & -> & Hwf & _ & Htip). cbn [mbind outcome_bind].
    eexists Connected, _. split; [reflexivity|]. split; [|split_and!; try done; [by apply (connected_inv s1 r h b1); try done; congruence|apply Hs]].
    apply (advances_trans s s1); [done|]. split; [apply evolves_refl|exists [(h, Connected)]; split; [done|constructor; [|done]; intros _; exists (world s), b; by apply Hans]|].
    intros Hf x c Hc Hx. apply faulty_log. by apply (Hf x c).
  - assert (is_Some (tip s)) as [t Ht]. { destruct (tip s) as [t|]; [eauto|]. destruct (Hroot Hp (world s) b result). by apply Hans. }
    unfold InvalidBlockFound. rewrite bool_decide_eq_false_2 by congruence. change (block_index (log_answer s1 h (Invalid result))) with (block_index s1). rewrite Hb1. cbn [deref mbind outcome_bind].
    destruct (refused_inv s1 r h b1 result Hi1 Ha1 Hb1) as (Hi2 & Ha2 & He2).
    { intros t' Ht'. apply (not_above_child s1 r h b1); [done|done|]. congruence. }
    match type of Hi2 with chain_inv _ ?x _ => change (chain_inv addr x r) in Hi2; set (s2 := x) in * end.
    match goal with |- context [InvalidChainFound ?x h] => change x with s2 end.
    destruct (InvalidChainFound_spec s2 r h Hi2 Ha2) as (s3 & -> & Hi3 & Ha3 & E3 & T3 & L3); [apply (extends_Some (block_index s1)); [apply (evolves_extends _ _ He2)|eauto]|change (tip s2) with (tip s); eauto|].
    cbn [mbind outcome_bind]. eexists (Invalid result), s3. split; [reflexivity|]. split.
    + apply (advances_trans s s1); [done|]. split; rewrite ?E3, ?L3; [done|exists [(h, Invalid result)]; split; [done|]; constructor; [|done]|].
      * intros _. exists (world s), b. by apply Hans.
      * intros Hf. change (flags_sound (connect_log s1 ++ [(h, Invalid result)]) (<[h := add_flag b1 BLOCK_FAILED_VALID]> (block_index s1))).
        apply (flags_sound_insert _ _ h b1); [done|apply entry_step_flag; by left|intros _; right|intros x c Hc Hx; apply faulty_log; by apply (Hf x c)].
        exists h, (add_flag b1 BLOCK_FAILED_VALID). rewrite lookup_insert_eq. split; [apply is_ancestor_refl|]. split; [done|]. left. exists result.
        apply elem_of_app. right. by apply list_elem_of_singleton.
    + split; [congruence|]. split; [done|]. split; [done|]. split; [rewrite T3; change (tip s2) with (tip s); eauto|]. rewrite E3. exists h, b, (add_flag b1 BLOCK_FAILED_VALID). split_and!; try done.
      * destruct (all_along_here _ _ _ Hu) as (y & Hy & Hok). replace y with b in Hok by congruence. unfold block_ok in Hok. by destruct (has_flag b BLOCK_FAILED_MASK), (has_flag b BLOCK_HAVE_DATA).
      * change (block_index s2) with (<[h := add_flag b1 BLOCK_FAILED_VALID]> (block_index s1)). by rewrite lookup_insert_eq.
      * rewrite has_flag_add. by rewrite orb_true_r.
  - eexists SystemError, _. split; [reflexivity|]. destruct (log_error_advances s1 (log_answer s1 h SystemError) h eq_refl eq_refl) as [A E].
    split; [by apply (advances_trans s s1)|]. split_and!; try done. assert (set_world s1 (world s1) = s1) as Eta by done.
    pose proof (log_error_inv s1 r (world s1) h Hi1) as Hx. by rewrite Eta in Hx.
Qed.

(** [PruneBlockIndexCandidates] leaves a candidate that is no worse than the tip, and the
    better of the tip and the reference covers what is gone. *)
Lemma Prune_spec s r0 t m : inv s (Some r0) -> tip s = Some t -> m ∈ setBlockIndexCandidates s -> worse addr (block_index s) m t = false ->
  exists c r1, PruneBlockIndexCandidates addr s = Ret (set_candidates s c) /\ inv (set_candidates s c) (Some r1) /\ above (set_candidates s c) /\ m ∈ c.
Proof.
  intros Hi Ht Hm Hmt. unfold PruneBlockIndexCandidates. rewrite Ht. cbn [deref mbind outcome_bind]. pose proof (inv_works addr _ _ Hi) as Hw.
  set (c := filter _ (setBlockIndexCandidates s)). assert (m ∈ c) as Hmc by (by apply elem_of_filter).
  exists c, (if worse addr (block_index s) r0 t then t else r0). rewrite bool_decide_eq_false_2 by set_solver. split; [done|].
  destruct (ci_tip _ _ _ Hi t Ht) as [Gt _]. set (r1 := if worse addr (block_index s) r0 t then t else r0).
  assert (stable (connect_log s) -> r1 ∈ c /\ good (connect_log s) (block_index s) r1 /\ le_tip addr (block_index s) r0 r1 /\ le_tip addr (block_index s) t r1) as Hr1.
  { intros Hst. destruct (ci_ref _ _ _ Hi Hst r0 eq_refl) as [Hr0 Gr0]. unfold r1. destruct (worse addr (block_index s) r0 t) eqn:E.
    - split_and!; [|done|by right|by left]. apply elem_of_filter. split; [apply not_true_iff_false; by apply worse_irrefl|].
      destruct (ci_covered _ _ _ Hi Hst t (proj1 Gt)) as [|(r & [= <-] & Hw')]; [done|]. exfalso. apply (worse_irrefl addr _ Hw t). by apply (worse_trans addr _ Hw t r0 t).
    - split_and!; [by apply elem_of_filter|done|by left|]. apply not_worse; [done|done|apply (all_along_known _ _ _ (proj1 Gr0))|apply (all_along_known _ _ _ (proj1 Gt))|done]. }
  split; [|split; [|done]].
  2:{ intros x y Hx Hy. change (y ∈ c) in Hy. apply elem_of_filter in Hy as [Hy _]. change (tip s = Some x) in Hx. replace x with t by congruence. done. }
  destruct Hi as [C1 C2 C3 C4 C5 C6 C7 C8 C9]. split; try done.
  - intros x Hx. apply C3. change (x ∈ c) in Hx. by apply elem_of_filter in Hx as [_ Hx].
  - intros x Hx. destruct (C4 x Hx) as [G _]. eauto.
  - intros Hst x [= <-]. by destruct (Hr1 Hst) as (? & ? & _).
  - intros Hst h Hu. destruct (Hr1 Hst) as (_ & _ & L0 & Lt). change (h ∈ c \/ exists r, Some r1 = Some r /\ worse addr (block_index s) h r = true). destruct (C6 Hst h Hu) as [Hc|(r & [= <-] & Hw')].
    + destruct (worse addr (block_index s) h t) eqn:E; [|left; by apply elem_of_filter]. right. exists r1. split; [done|].
      destruct Lt as [<-|Lt]; [done|by apply (worse_trans addr _ Hw h t r1)].
    + right. exists r1. split; [done|]. destruct L0 as [<-|L0]; [done|by apply (worse_trans addr _ Hw h r0 r1)].
Qed.

(** How connecting towards [e] on the chain of [m] can end *)
Definition connect_result (s : CChainState) (old e : option uint256) (m : uint256) (c : connect_end) (s' : CChainState) : Prop :=
  match c with
  | ReachedEnd => tip s' = e /\ m ∈ setBlockIndexCandidates s' /\ (forall x, usable (block_index s) x -> usable (block_index s') x)
  | BetterTip => (exists t, tip s' = Some t /\ more_work (block_index s') old t) /\ m ∈ setBlockIndexCandidates s' /\ (forall x, usable (block_index s) x -> usable (block_index s') x)
  | InvalidFound => newly_failed (block_index s) (block_index s')
  | ConnectFailed => had_error (connect_log s')
  end.

Lemma connect_result_trans s s1 old e e' m c s' : advances s s1 -> (forall x, usable (block_index s) x -> usable (block_index s1) x) -> (c = ReachedEnd -> e = e') ->
  connect_result s1 old e m c s' -> connect_result s old e' m c s'.
Proof.
  intros Ha Hu He. destruct c; cbn; [intros (T & C & U); rewrite <- (He eq_refl); by auto|intros (T & C & U); by auto|apply newly_failed_l, Ha|done].
Qed.

Definition roots_never_refused (bi : gmap uint256 CBlockIndex) : Prop := forall x b, bi !! x = Some b -> pprev b = None -> never_refused x.

Lemma roots_evolve bi bi' : evolves bi bi' -> roots_never_refused bi -> roots_never_refused bi'.
Proof.
  intros He Hr x b' Hb' Hp. destruct (evolves_back _ _ _ _ He Hb') as (b & Hb & S). apply (Hr x b Hb). by rewrite <- (sh_pprev _ _ (es_header _ _ S)).
Qed.

Lemma connect_blocks_spec old front m l : forall s r e, inv s r -> above s -> roots_never_refused (block_index s) -> is_Some (block_index s !! front) -> climbs (block_index s) (tip s) l e ->
  usable (block_index s) m -> m ∈ setBlockIndexCandidates s -> (forall x, x ∈ l -> is_ancestor (block_index s) m x) -> (forall o, old = Some o -> is_Some (block_index s !! o)) ->
  exists c s' r', connect_blocks addr s old front l = Ret (c, s') /\ inv s' r' /\ above s' /\ advances s s' /\ connect_result s old e m c s'.
Proof.
  induction l as [|x l IH]; intros s r e Hi Ha Hroot Hfront Hc Hu Hm Hanc Hold; inversion Hc as [a Ea|a y b l' e' Hb Hp Hl]; subst; cbn [connect_blocks].
  { exists ReachedEnd, s, r. split_and!; try done. apply advances_refl. }
  assert (is_ancestor (block_index s) m x) as Hmx by (apply Hanc; set_solver). pose proof (all_along_ancestor _ _ _ _ Hu Hmx) as Hux.
  destruct (ConnectTip_spec s r x b Hi Ha Hb Hp Hux (Hroot x b Hb)) as (v & s1 & -> & A1 & Hres). cbn [mbind outcome_bind]. pose proof (ad_evolves _ _ A1) as He1.
  destruct (evolves_extends _ _ He1) as [X1 _]. destruct v as [|result|]; cbn in Hres.
  - destruct Hres as (Hi1 & Ht1 & Ec1 & Hu1). destruct (all_along_known _ _ _ (Hu1 m Hu)) as [mb Hmb].
    destruct (Prune_spec s1 _ x m Hi1 Ht1) as (c & r1 & -> & Hi2 & Ha2 & Hmc); [by rewrite Ec1|eapply ancestor_not_better; [exact Hi1|eauto|by apply (ext_is_ancestor (block_index s))]|].
    cbn [mbind outcome_bind]. set (s2 := set_candidates s1 c) in *.
    assert (tip s2 = Some x) as Ht2 by exact Ht1. rewrite Ht2. cbn [deref mbind outcome_bind].
    destruct (proj1 He1 x b Hb) as (b1 & Hb1 & _). change (block_index s2) with (block_index s1). rewrite Hb1. cbn [deref mbind outcome_bind].
    assert (advances s s2) as A2 by (by destruct A1).
    set (better := match old with None => Ret true | Some o => _ end).
    assert (exists q, better = Ret q /\ (q = true -> more_work (block_index s2) old x)) as (q & -> & Hq).
    { unfold better. destruct old as [o|]; [|by exists true]. destruct (extends_Some _ _ o X1 (Hold o eq_refl)) as [ob Hob]. rewrite Hob. cbn [deref mbind outcome_bind].
      eexists. split; [done|]. intros Hgt. cbn. change (block_index s2) with (block_index s1). rewrite bu_gt_spec, Z.gtb_ltb in Hgt by (eapply (inv_works addr _ _ Hi1); eassumption).
      apply Z.ltb_lt in Hgt. apply (worse_spec addr _ (inv_works addr _ _ Hi1) o ob x b1 Hob Hb1). by left. }
    cbn [mbind outcome_bind]. destruct q.
    + exists BetterTip, s2, (Some r1). split_and!; try done. split; [by exists x; auto|done].
    + destruct (IH s2 (Some r1) e Hi2 Ha2) as (c' & s' & r' & -> & Hi' & Ha' & A' & Hres).
      * by apply (roots_evolve (block_index s)).
      * by apply (extends_Some (block_index s)).
      * rewrite Ht2. by apply (climbs_ext (block_index s)).
      * by apply Hu1.
      * done.
      * intros y Hy. apply (ext_is_ancestor (block_index s)); [done|]. apply Hanc. set_solver.
      * intros o Ho. apply (extends_Some (block_index s)); auto.
      * exists c', s', r'. split_and!; try done; [by apply (advances_trans s s2)|]. by apply (connect_result_trans s s2 old e e m c' s').
  - destruct Hres as (Hmut & Hi1 & Ha1 & Htip & Hnew). rewrite bool_decide_eq_false_2 by done.
    destruct (InvalidChainFound_spec s1 r front Hi1 Ha1) as (s2 & -> & Hi2 & Ha2 & E2 & T2 & L2); [by apply (extends_Some (block_index s))|done|]. cbn [mbind outcome_bind].
    exists InvalidFound, s2, r. split_and!; try done.
    + destruct A1 as [A1 A2 A3]. split; by rewrite ?E2, ?L2.
    + cbn. by rewrite E2.
  - destruct Hres as (Hi1 & Ha1 & Herr). exists ConnectFailed, s1, r. by split_and!.
Qed.

(** The block of height [k] on the chain of [m]; none below the first *)
Definition block_at (bi : gmap uint256 CBlockIndex) (m : uint256) (mb : CBlockIndex) (k : Z) : option uint256 :=
  if k <? 0 then None else walk bi (Z.to_nat (nHeight mb - k)) m.

Lemma block_at_prev bi q qb p pb k : tree_wf bi -> bi !! q = Some qb -> pprev qb = Some p -> bi !! p = Some pb -> k < nHeight qb ->
  block_at bi q qb k = block_at bi p pb k.
Proof.
  intros Hwf Hq Hp Hpb Hk. unfold block_at. destruct (Z.ltb_spec k 0) as [|H0]; [done|].
  destruct (pprev_height bi Hwf q qb p Hq Hp) as (pb' & Hpb' & Hh). replace pb' with pb in Hh by congruence.
  rewrite (walk_via bi 1 _ q p) by (lia || (cbn [walk]; rewrite Hq; cbn; by rewrite Hp)). f_equal. lia.
Qed.

Lemma to_connect_spec bi height fuel : tree_wf bi -> -1 <= height -> forall q qb, bi !! q = Some qb -> height <= nHeight qb -> (Z.to_nat (nHeight qb - height) <= fuel)%nat ->
  exists l, to_connect fuel bi (Some q) height = Ret l /\ climbs bi (block_at bi q qb height) (rev l) (Some q) /\ (forall x, x ∈ l -> is_ancestor bi q x).
Proof.
  intros Hwf Hk. induction fuel as [|fuel IH]; intros q qb Hq Hh Hf; cbn [to_connect]; rewrite Hq; cbn [deref mbind outcome_bind];
    pose proof (height_nonneg bi Hwf q qb Hq) as H0; destruct (Z.eqb_spec (nHeight qb) height) as [E|E]; try lia.
  1, 2: exists []; split; [done|]; split; [|set_solver]; unfold block_at; rewrite (proj2 (Z.ltb_ge _ _)) by lia; replace (nHeight qb - height) with 0 by lia; constructor.
  destruct (pprev qb) as [p|] eqn:Hp.
  - destruct (pprev_height bi Hwf q qb p Hq Hp) as (pb & Hpb & Hph). destruct (IH p pb Hpb ltac:(lia) ltac:(lia)) as (l & -> & Hc & Hl). cbn [mbind outcome_bind].
    exists (q :: l). split; [done|]. cbn [rev]. rewrite (block_at_prev bi q qb p pb height Hwf Hq Hp Hpb ltac:(lia)). split; [by apply (climbs_snoc bi _ _ (Some p) q qb)|].
    intros x [->|Hx]%elem_of_cons; [apply is_ancestor_refl|]. apply (is_ancestor_trans bi q p x); [by apply (is_ancestor_prev bi q qb)|auto].
  - pose proof (pprev_none_height bi Hwf q qb Hq Hp). exists [q]. replace (to_connect fuel bi None height) with (Ret (A := list uint256) []) by (by destruct fuel). split; [done|]. split.
    + cbn. unfold block_at. rewrite (proj2 (Z.ltb_lt _ _)) by lia. apply (climbs_cons _ _ _ qb); [done|done|constructor].
    + intros x Hx. assert (x = q) as -> by set_solver. apply is_ancestor_refl.
Qed.

Lemma block_at_evolves bi bi' m mb mb' k : tree_wf bi -> evolves bi bi' -> bi !! m = Some mb -> bi' !! m = Some mb' -> block_at bi' m mb' k = block_at bi m mb k.
Proof.
  intros Hwf He Hm Hm'. destruct (evolves_extends _ _ He) as [X1 _]. destruct (X1 m mb Hm) as (x & Hx & S). replace x with mb' in S by congruence.
  unfold block_at. by rewrite (sh_height _ _ S), (ext_walk bi bi' Hwf X1 _ m mb Hm).
Qed.

Lemma connect_towards_spec old m fuel : forall s r mb height, inv s r -> above s -> roots_never_refused (block_index s) -> block_index s !! m = Some mb -> usable (block_index s) m ->
  m ∈ setBlockIndexCandidates s -> -1 <= height <= nHeight mb -> tip s = block_at (block_index s) m mb height -> (forall o, old = Some o -> is_Some (block_index s !! o)) ->
  (Z.to_nat (nHeight mb - height) <= fuel)%nat ->
  exists c s' r', connect_towards addr fuel s old m height = Ret (c, s') /\ inv s' r' /\ above s' /\ advances s s' /\ connect_result s old (Some m) m c s'.
Proof.
  induction fuel as [|fuel IH]; intros s r mb height Hi Ha Hroot Hm Hu Hcm Hh Htip Hold Hf; cbn [connect_towards]; rewrite Hm; cbn [deref mbind outcome_bind];
    pose proof (inv_tree addr _ _ Hi) as Hwf; pose proof (height_nonneg _ Hwf m mb Hm) as H0; destruct (Z.eqb_spec height (nHeight mb)) as [E|E]; try lia.
  1, 2: exists ReachedEnd, s, r; split_and!; try done; [apply advances_refl|]; split; [|done]; rewrite Htip; unfold block_at;
    rewrite (proj2 (Z.ltb_ge _ _)) by lia; by replace (nHeight mb - height) with 0 by lia.
  set (target := Z.min (height + 32) (nHeight mb)). assert (height < target <= nHeight mb /\ 0 <= target) as [Ht Ht0] by lia.
  rewrite (GetAncestor_walk _ Hwf m mb target Hm), (proj2 (Z.leb_le 0 target)), (proj2 (Z.leb_le target _)) by lia. cbn [andb mbind outcome_bind].
  destruct (walk_total _ Hwf (Z.to_nat (nHeight mb - target)) m mb Hm ltac:(lia)) as (q & qb & Hq & Hqb & Hqh). rewrite Hq.
  destruct (to_connect_spec (block_index s) height (Z.to_nat (target - height)) Hwf ltac:(lia) q qb Hqb ltac:(lia) ltac:(lia)) as (l & -> & Hc & Hl). cbn [mbind outcome_bind].
  assert (block_at (block_index s) q qb height = block_at (block_index s) m mb height) as Ebase.
  { unfold block_at. destruct (Z.ltb_spec height 0) as [|Hk]; [done|]. rewrite (walk_via _ (Z.to_nat (nHeight mb - target)) (Z.to_nat (nHeight mb - height)) m q ltac:(lia) Hq). f_equal. lia. }
  assert (forall x, x ∈ l -> is_ancestor (block_index s) m x) as Hlm.
  { intros x Hx. apply (is_ancestor_trans _ m q x); [by exists (Z.to_nat (nHeight mb - target))|auto]. }
  assert (is_Some (block_index s !! default m (head l))) as Hfront.
  { destruct l as [|y l]; [cbn; eauto|]. cbn. apply (all_along_known (fun _ b => block_ok b = true)). apply (all_along_ancestor _ _ m); [done|]. apply Hlm. set_solver. }
  destruct (connect_blocks_spec old (default m (head l)) m (rev l) s r (Some q) Hi Ha Hroot Hfront) as (c & s1 & r1 & -> & Hi1 & Ha1 & A1 & Hres); [by rewrite Htip, <- Ebase|done|done| |done|].
  { intros x Hx. apply Hlm. apply list_elem_of_In. rewrite in_rev. by apply list_elem_of_In. }
  cbn [mbind outcome_bind]. destruct c; [|exists BetterTip, s1, r1; by split_and!|exists InvalidFound, s1, r1; by split_and!|exists ConnectFailed, s1, r1; by split_and!].
  destruct Hres as (Htip1 & Hcm1 & Hu1). pose proof (ad_evolves _ _ A1) as He1. destruct (proj1 He1 m mb Hm) as (mb1 & Hm1 & S1).
  destruct (evolves_extends _ _ He1) as [X1 _]. pose proof (sh_height _ _ (es_header _ _ S1)) as Hh1.
  destruct (IH s1 r1 mb1 target Hi1 Ha1) as (c & s2 & r2 & Hr2 & Hi2 & Ha2 & A2 & Hres2); try done.
  - by apply (roots_evolve (block_index s)).
  - auto.
  - lia.
  - rewrite Htip1, (block_at_evolves (block_index s) _ m mb mb1 target Hwf He1 Hm Hm1). unfold block_at. by rewrite (proj2 (Z.ltb_ge _ _)) by lia.
  - intros o Ho. apply (extends_Some (block_index s)); auto.
  - lia.
  - exists c, s2, r2. split_and!; try done; [by apply (advances_trans s s1)|]. by apply (connect_result_trans s s1 old (Some m) (Some m) m c s2).
Qed.

(** ** One step *)

Definition step_result (s : CChainState) (m : uint256) (ok fInvalidFound : bool) (s' : CChainState) : Prop :=
  if ok then
    if fInvalidFound then newly_failed (block_index s) (block_index s')
    else (exists t, tip s' = Some t /\ (t = m \/ more_work (block_index s') (tip s) t)) /\ m ∈ setBlockIndexCandidates s' /\
         forall x, usable (block_index s) x -> usable (block_index s') x
  else had_error (connect_log s').

Lemma ActivateBestChainStep_spec s r m : inv s r -> above s -> roots_never_refused (block_index s) -> usable (block_index s) m -> m ∈ setBlockIndexCandidates s ->
  exists ok fInvalidFound s' r', ActivateBestChainStep addr s m = Ret (ok, fInvalidFound, s') /\ inv s' r' /\ above s' /\ advances s s' /\ step_result s m ok fInvalidFound s'.
Proof.
  intros Hi Ha Hroot Hu Hcm. destruct (all_along_known _ _ _ Hu) as [mb Hm]. pose proof (inv_tree addr _ _ Hi) as Hwf. unfold ActivateBestChainStep. rewrite Hm. cbn [deref mbind outcome_bind].
  destruct (FindFork_spec _ Hwf (m_chain s) m mb Hm) as (fork & -> & Hfork). cbn [mbind outcome_bind].
  assert (match fork with None => True | Some f => exists t, tip s = Some t /\ is_ancestor (block_index s) t f end) as Hdown.
  { destruct fork as [f|]; [|done]. destruct Hfork as (_ & Hc & _). destruct (contains_tip _ _ _ (ci_chain _ _ _ Hi) Hc) as [t Ht]. exists t. split; [done|].
    by apply (Contains_ancestor _ Hwf _ t f (ci_chain _ _ _ Hi) Ht). }
  destruct (disconnect_to_spec r fork (length (m_chain s)) s Hi Ha ltac:(lia) Hdown) as (ok & s1 & -> & Hi1 & Ha1 & A1 & E1 & C1 & Ht1). cbn [mbind outcome_bind].
  destruct ok; cbn [negb]; [|by exists false, false, s1, r; split_and!]. rewrite E1.
  assert (exists height, match fork with None => Ret (-1) | Some f => fb ← deref (block_index s !! f); Ret (nHeight fb) end = Ret height /\
    -1 <= height <= nHeight mb /\ block_at (block_index s) m mb height = fork) as (height & -> & Hh & Hat).
  { destruct fork as [f|].
    - destruct Hfork as ((m' & [= <-] & n & Hn) & _). destruct (walk_height _ Hwf n m mb f Hm Hn) as (fb & Hfb & Hfh). rewrite Hfb. cbn [deref mbind outcome_bind].
      pose proof (height_nonneg _ Hwf f fb Hfb). exists (nHeight fb). split; [done|]. split; [lia|]. unfold block_at. rewrite (proj2 (Z.ltb_ge _ _)) by lia.
      by replace (Z.to_nat (nHeight mb - nHeight fb)) with n by lia.
    - exists (-1). pose proof (height_nonneg _ Hwf m mb Hm). split; [done|]. split; [lia|done]. }
  cbn [mbind outcome_bind].
  destruct (connect_towards_spec (tip s) m (S (Z.to_nat (nHeight mb))) s1 r mb height Hi1 Ha1) as (c & s' & r' & -> & Hi' & Ha' & A' & Hres); rewrite ?E1, ?C1; try done.
  - by rewrite Hat.
  - intros o Ho. destruct (ci_tip _ _ _ Hi o Ho) as [[G _] _]. by apply all_along_known in G.
  - lia.
  - cbn [mbind outcome_bind]. assert (advances s s') as Hadv by (by apply (advances_trans s s1)).
    destruct c; cbn in Hres; rewrite ?E1 in Hres; [exists true, false, s', r'|exists true, false, s', r'|exists true, true, s', r'|exists false, false, s', r']; split_and!; try done; cbn.
    + destruct Hres as (Ht & Hc & Hu'). split; [|done]. exists m. split; [done|by left].
    + destruct Hres as ((t & Ht & Hw) & Hc & Hu'). split; [|done]. exists t. split; [done|by right].
Qed.

(** ** The measure of the loops *)

Definition live (bi : gmap uint256 CBlockIndex) : gset uint256 := dom (filter (fun e => has_flag e.2 BLOCK_FAILED_MASK = false) bi).
Definition better_than (bi : gmap uint256 CBlockIndex) (t : option uint256) : gset uint256 :=
  match t with None => dom bi | Some t => dom (filter (fun e => worse addr bi t e.1 = true) bi) end.
Definition measure (s : CChainState) : nat :=
  size (live (block_index s)) * S (size (dom (block_index s))) + size (better_than (block_index s) (tip s)).

Lemma elem_of_live bi x : x ∈ live bi <-> exists b, bi !! x = Some b /\ has_flag b BLOCK_FAILED_MASK = false.
Proof. unfold live. rewrite elem_of_dom. unfold is_Some. split; intros (b & Hb); exists b; by apply map_lookup_filter_Some in Hb || apply map_lookup_filter_Some. Qed.

Lemma elem_of_better bi t x : x ∈ better_than bi (Some t) <-> is_Some (bi !! x) /\ worse addr bi t x = true.
Proof.
  unfold better_than. rewrite elem_of_dom. unfold is_Some. split.
  - intros (b & Hb%map_lookup_filter_Some). destruct Hb. eauto.
  - intros [[b Hb] Hw]. exists b. by apply map_lookup_filter_Some.
Qed.

Lemma evolves_dom bi bi' : evolves bi bi' -> dom bi' = dom bi.
Proof.
  intros [H1 H2]. apply set_eq. intros x. rewrite !elem_of_dom. split; [auto|]. intros [b Hb]. destruct (H1 x b Hb) as (b' & -> & _). eauto.
Qed.

Lemma evolves_live bi bi' : evolves bi bi' -> live bi' ⊆ live bi.
Proof.
  intros He x. rewrite !elem_of_live. intros (b' & Hb' & Hf). destruct (evolves_back _ _ _ _ He Hb') as (b & Hb & _). exists b. split; [done|].
  apply (not_failed_back bi bi' x b He Hb). eauto.
Qed.

Lemma better_dom bi t : better_than bi t ⊆ dom bi.
Proof. destruct t as [t|]; [|done]. intros x [Hx _]%elem_of_better. by apply elem_of_dom. Qed.

Lemma measure_failed s s' : evolves (block_index s) (block_index s') -> newly_failed (block_index s) (block_index s') -> (measure s' < measure s)%nat.
Proof.
  intros He (x & b & b' & Hb & Hf & Hb' & Hf'). unfold measure. rewrite (evolves_dom _ _ He).
  assert (size (live (block_index s')) < size (live (block_index s)))%nat as Hl.
  { apply subset_size. split; [by apply evolves_live|]. intros Hsub. assert (x ∈ live (block_index s')) as Hx by (apply Hsub, elem_of_live; eauto).
    apply elem_of_live in Hx as (c & Hc & Hcf). congruence. }
  pose proof (subseteq_size _ _ (better_dom (block_index s') (tip s'))) as Ha. rewrite (evolves_dom _ _ He) in Ha. nia.
Qed.

Lemma measure_tip s s' t : evolves (block_index s) (block_index s') -> (forall h b, block_index s' !! h = Some b -> bu_wf (nChainWork b)) ->
  is_Some (block_index s' !! t) -> tip s' = Some t -> more_work (block_index s') (tip s) t -> (measure s' < measure s)%nat.
Proof.
  intros He Hwork Hk Ht Hw. unfold measure. rewrite (evolves_dom _ _ He), Ht.
  assert (size (better_than (block_index s') (Some t)) < size (better_than (block_index s) (tip s)))%nat as Ha.
  { apply subset_size. pose proof (worse_irrefl addr _ Hwork t) as Hirr. destruct (tip s) as [o|]; cbn in Hw.
    - split.
      + intros x [Hx Hwx]%elem_of_better. apply elem_of_better. split; [by apply He|]. rewrite <- (evolves_worse addr _ _ o x He). by apply (worse_trans addr _ Hwork o t x).
      + intros Hsub. assert (t ∈ better_than (block_index s') (Some t)) as [_ Hx]%elem_of_better; [|done]. apply Hsub, elem_of_better. split; [by apply He|].
        by rewrite <- (evolves_worse addr _ _ o t He).
    - split.
      + intros x [Hx _]%elem_of_better. cbn. rewrite <- (evolves_dom _ _ He). by apply elem_of_dom.
      + intros Hsub. assert (t ∈ better_than (block_index s') (Some t)) as [_ Hx]%elem_of_better; [|done]. apply Hsub. cbn. rewrite <- (evolves_dom _ _ He). by apply elem_of_dom. }
  pose proof (subseteq_size _ _ (evolves_live _ _ He)). nia.
Qed.

Lemma measure_settles s s' : settles s s' -> (measure s' <= measure s)%nat.
Proof.
  intros Hs. pose proof (st_evolves _ _ Hs) as He. unfold measure. rewrite (evolves_dom _ _ He).
  assert (better_than (block_index s') (tip s') = better_than (block_index s) (tip s)) as ->.
  { unfold tip. rewrite (st_chain _ _ Hs). destruct (chain_Tip _) as [t|]; [|by apply evolves_dom]. apply set_eq. intros x. rewrite !elem_of_better, <- !elem_of_dom, (evolves_dom _ _ He).
    by rewrite (evolves_worse addr _ _ t x He). }
  pose proof (subseteq_size _ _ (evolves_live _ _ He)). nia.
Qed.

(** ** The loops *)

Definition best_usable (bi : gmap uint256 CBlockIndex) (m : uint256) : Prop := usable bi m /\ forall h, usable bi h -> le_tip addr bi h m.

(** A candidate to move to, the best one if no answer was taken back *)
Definition best_candidate (s : CChainState) (m : uint256) : Prop :=
  usable (block_index s) m /\ m ∈ setBlockIndexCandidates s /\ (stable (connect_log s) -> forall h, usable (block_index s) h -> le_tip addr (block_index s) h m).

Lemma best_candidate_advances s s' m : advances s s' -> (forall x, usable (block_index s) x -> usable (block_index s') x) -> m ∈ setBlockIndexCandidates s' ->
  best_candidate s m -> best_candidate s' m.
Proof.
  intros Ha Hu Hc (H1 & _ & H3). split; [auto|]. split; [done|]. intros Hst h Hh. pose proof (ad_evolves _ _ Ha) as He.
  apply (le_tip_evolves addr (block_index s)); [done|]. apply H3; [by apply (advances_stable s s')|by apply (evolves_usable _ (block_index s'))].
Qed.

(** How the inner loop leaves the choice of a chain *)
Definition activation_ok (a : activation) : Prop :=
  match act_most_work a with
  | Some m => best_candidate (act_state a) m /\ (act_connected a = false -> tip (act_state a) = Some m)
  | None => (stable (connect_log (act_state a)) -> forall h, ~ usable (block_index (act_state a)) h) \/ (is_Some (tip (act_state a)) /\ act_connected a = true)
  end.

(** The candidate to move to, cached or searched for *)
Lemma next_candidate s r most : inv s r -> (forall m, most = Some m -> best_candidate s m) ->
  exists res s1, match most with Some m => Ret (Some m, s) | None => FindMostWorkChain addr (size (setBlockIndexCandidates s)) s end = Ret (res, s1) /\ settles s s1 /\
    match res with None => stable (connect_log s1) -> forall h, ~ usable (block_index s1) h | Some m => best_candidate s1 m end.
Proof.
  intros Hi Hm. destruct most as [m|]; [exists (Some m), s; split_and!; [done|apply settles_refl|by apply Hm]|].
  destruct (FindMostWorkChain_spec addr (size (setBlockIndexCandidates s)) s r Hi ltac:(lia)) as (res & s1 & -> & Hs & Hres). exists res, s1. split_and!; try done.
  pose proof (st_evolves _ _ Hs) as He. destruct res as [m|].
  - destruct Hres as (Hu & Hc & Hmax). split; [by apply Hs|]. split; [done|]. rewrite (st_log _ _ Hs). intros Hst h Hh.
    apply (le_tip_evolves addr (block_index s)); [done|]. apply Hmax; [done|]. by apply (evolves_usable _ (block_index s1)).
  - rewrite (st_log _ _ Hs). intros Hst h Hu. apply (Hres Hst h). by apply (evolves_usable _ (block_index s1)).
Qed.

Lemma step_measure s r m : inv s r -> above s -> m ∈ setBlockIndexCandidates s -> tip s <> Some m -> forall s' t, advances s s' -> (exists r', inv s' r') -> tip s' = Some t ->
  t = m \/ more_work (block_index s') (tip s) t -> (measure s' < measure s)%nat.
Proof.
  intros Hi Ha Hcm Hne s' t Hadv [r' Hi'] Ht Hm. apply (measure_tip s s' t); [apply Hadv|apply (inv_works addr _ _ Hi')| |done|].
  - destruct (ci_tip _ _ _ Hi' t Ht) as [[G _] _]. by apply all_along_known in G.
  - destruct Hm as [->|Hm]; [|done]. destruct (tip s) as [o|] eqn:Ho; [|done]. cbn. rewrite (evolves_worse addr _ _ _ _ (ad_evolves _ _ Hadv)).
    destruct (not_worse addr (block_index s) (inv_works addr _ _ Hi) m o) as [->|Hw]; [| |by apply (Ha o m)|done|done].
    + destruct (ci_candidates _ _ _ Hi m Hcm) as (? & -> & _). eauto.
    + destruct (ci_tip _ _ _ Hi o Ho) as [[G _] _]. by apply all_along_known in G.
Qed.

(** One turn of the inner loop *)
Lemma turn_spec s r most : inv s r -> above s -> roots_never_refused (block_index s) -> (forall m, most = Some m -> best_candidate s m) ->
  exists res s1, match most with Some m => Ret (Some m, s) | None => FindMostWorkChain addr (size (setBlockIndexCandidates s)) s end = Ret (res, s1) /\
    inv s1 r /\ above s1 /\ advances s s1 /\ (measure s1 <= measure s)%nat /\ tip s1 = tip s /\
    match res with
    | None => stable (connect_log s1) -> forall h, ~ usable (block_index s1) h
    | Some m => best_candidate s1 m /\
        (Some m <> tip s1 -> exists ok inval s2 r2, ActivateBestChainStep addr s1 m = Ret (ok, inval, s2) /\ inv s2 r2 /\ above s2 /\ advances s s2 /\
           if (ok : bool) then (measure s2 < measure s)%nat /\ (inval = false -> best_candidate s2 m) else had_error (connect_log s2))
    end.
Proof.
  intros Hi Ha Hroot Hm. destruct (next_candidate s r most Hi Hm) as (res & s1 & -> & Hs & Hres). exists res, s1.
  pose proof (settles_inv addr _ _ _ Hs Hi) as Hi1. pose proof (settles_above addr _ _ Hs Ha) as Ha1. pose proof (settles_advances _ _ Hs) as A1. pose proof (measure_settles _ _ Hs) as Hm1.
  assert (tip s1 = tip s) as T1 by (unfold tip; by rewrite (st_chain _ _ Hs)). split_and!; try done. destruct res as [m|]; [|done]. split; [done|]. intros Hne.
  pose proof Hres as (Hu & Hc & _).
  destruct (ActivateBestChainStep_spec s1 r m Hi1 Ha1 (roots_evolve _ _ (st_evolves _ _ Hs) Hroot) Hu Hc) as (ok & inval & s2 & r2 & -> & Hi2 & Ha2 & A2 & Hstep).
  exists ok, inval, s2, r2. split_and!; try done; [by apply (advances_trans s s1)|]. destruct ok; [|done]. cbn in Hstep. split.
  - enough (measure s2 < measure s1)%nat by lia. destruct inval; [apply measure_failed; [apply A2|done]|]. destruct Hstep as ((t & Ht & Ht') & _).
    apply (step_measure s1 r m Hi1 Ha1 Hc ltac:(congruence) s2 t); eauto.
  - intros ->. destruct Hstep as (_ & Hc2 & Hu2). by apply (best_candidate_advances s1).
Qed.

(** How the inner loop ends *)
Definition inner_end (s : CChainState) (a : activation) (ok : bool) (a' : activation) : Prop :=
  if ok then (act_connected a' = true -> act_new_tip a' = tip (act_state a')) /\
    (act_connected a = false -> act_connected a' = true -> (measure (act_state a') < measure s)%nat) /\ (measure (act_state a') <= measure s)%nat /\ activation_ok a'
  else had_error (connect_log (act_state a')).

Lemma activate_inner_spec start fuel : forall a r, let s := act_state a in inv s r -> above s -> roots_never_refused (block_index s) ->
  (forall m, act_most_work a = Some m -> best_candidate s m) -> (act_connected a = true -> act_new_tip a = tip s) -> (measure s <= fuel)%nat ->
  exists ok a' r', activate_inner addr fuel start a = Ret (ok, a') /\ inv (act_state a') r' /\ above (act_state a') /\ advances s (act_state a') /\ inner_end s a ok a'.
Proof.
  induction fuel as [|fuel IH]; intros [s most newtip conn] r s0 Hi Ha Hroot Hm Hnew Hf; subst s0; cbn [act_state act_most_work act_new_tip act_connected] in *;
    destruct (turn_spec s r most Hi Ha Hroot Hm) as (res & s1 & Hsel & Hi1 & Ha1 & A1 & Hm1 & T1 & Hres); cbn [activate_inner act_state act_most_work act_new_tip act_connected];
    rewrite Hsel; cbn [mbind outcome_bind]; destruct res as [m|].
  2, 4: exists true, (mkActivation s1 None newtip conn), r; split; [done|]; unfold inner_end, activation_ok; cbn [act_state act_most_work act_new_tip act_connected]; split_and!; try done; [rewrite T1; auto|by intros ->|by left].
  all: destruct Hres as [Hbest Hstep]; case_bool_decide as E.
  1, 3: exists true, (mkActivation s1 (Some m) newtip conn), r; split; [done|]; unfold inner_end, activation_ok; cbn [act_state act_most_work act_new_tip act_connected]; split_and!; try done; [rewrite T1; auto|by intros ->].
  all: destruct (Hstep E) as (ok & inval & s2 & r2 & -> & Hi2 & Ha2 & A2 & Hend); cbn [mbind outcome_bind].
  all: destruct ok; cbn [negb]; [destruct Hend as [Hm2 Hbest2]|by exists false, (mkActivation s2 (Some m) newtip conn), r2; split_and!].
  { lia. }
  set (a2 := mkActivation s2 (if inval then None else Some m) (tip s2) true). set (again := match tip s2 with None => _ | Some _ => _ end).
  destruct again eqn:Eagain.
  - destruct (IH a2 r2) as (ok & a' & r' & -> & Hi' & Ha' & A' & Hend'); try done.
    + by apply (roots_evolve (block_index s)); [apply A2|].
    + cbn. destruct inval; [done|]. intros ? [= <-]. auto.
    + cbn. lia.
    + cbn [act_state a2] in *. exists ok, a', r'. split_and!; try done; [by apply (advances_trans s s2)|]. unfold inner_end in *. destruct ok; [|done].
      destruct Hend' as (N & _ & M & K). split_and!; try done; [intros; lia|lia].
  - exists true, a2, r2. split_and!; try done. unfold inner_end. split_and!; try done; [cbn; lia|]. unfold activation_ok, a2. cbn [act_state act_most_work act_new_tip act_connected]. destruct inval; [|split; [auto|done]].
    right. unfold again in Eagain. destruct (tip s2); [eauto|done].
Qed.

(** The best chain is active, unless an answer was taken back. *)
Definition at_best (s : CChainState) : Prop := stable (connect_log s) ->
  match tip s with None => forall h, ~ usable (block_index s) h | Some t => best_usable (block_index s) t end.

(** What the end of the inner loop says about the tip *)
Lemma activation_end a r : inv (act_state a) r -> activation_ok a -> (act_connected a = true -> act_new_tip a = tip (act_state a)) ->
  (act_connected a = false \/ act_new_tip a = act_most_work a) -> at_best (act_state a).
Proof.
  intros Hi Hok Hnew Hend Hst. unfold activation_ok in Hok.
  assert (forall t, tip (act_state a) = Some t -> usable (block_index (act_state a)) t) as Htip.
  { intros t Ht. destruct (ci_tip _ _ _ Hi t Ht) as [[G _] _]. exact G. }
  assert (forall m, best_candidate (act_state a) m -> best_usable (block_index (act_state a)) m) as Hbest by (intros m (Hu & _ & Hmax); split; auto).
  destruct (act_connected a).
  - destruct Hend as [?|E]; [done|]. rewrite (Hnew eq_refl) in E. rewrite E in *. destruct (act_most_work a) as [m|]; [apply Hbest, Hok|].
    destruct Hok as [Hno|[[t Ht] _]]; [auto|congruence].
  - destruct (act_most_work a) as [m|]; [destruct Hok as [Hb Ht]; rewrite (Ht eq_refl); auto|]. destruct Hok as [Hno|[_ ?]]; [|done].
    destruct (tip (act_state a)) as [t|]; [|auto]. destruct (Hno Hst t). by apply Htip.
Qed.

Lemma activate_outer_spec fuel : forall s r most newtip, inv s r -> above s -> roots_never_refused (block_index s) -> (forall m, most = Some m -> best_candidate s m) -> (measure s <= fuel)%nat ->
  exists ok s' r', activate_outer addr fuel s most newtip = Ret (ok, s') /\ inv s' r' /\ above s' /\ advances s s' /\ if (ok : bool) then at_best s' else had_error (connect_log s').
Proof.
  induction fuel as [|fuel IH]; intros s r most newtip Hi Ha Hroot Hm Hf;
    destruct (activate_inner_spec (tip s) _ (mkActivation s most newtip false) r Hi Ha Hroot Hm ltac:(done) Hf) as (ok & a & r' & Hrun & Hi' & Ha' & A' & Hin);
    cbn [activate_outer]; rewrite Hrun; cbn [mbind outcome_bind]; (destruct ok; cbn [negb]; [|by exists false, (act_state a), r']);
    destruct Hin as (Hnew & Hme & _ & Hok); pose proof (activation_end a r' Hi' Hok Hnew) as Hend; cbn [act_state act_connected] in *; specialize (Hme eq_refl);
    destruct (act_connected a) eqn:Hc; cbn [negb].
  2, 4: exists true, (act_state a), r'; split_and!; try done; apply Hend; by left.
  all: destruct (bool_decide_reflect (act_new_tip a = act_most_work a)) as [E|E]; [exists true, (act_state a), r'; split_and!; try done; apply Hend; by right|]; specialize (Hme eq_refl).
  { lia. }
  destruct (IH (act_state a) r' (act_most_work a) (act_new_tip a) Hi' Ha') as (ok & s' & r'' & -> & Hi'' & Ha'' & A'' & Hend').
  - by apply (roots_evolve (block_index s)); [apply A'|].
  - intros m Hm'. unfold activation_ok in Hok. rewrite Hm' in Hok. apply Hok.
  - lia.
  - exists ok, s', r''. split_and!; try done. by apply (advances_trans s (act_state a)).
Qed.

Lemma measure_bound s : (measure s <= activation_fuel s)%nat.
Proof.
  unfold measure, activation_fuel. rewrite <- (size_dom (block_index s)). assert (live (block_index s) ⊆ dom (block_index s)) as Hl.
  { intros x (b & Hb & _)%elem_of_live. by apply elem_of_dom_2 in Hb. }
  pose proof (subseteq_size _ _ Hl). pose proof (subseteq_size _ _ (better_dom (block_index s) (tip s))). nia.
Qed.

(** [ActivateBestChain] returns; it fails only after an error, and otherwise the best chain
    is active. *)
Lemma ActivateBestChain_spec s r : inv s r -> above s -> roots_never_refused (block_index s) ->
  exists ok s' r', ActivateBestChain addr s = Ret (ok, s') /\ inv s' r' /\ above s' /\ advances s s' /\ if (ok : bool) then at_best s' else had_error (connect_log s').
Proof. intros Hi Ha Hroot. by apply (activate_outer_spec (activation_fuel s) s r None None Hi Ha Hroot ltac:(done) (measure_bound s)). Qed.

End best.
