(* ===== verification/ReceiveBlock.v ===== *)
(** * ReceiveBlock: the data of a block arrives (src/src/validation.cpp)

    [ReceivedBlockTransactions] links a block and the blocks that waited for it. It
    keeps the invariant of the selection: every chain that became usable has a
    candidate at its end, or is worse than the reference. *)

From Stdlib Require Import ZArith Lia.
From stdpp Require Import base list numbers option gmap.
From S2P Require Import Prelude Arith256 Uint256 Serialize Transaction Compact Chain ActiveChain VersionBits Params Pow Kernel BlockStorage HeaderCheck ChainSelect BestChain.

(** ** Blocks being linked *)

(** The state of the links while [queue] is worked off: [links_inv] is the case of an
    empty queue. *)
Record linking (bi : gmap uint256 CBlockIndex) (unlinked : list (uint256 * uint256)) (queue : list uint256) : Prop := {
  lk_index : index_wf bi;
  lk_level : forall h b, bi !! h = Some b -> BLOCK_VALID_TREE <= Z.land (nStatus b) BLOCK_VALID_MASK;
  lk_tx : forall h b, bi !! h = Some b -> 0 <= nTx b /\ 0 <= nChainTx b /\ (has_flag b BLOCK_HAVE_DATA = true <-> nTx b <> 0);
  lk_linked : forall h b, bi !! h = Some b -> HaveTxsDownloaded b = true ->
    has_flag b BLOCK_HAVE_DATA = true /\ nChainTx b = nTx b + txs_before bi b /\
    (forall p pb, pprev b = Some p -> bi !! p = Some pb -> HaveTxsDownloaded pb = true);
  lk_waiting : forall h b, bi !! h = Some b -> has_flag b BLOCK_HAVE_DATA = true -> HaveTxsDownloaded b = false -> h ∈ queue \/
    exists p pb, pprev b = Some p /\ bi !! p = Some pb /\
      (has_flag pb BLOCK_FAILED_MASK = true \/ (HaveTxsDownloaded pb = false /\ (p, h) ∈ unlinked));
  lk_unlinked : forall p h, (p, h) ∈ unlinked -> exists b pb, bi !! h = Some b /\ pprev b = Some p /\ has_flag b BLOCK_HAVE_DATA = true /\
    HaveTxsDownloaded b = false /\ bi !! p = Some pb /\ HaveTxsDownloaded pb = false;
  lk_nodup : NoDup unlinked;
  lk_queue : forall q, q ∈ queue -> exists b, bi !! q = Some b /\ has_flag b BLOCK_HAVE_DATA = true /\ HaveTxsDownloaded b = false /\
    forall p pb, pprev b = Some p -> bi !! p = Some pb -> HaveTxsDownloaded pb = true;
  lk_queue_nodup : NoDup queue;
}.

Lemma linking_done bi u : linking bi u [] <-> links_inv bi u.
Proof.
  split; intros [L1 L2 L3 L4 L5 L6 L7].
  - split; try done. intros h b Hb Hd Ht. destruct (L5 h b Hb Hd Ht) as [?%not_elem_of_nil|]; done.
  - split; try done; [eauto|by intros q ?%not_elem_of_nil|constructor].
Qed.

(** ** Counting transactions *)

Definition tx_at (bi : gmap uint256 CBlockIndex) (h : uint256) : Z := match bi !! h with Some b => nTx b | None => 0 end.
(** The transactions of all blocks in the index *)
Definition index_txs (bi : gmap uint256 CBlockIndex) : Z := sum_of (tx_at bi) (elements (dom bi)).

Lemma sum_of_ext {A} (f g : A -> Z) l : (forall x, f x = g x) -> sum_of f l = sum_of g l.
Proof. intros Hfg. unfold sum_of. induction l as [|x l IH]; [done|]. cbn [foldr]. by rewrite Hfg, IH. Qed.

Lemma index_txs_same bi bi' : dom bi' = dom bi -> (forall h, tx_at bi' h = tx_at bi h) -> index_txs bi' = index_txs bi.
Proof. intros Hd Ht. unfold index_txs. rewrite Hd. by apply sum_of_ext. Qed.

Lemma sub_count bi l : (forall h, 0 <= tx_at bi h) -> NoDup l -> (forall x, x ∈ l -> x ∈ dom bi) -> sum_of (tx_at bi) l <= index_txs bi.
Proof.
  intros Hp Hn Hl. assert (l ⊆+ elements (dom bi)) as (k & Hk)%submseteq_Permutation.
  { apply NoDup_submseteq; [done|]. intros x Hx. by apply elem_of_elements, Hl. }
  unfold index_txs. rewrite (sum_of_perm _ _ _ Hk), sum_of_app. pose proof (sum_of_nonneg (tx_at bi) k ltac:(by apply Forall_forall)). lia.
Qed.

Section counting.

Context (bi : gmap uint256 CBlockIndex) (u : list (uint256 * uint256)) (queue : list uint256) (Hl : linking bi u queue).

Lemma tx_at_nonneg h : 0 <= tx_at bi h.
Proof. unfold tx_at. destruct (bi !! h) as [b|] eqn:Hb; [|lia]. by destruct (lk_tx _ _ _ Hl h b Hb). Qed.

(** A linked block counts distinct blocks of at most its height. *)
Lemma counted n : forall h b, bi !! h = Some b -> HaveTxsDownloaded b = true -> Z.to_nat (nHeight b) = n ->
  exists l, NoDup l /\ (forall x, x ∈ l -> exists xb, bi !! x = Some xb /\ nHeight xb <= nHeight b) /\ sum_of (tx_at bi) l = nChainTx b.
Proof.
  induction n as [|n IH]; intros h b Hb Ht Hn; pose proof (proj1 (lk_index _ _ _ Hl)) as Hwf; pose proof (height_nonneg bi Hwf h b Hb) as H0;
    destruct (lk_linked _ _ _ Hl h b Hb Ht) as (_ & Hc & Hprev); unfold txs_before in Hc; destruct (pprev b) as [p|] eqn:Hp; cbn [mbind option_bind] in Hc;
    try (destruct (pprev_height bi Hwf h b p Hb Hp) as (pb & Hpb & Hph); pose proof (height_nonneg bi Hwf p pb Hpb); rewrite Hpb in Hc).
  1: lia.
  1, 3: exists [h]; split; [apply NoDup_singleton|]; split; [intros x Hx; assert (x = h) as -> by set_solver; exists b; split; [done|lia]|];
    rewrite sum_of_cons, sum_of_nil; unfold tx_at; rewrite Hb; lia.
  destruct (IH p pb Hpb (Hprev p pb eq_refl Hpb) ltac:(lia)) as (l & Hnd & Hle & Hsum). exists (h :: l). split; [|split].
  - apply NoDup_cons. split; [|done]. intros Hx. destruct (Hle h Hx) as (xb & Hxb & Hxh). replace xb with b in Hxh by congruence. lia.
  - intros x [->|Hx]%elem_of_cons; [exists b; split; [done|lia]|]. destruct (Hle x Hx) as (xb & Hxb & Hxh). exists xb. split; [done|lia].
  - rewrite sum_of_cons, Hsum, Hc. unfold tx_at. rewrite Hb. lia.
Qed.

(** The count a block of the queue gets is below the total. *)
Lemma count_bound x b : bi !! x = Some b -> (forall p pb, pprev b = Some p -> bi !! p = Some pb -> HaveTxsDownloaded pb = true) ->
  0 <= txs_before bi b /\ txs_before bi b + nTx b <= index_txs bi.
Proof.
  intros Hb Hprev. pose proof (proj1 (lk_index _ _ _ Hl)) as Hwf. unfold txs_before. destruct (pprev b) as [p|] eqn:Hp; cbn [mbind option_bind].
  - destruct (pprev_height bi Hwf x b p Hb Hp) as (pb & Hpb & Hph). rewrite Hpb. destruct (lk_tx _ _ _ Hl p pb Hpb) as (_ & H0 & _).
    destruct (counted _ p pb Hpb (Hprev p pb eq_refl Hpb) eq_refl) as (l & Hnd & Hle & Hsum). split; [done|].
    rewrite <- Hsum. assert (nTx b = tx_at bi x) as -> by (unfold tx_at; by rewrite Hb). rewrite Z.add_comm, <- sum_of_cons.
    apply sub_count; [apply tx_at_nonneg| |].
    + apply NoDup_cons. split; [|done]. intros Hx. destruct (Hle x Hx) as (xb & Hxb & Hxh). replace xb with b in Hxh by congruence. lia.
    + intros y [->|Hy]%elem_of_cons; [by apply elem_of_dom_2 in Hb|]. destruct (Hle y Hy) as (yb & Hyb & _). by apply elem_of_dom_2 in Hyb.
  - split; [lia|]. assert (nTx b = sum_of (tx_at bi) [x]) as -> by (rewrite sum_of_cons, sum_of_nil; unfold tx_at; rewrite Hb; lia).
    rewrite Z.add_0_l. apply sub_count; [apply tx_at_nonneg|apply NoDup_singleton|]. intros y Hy. assert (y = x) as -> by set_solver. by apply elem_of_dom_2 in Hb.
Qed.

End counting.

(** ** Linking one block *)

Section link.

Context (bi : gmap uint256 CBlockIndex) (u : list (uint256 * uint256)) (x : uint256) (queue : list uint256) (Hl : linking bi u (x :: queue)).
Context (b : CBlockIndex) (Hb : bi !! x = Some b) (seq : Z).

#[local] Notation b' := (set_linked b (txs_before bi b + nTx b) seq).
#[local] Notation bi' := (<[x := b']> bi).

Lemma link_head : has_flag b BLOCK_HAVE_DATA = true /\ HaveTxsDownloaded b = false /\ forall p pb, pprev b = Some p -> bi !! p = Some pb -> HaveTxsDownloaded pb = true.
Proof. destruct (lk_queue _ _ _ Hl x ltac:(set_solver)) as (c & Hc & H). by replace c with b in H by congruence. Qed.

Lemma link_extends : extends bi bi' /\ extends bi' bi.
Proof.
  split; intros h c Hc.
  - destruct (decide (x = h)) as [<-|Hn]; [exists b'; rewrite lookup_insert_eq; split; [done|]; replace c with b by congruence; by split|].
    exists c. rewrite lookup_insert_ne by done. split; [done|apply same_header_refl].
  - apply lookup_insert_Some in Hc as [[<- <-]|[_ Hc]]; [exists b; split; [done|by split]|exists c; split; [done|apply same_header_refl]].
Qed.

Lemma link_now : HaveTxsDownloaded b' = true /\ 0 < nChainTx b'.
Proof.
  destruct link_head as (Hd & _ & Hp). destruct (lk_tx _ _ _ Hl x b Hb) as (H0 & _ & Hiff). apply Hiff in Hd.
  destruct (count_bound bi u (x :: queue) Hl x b Hb Hp) as [Hc _]. unfold HaveTxsDownloaded. cbn [nChainTx set_linked].
  split; [|lia]. destruct (Z.eqb_spec (txs_before bi b + nTx b) 0); [lia|done].
Qed.

Lemma link_before h c : bi !! h = Some c -> (forall p pb, pprev c = Some p -> bi !! p = Some pb -> HaveTxsDownloaded pb = true) -> txs_before bi' c = txs_before bi c.
Proof.
  intros Hc Hp. unfold txs_before. destruct (pprev c) as [p|] eqn:Ep; [|done]. cbn [mbind option_bind]. destruct (decide (x = p)) as [<-|Hn]; [|by rewrite lookup_insert_ne].
  destruct link_head as (_ & Hno & _). by rewrite (Hp x b eq_refl Hb) in Hno.
Qed.

Lemma link_step : linking bi' (filter (fun e => e.1 <> x) u) (queue ++ map snd (filter (fun e => e.1 = x) u)).
Proof.
  destruct link_head as (Hd & Hno & Hp). destruct link_now as [Hnow Hpos]. destruct link_extends as [X1 X2].
  destruct Hl as [L1 L2 L3 L4 L5 L6 L7 L8 L9]. apply NoDup_cons in L9 as [Hxq L9].
  assert (forall h, (h, x) ∈ u -> False) as Hnx.
  { intros p Hu. destruct (L6 p x Hu) as (c & pb & Hc & Hpc & _ & _ & Hpb & Hpl). replace c with b in * by congruence. by rewrite (Hp p pb Hpc Hpb) in Hpl. }
  assert (forall h c, bi !! h = Some c -> HaveTxsDownloaded c = true -> h <> x) as Hne by (intros h c Hc Ht ->; congruence).
  split.
  - by apply (index_wf_same bi).
  - intros h c [[<- <-]|[_ Hc]]%lookup_insert_Some; [by apply (L2 x b)|by apply (L2 h)].
  - intros h c [[<- <-]|[_ Hc]]%lookup_insert_Some; [|by apply (L3 h)]. destruct (L3 x b Hb) as (? & _ & ?). split_and!; try done. lia.
  - intros h c [[<- <-]|[Hn Hc]]%lookup_insert_Some Ht.
    + split; [done|]. split.
      * change (txs_before bi' b') with (txs_before bi' b). rewrite (link_before x b Hb Hp). cbn [nChainTx nTx set_linked]. lia.
      * intros p pb Hpp Hpb. cbn in Hpp. apply lookup_insert_Some in Hpb as [[<- <-]|[_ Hpb]]; [done|by apply (Hp p)].
    + destruct (L4 h c Hc Ht) as (D & C & P). split; [done|]. split; [by rewrite (link_before h c Hc P)|].
      intros p pb Hpp [[<- <-]|[_ Hpb]]%lookup_insert_Some; [done|by apply (P p)].
  - intros h c [[<- <-]|[Hn Hc]]%lookup_insert_Some Hdc Htc; [congruence|]. destruct (L5 h c Hc Hdc Htc) as [[->|Hq]%elem_of_cons|(p & pb & Hpp & Hpb & Hw)]; [done|left; set_solver|].
    destruct (decide (x = p)) as [<-|Hnp].
    + replace pb with b in Hw by congruence. destruct Hw as [Hf|[_ Hu]].
      * right. exists x, b'. by rewrite lookup_insert_eq; split_and!; [..|left].
      * left. apply elem_of_app. right. apply list_elem_of_fmap. exists (x, h). split; [done|]. by apply list_elem_of_filter.
    + right. exists p, pb. rewrite lookup_insert_ne by done. split_and!; try done. destruct Hw as [|[Ht Hu]]; [by left|right]. split; [done|]. by apply list_elem_of_filter.
  - intros p h [Hnp Hu]%list_elem_of_filter. cbn in Hnp. destruct (L6 p h Hu) as (c & pb & Hc & Hpc & Hdc & Htc & Hpb & Hpl). exists c, pb.
    assert (x <> h) by (intros <-; by apply (Hnx p)). by rewrite !lookup_insert_ne by congruence.
  - by apply NoDup_filter.
  - intros q [Hq|Hq]%elem_of_app.
    + assert (x <> q) as Hn by (by intros <-). destruct (L8 q ltac:(set_solver)) as (c & Hc & Hdc & Htc & Hpc). exists c. rewrite lookup_insert_ne by done. split_and!; try done.
      intros p pb Hpp [[<- <-]|[_ Hpb]]%lookup_insert_Some; [done|by apply (Hpc p)].
    + apply list_elem_of_fmap in Hq as ([y q'] & -> & [Ey Hu]%list_elem_of_filter). cbn in Ey. subst y. cbn [snd]. destruct (L6 x q' Hu) as (c & pb & Hc & Hpc & Hdc & Htc & _).
      assert (x <> q') as Hn by (intros <-; by apply (Hnx x)). exists c. rewrite lookup_insert_ne by done. split_and!; try done.
      intros p pb' Hpp Hpb. replace p with x in Hpb by congruence. rewrite lookup_insert_eq in Hpb. by injection Hpb as <-.
  - apply NoDup_app. split; [done|]. split.
    + intros q Hq Hr. apply list_elem_of_fmap in Hr as ([y q'] & -> & [Ey Hu]%list_elem_of_filter). cbn in Ey. subst y. cbn [snd] in Hq.
      destruct (L8 q' ltac:(set_solver)) as (c & Hc & _ & _ & Hpc). destruct (L6 x q' Hu) as (c' & pb & Hc' & Hpp & _ & _ & Hpb & Hpl). replace c' with c in * by congruence.
      by rewrite (Hpc x pb Hpp Hpb) in Hpl.
    + apply NoDup_fmap_2_strong; [|by apply NoDup_filter]. intros [y1 z1] [y2 z2] [E1 _]%list_elem_of_filter [E2 _]%list_elem_of_filter. cbn in *. congruence.
Qed.

End link.

(** ** The loop *)

Section receive.

Context `{BlockConnector} (addr : uint256 -> Z) `{!Inj (=) (=) addr}.

(** The invariant of the selection while blocks are being linked; only linked blocks are
    accounted for. *)
Record receiving (s : CChainState) (r : option uint256) (queue : list uint256) : Prop := {
  rc_links : linking (block_index s) (m_blocks_unlinked s) queue;
  rc_chain : chain_wf (block_index s) (m_chain s);
  rc_candidates : forall c, c ∈ setBlockIndexCandidates s -> exists b, block_index s !! c = Some b /\ HaveTxsDownloaded b = true;
  rc_tip : forall t, tip s = Some t -> good (connect_log s) (block_index s) t /\ is_Some r /\ exists b, block_index s !! t = Some b /\ HaveTxsDownloaded b = true;
  rc_ref : stable (connect_log s) -> forall r0, r = Some r0 -> r0 ∈ setBlockIndexCandidates s /\ good (connect_log s) (block_index s) r0;
  rc_covered : stable (connect_log s) -> forall h b, usable (block_index s) h -> block_index s !! h = Some b -> HaveTxsDownloaded b = true ->
    h ∈ setBlockIndexCandidates s \/ exists r0, r = Some r0 /\ worse addr (block_index s) h r0 = true;
  rc_best : forall h, bm_best_header (m_blockman (m_chainman s)) = Some h -> is_Some (block_index s !! h);
  rc_failed : Forall (failed_valid (block_index s)) (m_failed_blocks (m_chainman s));
  rc_grows : work_grows (block_index s);
  rc_above : above_tip addr s;
}.

Lemma receiving_done s r : receiving s r [] <-> chain_inv addr s r /\ above_tip addr s.
Proof.
  split.
  - intros [C1%linking_done C2 C3 C4 C5 C6 C7 C8 C9 C10]. split; [|done]. split; try done.
    + intros t Ht. by destruct (C4 t Ht) as (? & ? & _).
    + intros Hst h Hu. destruct (all_along_here _ _ _ Hu) as (b & Hb & _). apply (C6 Hst h b Hu Hb). by apply (usable_linked _ _ h b C1).
  - intros [[C1 C2 C3 C4 C5 C6 C7 C8 C9] Ha]. split; try done; [by apply linking_done| |eauto].
    intros t Ht. destruct (C4 t Ht) as [G Hr]. destruct (all_along_known _ _ _ (proj1 G)) as [b Hb]. split_and!; try done. exists b. split; [done|]. by apply (usable_linked _ _ t b C1 (proj1 G)).
Qed.

(** Entries with other counts but the same headers and flags *)
Definition recounted (bi bi' : gmap uint256 CBlockIndex) : Prop :=
  (forall h b, bi !! h = Some b -> exists b', bi' !! h = Some b' /\ same_header b b' /\ nStatus b' = nStatus b).

Lemma recounted_all P bi bi' h : (forall x b b', nStatus b' = nStatus b -> P x b -> P x b') -> recounted bi bi' -> all_along P bi h -> all_along P bi' h.
Proof.
  intros HP Hr. apply all_along_mono; [intros x b Hb; destruct (Hr x b Hb) as (b' & Hb' & S & _); eauto|].
  intros x b b' Hb Hb' Hx _. destruct (Hr x b Hb) as (c & Hc & _ & E). destruct (all_along_here _ _ _ Hx) as (d & Hd & Pd). simplify_eq. by apply (HP x b).
Qed.

Lemma recounted_usable bi bi' h : recounted bi bi' -> usable bi h -> usable bi' h.
Proof. apply recounted_all. intros _ b b' E. unfold block_ok, has_flag. by rewrite E. Qed.

Lemma recounted_good log bi bi' h : recounted bi bi' -> good log bi h -> good log bi' h.
Proof. intros Hr [H1 H2]. split; [by apply (recounted_usable bi)|]. by apply (recounted_all _ bi). Qed.

Lemma worse_insert bi x b a c : x <> a -> x <> c -> worse addr (<[x := b]> bi) a c = worse addr bi a c.
Proof. intros H1 H2. unfold worse. by rewrite !lookup_insert_ne. Qed.

(** One turn of the loop, the count being exact *)
Definition linked_state (s : CChainState) (x : uint256) (b : CBlockIndex) : CChainState :=
  let b := set_linked b (txs_before (block_index s) b + nTx b) (nBlockSequenceId s) in
  let s := put false s x b in
  let s := set_sequence s (i32 (nBlockSequenceId s + 1)) in
  let better := match tip s with None => true | Some t => negb (worse addr (block_index s) x t) end in
  let s := if (better && negb (has_flag b BLOCK_CONFLICT_CHAINLOCK))%bool then set_candidates s ({[x]} ∪ setBlockIndexCandidates s) else s in
  set_unlinked s (filter (fun e => e.1 <> x) (m_blocks_unlinked s)).

Lemma link_loop_step fuel s x queue b : linking (block_index s) (m_blocks_unlinked s) (x :: queue) -> index_txs (block_index s) < 2^32 -> block_index s !! x = Some b ->
  link_loop addr (S fuel) s (x :: queue) = link_loop addr fuel (linked_state s x b) (queue ++ map snd (filter (fun e => e.1 = x) (m_blocks_unlinked s))).
Proof.
  intros Hl Hsum Hb. cbn [link_loop]. rewrite Hb. cbn [deref mbind outcome_bind].
  destruct (lk_queue _ _ _ Hl x ltac:(set_solver)) as (c & Hc & _ & _ & Hp). replace c with b in Hp by congruence.
  assert (match pprev b with Some p => pb ← deref (block_index s !! p); Ret (nChainTx pb) | None => Ret 0 end = Ret (txs_before (block_index s) b)) as ->.
  { unfold txs_before. destruct (pprev b) as [p|] eqn:Ep; [|done]. destruct (pprev_height _ (proj1 (lk_index _ _ _ Hl)) x b p Hb Ep) as (pb & Hpb & _). cbn. by rewrite Hpb. }
  cbn [mbind outcome_bind]. destruct (count_bound _ _ _ Hl x b Hb Hp) as [H0 Hle]. destruct (lk_tx _ _ _ Hl x b Hb) as [H1 _].
  rewrite u32_id by (unfold is_u32; lia). f_equal.
  unfold linked_state. set (b1 := set_linked _ _ _). by destruct (_ && _)%bool.
Qed.

(** The marks are the same, no marked block got its data, and no data is lost. *)
Definition same_marks (bi bi' : gmap uint256 CBlockIndex) : Prop := forall h b b', bi !! h = Some b -> bi' !! h = Some b' ->
  flagged b' = flagged b /\ (flagged b = true -> has_flag b' BLOCK_HAVE_DATA = has_flag b BLOCK_HAVE_DATA) /\
  (has_flag b BLOCK_HAVE_DATA = true -> has_flag b' BLOCK_HAVE_DATA = true).

Lemma same_marks_trans a b c : extends a b -> same_marks a b -> same_marks b c -> same_marks a c.
Proof.
  intros He H1 H2 h x z Hx Hz. destruct (He h x Hx) as (y & Hy & _). destruct (H1 h x y Hx Hy) as (E1 & E2 & E5). destruct (H2 h y z Hy Hz) as (E3 & E4 & E6).
  split; [congruence|]. split; [|auto]. intros Hf. rewrite E4 by congruence. auto.
Qed.

Lemma same_marks_insert bi x b b' : bi !! x = Some b -> flagged b' = flagged b -> (flagged b = true -> has_flag b' BLOCK_HAVE_DATA = has_flag b BLOCK_HAVE_DATA) ->
  (has_flag b BLOCK_HAVE_DATA = true -> has_flag b' BLOCK_HAVE_DATA = true) -> same_marks bi (<[x := b']> bi).
Proof.
  intros Hb E1 E2 E3 h c c' Hc [[<- <-]|[_ Hc']]%lookup_insert_Some; [by replace c with b by congruence|by replace c' with c by congruence].
Qed.

Lemma same_marks_sound log bi bi' : extends bi bi' -> extends bi' bi -> same_marks bi bi' -> flags_sound log bi -> flags_sound log bi'.
Proof.
  intros X1 X2 Hm Hs h b' Hb' Hf. destruct (X2 h b' Hb') as (b & Hb & _). destruct (Hm h b b' Hb Hb') as [E _].
  destruct (Hs h b Hb ltac:(congruence)) as (q & qb & Ha & Hq & Hr). destruct (X1 q qb Hq) as (qb' & Hq' & _). destruct (Hm q qb qb' Hq Hq') as (E1 & E2 & _).
  exists q, qb'. split; [by apply (ext_is_ancestor bi)|]. split; [done|]. destruct Hr as [|[Hd Hqf]]; [by left|right]. split; [by rewrite E2|congruence].
Qed.

(** What linking leaves alone *)
Record relinked (s s' : CChainState) : Prop := {
  rl_extends : extends (block_index s) (block_index s');
  rl_back : extends (block_index s') (block_index s);
  rl_chain : m_chain s' = m_chain s;
  rl_best : bm_best_header (m_blockman (m_chainman s')) = bm_best_header (m_blockman (m_chainman s));
  rl_failed : m_failed_blocks (m_chainman s') = m_failed_blocks (m_chainman s);
  rl_kept : setBlockIndexCandidates s ⊆ setBlockIndexCandidates s';
  rl_marks : same_marks (block_index s) (block_index s');
  rl_log : connect_log s' = connect_log s;
}.

Lemma relinked_refl s : relinked s s.
Proof. split; try done; try apply extends_refl. intros h b b' Hb Hb'. by replace b' with b by congruence. Qed.
Lemma relinked_trans a b c : relinked a b -> relinked b c -> relinked a c.
Proof.
  intros [A1 A2 A3 A4 A5 A6 A7 A8] [B1 B2 B3 B4 B5 B6 B7 B8]. split; [| |congruence..|by transitivity (setBlockIndexCandidates b)|by apply (same_marks_trans _ (block_index b))|congruence].
  - by apply (extends_trans _ (block_index b)).
  - by apply (extends_trans _ (block_index b)).
Qed.

Lemma linked_state_fields s x b : let b' := set_linked b (txs_before (block_index s) b + nTx b) (nBlockSequenceId s) in let s' := linked_state s x b in
  block_index s' = <[x := b']> (block_index s) /\ m_chain s' = m_chain s /\ m_blocks_unlinked s' = filter (fun e => e.1 <> x) (m_blocks_unlinked s) /\
  bm_best_header (m_blockman (m_chainman s')) = bm_best_header (m_blockman (m_chainman s)) /\ m_failed_blocks (m_chainman s') = m_failed_blocks (m_chainman s) /\
  setBlockIndexCandidates s' =
    (if (match tip s with None => true | Some t => negb (worse addr (<[x := b']> (block_index s)) x t) end && negb (has_flag b BLOCK_CONFLICT_CHAINLOCK))%bool
     then {[x]} ∪ setBlockIndexCandidates s else setBlockIndexCandidates s) /\
  connect_log s' = connect_log s.
Proof. intros b' s'. unfold s', linked_state. fold b'. change (has_flag b' BLOCK_CONFLICT_CHAINLOCK) with (has_flag b BLOCK_CONFLICT_CHAINLOCK).
  change (tip (set_sequence _ _)) with (tip s). change (block_index (set_sequence _ _)) with (<[x := b']> (block_index s)).
  by destruct (_ && _)%bool.
Qed.

Lemma index_txs_insert bi x b b' : bi !! x = Some b -> nTx b' = nTx b -> index_txs (<[x := b']> bi) = index_txs bi.
Proof.
  intros Hb Ht. apply index_txs_same.
  - rewrite dom_insert_L. apply elem_of_dom_2 in Hb. set_solver.
  - intros h. unfold tx_at. destruct (decide (x = h)) as [<-|Hn]; [by rewrite lookup_insert_eq, Hb|by rewrite lookup_insert_ne].
Qed.

Lemma linked_state_receiving s x b r queue : receiving s r (x :: queue) -> block_index s !! x = Some b ->
  receiving (linked_state s x b) r (queue ++ map snd (filter (fun e => e.1 = x) (m_blocks_unlinked s))) /\ relinked s (linked_state s x b).
Proof.
  intros [C1 C2 C3 C4 C5 C6 C7 C8 C9 C10] Hb. destruct (link_extends (block_index s) x b Hb (nBlockSequenceId s)) as [X1 X2].
  pose proof (link_step _ _ x queue C1 b Hb (nBlockSequenceId s)) as Hstep. pose proof (link_now _ _ x queue C1 b Hb (nBlockSequenceId s)) as [Hnow _].
  destruct (link_head _ _ x queue C1 b Hb) as (_ & Hno & _).
  destruct (linked_state_fields s x b) as (F1 & F2 & F3 & F4 & F5 & F6 & F7). set (b' := set_linked _ _ _) in *. set (s' := linked_state s x b) in *.
  assert (recounted (block_index s) (<[x := b']> (block_index s))) as Hr.
  { intros h c Hc. destruct (decide (x = h)) as [<-|Hn]; [exists b'; rewrite lookup_insert_eq; replace c with b by congruence; by split_and!|].
    exists c. rewrite lookup_insert_ne by done. split_and!; try done. }
  assert (recounted (<[x := b']> (block_index s)) (block_index s)) as Hr'.
  { intros h c [[<- <-]|[_ Hc]]%lookup_insert_Some; [by exists b; split_and!|exists c; by split_and!]. }
  assert (forall c, c ∈ setBlockIndexCandidates s -> x <> c) as Hnc.
  { intros c Hc <-. destruct (C3 x Hc) as (y & Hy & Hy'). congruence. }
  assert (setBlockIndexCandidates s ⊆ setBlockIndexCandidates s') as Hsub by (rewrite F6; destruct (_ && _)%bool; set_solver).
  assert (tip s' = tip s) as Ht by (unfold tip; by rewrite F2).
  assert (index_wf (<[x := b']> (block_index s))) as Hwf by apply (lk_index _ _ _ Hstep).
  assert (forall h c, <[x := b']> (block_index s) !! h = Some c -> bu_wf (nChainWork c)) as Hworks by (intros h c Hc; apply (cw_work _ _ (proj2 Hwf h c Hc))).
  assert (forall t, tip s = Some t -> x <> t) as Hnt by (intros t Htip <-; destruct (C4 x Htip) as (_ & _ & y & Hy & Hy'); congruence).
  split; [|split; rewrite ?F1; try done; by apply (same_marks_insert _ x b)].
  split.
  - rewrite F1, F3. exact Hstep.
  - rewrite F1, F2. by apply (chain_wf_ext (block_index s)).
  - intros c Hc. rewrite F1. destruct (decide (x = c)) as [<-|Hn]; [exists b'; by rewrite lookup_insert_eq|]. rewrite lookup_insert_ne by done.
    apply C3. rewrite F6 in Hc. destruct (_ && _)%bool; set_solver.
  - intros t. rewrite Ht, F1, F7. intros Htip. destruct (C4 t Htip) as (G & Hr0 & y & Hy & Hyt). split; [by apply (recounted_good _ (block_index s))|]. split; [done|].
    exists y. by rewrite lookup_insert_ne by auto.
  - rewrite F7, F1. intros Hst r0 Hr0. destruct (C5 Hst r0 Hr0) as [Hc G]. split; [by apply Hsub|by apply (recounted_good _ (block_index s))].
  - rewrite F7. intros Hst h c Hu Hc Hd. rewrite F1 in Hu, Hc. rewrite F1. destruct (decide (x = h)) as [<-|Hn].
    + rewrite lookup_insert_eq in Hc. injection Hc as <-. destruct (all_along_here _ _ _ Hu) as (y & Hy & Hok). rewrite lookup_insert_eq in Hy. injection Hy as <-.
      unfold block_ok in Hok. change (has_flag b' BLOCK_CONFLICT_CHAINLOCK) with (has_flag b BLOCK_CONFLICT_CHAINLOCK) in Hok.
      destruct (has_flag b BLOCK_CONFLICT_CHAINLOCK); [by rewrite andb_false_r in Hok|]. cbn [negb] in F6. rewrite andb_true_r in F6.
      destruct (tip s) as [t|] eqn:Htip; [|left; rewrite F6; set_solver]. destruct (worse _ _ x t) eqn:Hw; [right|left; rewrite F6; set_solver].
      destruct (C4 t eq_refl) as (_ & [r0 ->] & y & Hy & _). exists r0. split; [done|]. destruct (C5 Hst r0 eq_refl) as [Hr0 _]. destruct (C3 r0 Hr0) as (z & Hz & _).
      destruct (not_worse addr _ Hworks r0 t) as [<-|Hw']; [| | |done|by apply (worse_trans addr _ Hworks x t r0)].
      * rewrite lookup_insert_ne by auto. eauto.
      * rewrite lookup_insert_ne by auto. eauto.
      * rewrite worse_insert by auto. by apply (C10 t r0).
    + rewrite lookup_insert_ne in Hc by done. destruct (C6 Hst h c) as [Hin|(r0 & Hr0 & Hw)]; [by apply (recounted_usable (<[x := b']> (block_index s)))|done|done|left; by apply Hsub|].
      right. exists r0. split; [done|]. rewrite worse_insert; [done|done|]. apply Hnc. by apply (C5 Hst).
  - intros h. rewrite F4, F1. intros Hh. by apply (extends_Some (block_index s)), C7.
  - rewrite F5, F1. eapply List.Forall_impl; [|exact C8]. intros f (y & Hy & Hf). destruct (Hr f y Hy) as (y' & Hy' & _ & E). exists y'. by rewrite E.
  - rewrite F1. by apply (work_grows_back _ (block_index s)).
  - intros t c. rewrite Ht, F1. intros Htip Hc. destruct (decide (x = c)) as [<-|Hn].
    + rewrite F6, Htip in Hc. destruct (worse _ _ x t); [|done]. cbn [negb andb] in Hc. by destruct (Hnc x Hc).
    + rewrite worse_insert by auto. apply (C10 t c Htip). rewrite F6 in Hc. destruct (_ && _)%bool; set_solver.
Qed.

Lemma link_loop_spec fuel : forall s r queue, receiving s r queue -> index_txs (block_index s) < 2^32 -> (length queue + length (m_blocks_unlinked s) <= fuel)%nat ->
  exists s', link_loop addr fuel s queue = Ret s' /\ receiving s' r [] /\ relinked s s' /\ index_txs (block_index s') = index_txs (block_index s).
Proof.
  induction fuel as [|fuel IH]; intros s r [|x queue] Hr Hsum Hf; [exists s; split_and!; try done; apply relinked_refl|cbn in Hf; lia|exists s; split_and!; try done; apply relinked_refl|].
  destruct (lk_queue _ _ _ (rc_links _ _ _ Hr) x ltac:(set_solver)) as (b & Hb & _). rewrite (link_loop_step fuel s x queue b (rc_links _ _ _ Hr) Hsum Hb).
  destruct (linked_state_receiving s x b r queue Hr Hb) as [Hr' Hrl]. destruct (linked_state_fields s x b) as (F1 & _ & F3 & _).
  assert (index_txs (block_index (linked_state s x b)) = index_txs (block_index s)) as Ei by (rewrite F1; by apply (index_txs_insert _ x b)).
  destruct (IH _ _ _ Hr') as (s' & -> & H1 & H2 & H3); [lia| |exists s'; split_and!; try done; [by apply (relinked_trans s (linked_state s x b))|congruence]].
  rewrite F3, length_app, length_map. cbn [length] in Hf.
  assert (forall l : list (uint256 * uint256), length (filter (fun e => e.1 = x) l) + length (filter (fun e => e.1 <> x) l) = length l)%nat as Hlen.
  { induction l as [|e l IHl]; [done|]. rewrite !filter_cons. destruct (decide (e.1 = x)), (decide (e.1 <> x)); try done; cbn [length]; lia. }
  specialize (Hlen (m_blocks_unlinked s)). lia.
Qed.

(** ** ReceivedBlockTransactions *)

Section received.

Context (bi : gmap uint256 CBlockIndex) (u : list (uint256 * uint256)) (Hl : links_inv bi u).
Context (x : uint256) (b : CBlockIndex) (Hb : bi !! x = Some b) (Hnodata : has_flag b BLOCK_HAVE_DATA = false).
Context (file datapos ntx st : Z) (Hntx : 0 < ntx).
Context (Hst : exists c, RaiseValidity (Z.lor (nStatus b) BLOCK_HAVE_DATA) BLOCK_VALID_TRANSACTIONS = Ret (st, c)).

#[local] Notation b1 := (set_received b file datapos ntx st).
#[local] Notation bi1 := (<[x := b1]> bi).

Lemma received_status : Z.land (nStatus b) BLOCK_VALID_MASK <= Z.land st BLOCK_VALID_MASK /\ has_flag b1 BLOCK_HAVE_DATA = true /\
  has_flag b1 BLOCK_FAILED_MASK = has_flag b BLOCK_FAILED_MASK /\ has_flag b1 BLOCK_FAILED_VALID = has_flag b BLOCK_FAILED_VALID /\
  has_flag b1 BLOCK_CONFLICT_CHAINLOCK = has_flag b BLOCK_CONFLICT_CHAINLOCK.
Proof.
  destruct Hst as [c E]. destruct (RaiseValidity_spec (Z.lor (nStatus b) BLOCK_HAVE_DATA) BLOCK_VALID_TRANSACTIONS eq_refl eq_refl) as (st' & c' & E' & Hle & Hf).
  rewrite E in E'. injection E' as <- <-. unfold has_flag. cbn [nStatus set_received]. rewrite (Hf BLOCK_HAVE_DATA), (Hf BLOCK_FAILED_MASK), (Hf BLOCK_FAILED_VALID), (Hf BLOCK_CONFLICT_CHAINLOCK) by done.
  rewrite Z.land_lor_distr_l in Hle. rewrite !Z.land_lor_distr_l.
  change (Z.land BLOCK_HAVE_DATA BLOCK_VALID_MASK) with 0 in Hle. change (Z.land BLOCK_HAVE_DATA BLOCK_FAILED_MASK) with 0. change (Z.land BLOCK_HAVE_DATA BLOCK_FAILED_VALID) with 0.
  change (Z.land BLOCK_HAVE_DATA BLOCK_CONFLICT_CHAINLOCK) with 0. rewrite Z.lor_0_r in Hle. rewrite !Z.lor_0_r. split; [done|]. split; [|done].
  destruct (Z.eqb_spec (Z.lor (Z.land (nStatus b) BLOCK_HAVE_DATA) (Z.land BLOCK_HAVE_DATA BLOCK_HAVE_DATA)) 0) as [E0|]; [|done]. by apply Z.lor_eq_0_iff in E0 as [_ ?].
Qed.

Lemma received_fresh : HaveTxsDownloaded b = false /\ HaveTxsDownloaded b1 = false.
Proof. split; [|done]. destruct (HaveTxsDownloaded b) eqn:E; [|done]. destruct (li_linked _ _ Hl x b Hb E) as (Hd & _). congruence. Qed.

Lemma received_extends : extends bi bi1 /\ extends bi1 bi.
Proof.
  split; intros h c Hc.
  - destruct (decide (x = h)) as [<-|Hn]; [exists b1; rewrite lookup_insert_eq; split; [done|]; replace c with b by congruence; by split|].
    exists c. rewrite lookup_insert_ne by done. split; [done|apply same_header_refl].
  - apply lookup_insert_Some in Hc as [[<- <-]|[_ Hc]]; [exists b; split; [done|by split]|exists c; split; [done|apply same_header_refl]].
Qed.

(** The parent of a linked block is not the new one. *)
Lemma received_before c : (forall p pb, pprev c = Some p -> bi !! p = Some pb -> HaveTxsDownloaded pb = true) -> txs_before bi1 c = txs_before bi c.
Proof.
  intros Hp. unfold txs_before. destruct (pprev c) as [p|] eqn:Ep; [|done]. cbn [mbind option_bind]. destruct (decide (x = p)) as [<-|Hn]; [|by rewrite lookup_insert_ne].
  destruct received_fresh as [Hno _]. by rewrite (Hp x b eq_refl Hb) in Hno.
Qed.

(** The links once the data is there: the new block goes into the queue or waits. *)
Lemma received_linking u1 queue : (forall e, e ∈ u -> e ∈ u1) ->
  (forall p h, (p, h) ∈ u1 -> (p, h) ∈ u \/ (h = x /\ pprev b = Some p /\ exists pb, bi !! p = Some pb /\ HaveTxsDownloaded pb = false)) -> NoDup u1 ->
  (queue = [x] /\ (forall p pb, pprev b = Some p -> bi !! p = Some pb -> HaveTxsDownloaded pb = true)) \/
  (queue = [] /\ exists p pb, pprev b = Some p /\ bi !! p = Some pb /\ (has_flag pb BLOCK_FAILED_MASK = true \/ (HaveTxsDownloaded pb = false /\ (p, x) ∈ u1))) ->
  linking bi1 u1 queue.
Proof.
  intros Hin Hout Hnd Hq. destruct Hl as [L1 L2 L3 L4 L5 L6 L7]. destruct received_status as (S1 & S2 & S3 & _). destruct received_fresh as [Hno Hno1].
  destruct received_extends as [X1 X2].
  assert (forall p pb, pprev b = Some p -> bi !! p = Some pb -> x <> p) as Hself.
  { intros p pb Hp Hpb <-. destruct (pprev_height bi (proj1 L1) x b x Hb Hp) as (c & Hc & Hh). replace c with b in Hh by congruence. lia. }
  assert (forall p pb, bi !! p = Some pb -> exists pb1, bi1 !! p = Some pb1 /\ HaveTxsDownloaded pb1 = HaveTxsDownloaded pb /\ has_flag pb1 BLOCK_FAILED_MASK = has_flag pb BLOCK_FAILED_MASK) as Hsame.
  { intros p pb Hpb. destruct (decide (x = p)) as [<-|Hn]; [|exists pb; by rewrite lookup_insert_ne]. exists b1. rewrite lookup_insert_eq. replace pb with b by congruence. by rewrite Hno. }
  split; try done.
  - by apply (index_wf_same bi).
  - intros h c [[<- <-]|[_ Hc]]%lookup_insert_Some; [|by apply (L2 h)]. specialize (L2 x b Hb). cbn [nStatus set_received]. lia.
  - intros h c [[<- <-]|[_ Hc]]%lookup_insert_Some; [|by apply (L3 h)]. cbn [nTx nChainTx set_received]. split; [lia|]. split; [lia|]. split; [lia|done].
  - intros h c [[<- <-]|[_ Hc]]%lookup_insert_Some Ht; [congruence|]. destruct (L4 h c Hc Ht) as (D & C & P). split; [done|]. split; [by rewrite received_before|].
    intros p pb Hp Hpb. apply lookup_insert_Some in Hpb as [[<- <-]|[_ Hpb]]; [|by apply (P p)]. by rewrite (P x b Hp Hb) in Hno.
  - intros h c [[<- <-]|[_ Hc]]%lookup_insert_Some Hd Ht.
    + destruct Hq as [[-> _]|(-> & p & pb & Hp & Hpb & Hw)]; [left; set_solver|right]. destruct (Hsame p pb Hpb) as (pb1 & Hpb1 & E1 & E2). exists p, pb1. by rewrite E1, E2.
    + right. destruct (L5 h c Hc Hd Ht) as (p & pb & Hp & Hpb & Hw). destruct (Hsame p pb Hpb) as (pb1 & Hpb1 & E1 & E2). exists p, pb1. rewrite E1, E2. split_and!; try done.
      destruct Hw as [|[? ?]]; [by left|right; auto].
  - intros p h Hu. destruct (Hout p h Hu) as [Hu'|(-> & Hp & pb & Hpb & Hpl)].
    + destruct (L6 p h Hu') as (c & pb & Hc & Hpc & Hdc & Htc & Hpb & Hpl). assert (x <> h) by (intros <-; congruence). destruct (Hsame p pb Hpb) as (pb1 & Hpb1 & E1 & _).
      exists c, pb1. rewrite lookup_insert_ne, E1 by done. done.
    + exists b1, pb. rewrite lookup_insert_eq. rewrite lookup_insert_ne by (by apply (Hself p pb)). done.
  - intros q Hqq. destruct Hq as [[-> Hpar]|[-> _]]; [|by apply not_elem_of_nil in Hqq]. assert (q = x) as -> by set_solver. exists b1. rewrite lookup_insert_eq. split_and!; try done.
    intros p pb Hp Hpb. cbn in Hp. destruct (pprev_height bi (proj1 L1) x b p Hb Hp) as (c & Hc & _). rewrite lookup_insert_ne in Hpb by (by apply (Hself p c)). by apply (Hpar p).
  - destruct Hq as [[-> _]|[-> _]]; [apply NoDup_singleton|constructor].
Qed.

Lemma received_txs : index_txs bi1 = index_txs bi + ntx.
Proof.
  pose proof (elem_of_dom_2 _ _ _ Hb) as Hx. assert (dom bi1 = dom bi) as Hd by (rewrite dom_insert_L; set_solver). unfold index_txs. rewrite Hd.
  assert (elements (dom bi) ≡ₚ x :: elements (dom bi ∖ {[x]})) as Hp.
  { rewrite <- elements_union_singleton by set_solver. f_equiv. apply union_difference_singleton_L in Hx. by rewrite <- Hx. }
  rewrite !(sum_of_perm _ _ _ Hp), !sum_of_cons. destruct (li_tx _ _ Hl x b Hb) as (_ & _ & Hiff).
  assert (nTx b = 0) as H0 by (destruct (Z.eq_dec (nTx b) 0) as [|Hn]; [done|]; apply Hiff in Hn; congruence).
  unfold tx_at at 1 3. rewrite lookup_insert_eq, Hb, H0. cbn [nTx set_received].
  assert (forall l, x ∉ l -> sum_of (tx_at bi1) l = sum_of (tx_at bi) l) as Hs.
  { induction l as [|y l IH]; intros Hn; [done|]. rewrite !sum_of_cons, IH by set_solver. f_equal. unfold tx_at. by rewrite lookup_insert_ne by set_solver. }
  rewrite Hs by (rewrite elem_of_elements; set_solver). lia.
Qed.

End received.

(** The state with the new data, before anything is linked *)
Lemma received_receiving s r x b file datapos ntx st u1 queue : chain_inv addr s r -> above_tip addr s -> block_index s !! x = Some b -> has_flag b BLOCK_HAVE_DATA = false -> flagged b = false ->
  0 < ntx -> (exists c, RaiseValidity (Z.lor (nStatus b) BLOCK_HAVE_DATA) BLOCK_VALID_TRANSACTIONS = Ret (st, c)) ->
  let s1 := set_unlinked (put true s x (set_received b file datapos ntx st)) u1 in
  linking (block_index s1) u1 queue -> receiving s1 r queue /\ relinked s s1.
Proof.
  intros Hi Hab Hb Hd Hunf Hn Hst s1 Hl. pose proof (ci_links _ _ _ Hi) as Hl0. destruct (received_extends (block_index s) x b Hb file datapos ntx st) as [X1 X2].
  destruct (received_fresh (block_index s) (m_blocks_unlinked s) Hl0 x b Hb Hd file datapos ntx st) as [Hno Hno1].
  destruct (received_status b file datapos ntx st Hst) as (_ & _ & Hfm & Hfv & Hfc).
  set (b1 := set_received b file datapos ntx st) in *. change (block_index s1) with (<[x := b1]> (block_index s)) in *.
  assert (forall P h, (P x b -> False) -> all_along P (block_index s) h -> all_along P (<[x := b1]> (block_index s)) h) as Hfwd.
  { intros P h Hx. apply all_along_mono; [done|]. intros y c c' Hc Hc' Hy _. destruct (all_along_here _ _ _ Hy) as (z & Hz & Pz).
    apply lookup_insert_Some in Hc' as [[<- _]|[_ Hc']]; [destruct Hx; congruence|congruence]. }
  assert (forall h, usable (block_index s) h -> usable (<[x := b1]> (block_index s)) h) as Hus.
  { intros h. apply Hfwd. unfold block_ok. by rewrite Hd. }
  assert (forall h, good (connect_log s) (block_index s) h -> good (connect_log s) (<[x := b1]> (block_index s)) h) as Hgood.
  { intros h [G1 G2]. split; [auto|]. revert G2. apply all_along_mono; [done|]. intros y c c' _ _ Hy _. by destruct (all_along_here _ _ _ Hy) as (? & _ & ?). }
  assert (forall h c, usable (<[x := b1]> (block_index s)) h -> block_index s !! h = Some c -> HaveTxsDownloaded c = true -> usable (block_index s) h) as Hback.
  { intros h c Hu Hc Ht. revert Hu. apply all_along_mono; [done|]. intros y d' d Hd' Hdy Hy Ha. destruct (all_along_here _ _ _ Hy) as (z & Hz & Hok).
    assert (x <> y) as Hxy.
    { intros <-. assert (HaveTxsDownloaded b = true); [|congruence]. apply (linked_ancestor _ _ h c x b Hl0 Hc Ht); [|done].
      destruct Ha as [n Hn']. exists n. by rewrite <- (ext_walk _ _ (proj1 (li_index _ _ Hl0)) X1 n h c Hc). }
    rewrite lookup_insert_ne in Hz by done. congruence. }
  destruct Hi as [C1 C2 C3 C4 C5 C6 C7 C8 C9]. split; [|split; try done; apply (same_marks_insert _ x b); [done|unfold flagged; by rewrite Hfm, Hfc|congruence|congruence]].
  assert (forall t, tip s = Some t -> exists y, block_index s !! t = Some y /\ HaveTxsDownloaded y = true) as Htl.
  { intros t Ht. destruct (C4 t Ht) as [G _]. destruct (all_along_known _ _ _ (proj1 G)) as [y Hy]. exists y. split; [done|]. by apply (usable_linked _ _ t y C1 (proj1 G)). }
  assert (forall y c, block_index s !! c = Some y -> HaveTxsDownloaded y = true -> x <> c) as Hne by (intros y c Hy Hyt <-; congruence).
  split; try done.
  - by apply (chain_wf_ext (block_index s)).
  - intros c Hc. change (c ∈ setBlockIndexCandidates s) in Hc. change (block_index s1) with (<[x := b1]> (block_index s)). destruct (C3 c Hc) as (y & Hy & Ht).
    exists y. rewrite lookup_insert_ne by (intros <-; congruence). done.
  - intros t Ht. change (tip s = Some t) in Ht. destruct (C4 t Ht) as [G Hr]. split; [by apply Hgood|]. split; [done|]. destruct (Htl t Ht) as (y & Hy & Hyt).
    exists y. change (block_index s1) with (<[x := b1]> (block_index s)). by rewrite lookup_insert_ne by eauto.
  - intros Hst1 r0 Hr. destruct (C5 Hst1 r0 Hr). split; [done|]. by apply Hgood.
  - intros Hst1 h c Hu Hc Ht. change (block_index s1) with (<[x := b1]> (block_index s)) in *. apply lookup_insert_Some in Hc as [[<- <-]|[Hnh Hc]]; [congruence|].
    destruct (C6 Hst1 h (Hback h c Hu Hc Ht)) as [|(r0 & Hr0 & Hw)]; [by left|right]. exists r0. split; [done|]. rewrite worse_insert; [done|done|].
    destruct (C3 r0 (proj1 (C5 Hst1 r0 Hr0))) as (y & Hy & Hyt). eauto.
  - intros h Hh. by apply (extends_Some (block_index s)), C7.
  - eapply List.Forall_impl; [|exact C8]. intros f (y & Hy & Hf). change (block_index s1) with (<[x := b1]> (block_index s)). destruct (decide (x = f)) as [<-|Hnf].
    + exists b1. rewrite lookup_insert_eq. split; [done|]. replace y with b in Hf by congruence. unfold has_flag in Hfv. intros E. rewrite E in Hfv.
      by rewrite (proj2 (Z.eqb_neq _ _) Hf) in Hfv.
    + exists y. by rewrite lookup_insert_ne.
  - by apply (work_grows_back _ (block_index s)).
  - intros t c Ht Hc. change (tip s = Some t) in Ht. change (c ∈ setBlockIndexCandidates s) in Hc. change (block_index s1) with (<[x := b1]> (block_index s)).
    destruct (Htl t Ht) as (y & Hy & Hyt). destruct (C3 c Hc) as (z & Hz & Hzt). rewrite worse_insert by eauto. by apply (Hab t c).
Qed.

(** [ReceivedBlockTransactions] keeps the invariant and never fails an assertion. *)
Lemma ReceivedBlockTransactions_spec s r x b ntx file datapos : chain_inv addr s r -> above_tip addr s -> block_index s !! x = Some b -> has_flag b BLOCK_HAVE_DATA = false -> flagged b = false ->
  (0 < ntx)%nat -> index_txs (block_index s) + Z.of_nat ntx < 2^32 ->
  exists s', ReceivedBlockTransactions addr s ntx x file datapos = Ret s' /\ chain_inv addr s' r /\ above_tip addr s' /\ relinked s s' /\
    index_txs (block_index s') = index_txs (block_index s) + Z.of_nat ntx.
Proof.
  intros Hi Hab Hb Hd Hunf Hn Hsum. pose proof (ci_links _ _ _ Hi) as Hl. pose proof (proj1 (li_index _ _ Hl)) as Hwf. unfold ReceivedBlockTransactions. rewrite Hb. cbn [deref mbind outcome_bind].
  destruct (RaiseValidity_spec (Z.lor (nStatus b) BLOCK_HAVE_DATA) BLOCK_VALID_TRANSACTIONS eq_refl eq_refl) as (st & c & Hst & _). rewrite Hst. cbn [mbind outcome_bind fst].
  assert (exists c, RaiseValidity (Z.lor (nStatus b) BLOCK_HAVE_DATA) BLOCK_VALID_TRANSACTIONS = Ret (st, c)) as Hst' by eauto.
  assert (0 <= index_txs (block_index s)) as H0.
  { apply sum_of_nonneg, Forall_forall. intros h _. apply (tx_at_nonneg _ (m_blocks_unlinked s) []). by apply linking_done. }
  rewrite u32_id by (unfold is_u32; lia). set (b1 := set_received b file datapos (Z.of_nat ntx) st). set (s1 := put true s x b1).
  assert (0 < Z.of_nat ntx) as Hn' by lia.
  pose proof (received_txs (block_index s) _ Hl x b Hb Hd file datapos (Z.of_nat ntx) st Hn' Hst') as Etx. fold b1 in Etx.
  pose proof (received_linking (block_index s) _ Hl x b Hb Hd file datapos (Z.of_nat ntx) st Hn' Hst') as Hlink.
  assert (set_unlinked s1 (m_blocks_unlinked s) = s1) as Es1 by done.
  assert ((forall p pb, pprev b = Some p -> block_index s !! p = Some pb -> HaveTxsDownloaded pb = true) ->
    exists s', link_loop addr (S (length (m_blocks_unlinked s1))) s1 [x] = Ret s' /\ chain_inv addr s' r /\ above_tip addr s' /\ relinked s s' /\
      index_txs (block_index s') = index_txs (block_index s) + Z.of_nat ntx) as Hgo.
  { intros Hpar. destruct (received_receiving s r x b file datapos (Z.of_nat ntx) st (m_blocks_unlinked s) [x] Hi Hab Hb Hd Hunf Hn' Hst') as [Hr Hrl].
    { apply Hlink; [done|by left|apply Hl|by left]. }
    fold b1 s1 in Hr, Hrl. rewrite Es1 in Hr, Hrl.
    destruct (link_loop_spec (S (length (m_blocks_unlinked s1))) s1 r [x] Hr) as (s' & -> & [H1 H1']%receiving_done & H2 & H3); [change (block_index s1) with (<[x := b1]> (block_index s)); rewrite Etx; lia|cbn; lia|].
    exists s'. split_and!; try done; [by apply (relinked_trans s s1)|]. rewrite H3. exact Etx. }
  change (pprev b1) with (pprev b). destruct (pprev b) as [p|] eqn:Hp; [|by apply Hgo].
  destruct (pprev_height _ Hwf x b p Hb Hp) as (pb & Hpb & Hh). assert (x <> p) as Hxp by (intros <-; replace pb with b in Hh by congruence; lia).
  assert (block_index s1 !! p = Some pb) as -> by (change (block_index s1) with (<[x := b1]> (block_index s)); by rewrite lookup_insert_ne). cbn [deref mbind outcome_bind].
  destruct (HaveTxsDownloaded pb) eqn:Hpl; [apply Hgo; intros q qb [= <-] Hqb; congruence|].
  assert (IsValid (nStatus pb) BLOCK_VALID_TREE = Ret (negb (has_flag pb BLOCK_FAILED_MASK))) as ->.
  { unfold IsValid, has_flag. change (Z.ldiff BLOCK_VALID_TREE BLOCK_VALID_MASK =? 0) with true. cbn [negb]. destruct (_ =? 0); [|done]. cbn [negb].
    pose proof (li_level _ _ Hl p pb Hpb) as Hlv. by rewrite Z.geb_leb, (proj2 (Z.leb_le _ _) Hlv). }
  cbn [mbind outcome_bind]. set (u1 := if negb (has_flag pb BLOCK_FAILED_MASK) then m_blocks_unlinked s ++ [(p, x)] else m_blocks_unlinked s).
  assert (linking (<[x := b1]> (block_index s)) u1 []) as Hl1.
  { assert ((p, x) ∉ m_blocks_unlinked s) as Hnew by (intros Hu; destruct (li_unlinked _ _ Hl p x Hu) as (y & _ & Hy & _ & Hyd & _); congruence).
    apply Hlink; unfold u1.
    - intros e He. destruct (negb _); set_solver.
    - intros q h Hq. destruct (negb _); [|by left]. apply elem_of_app in Hq as [Hq|Hq]; [by left|right]. assert ((q, h) = (p, x)) as [= -> ->] by set_solver. eauto.
    - destruct (negb _); [|apply Hl]. apply NoDup_app. split; [apply Hl|]. split; [intros e He Hx; by assert (e = (p, x)) as -> by set_solver|apply NoDup_singleton].
    - right. split; [done|]. exists p, pb. split_and!; try done. destruct (has_flag pb BLOCK_FAILED_MASK); [by left|right]. cbn [negb]. set_solver. }
  destruct (received_receiving s r x b file datapos (Z.of_nat ntx) st u1 [] Hi Hab Hb Hd Hunf Hn' Hst' Hl1) as [[Hr Hr']%receiving_done Hrl]. fold b1 s1 in Hr, Hr', Hrl.
  exists (set_unlinked s1 u1). split; [unfold u1; by destruct (negb _)|]. split; [done|]. split; [done|]. split; [done|exact Etx].
Qed.

End receive.
