(* ===== verification/BlockCheck.v ===== *)
(** * BlockCheck: the rules a block must satisfy
      (src/src/validation.cpp, src/src/primitives/block.h,
       src/src/consensus/tx_verify.cpp, src/src/node/miner.cpp)

    [CheckBlock] needs the block alone, [ContextualCheckBlock] also its place in the
    chain. What they accept is stated rule by rule; no subscript is out of bounds
    on any block, and the count of signature operations in 32 bits does not wrap. *)

From Stdlib Require Import ZArith Lia.
From stdpp Require Import base list numbers option gmap.
From S2P Require Import Prelude Arith256 Uint256 Serialize Transaction Script Interpreter Standard Merkle Chain Params TxCheck Pow Kernel BlockStorage HeaderCheck.

(** [CBlock]: the header, the transactions, the signature and two memory-only flags *)
Record CBlock : Type := mkBlock {
  blk_header : CBlockHeader;
  vtx : list CTransaction;
  vchBlockSig : list Z;
  fChecked : bool;
  m_checked_merkle_root : bool;
}.

(** [CBlock::IsProofOfStake] *)
Definition block_IsProofOfStake (vtx : list CTransaction) : bool :=
  match vtx with _ :: tx :: _ => IsCoinStake tx | _ => false end.

(** The serialization of a header and of a block *)
Definition header_Serialize (h : CBlockHeader) : list Z :=
  ser_writedata32 (u32 (hdr_nVersion h)) ++ hashPrevBlock h ++ hdr_hashMerkleRoot h ++ ser_writedata32 (hdr_nTime h) ++
  ser_writedata32 (hdr_nBits h) ++ ser_writedata32 (hdr_nNonce h).
Definition block_Serialize (b : CBlock) : list Z :=
  header_Serialize (blk_header b) ++ WriteCompactSize (size (vtx b)) ++ concat (map tx_Serialize (vtx b)) ++
  (if block_IsProofOfStake (vtx b) then ser_bytes (vchBlockSig b) else []).
(** [GetSerializeSize] *)
Definition block_size (b : CBlock) : Z := size (block_Serialize b).

(** [MaxBlockSize(bool)], [MaxBlockSigOps(bool)] *)
Definition MaxBlockSize_for (fDIP0001Active : bool) : Z := if fDIP0001Active then MaxBlockSize else MAX_LEGACY_BLOCK_SIZE.
Definition MaxBlockSigOps (fDIP0001Active : bool) : Z := MaxBlockSize_for fDIP0001Active / 50.

Definition MAX_STANDARD_TX_SIZE : Z := 100000.
Definition TRANSACTION_PROVIDER_REGISTER : Z := 1.
Definition TRANSACTION_PROVIDER_UPDATE_SERVICE : Z := 2.
Definition TRANSACTION_PROVIDER_UPDATE_REGISTRAR : Z := 3.
Definition TRANSACTION_PROVIDER_UPDATE_REVOKE : Z := 4.
Definition TRANSACTION_ASSET_LOCK : Z := 8.

(** The reject reasons of the block rules *)
Inductive BlockReason : Type :=
| header_reason (r : HeaderReason)
| tx_reason (e : TxError)
| bad_blk_sign
| bad_txnmrklroot
| bad_txns_duplicate
| bad_blk_length
| bad_cb_missing
| bad_cb_multiple
| bad_cs_missing
| bad_cb_notempty
| bad_blk_sigops
| bad_txns_nonfinal
| bad_txns_type
| bad_txns_cb_type
| bad_coinstake_time
| bad_cb_height
| bad_cb_type.

Definition block_verdict : Type := verdict (BlockValidationResult * BlockReason).

(** ** Signature operations *)

Fixpoint sigops_loop (scripts : list CScript) (nSigOps : Z) : outcome Z :=
  match scripts with
  | [] => Ret nSigOps
  | s :: scripts => n ← GetSigOpCount s false; sigops_loop scripts (u32 (nSigOps + n))
  end.

(** [GetLegacySigOpCount] *)
Definition GetLegacySigOpCount (tx : CTransaction) : outcome Z :=
  nSigOps ← sigops_loop (map scriptSig (vin tx)) 0;
  sigops_loop (map scriptPubKey (vout tx)) nSigOps.

(** The sum over the transactions of a block *)
Fixpoint block_sigops (vtx : list CTransaction) (nSigOps : Z) : outcome Z :=
  match vtx with
  | [] => Ret nSigOps
  | tx :: vtx => n ← GetLegacySigOpCount tx; block_sigops vtx (u32 (nSigOps + n))
  end.

(** The loop of the transaction checks: the first failure *)
Fixpoint check_transactions (vtx : list CTransaction) : option TxError :=
  match vtx with
  | [] => None
  | tx :: vtx => match CheckTransaction tx with Reject e => Some e | Accept => check_transactions vtx end
  end.

Section check.

(** The hash of a header, the implementations of the batched hash, the settings *)
Context `{Crypto} (GetHash : CBlockHeader -> uint256) (ways : d64_ways) (rules : ChainRules).

(** [CheckBlockSignature] *)
Definition CheckBlockSignature (block : CBlock) : outcome bool :=
  match vtx block with
  | _ :: coinstake :: _ =>
      if size (vout coinstake) <? 2 then Ret false
      else
        txout ← deref (vout coinstake !! 1%nat);
        let '(whichType, vSolutions) := Solver (scriptPubKey txout) in
        match vSolutions with
        | [] => Ret false
        | vchPubKey :: _ =>
            match whichType with
            | PUBKEY =>
                let key := CPubKey_Set vchPubKey in
                Ret (if bool_decide (vchBlockSig block = []) then false else CPubKey_Verify key (GetHash (blk_header block)) (vchBlockSig block))
            | PUBKEYHASH =>
                let pubkey := CPubKey_Set vchPubKey in
                Ret (if negb (CPubKey_IsValid pubkey) then false
                     else if bool_decide (vchBlockSig block = []) then false
                     else CPubKey_Verify pubkey (GetHash (blk_header block)) (vchBlockSig block))
            | _ => Ret false
            end
        end
  | _ => Ret false
  end.

(** [SignBlockWithKey]; [Sign] is the signature of the key over a hash. *)
Definition SignBlockWithKey (Sign : uint256 -> option (list Z)) (block : CBlock) : outcome (bool * CBlock) :=
  coinstake ← deref (vtx block !! 1%nat);
  txout ← deref (vout coinstake !! 1%nat);
  match (Solver (scriptPubKey txout)).1 with
  | PUBKEYHASH | PUBKEY =>
      match Sign (GetHash (blk_header block)) with
      | None => Ret (false, block)
      | Some sig => Ret (true, mkBlock (blk_header block) (vtx block) sig (fChecked block) (m_checked_merkle_root block))
      end
  | _ => Ret (false, block)
  end.

(** [CheckMerkleRoot] *)
Definition CheckMerkleRoot (block : CBlock) : block_verdict * CBlock :=
  if m_checked_merkle_root block then (Accept, block)
  else
    let '(merkle_root, mutated) := BlockMerkleRoot ways (vtx block) in
    if negb (bool_decide (hdr_hashMerkleRoot (blk_header block) = merkle_root)) then (invalid BLOCK_MUTATED bad_txnmrklroot, block)
    else if mutated then (invalid BLOCK_MUTATED bad_txns_duplicate, block)
    else (Accept, mkBlock (blk_header block) (vtx block) (vchBlockSig block) (fChecked block) true).

(** The test that the coinbase of a proof-of-stake block pays nothing; [IsCoinBase]
    has established that there is an output to read. *)
Definition coinbase_notempty (vtx : list CTransaction) (coinbase : CTransaction) : outcome bool :=
  if block_IsProofOfStake vtx then out ← deref (vout coinbase !! 0%nat); Ret (negb (txout_IsEmpty out)) else Ret false.

(** [CheckBlock] after the header, the signature and the Merkle root *)
Definition check_contents (block : CBlock) (setChecked : bool) : outcome (block_verdict * CBlock) :=
  let reject (r : BlockReason) : outcome (block_verdict * CBlock) := Ret (invalid BLOCK_CONSENSUS r, block) in
  match vtx block with
  | [] => reject bad_blk_length
  | coinbase :: others =>
      if ((size (vtx block) >? MaxBlockSize_for true) || (block_size block >? MaxBlockSize_for true))%bool then reject bad_blk_length
      else if negb (IsCoinBase coinbase) then reject bad_cb_missing
      else if existsb IsCoinBase others then reject bad_cb_multiple
      else if existsb IsCoinStake (drop 1 others) then reject bad_cs_missing
      else
        notempty ← coinbase_notempty (vtx block) coinbase;
        if (notempty : bool) then reject bad_cb_notempty
        else
          match check_transactions (vtx block) with
          | Some e => reject (tx_reason e)
          | None =>
              nSigOps ← block_sigops (vtx block) 0;
              if nSigOps >? MaxBlockSigOps true then reject bad_blk_sigops
              else Ret (Accept, if setChecked then mkBlock (blk_header block) (vtx block) (vchBlockSig block) true (m_checked_merkle_root block) else block)
          end
  end.

(** [CheckBlock]: the verdict and the block with its flags *)
Definition CheckBlock (block : CBlock) (fCheckPOW fCheckMerkleRoot fCheckSignature : bool) : outcome (block_verdict * CBlock) :=
  if fChecked block then Ret (Accept, block)
  else
    match CheckBlockHeader rules (blk_header block) (GetHash (blk_header block)) (fCheckPOW && negb (block_IsProofOfStake (vtx block))) with
    | Reject (result, r) => Ret (invalid result (header_reason r), block)
    | Accept =>
        signed ← (if (fCheckMerkleRoot && fCheckSignature && block_IsProofOfStake (vtx block))%bool then CheckBlockSignature block else Ret true);
        if negb (signed : bool) then Ret (invalid BLOCK_CONSENSUS bad_blk_sign, block)
        else
          let '(v, block) := if fCheckMerkleRoot then CheckMerkleRoot block else (Accept, block) in
          match v with
          | Reject e => Ret (Reject e, block)
          | Accept => check_contents block (fCheckPOW && fCheckMerkleRoot)
          end
    end.

(** [IsBlockMutated] *)
Definition IsBlockMutated (block : CBlock) : bool :=
  match (CheckMerkleRoot block).1 with
  | Reject _ => true
  | Accept =>
      match vtx block with
      | tx :: _ => if IsCoinBase tx then false else existsb (fun tx => tx_size tx =? 64) (vtx block)
      | [] => false
      end
  end.

(** [ContextualCheckTransaction] *)
Definition ContextualCheckTransaction (tx : CTransaction) (pindexPrev : option CBlockIndex) : verdict BlockReason :=
  let nHeight := match pindexPrev with None => 0 | Some p => nHeight p + 1 end in
  let fDIP0001Active_context := nHeight >=? DIP0001Height rules in
  let fDIP0003Active_context := nHeight >=? DIP0003Height rules in
  verdict_then
    (if fDIP0003Active_context then
       if IsSpecialTxVersion tx then
         let fDSLActive_context := nHeight >=? nDSLActivationHeight rules in
         check (negb ((nType tx =? TRANSACTION_NORMAL) || (nType tx =? TRANSACTION_PROVIDER_REGISTER) ||
                      (nType tx =? TRANSACTION_PROVIDER_UPDATE_SERVICE) || (nType tx =? TRANSACTION_PROVIDER_UPDATE_REGISTRAR) ||
                      (nType tx =? TRANSACTION_PROVIDER_UPDATE_REVOKE) || (nType tx =? TRANSACTION_COINBASE) ||
                      (nType tx =? TRANSACTION_QUORUM_COMMITMENT) || (nType tx =? TRANSACTION_MNHF_SIGNAL) ||
                      (nType tx =? TRANSACTION_ASSET_LOCK) || (nType tx =? TRANSACTION_ASSET_UNLOCK) ||
                      (fDSLActive_context && (nType tx =? TRANSACTION_POSE_SERVICE_COMMITMENT))))%bool bad_txns_type (
         check (IsCoinBase tx && negb (nType tx =? TRANSACTION_COINBASE))%bool bad_txns_cb_type Accept)
       else check (negb (nType tx =? TRANSACTION_NORMAL)) bad_txns_type Accept
     else Accept)
    (check (fDIP0001Active_context && (tx_size tx >? MAX_STANDARD_TX_SIZE))%bool (tx_reason bad_txns_oversize) Accept).

(** The loop of [ContextualCheckBlock] over the transactions *)
Fixpoint contextual_loop (vtx : list CTransaction) (nHeight nLockTimeCutoff : Z) (pindexPrev : option CBlockIndex) (nSigOps : Z) : outcome (verdict BlockReason * Z) :=
  match vtx with
  | [] => Ret (Accept, nSigOps)
  | tx :: vtx =>
      if negb (IsFinalTx tx nHeight nLockTimeCutoff) then Ret (Reject bad_txns_nonfinal, nSigOps)
      else
        match ContextualCheckTransaction tx pindexPrev with
        | Reject e => Ret (Reject e, nSigOps)
        | Accept => n ← GetLegacySigOpCount tx; contextual_loop vtx nHeight nLockTimeCutoff pindexPrev (u32 (nSigOps + n))
        end
  end.

(** Its last part: the height in the coinbase, by the script or by the payload *)
Definition contextual_coinbase (vtx : list CTransaction) (pindexPrev : option CBlockIndex) : outcome (option BlockReason) :=
  let nHeight := match pindexPrev with None => 0 | Some p => nHeight p + 1 end in
  let fDIP0003Active_context := nHeight >=? DIP0003Height rules in
  coinbase ← deref (vtx !! 0%nat);
  badheight ← (if (DeploymentActiveAfter pindexPrev rules DEPLOYMENT_HEIGHTINCB && negb fDIP0003Active_context)%bool then
                 let expect := push_int64 nHeight in
                 txin ← deref (vin coinbase !! 0%nat);
                 Ret (negb (bool_decide (take (length expect) (scriptSig txin) = expect)))
               else Ret false);
  if (badheight : bool) then Ret (Some bad_cb_height)
  else if (fDIP0003Active_context && negb (nType coinbase =? TRANSACTION_COINBASE))%bool then Ret (Some bad_cb_type)
  else Ret None.

(** [ContextualCheckBlock] *)
Definition ContextualCheckBlock (bi : gmap uint256 CBlockIndex) (block : CBlock) (prev : option uint256) : outcome block_verdict :=
  pindexPrev ← (match prev with None => Ret None | Some p => b ← deref (bi !! p); Ret (Some b) end);
  let nHeight := match pindexPrev with None => 0 | Some p => nHeight p + 1 end in
  nLockTimeCutoff ← (if DeploymentActiveAfter pindexPrev rules DEPLOYMENT_CSV
                     then p ← deref prev; Ret (GetMedianTimePast bi p)
                     else Ret (hdr_nTime (blk_header block)));
  let fDIP0001Active_context := nHeight >=? DIP0001Height rules in
  let nMaxBlockSize := MaxBlockSize_for fDIP0001Active_context in
  let reject (r : BlockReason) : outcome block_verdict := Ret (invalid BLOCK_CONSENSUS r) in
  if (bool_decide (vtx block = []) || (size (vtx block) >? nMaxBlockSize) || (block_size block >? nMaxBlockSize))%bool then reject bad_blk_length
  else
    '(v, nSigOps) ← contextual_loop (vtx block) nHeight nLockTimeCutoff pindexPrev 0;
    match v with
    | Reject e => reject e
    | Accept =>
        if nSigOps >? MaxBlockSigOps fDIP0001Active_context then reject bad_blk_sigops
        else if (block_IsProofOfStake (vtx block) && negb (CheckCoinStakeTimestamp (hdr_nTime (blk_header block)) (consensus rules)))%bool
        then reject bad_coinstake_time
        else
          bad ← contextual_coinbase (vtx block) pindexPrev;
          match bad with Some r => reject r | None => Ret Accept end
    end.

End check.

(** ** Signature operations, counted without bound *)

(** The opcodes of a script up to where it stops parsing *)
Fixpoint opcodes (fuel : nat) (pc : CScript) : list Z :=
  match fuel with
  | O => []
  | S f => match GetScriptOp pc with Some (opcode, _, pc) => opcode :: opcodes f pc | None => [] end
  end.
Definition op_weight (opcode : Z) : Z :=
  if ((opcode =? OP_CHECKSIG) || (opcode =? OP_CHECKSIGVERIFY))%bool then 1
  else if ((opcode =? OP_CHECKMULTISIG) || (opcode =? OP_CHECKMULTISIGVERIFY))%bool then MAX_PUBKEYS_PER_MULTISIG else 0.
Definition script_sigops (s : CScript) : Z := sum_of op_weight (opcodes (length s) s).
Definition tx_sigops (tx : CTransaction) : Z :=
  sum_of (fun i => script_sigops (scriptSig i)) (vin tx) + sum_of (fun o => script_sigops (scriptPubKey o)) (vout tx).

Lemma sigop_loop_legacy fuel : forall pc last n, is_u32 n -> sigop_loop fuel false pc last n = Ret (u32 (n + sum_of op_weight (opcodes fuel pc))).
Proof.
  induction fuel as [|fuel IH]; intros pc last n Hn; cbn [sigop_loop opcodes].
  { unfold sum_of. cbn [foldr]. by rewrite Z.add_0_r, u32_id. }
  destruct (GetScriptOp pc) as [[[opcode data] rest]|]; [|unfold sum_of; cbn [foldr]; by rewrite Z.add_0_r, u32_id].
  change (sum_of op_weight (opcode :: ?l)) with (op_weight opcode + sum_of op_weight l). cbn [andb]. unfold op_weight at 1.
  destruct (_ || _)%bool; [|destruct (_ || _)%bool]; rewrite IH by auto with word; f_equal; rewrite ?u32_add_l; f_equal; lia.
Qed.

Lemma GetSigOpCount_legacy s : GetSigOpCount s false = Ret (u32 (script_sigops s)).
Proof. unfold GetSigOpCount. rewrite sigop_loop_legacy by (unfold is_u32; lia). done. Qed.

Lemma op_weight_range opcode : 0 <= op_weight opcode <= 20.
Proof. unfold op_weight, MAX_PUBKEYS_PER_MULTISIG. repeat case_match; lia. Qed.

Lemma opcodes_sum fuel : forall pc, 0 <= sum_of op_weight (opcodes fuel pc) <= 20 * size pc.
Proof.
  induction fuel as [|fuel IH]; intros pc; cbn [opcodes]; [pose proof (size_nonneg pc); cbn; lia|].
  destruct (GetScriptOp pc) as [[[opcode data] rest]|] eqn:E; [|pose proof (size_nonneg pc); cbn; lia].
  apply GetScriptOp_shorter in E. change (sum_of op_weight (opcode :: ?l)) with (op_weight opcode + sum_of op_weight l).
  pose proof (op_weight_range opcode). pose proof (IH rest). unfold size in *. lia.
Qed.

Lemma sigops_loop_spec l : forall n, is_u32 n -> sigops_loop l n = Ret (u32 (n + sum_of script_sigops l)).
Proof.
  induction l as [|s l IH]; intros n Hn; cbn [sigops_loop]; [by rewrite Z.add_0_r, u32_id|]. rewrite GetSigOpCount_legacy. cbn [mbind outcome_bind].
  rewrite IH by auto with word. rewrite u32_add_l. change (sum_of script_sigops (s :: l)) with (script_sigops s + sum_of script_sigops l). f_equal.
  unfold u32. rewrite <- Z.add_assoc, (Z.add_comm (_ mod _)), Z.add_assoc, Zplus_mod_idemp_r. f_equal. lia.
Qed.

Lemma sum_of_map {A B} (f : B -> Z) (g : A -> B) l : sum_of f (map g l) = sum_of (fun x => f (g x)) l.
Proof. induction l as [|x l IH]; [done|]. unfold sum_of in *. cbn. by rewrite IH. Qed.

Lemma GetLegacySigOpCount_spec tx : GetLegacySigOpCount tx = Ret (u32 (tx_sigops tx)).
Proof.
  unfold GetLegacySigOpCount, tx_sigops. rewrite sigops_loop_spec by (unfold is_u32; lia). cbn [mbind outcome_bind].
  rewrite sigops_loop_spec by auto with word. by rewrite u32_add_l, Z.add_0_l, !sum_of_map.
Qed.

Lemma block_sigops_spec l : forall n, is_u32 n -> block_sigops l n = Ret (u32 (n + sum_of tx_sigops l)).
Proof.
  induction l as [|tx l IH]; intros n Hn; cbn [block_sigops]; [by rewrite Z.add_0_r, u32_id|]. rewrite GetLegacySigOpCount_spec. cbn [mbind outcome_bind].
  rewrite IH by auto with word. rewrite u32_add_l, <- Z.add_assoc, (Z.add_comm (u32 _)), Z.add_assoc, u32_add_r.
  change (sum_of tx_sigops (tx :: l)) with (tx_sigops tx + sum_of tx_sigops l). do 2 f_equal. lia.
Qed.

(** Every byte of a script is a byte of the transaction, and every byte of a
    transaction one of the block, so the count stays far below 2^32. *)
Lemma encoded_length {A} `{Codec A} (f : A -> CScript) (l : list A) : (forall x, (length (f x) <= length (encode x))%nat) ->
  sum_of (fun x => size (f x)) l <= size (encode l).
Proof.
  intros Hf. change (encode l) with (WriteCompactSize (Z.of_nat (length l)) ++ concat (map encode l)). unfold size at 2. rewrite length_app.
  assert (sum_of (fun x => size (f x)) l <= Z.of_nat (length (concat (map encode l)))); [|lia].
  induction l as [|x l IH]; [done|]. cbn [map concat]. rewrite length_app. specialize (Hf x). unfold sum_of in *. cbn [foldr]. unfold size in *. lia.
Qed.

Lemma tx_sigops_range tx : 0 <= tx_sigops tx <= 20 * tx_size tx.
Proof.
  assert (forall {A} (f : A -> CScript) l, 0 <= sum_of (fun x => script_sigops (f x)) l <= 20 * sum_of (fun x => size (f x)) l) as Hs.
  { intros A f l. induction l as [|x l IH]; [done|]. unfold sum_of in *. cbn [foldr]. pose proof (opcodes_sum (length (f x)) (f x)) as Hx. fold (script_sigops (f x)) in Hx. lia. }
  unfold tx_sigops, tx_size, tx_Serialize. pose proof (Hs _ scriptSig (vin tx)) as H1. pose proof (Hs _ scriptPubKey (vout tx)) as H2.
  pose proof (encoded_length scriptSig (vin tx)) as E1. pose proof (encoded_length scriptPubKey (vout tx)) as E2.
  unfold size at 2 in E1. unfold size at 2 in E2. rewrite !length_app.
  assert (forall x, (length (scriptSig x) <= length (encode x))%nat) as F1.
  { intros x. cbn [encode txin_codec]. unfold txin_Serialize, ser_bytes. rewrite !length_app. lia. }
  assert (forall x, (length (scriptPubKey x) <= length (encode x))%nat) as F2.
  { intros x. cbn [encode txout_codec]. unfold ser_bytes. rewrite !length_app. lia. }
  specialize (E1 F1). specialize (E2 F2). lia.
Qed.

Lemma block_sigops_range b : 0 <= sum_of tx_sigops (vtx b) <= 20 * block_size b.
Proof.
  unfold block_size, block_Serialize, size. rewrite !length_app.
  assert (0 <= sum_of tx_sigops (vtx b) <= 20 * Z.of_nat (length (concat (map tx_Serialize (vtx b))))); [|lia].
  induction (vtx b) as [|tx l IH]; [done|]. cbn [map concat]. rewrite length_app. pose proof (tx_sigops_range tx) as Ht. unfold tx_size in Ht. unfold sum_of in *. cbn [foldr]. lia.
Qed.

(** In a block within the size limit the 32-bit sum is the number itself. *)
Lemma block_sigops_exact b : block_size b <= MaxBlockSize -> block_sigops (vtx b) 0 = Ret (sum_of tx_sigops (vtx b)).
Proof.
  intros Hb. rewrite block_sigops_spec by (unfold is_u32; lia). rewrite Z.add_0_l, u32_id; [done|].
  pose proof (block_sigops_range b). unfold is_u32, MaxBlockSize in *. lia.
Qed.

(** ** What each check accepts *)

Section spec.

Context `{Crypto} (GetHash : CBlockHeader -> uint256) (ways : d64_ways) (rules : ChainRules).

(** The output whose key signs a proof-of-stake block *)
Definition signing_output (block : CBlock) : option CTxOut := vtx block !! 1%nat ≫= fun coinstake => vout coinstake !! 1%nat.

Lemma CheckBlockSignature_cases block :
  exists b, CheckBlockSignature GetHash block = Ret b /\
    (b = true -> exists out, signing_output block = Some out /\ exists key, Solver (scriptPubKey out) = (PUBKEY, [key]) /\
       vchBlockSig block <> [] /\ CPubKey_Verify (CPubKey_Set key) (GetHash (blk_header block)) (vchBlockSig block) = true).
Proof.
  unfold CheckBlockSignature, signing_output. destruct (vtx block) as [|cb [|cs rest]]; [eexists; split; [reflexivity|done]..|]. cbn.
  destruct (vout cs) as [|o0 [|o1 os]]; [eexists; split; [reflexivity|done]..|].
  rewrite (proj2 (Z.ltb_ge _ 2)) by (unfold size; cbn [length]; lia). cbn [lookup list_lookup deref mbind outcome_bind].
  pose proof (Solver_solutions (scriptPubKey o1)) as Hs. destruct (Solver (scriptPubKey o1)) as [t sols] eqn:E.
  destruct sols as [|key sols]; [eexists; split; [reflexivity|done]|].
  destruct t; try (eexists; split; [reflexivity|done]).
  - destruct Hs as (k & [= -> ->]). eexists. split; [reflexivity|]. case_bool_decide; [done|]. intros Hv. exists o1. split; [done|]. by exists k.
  - destruct Hs as (h & [= -> ->] & Hh). eexists. split; [reflexivity|]. unfold CPubKey_Set, size. rewrite Hh. done.
Qed.

(** A proof-of-stake block is signed by the key its coinstake pays to directly. *)
Definition block_signed (block : CBlock) : Prop :=
  exists out key, signing_output block = Some out /\ scriptPubKey out = GetScriptForRawPubKey key /\ ValidSize key = true /\
    size key <> BLS_PUBLIC_KEY_SIZE /\ vchBlockSig block <> [] /\ ecdsa_verify key (GetHash (blk_header block)) (vchBlockSig block) = true.

Lemma CheckBlockSignature_exact block : (forall out, signing_output block = Some out -> Forall is_byte (scriptPubKey out)) ->
  exists b, CheckBlockSignature GetHash block = Ret b /\ (b = true <-> block_signed block).
Proof.
  intros Hbytes. destruct (CheckBlockSignature_cases block) as (b & E & Hb). exists b. split; [done|]. split.
  - intros (out & Ho & key & Hs & Hsig & Hv)%Hb. apply Solver_forms in Hs; [|by apply Hbytes|done]. inversion Hs as [| |k Hk Hn E1| | |]; subst.
    exists out, key. split_and!; try done. destruct (CPubKey_Set_valid key Hk) as [E2 E3]. rewrite E2 in Hv. unfold CPubKey_Verify in Hv. by rewrite E3 in Hv.
  - intros (out & key & Ho & Es & Hk & Hn & Hsig & Hv). pose proof (Hbytes out Ho) as Hby. clear Hbytes. revert E. unfold CheckBlockSignature, signing_output in *.
    destruct (vtx block) as [|cb [|cs rest]]; [done..|]. cbn in Ho. destruct (vout cs) as [|o0 [|o1 os]]; [done..|]. cbn in Ho. injection Ho as ->.
    rewrite (proj2 (Z.ltb_ge _ 2)) by (unfold size; cbn [length]; lia). cbn [lookup list_lookup deref mbind outcome_bind].
    assert (Solver (scriptPubKey out) = (PUBKEY, [key])) as ->.
    { rewrite Es. apply Solver_forms; [|done|by constructor]. by rewrite <- Es. }
    rewrite bool_decide_eq_false_2 by done. destruct (CPubKey_Set_valid key Hk) as [-> E3]. unfold CPubKey_Verify. rewrite E3, Hv. by intros [= <-].
Qed.

(** The contents of a valid block *)
Record contents_ok (block : CBlock) : Prop := {
  co_shape : exists coinbase others, vtx block = coinbase :: others /\ IsCoinBase coinbase = true /\
    Forall (fun tx => IsCoinBase tx = false) others /\ Forall (fun tx => IsCoinStake tx = false) (drop 1 others) /\
    (block_IsProofOfStake (vtx block) = true -> exists out outs, vout coinbase = out :: outs /\ txout_IsEmpty out = true);
  co_size : block_size block <= MaxBlockSize;
  co_txs : Forall (fun tx => CheckTransaction tx = Accept) (vtx block);
  co_sigops : sum_of tx_sigops (vtx block) <= MaxBlockSize / 50;
}.

Lemma check_transactions_spec l : check_transactions l = None <-> Forall (fun tx => CheckTransaction tx = Accept) l.
Proof.
  induction l as [|tx l IH]; [split; [constructor|done]|]. cbn [check_transactions]. destruct (CheckTransaction tx) eqn:E; rewrite ?IH.
  - split; [by constructor|by intros [_ ?]%Forall_cons_1].
  - split; [done|intros [? _]%Forall_cons_1; congruence].
Qed.

Lemma tx_nonempty tx : (0 < length (tx_Serialize tx))%nat.
Proof. unfold tx_Serialize, ser_writedata32. rewrite length_app, le_bytes_length. lia. Qed.

Lemma vtx_le_size block : size (vtx block) <= block_size block.
Proof.
  unfold block_size, block_Serialize, size. rewrite !length_app. assert (length (vtx block) <= length (concat (map tx_Serialize (vtx block))))%nat; [|lia].
  induction (vtx block) as [|tx l IH]; [done|]. cbn [map concat length]. rewrite length_app. pose proof (tx_nonempty tx). lia.
Qed.

(** What a result of [check_contents] says: it is one, it accepts valid contents, and
    a refusal is a consensus failure that leaves the flags *)
Definition contents_result (block : CBlock) (set : bool) (o : outcome (block_verdict * CBlock)) : Prop :=
  exists v b', o = Ret (v, b') /\
    (v = Accept <-> contents_ok block) /\
    (v = Accept -> b' = if set then mkBlock (blk_header block) (vtx block) (vchBlockSig block) true (m_checked_merkle_root block) else block) /\
    (v <> Accept -> b' = block /\ exists r, v = invalid BLOCK_CONSENSUS r).

Lemma contents_rejected block set r : ~ contents_ok block -> contents_result block set (Ret (invalid BLOCK_CONSENSUS r, block)).
Proof. intros Hn. eexists _, block. split; [reflexivity|]. split; [by split|]. split; [done|]. eauto. Qed.

Lemma coinbase_has_output tx : IsCoinBase tx = true -> exists out outs, vout tx = out :: outs.
Proof.
  unfold IsCoinBase. destruct (vin tx) as [|i [|? ?]]; [done| |done]. destruct (vout tx) as [|out outs]; [by rewrite andb_false_r|eauto].
Qed.

Lemma check_contents_exact block set : contents_result block set (check_contents block set).
Proof.
  unfold check_contents. destruct (vtx block) as [|cb others] eqn:Ev.
  { apply contents_rejected. intros [(? & ? & E & _)]. congruence. }
  assert (forall P : Prop, (contents_ok block -> IsCoinBase cb = true -> Forall (fun tx => IsCoinBase tx = false) others ->
    Forall (fun tx => IsCoinStake tx = false) (drop 1 others) ->
    (block_IsProofOfStake (vtx block) = true -> exists out outs, vout cb = out :: outs /\ txout_IsEmpty out = true) -> P) -> contents_ok block -> P) as Hinv.
  { intros P HP Hok. pose proof Hok as [(x & y & E & H1 & H2 & H3 & H4) _ _ _]. rewrite Ev in E. injection E as <- <-. by apply HP. }
  rewrite <- Ev. pose proof (vtx_le_size block) as Hvs. cbn [MaxBlockSize_for].
  destruct (Z.gtb_spec (block_size block) MaxBlockSize) as [Hbig|Hsize].
  { rewrite orb_true_r. apply contents_rejected. intros [_ ? _ _]. lia. }
  rewrite orb_false_r, Z.gtb_ltb, (proj2 (Z.ltb_ge _ (size (vtx block)))) by lia.
  destruct (IsCoinBase cb) eqn:Hcb; cbn [negb]; [|apply contents_rejected; refine (Hinv False _); intros _ Hx; congruence].
  destruct (existsb IsCoinBase others) eqn:Hm; [apply contents_rejected; refine (Hinv False _); intros _ _ Hy%existsb_Forall; congruence|].
  destruct (existsb IsCoinStake (drop 1 others)) eqn:Hc; [apply contents_rejected; refine (Hinv False _); intros _ _ _ Hy%existsb_Forall; congruence|].
  apply existsb_Forall in Hm, Hc. destruct (coinbase_has_output cb Hcb) as (out & outs & Ho).
  assert (coinbase_notempty (vtx block) cb = Ret (block_IsProofOfStake (vtx block) && negb (txout_IsEmpty out))%bool) as ->.
  { unfold coinbase_notempty. destruct (block_IsProofOfStake (vtx block)); [|done]. by rewrite Ho. }
  cbn [mbind outcome_bind]. destruct (block_IsProofOfStake (vtx block) && negb (txout_IsEmpty out))%bool eqn:He.
  { apply andb_true_iff in He as [Hs He]. apply contents_rejected; refine (Hinv False _). intros _ _ _ _ Hx. destruct (Hx Hs) as (o & os & Ho' & He').
    rewrite Ho in Ho'. injection Ho' as <- <-. by rewrite He' in He. }
  destruct (check_transactions (vtx block)) as [e|] eqn:Ht.
  { apply contents_rejected. intros [_ _ Htx%check_transactions_spec _]. congruence. }
  rewrite (block_sigops_exact block Hsize). cbn [mbind outcome_bind]. rewrite Z.gtb_ltb. unfold MaxBlockSigOps. cbn [MaxBlockSize_for].
  destruct (Z.ltb_spec (MaxBlockSize / 50) (sum_of tx_sigops (vtx block))) as [Hsig|Hsig]; [apply contents_rejected; intros [_ _ _ ?]; lia|].
  apply check_transactions_spec in Ht.
  assert (contents_ok block) as Hok.
  { split; [|done|done|done]. exists cb, others. split_and!; try done. intros Hs. rewrite Hs in He. exists out, outs. split; [done|]. by destruct (txout_IsEmpty out). }
  eexists _, _. split; [reflexivity|]. split; [by split|]. split; [done|]. by intros [].
Qed.

(** The header rules that need no context *)
Record header_ok (block : CBlock) : Prop := {
  ho_pow : block_IsProofOfStake (vtx block) = false ->
    CheckProofOfWork (GetHash (blk_header block)) (hdr_nBits (blk_header block)) (consensus rules) = true;
  ho_devnet : IsNull (hashDevnetGenesisBlock rules) = false -> hashPrevBlock (blk_header block) = hashGenesisBlock rules ->
    GetHash (blk_header block) = hashDevnetGenesisBlock rules;
}.

(** The transactions are those the header commits to, without a repetition. *)
Definition root_ok (block : CBlock) : Prop := BlockMerkleRoot ways (vtx block) = (hdr_hashMerkleRoot (blk_header block), false).

Record block_valid (block : CBlock) : Prop := {
  bv_header : header_ok block;
  bv_signed : block_IsProofOfStake (vtx block) = true -> block_signed block;
  bv_root : root_ok block;
  bv_contents : contents_ok block;
}.

Lemma CheckBlockHeader_exact block :
  CheckBlockHeader rules (blk_header block) (GetHash (blk_header block)) (negb (block_IsProofOfStake (vtx block))) = Accept <-> header_ok block.
Proof.
  unfold CheckBlockHeader, invalid. split.
  - intros E. split.
    + intros Hs. rewrite Hs in E. cbn [negb andb] in E. by destruct (CheckProofOfWork _ _ _).
    + intros Hn Hp. destruct (negb _ && _)%bool; [done|]. rewrite Hn in E. cbn [negb andb] in E. rewrite (bool_decide_eq_true_2 _ Hp) in E. cbn [andb] in E.
      case_bool_decide; done.
  - intros [H1 H2]. destruct (block_IsProofOfStake (vtx block)); cbn [negb andb]; [|rewrite H1 by done; cbn [negb]];
      destruct (IsNull (hashDevnetGenesisBlock rules)); cbn [negb andb]; [done| |done|]; (case_bool_decide; [rewrite bool_decide_eq_true_2 by auto; done|done]).
Qed.

Lemma CheckMerkleRoot_exact block : m_checked_merkle_root block = false ->
  (CheckMerkleRoot ways block = (Accept, mkBlock (blk_header block) (vtx block) (vchBlockSig block) (fChecked block) true) /\ root_ok block) \/
  (exists r, CheckMerkleRoot ways block = (invalid BLOCK_MUTATED r, block) /\ ~ root_ok block).
Proof.
  intros Hf. unfold CheckMerkleRoot, root_ok. rewrite Hf. destruct (BlockMerkleRoot ways (vtx block)) as [root mutated] eqn:E.
  case_bool_decide as Hr; cbn [negb]; [destruct mutated|].
  - right. eexists. split; [reflexivity|congruence].
  - left. split; [done|congruence].
  - right. eexists. split; [reflexivity|congruence].
Qed.

Lemma with_root_contents block c m : contents_ok (mkBlock (blk_header block) (vtx block) (vchBlockSig block) c m) <-> contents_ok block.
Proof. by split; intros []; split. Qed.

End spec.

(** C7: [CheckBlock] always returns, and accepts a block it has not seen exactly
    when the block is valid: proof of work unless it carries a coinstake, and
    then a signature by the secp256k1 key to which the coinstake's second output
    pays directly (an output that pays to a key hash never verifies); the Merkle
    root of its transactions, none repeated; at most 2000000 bytes; one coinbase,
    first, and a coinstake only second; an empty first output of the coinbase of
    a proof-of-stake block; valid transactions; and at most 40000 signature
    operations, a count that cannot wrap. Only then is the block marked as
    checked, so that the mark means validity; and it is reported as mutated only
    when its transactions are not those the header commits to. *)
Theorem CheckBlock_exact `{Crypto} (GetHash : CBlockHeader -> uint256) (ways : d64_ways) (rules : ChainRules) (block : CBlock) :
  fChecked block = false -> m_checked_merkle_root block = false ->
  (forall out, signing_output block = Some out -> Forall is_byte (scriptPubKey out)) ->
  exists v b', CheckBlock GetHash ways rules block true true true = Ret (v, b') /\
    (v = Accept <-> block_valid GetHash ways rules block) /\
    (fChecked b' = true <-> block_valid GetHash ways rules block) /\ (m_checked_merkle_root b' = true -> root_ok ways block) /\
    (forall r, v = invalid BLOCK_MUTATED r -> ~ root_ok ways block).
Proof.
  intros Hc Hm Hbytes. unfold CheckBlock. rewrite Hc. cbn [andb].
  assert (forall result r, ~ block_valid GetHash ways rules block -> (result = BLOCK_MUTATED -> ~ root_ok ways block) -> exists v b',
    @Ret (block_verdict * CBlock) (invalid result r, block) = Ret (v, b') /\ (v = Accept <-> block_valid GetHash ways rules block) /\
    (fChecked b' = true <-> block_valid GetHash ways rules block) /\ (m_checked_merkle_root b' = true -> root_ok ways block) /\
    (forall r, v = invalid BLOCK_MUTATED r -> ~ root_ok ways block)) as Hrej.
  { intros result r Hn Hmut. eexists _, block. split; [reflexivity|]. rewrite Hc, Hm. split_and!; try (by split); try done. intros r' [= -> _]. by apply Hmut. }
  pose proof (CheckBlockHeader_exact GetHash rules block) as Hh.
  destruct (CheckBlockHeader _ _ _ _) as [|[result r]] eqn:Eh.
  2:{ apply Hrej; [by intros [?%Hh _ _ _]|]. intros ->. revert Eh. unfold CheckBlockHeader, invalid. repeat case_match; congruence. }
  assert (header_ok GetHash rules block) as Hok by (by apply Hh). clear Hh.
  destruct (CheckBlockSignature_exact GetHash block Hbytes) as (b & Eb & Hb).
  assert (exists signed, (if block_IsProofOfStake (vtx block) then CheckBlockSignature GetHash block else Ret true) = Ret signed /\
    (signed = true <-> (block_IsProofOfStake (vtx block) = true -> block_signed GetHash block))) as (signed & -> & Hsig).
  { destruct (block_IsProofOfStake (vtx block)); [exists b; rewrite <- Hb; split; [done|naive_solver]|exists true; naive_solver]. }
  cbn [mbind outcome_bind]. destruct signed; cbn [negb]; [|apply Hrej; [by intros [_ ?%Hsig _ _]|done]].
  pose proof (proj1 Hsig eq_refl) as Hsigned. clear Hsig.
  destruct (CheckMerkleRoot_exact ways block Hm) as [[-> Hr]|(r & -> & Hr)]; [|apply Hrej; [by intros [_ _ ? _]|done]].
  destruct (check_contents_exact (mkBlock (blk_header block) (vtx block) (vchBlockSig block) (fChecked block) true) true) as (v & b' & -> & Hv & Hacc & Hrefuse).
  rewrite with_root_contents in Hv. assert (v = Accept <-> block_valid GetHash ways rules block) as Hvalid by (rewrite Hv; split; [by split|by intros []]).
  exists v, b'. split; [done|]. split; [done|]. destruct v as [|e].
  - rewrite (Hacc eq_refl). cbn [fChecked m_checked_merkle_root]. split; [split; [by rewrite <- Hvalid|done]|]. split; [done|]. done.
  - destruct (Hrefuse ltac:(done)) as (-> & r & Er). injection Er as ->. cbn [fChecked m_checked_merkle_root]. rewrite Hc, <- Hvalid. split; [by split|]. split; [done|]. by intros r'.
Qed.

(** A signed proof-of-stake block *)
Definition demo_crypto : Crypto :=
  {| RIPEMD160 := fun _ => repeat 5 20; SHA1 := fun _ => repeat 5 20; SHA256 := fun _ => repeat 6 32;
     ecdsa_verify := fun _ _ _ => true; bls_verify := fun _ _ _ => false; CheckLowS := fun _ => true |}.
Definition demo_vtx : list CTransaction :=
  [ mkTx [mkTxIn (mkOutPoint uint256_zero NULL_INDEX) [0x51; 0x51] SEQUENCE_FINAL] [mkTxOut 0 []] 1 0 0 [];
    mkTx [mkTxIn (mkOutPoint (demo_hash 1) 0) [] SEQUENCE_FINAL] [mkTxOut 0 []; mkTxOut COIN (GetScriptForRawPubKey (demo_key 7))] 1 0 0 [] ].
Definition demo_block : CBlock :=
  mkBlock (mkHeader 4 (demo_hash 1) (BlockMerkleRoot portable_ways demo_vtx).1 2000 0x207fffff 0) demo_vtx [1] false false.

Lemma demo_block_root : root_ok portable_ways demo_block.
Proof.
  unfold root_ok. cbn [blk_header vtx demo_block hdr_hashMerkleRoot].
  assert ((BlockMerkleRoot portable_ways demo_vtx).2 = false) as <- by (vm_compute; reflexivity). apply surjective_pairing.
Qed.

Lemma demo_block_valid : @block_valid demo_crypto (fun _ => demo_hash 5) portable_ways demo_rules demo_block.
Proof.
  split; [split; [done|done]| |exact demo_block_root|].
  - intros _. exists (mkTxOut COIN (GetScriptForRawPubKey (demo_key 7))), (demo_key 7). split_and!; done.
  - split.
    + exists (nth 0 demo_vtx (mkTx [] [] 0 0 0 [])), (drop 1 demo_vtx). split_and!; [done|done|apply (bool_decide_unpack _); vm_compute; exact I|apply (bool_decide_unpack _); vm_compute; exact I|intros _; by eexists _, _].
    + by vm_compute.
    + by repeat constructor.
    + by vm_compute.
Qed.

Lemma CheckBlock_exact_witness : exists b', @CheckBlock demo_crypto (fun _ => demo_hash 5) portable_ways demo_rules demo_block true true true = Ret (Accept, b').
Proof.
  destruct (@CheckBlock_exact demo_crypto (fun _ => demo_hash 5) portable_ways demo_rules demo_block) as (v & b' & E & Hv & _); [done|done| |].
  - intros out. cbn. intros [= <-]. apply (bool_decide_unpack _). vm_compute. exact I.
  - exists b'. rewrite E. by rewrite (proj2 Hv demo_block_valid).
Defined.

(** ** The rules in context *)

Section context.

Context (rules : ChainRules).

Definition next_height (pindexPrev : option CBlockIndex) : Z := match pindexPrev with None => 0 | Some p => nHeight p + 1 end.

(** The coinbase names the height, in its script or by being of its own type. *)
Definition coinbase_height_ok (vtx : list CTransaction) (height : Z) : Prop :=
  exists coinbase others, vtx = coinbase :: others /\
    (BIP34Height rules <= height < DIP0003Height rules -> exists txin ins rest, vin coinbase = txin :: ins /\ scriptSig txin = push_int64 height ++ rest) /\
    (DIP0003Height rules <= height -> nType coinbase = TRANSACTION_COINBASE).

(** The rules on a block at a height, with the time up to which lock times must have passed *)
Record context_ok (block : CBlock) (pindexPrev : option CBlockIndex) (cutoff : Z) : Prop := {
  cx_size : block_size block <= MaxBlockSize_for (next_height pindexPrev >=? DIP0001Height rules);
  cx_final : Forall (fun tx => IsFinalTx tx (next_height pindexPrev) cutoff = true) (vtx block);
  cx_txs : Forall (fun tx => ContextualCheckTransaction rules tx pindexPrev = Accept) (vtx block);
  cx_sigops : sum_of tx_sigops (vtx block) <= MaxBlockSigOps (next_height pindexPrev >=? DIP0001Height rules);
  cx_time : block_IsProofOfStake (vtx block) = true -> CheckCoinStakeTimestamp (hdr_nTime (blk_header block)) (consensus rules) = true;
  cx_coinbase : coinbase_height_ok (vtx block) (next_height pindexPrev);
}.

Lemma contextual_loop_spec l h c p : forall n, is_u32 n ->
  exists v m, contextual_loop rules l h c p n = Ret (v, m) /\
    (v = Accept <-> Forall (fun tx => IsFinalTx tx h c = true) l /\ Forall (fun tx => ContextualCheckTransaction rules tx p = Accept) l) /\
    (v = Accept -> m = u32 (n + sum_of tx_sigops l)).
Proof.
  induction l as [|tx l IH]; intros n Hn; cbn [contextual_loop].
  { eexists _, _. split; [reflexivity|]. split; [split; [by repeat constructor|done]|]. intros _. by rewrite Z.add_0_r, u32_id. }
  destruct (IsFinalTx tx h c) eqn:Ef; cbn [negb].
  2:{ eexists _, _. split; [reflexivity|]. split; [|done]. split; [done|]. intros [[? _]%Forall_cons_1 _]. congruence. }
  destruct (ContextualCheckTransaction rules tx p) as [|e] eqn:Ec.
  2:{ eexists _, _. split; [reflexivity|]. split; [|done]. split; [done|]. intros [_ [? _]%Forall_cons_1]. congruence. }
  rewrite GetLegacySigOpCount_spec. cbn [mbind outcome_bind]. destruct (IH (u32 (n + u32 (tx_sigops tx)))) as (v & m & -> & Hv & Hm); [auto with word|].
  exists v, m. split; [done|]. split.
  - rewrite Hv, !Forall_cons. naive_solver.
  - intros Ha. rewrite (Hm Ha), u32_add_l, sum_of_cons, <- Z.add_assoc, (Z.add_comm (u32 _)), Z.add_assoc, u32_add_r. f_equal. lia.
Qed.

Lemma MaxBlockSize_for_le b : MaxBlockSize_for b <= MaxBlockSize.
Proof. by destruct b. Qed.

Lemma prefix_take {A} (e s : list A) : take (length e) s = e <-> exists rest, s = e ++ rest.
Proof.
  split; [|by intros [rest ->]; apply take_app_length]. intros E. exists (drop (length e) s). by rewrite <- E at 1; rewrite take_drop.
Qed.

(** The time up to which lock times must have passed *)
Definition lock_cutoff (bi : gmap uint256 CBlockIndex) (block : CBlock) (prev : option uint256) : Z :=
  match prev with
  | Some p => if next_height (bi !! p) >=? CSVHeight rules then GetMedianTimePast bi p else hdr_nTime (blk_header block)
  | None => hdr_nTime (blk_header block)
  end.

Lemma contextual_coinbase_spec cb others pi : vin cb <> [] ->
  exists bad, contextual_coinbase rules (cb :: others) pi = Ret bad /\ (bad = None <-> coinbase_height_ok (cb :: others) (next_height pi)).
Proof.
  intros Hvin. unfold contextual_coinbase, DeploymentActiveAfter, coinbase_height_ok. cbn [lookup list_lookup deref mbind outcome_bind DeploymentHeight]. fold (next_height pi).
  destruct (vin cb) as [|txin ins] eqn:Ei; [done|]. cbn [lookup list_lookup deref mbind outcome_bind]. rewrite !Z.geb_leb.
  assert (forall P : Prop, (exists coinbase others', cb :: others = coinbase :: others' /\
      (BIP34Height rules <= next_height pi < DIP0003Height rules -> exists txin ins rest, vin coinbase = txin :: ins /\ scriptSig txin = push_int64 (next_height pi) ++ rest) /\
      (DIP0003Height rules <= next_height pi -> nType coinbase = TRANSACTION_COINBASE)) <->
    (BIP34Height rules <= next_height pi < DIP0003Height rules -> take (length (push_int64 (next_height pi))) (scriptSig txin) = push_int64 (next_height pi)) /\
    (DIP0003Height rules <= next_height pi -> nType cb = TRANSACTION_COINBASE)) as Hiff.
  { intros _. rewrite prefix_take. split.
    - intros (x & y & [= <- <-] & H1 & H2). split; [|done]. intros Hh. destruct (H1 Hh) as (t & ts & rest & E & Es). rewrite Ei in E. injection E as <- <-. eauto.
    - intros [H1 H2]. exists cb, others. split; [done|]. split; [|done]. intros Hh. destruct (H1 Hh) as [rest Es]. eauto. }
  setoid_rewrite (Hiff True). clear Hiff.
  destruct (Z.leb_spec (DIP0003Height rules) (next_height pi)) as [H3|H3]; cbn [negb]; rewrite ?andb_false_r, ?andb_true_r.
  - cbn [mbind outcome_bind andb]. destruct (Z.eqb_spec (nType cb) TRANSACTION_COINBASE) as [En|En]; cbn [negb]; (eexists; split; [reflexivity|]).
    + split; [|done]. intros _. split; [lia|done].
    + split; [done|]. intros [_ Hx]. destruct En. by apply Hx.
  - destruct (Z.leb_spec (BIP34Height rules) (next_height pi)) as [H34|H34]; cbn [mbind outcome_bind andb].
    + case_bool_decide as Ht; cbn [negb]; (eexists; split; [reflexivity|]).
      * split; [|done]. intros _. split; [done|lia].
      * split; [done|]. intros [Hx _]. destruct Ht. by apply Hx.
    + eexists. split; [reflexivity|]. split; [|done]. intros _. split; lia.
Qed.

Lemma ContextualCheckBlock_spec bi block prev : (forall p, prev = Some p -> is_Some (bi !! p)) -> 0 < CSVHeight rules ->
  (forall coinbase others, vtx block = coinbase :: others -> vin coinbase <> []) ->
  exists v, ContextualCheckBlock rules bi block prev = Ret v /\
    (v = Accept <-> context_ok block (prev ≫= (bi !!.)) (lock_cutoff bi block prev)) /\
    (v <> Accept -> exists r, v = invalid BLOCK_CONSENSUS r).
Proof.
  intros Hprev Hcsv Hvin. unfold ContextualCheckBlock.
  set (pi := prev ≫= (bi !!.)). set (cutoff := lock_cutoff bi block prev).
  assert ((match prev with None => Ret None | Some p => b ← deref (bi !! p); Ret (Some b) end) = Ret pi) as ->.
  { subst pi. destruct prev as [p|]; [|done]. destruct (Hprev p eq_refl) as [b Hb]. cbn. by rewrite Hb. }
  cbn [mbind outcome_bind]. fold (next_height pi).
  assert ((if DeploymentActiveAfter pi rules DEPLOYMENT_CSV then p ← deref prev; Ret (GetMedianTimePast bi p) else Ret (hdr_nTime (blk_header block))) = Ret cutoff) as ->.
  { subst cutoff pi. unfold lock_cutoff, DeploymentActiveAfter. cbn [DeploymentHeight]. destruct prev as [p|].
    - destruct (Hprev p eq_refl) as [b Hb]. cbn [mbind option_bind]. rewrite Hb. cbn [next_height]. by destruct (_ >=? _).
    - cbn [mbind option_bind]. rewrite Z.geb_leb, (proj2 (Z.leb_gt _ 0)) by lia. done. }
  cbn [mbind outcome_bind]. set (d1 := next_height pi >=? DIP0001Height rules).
  assert (forall r : BlockReason, ~ context_ok block pi cutoff -> exists v, Ret (invalid BLOCK_CONSENSUS r) = Ret v /\ (v = Accept <-> context_ok block pi cutoff) /\
    (v <> Accept -> exists r, v = invalid BLOCK_CONSENSUS r)) as Hrej.
  { intros r Hn. eexists. split; [reflexivity|]. split; [by split|]. eauto. }
  destruct (vtx block) as [|cb others] eqn:Ev.
  { rewrite bool_decide_eq_true_2 by done. cbn [orb]. apply Hrej. intros [_ _ _ _ _ (? & ? & E & _)]. congruence. }
  rewrite <- Ev. rewrite (bool_decide_eq_false_2 (vtx block = [])) by congruence. cbn [orb].
  pose proof (vtx_le_size block) as Hvs. rewrite !Z.gtb_ltb.
  destruct (Z.ltb_spec (MaxBlockSize_for d1) (block_size block)) as [Hbig|Hsize]; [rewrite orb_true_r; apply Hrej; intros [Hx _ _ _ _ _]; fold d1 in Hx; lia|].
  rewrite orb_false_r, (proj2 (Z.ltb_ge _ (size (vtx block)))) by lia.
  destruct (contextual_loop_spec (vtx block) (next_height pi) cutoff pi 0) as (v & m & -> & Hv & Hm); [unfold is_u32; lia|]. cbn [mbind outcome_bind].
  destruct v as [|e]; [|apply Hrej; intros [_ Hx Hy _ _ _]; discriminate (proj2 Hv (conj Hx Hy))].
  destruct (proj1 Hv eq_refl) as [Hfinal Htxs]. rewrite (Hm eq_refl), Z.add_0_l, u32_id.
  2:{ pose proof (block_sigops_range block). pose proof (MaxBlockSize_for_le d1). unfold is_u32, MaxBlockSize in *. lia. }
  rewrite Z.gtb_ltb. destruct (Z.ltb_spec (MaxBlockSigOps d1) (sum_of tx_sigops (vtx block))) as [Hmany|Hsig]; [apply Hrej; intros [_ _ _ Hx _ _]; fold d1 in Hx; lia|].
  destruct (block_IsProofOfStake (vtx block) && _)%bool eqn:Et.
  { apply andb_true_iff in Et as [Hs Ht%negb_true_iff]. apply Hrej. intros [_ _ _ _ Hx _]. rewrite Hx in Ht; done. }
  destruct (contextual_coinbase_spec cb others pi (Hvin cb others eq_refl)) as (bad & Eb & Hbad). rewrite <- Ev in Eb, Hbad. rewrite Eb. cbn [mbind outcome_bind].
  destruct bad as [r|]; [apply Hrej; intros [_ _ _ _ _ ?%Hbad]; done|].
  eexists. split; [reflexivity|]. split; [|done]. split; [|done]. intros _. split; try done; [|by apply Hbad].
  intros Hs. rewrite Hs in Et. cbn [andb] in Et. by apply negb_false_iff in Et.
Qed.

End context.
