(* ===== verification/StakePolicy.v ===== *)
(** * StakePolicy: the shape of a coinstake (src/src/pos/stake.{h,cpp})

    Which amounts may stake, how the credit of a win is split, and which other
    outputs of the wallet a win spends with its kernel.  Amounts are 64-bit
    integers; the operations are written without wrap-around and the theorems
    cover the amounts for which none happens. *)

From Stdlib Require Import ZArith Lia.
From stdpp Require Import base list numbers option sorting.
From S2P Require Import Prelude Standard Params Kernel.

Definition MAX_STAKE_COMBINE_INPUTS : Z := 20.
Definition MAX_STAKE_SPLIT_OUTPUTS : Z := 10.
Definition MIN_STAKE_TARGET : Z := 20000 * COIN.
Definition STAKE_COMBINE_REST_BUDGET_BPS : Z := 500.

(** [std::clamp] *)
Definition clamp (v lo hi : Z) : Z := if v <? lo then lo else if hi <? v then hi else v.

(** [StakeEligibility] *)
Inductive StakeEligibility : Type :=
| Eligible
| Immature
| BLSAddress
| BelowMin
| AboveMax
| Collateral
| TooYoung
| TooOld.

#[export] Instance StakeEligibility_eq_dec : EqDecision StakeEligibility.
Proof. solve_decision. Defined.

(** [StakeSkipReport] *)
Record StakeSkipReport : Type := mkReport {
  immature : Z;
  bls : Z;
  below_min : Z;
  above_max : Z;
  collateral : Z;
  too_young : Z;
  too_old : Z;
}.

Definition empty_report : StakeSkipReport := mkReport 0 0 0 0 0 0 0.

(** [StakeSkipReport::Add] *)
Definition report_Add (r : StakeSkipReport) (why : StakeEligibility) (value : Z) : StakeSkipReport :=
  let '(mkReport im bl lo hi co yo ol) := r in
  match why with
  | Eligible => r
  | Immature => mkReport (im + value) bl lo hi co yo ol
  | BLSAddress => mkReport im (bl + value) lo hi co yo ol
  | BelowMin => mkReport im bl (lo + value) hi co yo ol
  | AboveMax => mkReport im bl lo (hi + value) co yo ol
  | Collateral => mkReport im bl lo hi (co + value) yo ol
  | TooYoung => mkReport im bl lo hi co (yo + value) ol
  | TooOld => mkReport im bl lo hi co yo (ol + value)
  end.

(** [StakeSkipReport::Total] *)
Definition report_Total (r : StakeSkipReport) : Z :=
  immature r + bls r + below_min r + above_max r + collateral r + too_young r + too_old r.

(** [PermanentlyExcluded] *)
Definition PermanentlyExcluded (r : StakeSkipReport) : Z :=
  bls r + below_min r + above_max r + collateral r + too_old r.

(** [ShouldWarnAboutExcludedValue] *)
Definition ShouldWarnAboutExcludedValue (r : StakeSkipReport) (min_stake_value : Z) : bool :=
  if min_stake_value <=? 0 then false else PermanentlyExcluded r >=? min_stake_value.

(** [StakeInputAge] *)
Definition StakeInputAge (candidate_time coin_block_time wallet_time : Z) : Z :=
  candidate_time - (if coin_block_time >? 0 then coin_block_time else wallet_time).

(** [CombineSkips] *)
Record CombineSkips : Type := mkSkips {
  sk_budget : Z;
  sk_size : Z;
  sk_split : Z;
  sk_signature : Z;
}.

(** [CombineSkips::Total] *)
Definition skips_Total (s : CombineSkips) : Z := sk_budget s + sk_size s + sk_split s + sk_signature s.

(** [CombineSkips::operator+=] *)
Definition skips_add (s other : CombineSkips) : CombineSkips :=
  mkSkips (sk_budget s + sk_budget other) (sk_size s + sk_size other) (sk_split s + sk_split other)
    (sk_signature s + sk_signature other).

Definition no_skips : CombineSkips := mkSkips 0 0 0 0.

(** [CoinstakePlan] *)
Record CoinstakePlan : Type := mkPlan {
  extra_inputs : list nat;
  output_values : list Z;
  extra_resting_value : Z;
  skipped : CombineSkips;
}.

Definition empty_plan : CoinstakePlan := mkPlan [] [] 0 no_skips.

(** [CoinstakePlan::UtxoDelta] *)
Definition UtxoDelta (p : CoinstakePlan) : Z :=
  Z.of_nat (length (output_values p)) - 1 - Z.of_nat (length (extra_inputs p)).

(** [std::stable_sort] of indices by a key: equal keys keep their order. *)
Fixpoint insert_stable (key : nat -> Z) (x : nat) (l : list nat) : list nat :=
  match l with
  | [] => [x]
  | y :: l' => if key y <? key x then y :: insert_stable key x l' else x :: l
  end.

Definition stable_sort (key : nat -> Z) (l : list nat) : list nat := foldr (insert_stable key) [] l.

Section policy.

Context (params : ConsensusParams).

(** [CStakeWallet::ClassifyForStaking] *)
Definition ClassifyForStaking (value depth : Z) (type : TxoutType) (inputAge nHeight : Z) : StakeEligibility :=
  if depth - 1 <? COINBASE_MATURITY + 1 then Immature
  else if bool_decide (type = BLSPUBKEY) then BLSAddress
  else if value <? (stakeValueRange params).1 then BelowMin
  else if value >? (stakeValueRange params).2 then AboveMax
  else if ((value =? regularMnCollateral params) || (value =? evoMnCollateral params))%bool then Collateral
  else if inputAge <? (stakeAgeRange params).1 then TooYoung
  else if (negb (IsPosKernelV2 params nHeight) && (inputAge >? (stakeAgeRange params).2))%bool then TooOld
  else Eligible.

(** The lambda [stakeable] of [SplitStakeCredit] *)
Definition stakeable (value : Z) : bool :=
  ((value >=? (stakeValueRange params).1) && (value <=? (stakeValueRange params).2) &&
   negb (value =? regularMnCollateral params) && negb (value =? evoMnCollateral params))%bool.

(** The loop over the number of pieces, from [n] up, [k] rounds *)
Fixpoint split_loop (k : nat) (nCredit n : Z) : list Z :=
  match k with
  | O => []
  | S k' =>
      let each := Z.quot (Z.quot nCredit n) CENT * CENT in
      let first := nCredit - each * (n - 1) in
      if (stakeable each && stakeable first)%bool
      then <[0%nat := first]> (replicate (Z.to_nat n) each)
      else split_loop k' nCredit (n + 1)
  end.

(** [pieces], after both assignments *)
Definition split_pieces (nCredit target : Z) : Z :=
  let pieces := if target >? 0 then clamp (Z.quot nCredit target) 2 MAX_STAKE_SPLIT_OUTPUTS else 2 in
  if (stakeValueRange params).2 >? 0
  then Z.max pieces (Z.quot (nCredit + (stakeValueRange params).2 - 1) (stakeValueRange params).2)
  else pieces.

(** [CStakeWallet::SplitStakeCredit] *)
Definition SplitStakeCredit (nCredit target split_above : Z) : list Z :=
  if (((target <=? 0) || (nCredit <? (if split_above >? 0 then split_above else 2 * target))) && stakeable nCredit)%bool
  then [nCredit]
  else split_loop 3 nCredit (split_pieces nCredit target).

(** [CStakeWallet::CompactStakeTarget] *)
Definition CompactStakeTarget (base_target : Z) : Z :=
  let ceiling := Z.quot (stakeValueRange params).2 2 in
  if base_target >? Z.quot ceiling 2 then ceiling else base_target * 2.

(** [CStakeWallet::CompactSplitThreshold] *)
Definition CompactSplitThreshold (base_target : Z) : Z :=
  let ceiling := (stakeValueRange params).2 in
  if base_target >? Z.quot ceiling 3 then ceiling else base_target * 3.

(** [CStakeWallet::CombineRestAllowance] *)
Definition CombineRestAllowance (eligible resting kernel : Z) : Z :=
  if ((eligible <? 0) || (resting <? 0) || (kernel <? 0) || (eligible >? INT64_MAX - resting))%bool then 0
  else
    let pool := eligible + resting in
    let budget := Z.quot pool 10000 * STAKE_COMBINE_REST_BUDGET_BPS +
                  Z.quot (Z.rem pool 10000 * STAKE_COMBINE_REST_BUDGET_BPS) 10000 in
    if ((resting >=? budget) || (kernel >=? budget - resting))%bool then 0
    else budget - resting - kernel.

(** The candidates the plan may take, by index *)
Definition plan_eligible (value : Z) : bool :=
  ((value >? 0) && (value <=? (stakeValueRange params).2) && MoneyRange value &&
   negb (value =? regularMnCollateral params) && negb (value =? evoMnCollateral params))%bool.

Definition plan_order (candidates : list Z) : list nat :=
  filter (fun i => plan_eligible (candidates !!! i)) (seq 0 (length candidates)).

(** The locals of the walk over the sorted candidates *)
Record plan_state : Type := mkPlanState {
  ps_added : Z;
  ps_credit : Z;
  ps_resting : Z;
  ps_chosen : list nat;
  ps_best : CoinstakePlan;
}.

Definition add_skips (p : CoinstakePlan) (s : CombineSkips) : CoinstakePlan :=
  mkPlan (extra_inputs p) (output_values p) (extra_resting_value p) (skips_add (skipped p) s).

(** The walk; [order] is what is left of the sorted candidates. *)
Fixpoint plan_loop (candidates : list Z) (target split_above : Z) (max_extra : nat) (allowance rest_allowance : Z)
    (order : list nat) (s : plan_state) : plan_state :=
  match order with
  | [] => s
  | i :: order' =>
      let left := Z.of_nat (length order) in
      let stop sk := mkPlanState (ps_added s) (ps_credit s) (ps_resting s) (ps_chosen s) (add_skips (ps_best s) sk) in
      if (length (ps_chosen s) =? max_extra)%nat then stop (mkSkips 0 left 0 0)
      else
        let value := candidates !!! i in
        let cost := if value >=? (stakeValueRange params).1 then value else 0 in
        if ((value >? allowance - ps_added s) || (cost >? rest_allowance - ps_resting s) ||
            (value >? MAX_MONEY - ps_credit s))%bool
        then stop (mkSkips left 0 0 0)
        else
          let added := ps_added s + value in
          let credit := ps_credit s + value in
          let resting := ps_resting s + cost in
          let chosen := ps_chosen s ++ [i] in
          let outputs := SplitStakeCredit credit target split_above in
          let delta := Z.of_nat (length outputs) - 1 - Z.of_nat (length chosen) in
          let best :=
            if (negb (bool_decide (outputs = [])) && (delta <? 0) && (delta <? UtxoDelta (ps_best s)))%bool
            then mkPlan chosen outputs resting (skipped (ps_best s))
            else ps_best s in
          plan_loop candidates target split_above max_extra allowance rest_allowance order'
            (mkPlanState added credit resting chosen best)
  end.

(** [CStakeWallet::PlanCoinstake] *)
Definition PlanCoinstake (kernel reward : Z) (candidates : list Z) (base_target : Z) (max_extra : nat)
    (allowance rest_allowance : Z) : CoinstakePlan :=
  if (negb (MoneyRange kernel) || negb (MoneyRange reward) || (kernel >? MAX_MONEY - reward) ||
      (base_target <? MIN_STAKE_TARGET) || negb (MoneyRange base_target))%bool
  then empty_plan
  else
    let target := CompactStakeTarget base_target in
    let split_above := CompactSplitThreshold base_target in
    let credit := kernel + reward in
    let best := mkPlan [] (SplitStakeCredit credit target split_above) 0 no_skips in
    if bool_decide (output_values best = []) then best
    else
      let order := plan_order candidates in
      let count := Z.of_nat (length order) in
      if allowance <=? 0 then add_skips best (mkSkips count 0 0 0)
      else if (max_extra =? 0)%nat then add_skips best (mkSkips 0 count 0 0)
      else
        let order := stable_sort (fun i => candidates !!! i) order in
        let max_extra := Nat.min max_extra (Z.to_nat (MAX_STAKE_COMBINE_INPUTS - 1)) in
        let rest_allowance := clamp rest_allowance 0 base_target in
        let s := plan_loop candidates target split_above max_extra allowance rest_allowance order
                   (mkPlanState 0 credit 0 [] best) in
        add_skips (ps_best s)
          (mkSkips 0 0 (Z.of_nat (length (ps_chosen s)) - Z.of_nat (length (extra_inputs (ps_best s)))) 0).

(** ** Splitting a credit *)

#[local] Notation total l := (sum_of (fun v : Z => v) l).

Lemma sum_of_replicate n v : total (replicate n v) = Z.of_nat n * v.
Proof. induction n; cbn [replicate]; rewrite ?sum_of_nil, ?sum_of_cons; lia. Qed.

(** A layout of [credit]: it spends the credit exactly, on amounts that stake. *)
Definition layout_of (credit : Z) (l : list Z) : Prop :=
  total l = credit /\ Forall (fun v => stakeable v = true) l.

Lemma split_loop_spec k credit : forall n, 1 <= n -> split_loop k credit n = [] \/
  (layout_of credit (split_loop k credit n) /\
   n <= Z.of_nat (length (split_loop k credit n)) < n + Z.of_nat k).
Proof.
  induction k as [|k IH]; intros n Hn; [by left|].
  cbn [split_loop]. set (each := Z.quot _ CENT * CENT). set (first := credit - _).
  destruct (stakeable each && stakeable first)%bool eqn:Hs.
  - apply andb_true_iff in Hs as [He Hf]. right.
    destruct (Z.to_nat n) as [|m] eqn:Hm; [lia|]. cbn [replicate list_insert insert].
    split; [split|].
    + rewrite sum_of_cons, sum_of_replicate. unfold first. replace (n - 1) with (Z.of_nat m) by lia. lia.
    + constructor; [done|]. by apply Forall_replicate.
    + cbn [length]. rewrite length_replicate. lia.
  - destruct (IH (n + 1) ltac:(lia)) as [-> | [H ?]]; [by left|right]. split; [done|lia].
Qed.

Lemma split_pieces_ge credit target : 2 <= split_pieces credit target.
Proof.
  unfold split_pieces, clamp, MAX_STAKE_SPLIT_OUTPUTS. bool_cases; lia.
Qed.

(** A returned layout is exact; only a refused one is empty. *)
Lemma SplitStakeCredit_layout credit target above l : SplitStakeCredit credit target above = l -> l <> [] ->
  layout_of credit l.
Proof.
  intros <- Hne. unfold SplitStakeCredit in *.
  destruct (_ && stakeable credit)%bool eqn:Hw.
  - apply andb_true_iff in Hw as [_ Hs]. split; [rewrite sum_of_cons, sum_of_nil; lia|by constructor].
  - pose proof (split_pieces_ge credit target).
    destruct (split_loop_spec 3 credit (split_pieces credit target) ltac:(lia)) as [? | []]; done.
Qed.

End policy.

(** ** A win always has a layout on the main network *)

(** The size of the pieces: [n] of them fall short of the credit by less than
    [n] cents. *)
Lemma each_bounds credit n : 0 <= credit -> 1 <= n ->
  let each := Z.quot (Z.quot credit n) CENT * CENT in
  n * each <= credit < n * each + n * CENT.
Proof.
  intros Hc Hn. cbv zeta. rewrite (Z.quot_div_nonneg credit n), Z.quot_div_nonneg; [|apply Z.div_pos| |done|]; try (unfold CENT; lia).
  rewrite Z.div_div by (unfold CENT; lia).
  pose proof (Z.div_mod credit (n * CENT)) as H. pose proof (Z.mod_pos_bound credit (n * CENT)) as H'.
  unfold CENT in *. nia.
Qed.

(** Why a number of pieces is refused: the pieces are too small, too large, or
    a collateral amount. *)
Lemma split_refused credit n : 0 <= credit -> 1 <= n <= 42 ->
  let each := Z.quot (Z.quot credit n) CENT * CENT in
  (stakeable main_params each && stakeable main_params (credit - each * (n - 1)))%bool = false ->
  credit < n * 10000 * COIN \/ n * 12500000 * COIN - 18 * COIN < credit \/
  n * 1000000 * COIN - 18 * COIN < credit < n * 1000000 * COIN + COIN \/
  n * 4000000 * COIN - 18 * COIN < credit < n * 4000000 * COIN + COIN.
Proof.
  intros Hc Hn each Hs. pose proof (each_bounds credit n Hc ltac:(lia)) as Hb. cbv zeta in Hb. fold each in Hb.
  set (r := credit - n * each) in *.
  assert (Hr : 0 <= r < 42 * CENT) by (unfold r, CENT in *; nia).
  assert (Hnr : 0 <= n * r <= 42 * (42 * CENT)) by nia.
  replace (credit - each * (n - 1)) with (each + r) in Hs by (unfold r; lia).
  unfold stakeable in Hs. cbn [stakeValueRange main_params fst snd regularMnCollateral evoMnCollateral] in Hs.
  apply andb_false_iff in Hs.
  assert (Hcr : credit = n * each + r) by (unfold r; lia).
  assert (Hrn : r < n * CENT) by lia.
  assert (exists k, each = k * CENT) as [k Hk] by (eexists; reflexivity).
  clearbody each r. unfold COIN, CENT in *.
  assert (each < 10000 * 100000000 \/ 12500000 * 100000000 - r < each \/
    (1000000 * 100000000 - r <= each <= 1000000 * 100000000) \/ (4000000 * 100000000 - r <= each <= 4000000 * 100000000)) as Hcase.
  { rewrite !andb_false_iff, !negb_false_iff, !Z.geb_leb, !Z.leb_gt, !Z.eqb_eq in Hs. lia. }
  destruct Hcase as [H | [H | [H | H]]]; [left | right; left | right; right; left | right; right; right].
  - assert (each + 1000000 <= 10000 * 100000000) by lia. nia.
  - nia.
  - nia.
  - nia.
Qed.

Lemma split_loop_nil params k credit : forall n, 1 <= n -> split_loop params (S k) credit n = [] ->
  let each := Z.quot (Z.quot credit n) CENT * CENT in
  (stakeable params each && stakeable params (credit - each * (n - 1)))%bool = false /\
  split_loop params k credit (n + 1) = [].
Proof.
  intros n Hn. cbn [split_loop]. case_match; [|done].
  destruct (Z.to_nat n) eqn:?; [lia|done].
Qed.

Lemma main_pieces_bounds credit target : MIN_STAKE_TARGET <= target -> 0 <= credit <= MAX_MONEY ->
  let p := split_pieces main_params credit target in
  2 <= p <= 40 /\ credit <= p * 12500000 * COIN /\ (p = 2 \/ p * 20000 * COIN <= credit \/ (p - 1) * 12500000 * COIN < credit).
Proof.
  intros Ht Hc. cbv zeta. unfold split_pieces. cbn [stakeValueRange main_params snd].
  rewrite (proj2 (Z.gtb_lt target 0)) by (unfold MIN_STAKE_TARGET, COIN in *; lia).
  change (12500000 * COIN >? 0) with true. cbv iota.
  rewrite !Z.quot_div_nonneg by (unfold MIN_STAKE_TARGET, COIN in *; lia).
  pose proof (Z.div_mod credit target) as H. pose proof (Z.mod_pos_bound credit target) as H'.
  pose proof (Z.div_mod (credit + 12500000 * COIN - 1) (12500000 * COIN)) as G.
  pose proof (Z.mod_pos_bound (credit + 12500000 * COIN - 1) (12500000 * COIN)) as G'.
  unfold clamp, MAX_STAKE_SPLIT_OUTPUTS, MIN_STAKE_TARGET, MAX_MONEY, COIN in *.
  generalize dependent (credit / target). generalize dependent ((credit + 12500000 * 100000000 - 1) / (12500000 * 100000000)).
  intros q G a H. assert (a * 2000000000000 <= credit \/ a < 0) by nia.
  bool_cases; lia.
Qed.

(** Every credit of at least the staking minimum is laid out. *)
Lemma main_split_exists credit target above : MIN_STAKE_TARGET <= target -> (above <= 0 \/ 30000 * COIN <= above) ->
  10000 * COIN <= credit <= MAX_MONEY -> SplitStakeCredit main_params credit target above <> [].
Proof.
  intros Ht Ha Hc. unfold SplitStakeCredit.
  destruct (_ && stakeable main_params credit)%bool eqn:Hw; [done|]. intros Hnil.
  pose proof (main_pieces_bounds credit target Ht ltac:(unfold COIN in *; lia)) as (Hp & Hhi & Hlo). cbv zeta in Hp, Hhi, Hlo.
  set (p := split_pieces main_params credit target) in *.
  apply split_loop_nil in Hnil as [H1 Hnil]; [|lia]. apply split_loop_nil in Hnil as [H2 _]; [|lia].
  apply split_refused in H1; [|unfold COIN in *; lia|lia]. apply split_refused in H2; [|unfold COIN in *; lia|lia].
  assert (30000 * COIN <= credit) as Hbig.
  { apply andb_false_iff in Hw. unfold stakeable in Hw. cbn [stakeValueRange main_params fst snd regularMnCollateral evoMnCollateral] in Hw.
    rewrite !andb_false_iff, !orb_false_iff, !negb_false_iff, !Z.geb_leb, !Z.leb_gt, !Z.eqb_eq, !Z.ltb_ge in Hw.
    unfold MIN_STAKE_TARGET, COIN in *. destruct (Z.gtb_spec above 0); lia. }
  clearbody p. clear Hw. unfold MAX_MONEY, COIN in *. lia.
Qed.

(** ** The plan of a win *)

Section plan.

Context (params : ConsensusParams) (candidates : list Z) (target split_above : Z).
Context (max_extra : nat) (allowance rest_allowance credit0 : Z).

Definition value_of (i : nat) : Z := candidates !!! i.

(** What taking a candidate keeps from staking *)
Definition rest_cost (i : nat) : Z := if value_of i >=? (stakeValueRange params).1 then value_of i else 0.

(** The layout of the kernel together with the outputs [l] *)
Definition layout_with (l : list nat) : list Z := SplitStakeCredit params (credit0 + sum_of value_of l) target split_above.

(** Spending [l] with the kernel respects every budget. *)
Record choice_ok (l : list nat) : Prop := {
  ch_count : (length l <= max_extra)%nat;
  ch_value : sum_of value_of l <= allowance;
  ch_rest : sum_of rest_cost l <= rest_allowance;
  ch_money : credit0 + sum_of value_of l <= MAX_MONEY;
}.

(** A plan made from a prefix of the candidates walked over: no extra input
    unless it lowers the number of outputs, below the kernel alone as well. *)
Record best_ok (chosen : list nat) (p : CoinstakePlan) : Prop := {
  be_prefix : extra_inputs p `prefix_of` chosen;
  be_choice : choice_ok (extra_inputs p);
  be_layout : output_values p = layout_with (extra_inputs p);
  be_nonempty : output_values p <> [];
  be_rest : extra_resting_value p = sum_of rest_cost (extra_inputs p);
  be_reduces : extra_inputs p = [] \/
    (UtxoDelta p < 0 /\ UtxoDelta p < Z.of_nat (length (layout_with [])) - 1);
}.

Record state_ok (s : plan_state) : Prop := {
  st_added : ps_added s = sum_of value_of (ps_chosen s);
  st_credit : ps_credit s = credit0 + sum_of value_of (ps_chosen s);
  st_resting : ps_resting s = sum_of rest_cost (ps_chosen s);
  st_choice : choice_ok (ps_chosen s);
  st_best : best_ok (ps_chosen s) (ps_best s);
}.

Lemma best_ok_weaken chosen i p : best_ok chosen p -> best_ok (chosen ++ [i]) p.
Proof. intros []. split; try done. by apply prefix_app_r. Qed.

Lemma best_ok_skips chosen p sk : best_ok chosen p -> best_ok chosen (add_skips p sk).
Proof. by intros []. Qed.

(** The walk keeps the invariant, visits the candidates in order and counts
    the ones it does not reach. *)
Lemma plan_loop_ok order : forall s, state_ok s ->
  let r := plan_loop params candidates target split_above max_extra allowance rest_allowance order s in
  state_ok r /\ exists unvisited, ps_chosen r ++ unvisited = ps_chosen s ++ order /\
  skips_Total (skipped (ps_best r)) = skips_Total (skipped (ps_best s)) + Z.of_nat (length unvisited).
Proof.
  induction order as [|i order IH]; intros s Hs; cbv zeta.
  { split; [done|]. exists []. cbn [length]. split; [done|]. cbn. lia. }
  cbn [plan_loop].
  destruct (_ =? max_extra)%nat eqn:Hmax.
  { split; [destruct Hs; split; try done; by apply best_ok_skips|].
    exists (i :: order). split; [done|]. unfold add_skips, skips_Total, skips_add. cbn [ps_best skipped sk_budget sk_size sk_split sk_signature]. lia. }
  apply Nat.eqb_neq in Hmax.
  destruct (_ || _ || _)%bool eqn:Hstop.
  { split; [destruct Hs; split; try done; by apply best_ok_skips|].
    exists (i :: order). split; [done|]. unfold add_skips, skips_Total, skips_add. cbn [ps_best skipped sk_budget sk_size sk_split sk_signature]. lia. }
  bool_hyps. change (candidates !!! i) with (value_of i) in *. fold (rest_cost i) in *.
  match goal with |- context [mkPlanState _ _ _ (ps_chosen s ++ [i]) ?b] => set (best := b) end.
  destruct Hs as [Ha Hc Hr Hch Hb].
  assert (choice_ok (ps_chosen s ++ [i])) as Hch'.
  { destruct Hch. split; rewrite ?length_app, ?sum_of_app, ?sum_of_cons, ?sum_of_nil; cbn [length];
      lia. }
  edestruct (IH (mkPlanState (ps_added s + value_of i) (ps_credit s + value_of i)
    (ps_resting s + rest_cost i) (ps_chosen s ++ [i]) best)) as (Hok & un & Hun & Hsk).
  - split; cbn [ps_added ps_credit ps_resting ps_chosen ps_best]; rewrite ?sum_of_app, ?sum_of_cons, ?sum_of_nil; try lia; try done.
    unfold best. destruct (negb _ && _ && _)%bool eqn:Hbest; [|by apply best_ok_weaken].
    apply andb_true_iff in Hbest as [[Hne Hneg]%andb_true_iff Hless].
    apply negb_true_iff, bool_decide_eq_false in Hne. bool_hyps.
    split; cbn [extra_inputs output_values extra_resting_value]; try done.
    + unfold layout_with. rewrite sum_of_app, sum_of_cons, sum_of_nil, Hc. f_equal. lia.
    + rewrite sum_of_app, sum_of_cons, sum_of_nil. lia.
    + right. unfold UtxoDelta. cbn [extra_inputs output_values].
      destruct Hb as [_ _ Hlay _ _ [Hnil | [_ ?]]]; unfold UtxoDelta in *; [|lia].
      rewrite Hnil in *. rewrite Hlay in *. cbn [length] in *. lia.
  - split; [exact Hok|]. exists un. cbn [ps_chosen ps_best] in *. rewrite Hsk.
    split; [by rewrite Hun, <- app_assoc|]. unfold best. by destruct (negb _ && _ && _)%bool.
Qed.

End plan.

(** [stable_sort] permutes and sorts. *)
Lemma insert_stable_perm key x l : insert_stable key x l ≡ₚ x :: l.
Proof.
  induction l as [|y l IH]; [done|]. cbn [insert_stable]. case_match; [|done].
  rewrite IH. apply Permutation_swap.
Qed.

Lemma stable_sort_perm key l : stable_sort key l ≡ₚ l.
Proof. induction l as [|x l IH]; [done|]. cbn [stable_sort foldr]. rewrite insert_stable_perm. by f_equiv. Qed.

Lemma insert_stable_sorted key x l :
  StronglySorted (fun a b => key a <= key b) l -> StronglySorted (fun a b => key a <= key b) (insert_stable key x l).
Proof.
  induction 1 as [|y l Hl IH Hy]; cbn [insert_stable]; [repeat constructor|].
  destruct (Z.ltb_spec (key y) (key x)).
  - constructor; [done|]. rewrite insert_stable_perm. constructor; [lia|done].
  - constructor; [by constructor|]. constructor; [lia|]. eapply Forall_impl; [exact Hy|]. cbn. lia.
Qed.

Lemma stable_sort_sorted key l : StronglySorted (fun a b => key a <= key b) (stable_sort key l).
Proof. induction l; [constructor|]. by apply insert_stable_sorted. Qed.

(** In a sorted list, what a prefix leaves out is no smaller. *)
Lemma prefix_smallest key l p i j : StronglySorted (fun a b : nat => key a <= key b) l -> p `prefix_of` l ->
  i ∈ p -> j ∈ l -> j ∉ p -> key i <= key j.
Proof.
  intros Hs [q ->] Hi Hj Hn. apply elem_of_app in Hj as [?|Hj]; [done|].
  apply StronglySorted_app in Hs as (H & _). by apply (H i j).
Qed.

Lemma plan_order_spec params candidates i :
  i ∈ plan_order params candidates <-> exists v, candidates !! i = Some v /\ plan_eligible params v = true.
Proof.
  unfold plan_order. rewrite list_elem_of_filter, elem_of_seq. split.
  - intros [He Hi]. destruct (lookup_lt_is_Some_2 candidates i ltac:(lia)) as [v Hv].
    exists v. split; [done|]. apply list_lookup_total_correct in Hv. rewrite Hv in He. by apply Is_true_true.
  - intros (v & Hv & He). split; [|apply lookup_lt_Some in Hv; lia].
    apply list_lookup_total_correct in Hv. rewrite Hv. by apply Is_true_true.
Qed.

Lemma plan_order_NoDup params candidates : NoDup (plan_order params candidates).
Proof. apply NoDup_filter, NoDup_seq. Qed.

(** What a usable plan promises *)
Record plan_ok (params : ConsensusParams) (candidates : list Z) (base_target : Z) (max_extra : nat)
    (allowance rest_allowance credit : Z) (p : CoinstakePlan) : Prop := {
  po_distinct : NoDup (extra_inputs p);
  po_eligible : forall i, i ∈ extra_inputs p -> exists v, candidates !! i = Some v /\ plan_eligible params v = true;
  po_smallest : forall i j v, i ∈ extra_inputs p -> j ∉ extra_inputs p -> candidates !! j = Some v ->
    plan_eligible params v = true -> value_of candidates i <= v;
  po_count : (length (extra_inputs p) <= Nat.min max_extra 19)%nat;
  po_layout : layout_of params (credit + sum_of (value_of candidates) (extra_inputs p)) (output_values p);
  po_money : credit + sum_of (value_of candidates) (extra_inputs p) <= MAX_MONEY;
  po_reserve : sum_of (value_of candidates) (extra_inputs p) <= Z.max 0 allowance;
  po_resting : extra_resting_value p = sum_of (rest_cost params candidates) (extra_inputs p);
  po_rest_budget : extra_resting_value p <= Z.min base_target (Z.max 0 rest_allowance);
  po_reduces : extra_inputs p <> [] -> UtxoDelta p < 0 /\
    UtxoDelta p < Z.of_nat (length (SplitStakeCredit params credit (CompactStakeTarget params base_target)
      (CompactSplitThreshold params base_target))) - 1;
  po_accounted : skips_Total (skipped p) + Z.of_nat (length (extra_inputs p)) =
    Z.of_nat (length (plan_order params candidates));
}.

Lemma choice_ok_nil params candidates max_extra allowance rest_allowance credit : 0 <= allowance -> 0 <= rest_allowance ->
  credit <= MAX_MONEY -> choice_ok params candidates max_extra allowance rest_allowance credit [].
Proof. intros. split; rewrite ?sum_of_nil; cbn [length]; lia. Qed.

(** The kernel alone, with every eligible candidate counted as skipped *)
Lemma kernel_only_ok params candidates base_target max_extra allowance rest_allowance credit sk :
  0 <= base_target -> credit <= MAX_MONEY -> skips_Total sk = Z.of_nat (length (plan_order params candidates)) ->
  let l := SplitStakeCredit params credit (CompactStakeTarget params base_target) (CompactSplitThreshold params base_target) in
  l <> [] -> plan_ok params candidates base_target max_extra allowance rest_allowance credit (mkPlan [] l 0 sk).
Proof.
  intros Hb Hc Hsk l Hl. split; cbn [extra_inputs output_values extra_resting_value skipped length];
    rewrite ?sum_of_nil; try lia; try done.
  - constructor.
  - by intros i ?%not_elem_of_nil.
  - by intros i j v ?%not_elem_of_nil.
  - rewrite Z.add_0_r. by eapply SplitStakeCredit_layout.
Qed.

(** The plan the walk ends with *)
Lemma walked_plan_ok params candidates base_target max_extra allowance rest_allowance credit best :
  0 <= allowance -> 0 <= base_target -> credit <= MAX_MONEY ->
  let target := CompactStakeTarget params base_target in
  let above := CompactSplitThreshold params base_target in
  best = mkPlan [] (SplitStakeCredit params credit target above) 0 no_skips -> output_values best <> [] ->
  let s := plan_loop params candidates target above (Nat.min max_extra 19) allowance (clamp rest_allowance 0 base_target)
    (stable_sort (value_of candidates) (plan_order params candidates)) (mkPlanState 0 credit 0 [] best) in
  plan_ok params candidates base_target max_extra allowance rest_allowance credit (add_skips (ps_best s)
    (mkSkips 0 0 (Z.of_nat (length (ps_chosen s)) - Z.of_nat (length (extra_inputs (ps_best s)))) 0)).
Proof.
  intros Hal Hbt Hcr target above Hbest Hne s.
  assert (0 <= clamp rest_allowance 0 base_target) as Hcl by (unfold clamp; bool_cases; lia).
  edestruct (plan_loop_ok params candidates target above (Nat.min max_extra 19) allowance
    (clamp rest_allowance 0 base_target) credit (stable_sort (value_of candidates) (plan_order params candidates))
    (mkPlanState 0 credit 0 [] best)) as [Hok (un & Hun & Hsk)].
  { split; cbn [ps_added ps_credit ps_resting ps_chosen ps_best]; rewrite ?sum_of_nil; try lia.
    - by apply choice_ok_nil.
    - subst best. split; cbn [extra_inputs output_values extra_resting_value]; try done.
      + by apply choice_ok_nil.
      + unfold layout_with. rewrite sum_of_nil, Z.add_0_r. done.
      + by left. }
  cbv zeta in Hok, Hun, Hsk. fold s in Hok, Hun, Hsk. cbn [ps_chosen app] in Hun.
  destruct Hok as [_ _ _ _ [Hpre [Hcount Hval Hrest Hmoney] Hlay Hnonempty Hrv Hred]].
  set (srt := stable_sort _ _) in *.
  assert (Hperm : srt ≡ₚ plan_order params candidates) by apply stable_sort_perm.
  assert (Hpre' : extra_inputs (ps_best s) `prefix_of` srt) by (rewrite <- Hun; by apply prefix_app_r).
  assert (Hin : forall i, i ∈ srt <-> i ∈ plan_order params candidates) by (intros i; by rewrite Hperm).
  split; unfold add_skips; cbn [extra_inputs output_values extra_resting_value skipped]; try done.
  - destruct Hpre' as [q Hq]. pose proof (plan_order_NoDup params candidates) as Hnd. rewrite <- Hperm, Hq in Hnd.
    by apply NoDup_app in Hnd as [].
  - intros i Hi. apply plan_order_spec, Hin. destruct Hpre' as [q Hq]. rewrite Hq. apply elem_of_app. by left.
  - intros i j v Hi Hj Hv He. replace v with (value_of candidates j) by (by apply list_lookup_total_correct).
    eapply prefix_smallest; [apply stable_sort_sorted|exact Hpre'|done| |done].
    apply Hin, plan_order_spec. by exists v.
  - eapply SplitStakeCredit_layout; [|done]. by rewrite Hlay.
  - lia.
  - rewrite Hrv. unfold clamp in Hrest. revert Hrest. bool_cases; lia.
  - intros Hex. destruct Hred as [?|[H1 H2]]; [done|]. split; [done|].
    unfold layout_with in H2. rewrite sum_of_nil, Z.add_0_r in H2. done.
  - subst best. cbn in Hsk. rewrite <- Hperm, <- Hun, length_app.
    unfold skips_Total, skips_add, no_skips in *. cbn [sk_budget sk_size sk_split sk_signature] in *.
    lia.
Qed.

Lemma PlanCoinstake_ok params kernel reward candidates base_target max_extra allowance rest_allowance :
  let p := PlanCoinstake params kernel reward candidates base_target max_extra allowance rest_allowance in
  output_values p <> [] ->
  plan_ok params candidates base_target max_extra allowance rest_allowance (kernel + reward) p.
Proof.
  cbv zeta. unfold PlanCoinstake. destruct (_ || _)%bool eqn:Hguard; [done|]. cbn [output_values].
  repeat (apply orb_false_iff in Hguard as [Hguard ?]). unfold MoneyRange in *. bool_hyps.
  destruct (bool_decide _) eqn:Hempty; [by apply bool_decide_eq_true in Hempty|]. apply bool_decide_eq_false in Hempty.
  destruct (Z.leb_spec allowance 0); [|destruct (Nat.eqb_spec max_extra 0)]; intros _.
  1,2: apply kernel_only_ok; [unfold MIN_STAKE_TARGET, COIN in *; lia|lia| |done];
       unfold skips_Total; cbn [skips_add no_skips skipped sk_budget sk_size sk_split sk_signature]; lia.
  apply walked_plan_ok; [lia|unfold MIN_STAKE_TARGET, COIN in *; lia|lia|done|done].
Qed.

(** C8: a coinstake plan that is not refused pays out exactly the kernel, the
    reward and the outputs it combines, in amounts that all may stake again;
    the combined outputs are distinct eligible candidates, the smallest ones,
    at most nineteen and within the block's room, what the reserve leaves and
    the resting-value budget; they are combined only when that lowers the
    number of the wallet's outputs, also compared with the kernel alone; and
    every eligible candidate is either combined or counted as skipped. *)
Theorem PlanCoinstake_correct params kernel reward candidates base_target max_extra allowance rest_allowance :
  output_values (PlanCoinstake params kernel reward candidates base_target max_extra allowance rest_allowance) <> [] ->
  plan_ok params candidates base_target max_extra allowance rest_allowance (kernel + reward)
    (PlanCoinstake params kernel reward candidates base_target max_extra allowance rest_allowance).
Proof. apply PlanCoinstake_ok. Qed.

Definition demo_candidates : list Z := [9000 * COIN; 1000000 * COIN; 12000 * COIN; 3 * COIN; 5000 * COIN].

Lemma PlanCoinstake_correct_witness :
  let p := PlanCoinstake main_params (15000 * COIN) (500 * COIN) demo_candidates (20000 * COIN) 10
    (50000 * COIN) (15000 * COIN) in
  p = mkPlan [3; 4; 0; 2]%nat [41503 * COIN] (12000 * COIN) no_skips /\
  plan_ok main_params demo_candidates (20000 * COIN) 10 (50000 * COIN) (15000 * COIN) (15500 * COIN) p.
Proof.
  split; [vm_compute; reflexivity|].
  apply (PlanCoinstake_correct main_params (15000 * COIN) (500 * COIN)). vm_compute. discriminate.
Defined.

(** On the main network a win is never lost to its layout: for every
    admissible target size, every credit between the staking minimum and the
    money supply is split into amounts that sum to it and may all stake again,
    at most forty-two of them, and at most twelve when the credit is no more
    than ten times the staking maximum; it is kept whole exactly when it is
    below the splitting threshold and may stake as it is. *)
Theorem SplitStakeCredit_main credit target above :
  MIN_STAKE_TARGET <= target -> (above <= 0 \/ 30000 * COIN <= above) -> 10000 * COIN <= credit <= MAX_MONEY ->
  let l := SplitStakeCredit main_params credit target above in
  l <> [] /\ layout_of main_params credit l /\ (length l <= 42)%nat /\
  (credit <= 10 * (12500000 * COIN) -> (length l <= 12)%nat) /\
  (l = [credit] <-> stakeable main_params credit = true /\ credit < (if above >? 0 then above else 2 * target)).
Proof.
  intros Ht Ha Hc l. pose proof (main_split_exists credit target above Ht Ha Hc) as Hne. fold l in Hne.
  split; [done|]. split; [by eapply SplitStakeCredit_layout|].
  assert (0 < target) as Hpos by (unfold MIN_STAKE_TARGET, COIN in *; lia).
  unfold l, SplitStakeCredit in *. rewrite (proj2 (Z.leb_gt target 0)) in * by lia. cbn [orb] in *.
  destruct ((credit <? (if above >? 0 then above else 2 * target)) && stakeable main_params credit)%bool eqn:Hkeep.
  { bool_hyps. cbn [length]. split; [lia|]. split; [lia|]. done. }
  pose proof (main_pieces_bounds credit target Ht ltac:(unfold COIN in *; lia)) as (Hp & _ & Hlo). cbv zeta in Hp, Hlo.
  destruct (split_loop_spec main_params 3 credit (split_pieces main_params credit target) ltac:(lia)) as [? | [_ Hlen]]; [done|].
  split; [lia|]. apply and_comm. split.
  { split; [intros E; rewrite E in Hlen; cbn [length] in Hlen; lia|].
    intros [Hs Hlt]. rewrite Hs, (proj2 (Z.ltb_lt _ _) Hlt) in Hkeep. done. }
  intros Hten. enough (split_pieces main_params credit target <= 10) by lia.
  clear -Hc Hten. unfold split_pieces. cbn [stakeValueRange main_params snd]. change (12500000 * COIN >? 0) with true. cbv iota.
  assert (Z.quot (credit + 12500000 * COIN - 1) (12500000 * COIN) <= 10).
  { rewrite Z.quot_div_nonneg by (unfold COIN in *; lia). apply Z.lt_succ_r, Z.div_lt_upper_bound; unfold COIN in *; lia. }
  unfold clamp, MAX_STAKE_SPLIT_OUTPUTS. bool_cases; lia.
Qed.

Lemma SplitStakeCredit_main_witness :
  let l := SplitStakeCredit main_params (2000000 * COIN) (1000000 * COIN) 0 in
  (l = [66666668 * CENT; 66666666 * CENT; 66666666 * CENT]) /\
  l <> [] /\ layout_of main_params (2000000 * COIN) l /\ (length l <= 42)%nat /\
  (2000000 * COIN <= 10 * (12500000 * COIN) -> (length l <= 12)%nat).
Proof.
  split; [vm_compute; reflexivity|].
  edestruct (SplitStakeCredit_main (2000000 * COIN) (1000000 * COIN) 0) as (H1 & H2 & H3 & H4 & _); [..|exact (conj H1 (conj H2 (conj H3 H4)))]; [unfold MIN_STAKE_TARGET, COIN; lia|lia|unfold MAX_MONEY, COIN; lia].
Defined.

(** The allowance for optional consolidation is five percent of the
    wallet's staking pool, rounded down, less what rests already and the
    kernel, and never negative; dividing before multiplying gives the same
    budget as the direct formula while every intermediate value of a pool that
    fits 64 bits fits them too. *)
Theorem CombineRestAllowance_exact eligible resting kernel :
  0 <= eligible -> 0 <= resting -> 0 <= kernel -> eligible + resting <= INT64_MAX ->
  let pool := eligible + resting in
  CombineRestAllowance eligible resting kernel = Z.max 0 (pool * 500 / 10000 - resting - kernel) /\
  is_i64 (Z.quot pool 10000 * STAKE_COMBINE_REST_BUDGET_BPS) /\
  is_i64 (Z.rem pool 10000 * STAKE_COMBINE_REST_BUDGET_BPS) /\ is_i64 (pool * 500 / 10000) /\
  (forall e r k, e + r > INT64_MAX \/ e < 0 \/ r < 0 \/ k < 0 -> CombineRestAllowance e r k = 0).
Proof.
  intros He Hr Hk Hp pool. unfold INT64_MAX in *. assert (Hpool : 0 <= pool < 2^63) by (unfold pool; lia).
  assert (Hq : Z.quot pool 10000 * 500 + Z.quot (Z.rem pool 10000 * 500) 10000 = pool * 500 / 10000).
  { pose proof (Z.mod_pos_bound pool 10000 ltac:(lia)) as Hm.
    rewrite Z.rem_mod_nonneg, (Z.quot_div_nonneg pool), (Z.quot_div_nonneg (_ * 500)) by lia.
    rewrite (Z.div_mod pool 10000) at 3 by lia.
    replace ((10000 * (pool / 10000) + pool mod 10000) * 500) with ((pool / 10000 * 500) * 10000 + pool mod 10000 * 500) by lia.
    rewrite Z.div_add_l by lia. done. }
  pose proof (Z.div_pos pool 10000). pose proof (Z.mod_pos_bound pool 10000).
  unfold STAKE_COMBINE_REST_BUDGET_BPS, is_i64. split_and!.
  - unfold CombineRestAllowance, STAKE_COMBINE_REST_BUDGET_BPS, INT64_MAX. fold pool. rewrite Hq.
    bool_cases; cbn [orb]; lia.
  - rewrite Z.quot_div_nonneg by lia. pose proof (Z.div_pos pool 10000). lia.
  - rewrite Z.quot_div_nonneg by lia. pose proof (Z.mul_div_le pool 10000). lia.
  - rewrite Z.rem_mod_nonneg by lia. pose proof (Z.mod_pos_bound pool 10000). lia.
  - rewrite Z.rem_mod_nonneg by lia. pose proof (Z.mod_pos_bound pool 10000). lia.
  - pose proof (Z.div_pos (pool * 500) 10000). lia.
  - apply Z.div_lt_upper_bound; lia.
  - intros e r k Hbad. unfold CombineRestAllowance, INT64_MAX. bool_cases; cbn [orb]; try lia; done.
Qed.

Lemma CombineRestAllowance_exact_witness :
  CombineRestAllowance (1000000 * COIN) (20000 * COIN) (15000 * COIN) = 16000 * COIN /\
  CombineRestAllowance (1000000 * COIN) (20000 * COIN) (15000 * COIN) =
    Z.max 0 ((1000000 * COIN + 20000 * COIN) * 500 / 10000 - 20000 * COIN - 15000 * COIN).
Proof.
  split; [vm_compute; reflexivity|].
  apply (CombineRestAllowance_exact (1000000 * COIN) (20000 * COIN) (15000 * COIN)); unfold INT64_MAX, COIN; lia.
Defined.
