(* ===== verification/StakeTarget.v ===== *)
(** * StakeTarget: the estimate of the network's weight and the target size
      (src/src/pos/kernel.cpp, src/src/validation.cpp, src/src/pos/stake.cpp)

    The computations in [double] are carried out in the standard library's
    executable model of IEEE 754 binary64, with rounding to nearest even. *)

From Stdlib Require Import ZArith Lia SpecFloat.
From stdpp Require Import base list numbers option gmap.
From S2P Require Import Prelude Arith256 Uint256 Chain Params StakePolicy.

(** ** [double] *)

Definition double : Type := spec_float.
Definition d_mul : double -> double -> double := SFmul 53 1024.
Definition d_div : double -> double -> double := SFdiv 53 1024.
Definition d_add : double -> double -> double := SFadd 53 1024.

(** Conversion of an integer, rounding to nearest even *)
Definition d_of_Z (z : Z) : double := binary_normalize 53 1024 z 0 false.

(** [std::isfinite] *)
Definition isfinite (d : double) : bool :=
  match d with S754_zero _ | S754_finite _ _ _ => true | S754_infinity _ | S754_nan => false end.

(** [static_cast<int64_t>]: towards zero.  Undefined for values that are not
    finite, which no caller passes. *)
Definition d_trunc (d : double) : Z :=
  match d with
  | S754_finite s m e => let n := Z.shiftl (Z.pos m) e in if s then - n else n
  | _ => 0
  end.

(** ** The network's weight *)

(** [ConvertBitsToDouble]: the two loops run [|29 - nShift|] times in all. *)
Definition ConvertBitsToDouble (nBits : Z) : double :=
  let nShift := Z.land (Z.shiftr nBits 24) 0xff in
  let dDiff := d_div (d_of_Z 0xffff) (d_of_Z (Z.land nBits 0xffffff)) in
  let dDiff := Nat.iter (Z.to_nat (29 - nShift)) (fun d => d_mul d (d_of_Z 256)) dDiff in
  Nat.iter (Z.to_nat (nShift - 29)) (fun d => d_div d (d_of_Z 256)) dDiff.

(** [GetDifficulty] *)
Definition GetDifficulty (b : CBlockIndex) : double := ConvertBitsToDouble (nBits b).

(** The locals of [GetPoSKernelPS]: [pindexPrevStake], [dStakeKernelsTriedAvg],
    [nStakesTime], [nStakesHandled] *)
Record kernel_ps : Type := mkKernelPS {
  prevStake : option CBlockIndex;
  triedAvg : double;
  stakesTime : Z;
  stakesHandled : Z;
}.

Definition kernel_ps_step (b : CBlockIndex) (s : kernel_ps) : kernel_ps :=
  if IsProofOfStake b then
    match prevStake s with
    | Some p =>
        mkKernelPS (Some b) (d_add (triedAvg s) (d_mul (GetDifficulty p) (d_of_Z 4294967296)))
          (i32 (stakesTime s + (nTime p - nTime b))) (stakesHandled s + 1)
    | None => mkKernelPS (Some b) (triedAvg s) (stakesTime s) (stakesHandled s)
    end
  else s.

(** The walk back; [None] is out of fuel. *)
Fixpoint kernel_ps_loop (fuel : nat) (bi : gmap uint256 CBlockIndex) (pindex : option uint256) (s : kernel_ps)
    : option kernel_ps :=
  match fuel with
  | O => None
  | S fuel' =>
      match pindex ≫= (bi !!.) with
      | None => Some s
      | Some b => if stakesHandled s <? 72 then kernel_ps_loop fuel' bi (pprev b) (kernel_ps_step b s) else Some s
      end
  end.

(** [GetPoSKernelPS] *)
Definition GetPoSKernelPS (bi : gmap uint256 CBlockIndex) (params : ConsensusParams) (pindex : uint256) : option double :=
  b ← bi !! pindex;
  s ← kernel_ps_loop (Z.to_nat (nHeight b) + 2) bi (Some pindex) (mkKernelPS None (d_of_Z 0) 0 0);
  let result := if stakesTime s =? 0 then d_of_Z 0 else d_div (triedAvg s) (d_of_Z (stakesTime s)) in
  Some (d_mul result (d_of_Z (u32 (posTimestampMask params + 1)))).

(** ** The target size *)

Definition STAKE_REST_BUDGET_BPS : Z := 100.

Section target.

Context (params : ConsensusParams).

Definition target_floor : Z := Z.max (2 * (stakeValueRange params).1) MIN_STAKE_TARGET.
Definition target_ceiling : Z := Z.max target_floor (Z.quot (stakeValueRange params).2 2).

Definition rest_blocks : Z :=
  let rest := COINBASE_MATURITY + 2 in
  if posTargetSpacing params >? 0
  then Z.max rest (Z.quot ((stakeAgeRange params).1 + posTargetSpacing params - 1) (posTargetSpacing params))
  else rest.

(** [CStakeWallet::StakeTargetSize] *)
Definition StakeTargetSize (network_weight : double) (configured : Z) : Z :=
  let floor := target_floor in
  let ceiling := target_ceiling in
  if configured >? 0 then clamp configured floor ceiling
  else if (negb (SFltb (d_of_Z 0) network_weight) || negb (isfinite network_weight))%bool then floor
  else
    let wanted := d_div (d_div (d_mul network_weight (d_of_Z STAKE_REST_BUDGET_BPS)) (d_of_Z 10000)) (d_of_Z rest_blocks) in
    if SFleb (d_of_Z ceiling) wanted then ceiling
    else clamp (Z.quot (d_trunc wanted) COIN * COIN) floor ceiling.

End target.

(** ** Lemmas *)

Lemma clamp_bounds v lo hi : lo <= hi -> lo <= clamp v lo hi <= hi.
Proof. unfold clamp. bool_cases; lia. Qed.

Lemma kernel_ps_loop_total bi : tree_wf bi -> forall fuel h b s, bi !! h = Some b ->
  (Z.to_nat (nHeight b) + 2 <= fuel)%nat -> is_Some (kernel_ps_loop fuel bi (Some h) s).
Proof.
  intros Hwf fuel. induction fuel as [|fuel IH]; intros h b s Hb Hf; [lia|].
  cbn [kernel_ps_loop mbind option_bind]. rewrite Hb. destruct (_ <? 72); [|done].
  destruct (Hwf h b Hb) as [Hh Hprev _]. destruct (pprev b) as [p|] eqn:Hp.
  - destruct (pprev_height bi Hwf h b p Hb Hp) as (pb & Hpb & Hph).
    eapply IH; [exact Hpb|]. pose proof (ew_height _ _ _ (Hwf p pb Hpb)). lia.
  - destruct fuel; [lia|]. cbn. done.
Qed.

Lemma target_floor_main : target_floor main_params = 20000 * COIN.
Proof. reflexivity. Qed.
Lemma target_ceiling_main : target_ceiling main_params = 6250000 * COIN.
Proof. reflexivity. Qed.
