(* ===== verification/StakeWallet.v ===== *)
(** * StakeWallet: choosing coins and building a coinstake (src/src/pos/stake.cpp)

    The wallet is seen through what staking asks of it: the outputs it offers,
    its balances and options, and the managers of its keys.  Keys, script
    matching and signature production are the operations of the class
    [KeyStore], which the definitions take as an argument; the hash function is
    the argument [Hash]. *)

From Stdlib Require Import ZArith Lia SpecFloat.
From stdpp Require Import base list numbers option gmap.
From S2P Require Import Prelude Arith256 Uint256 Serialize Transaction Script Standard Chain ActiveChain Params Kernel StakePolicy StakeTarget.

(** [CWalletTx::Status] *)
Inductive TxStatus : Type :=
| UNCONFIRMED
| CONFIRMED
| CONFLICTED
| ABANDONED.

#[export] Instance TxStatus_eq_dec : EqDecision TxStatus.
Proof. solve_decision. Defined.

(** [CWalletTx]: the hash and outputs of the transaction, [m_confirm] and the times *)
Record CWalletTx : Type := mkWalletTx {
  wtx_hash : uint256;
  wtx_vout : list CTxOut;
  conf_status : TxStatus;
  conf_block_height : Z;
  conf_hashBlock : uint256;
  nTimeSmart : Z;
  nTimeReceived : Z;
}.

(** [COutput]: an output of a wallet transaction, by its index *)
Record COutput : Type := mkOutput {
  out_tx : CWalletTx;
  out_i : nat;
  fSpendable : bool;
}.

(** A wallet transaction, as a pointer into the wallet, with an output index *)
Definition coin_ref : Type := (CWalletTx * nat)%type.

Definition coin_outpoint (c : coin_ref) : COutPoint := mkOutPoint (wtx_hash c.1) (Z.of_nat c.2).

(** [tx->vout[i]]; past the end the access is undefined. *)
Definition coin_txout (c : coin_ref) : outcome CTxOut := deref (wtx_vout c.1 !! c.2).

Definition out_ref (o : COutput) : coin_ref := (out_tx o, out_i o).

(** [CWalletTx::GetTxTime] *)
Definition GetTxTime (w : CWalletTx) : Z := if nTimeSmart w =? 0 then nTimeReceived w else nTimeSmart w.

(** Insertion into a [std::set] of references; two references are equal when
    they name the same transaction of the wallet and the same output. *)
Definition set_insert (c : coin_ref) (s : list coin_ref) : list coin_ref :=
  if existsb (fun d => bool_decide (coin_outpoint d = coin_outpoint c)) s then s else s ++ [c].

(** [StakeAttempt] *)
Inductive StakeAttempt : Type :=
| BlockFound
| NoKernelFound
| NoEligibleCoins
| Stopped
| Error.

#[export] Instance StakeAttempt_eq_dec : EqDecision StakeAttempt.
Proof. solve_decision. Defined.

(** [StakeAttemptWarrantsPause] *)
Definition StakeAttemptWarrantsPause (attempt : StakeAttempt) : bool := bool_decide (attempt = NoEligibleCoins).

(** [StakeWalletInfo] *)
Record StakeWalletInfo : Type := mkInfo {
  weight : Z;
  spendable_outputs : Z;
  excluded : StakeSkipReport;
}.

(** ** Keys, scripts and signatures *)

Class KeyStore : Type := {
  CKey : Type;
  CPubKey : Type;
  SigningProvider : Type;
  GetPubKey : CKey -> CPubKey;
  CPubKey_of : list Z -> CPubKey;
  pubkey_eqb : CPubKey -> CPubKey -> bool;
  ToByteVector : CPubKey -> list Z;
  GetID : CPubKey -> list Z;
  Hash160 : list Z -> list Z;
  (** [SigningProvider::GetKey] *)
  GetKey : SigningProvider -> list Z -> option CKey;
  (** [Solver]: the type of a script and the data it carries *)
  Solver : CScript -> TxoutType * list (list Z);
  (** [ProduceSignature]: the input script for input [i] of the transaction,
      spending an amount held at a script *)
  ProduceSignature : SigningProvider -> CTransaction -> nat -> Z -> CScript -> option CScript;
}.

(** [ScriptPubKeyMan]: a descriptor manager offers a provider for the scripts
    it knows; the legacy manager is a provider itself. *)
Inductive ScriptPubKeyMan `{KeyStore} : Type :=
| DescriptorScriptPubKeyMan (GetSigningProvider : CScript -> option SigningProvider)
| LegacyScriptPubKeyMan (self : SigningProvider).

(** [CWallet], as staking sees it *)
Record CWallet `{KeyStore} : Type := mkWallet {
  AvailableCoins : Z -> Z -> list COutput;
  m_mine_trusted : Z;
  m_mine_immature : Z;
  nReserveBalance : Z;
  GetLastBlockHeight : Z;
  findBlock : uint256 -> option Z;
  m_stake_target : Z;
  m_stake_combine : bool;
  m_stake_combine_wallet : bool;
  GetAllScriptPubKeyMans : list ScriptPubKeyMan;
}.

Definition COINSTAKE_INPUT_BYTES : Z := 181.
Definition COINSTAKE_OUTPUT_BYTES : Z := 76.
Definition COINSTAKE_FIXED_BYTES : Z := 16.
Definition SEQUENCE_FINAL : Z := 0xffffffff.

(** [GetProofOfStakeReward] *)
Definition GetProofOfStakeReward : Z := 500 * COIN.

Section wallet.

Context `{KeyStore} (params : ConsensusParams).

(** [CWalletTx::GetDepthInMainChain] *)
Definition GetDepthInMainChain (w : CWallet) (tx : CWalletTx) : Z :=
  match conf_status tx with
  | UNCONFIRMED | ABANDONED => 0
  | CONFIRMED => (GetLastBlockHeight w - conf_block_height tx + 1) * 1
  | CONFLICTED => (GetLastBlockHeight w - conf_block_height tx + 1) * -1
  end.

(** [CStakeWallet::CoinBlockTime] *)
Definition CoinBlockTime (wallet : option CWallet) (coin : CWalletTx) : Z :=
  match wallet with
  | None => 0
  | Some w =>
      if bool_decide (conf_status coin <> CONFIRMED) then 0
      else if IsNull (conf_hashBlock coin) then 0
      else default 0 (findBlock w (conf_hashBlock coin))
  end.

(** [CWallet::GetAvailableBalance], without coin control *)
Fixpoint balance_loop (coins : list COutput) (balance : Z) : outcome Z :=
  match coins with
  | [] => Ret balance
  | o :: coins' =>
      if fSpendable o
      then txout ← coin_txout (out_ref o); balance_loop coins' (balance + nValue txout)
      else balance_loop coins' balance
  end.

Definition GetAvailableBalance (w : CWallet) : outcome Z := balance_loop (AvailableCoins w 1 MAX_MONEY) 0.

(** The classification of a coin, as both loops over coins make it *)
Definition classify_coin (w : CWallet) (nTime nHeight : Z) (c : coin_ref) (txout : CTxOut) : StakeEligibility :=
  ClassifyForStaking params (nValue txout) (GetDepthInMainChain w c.1) (Solver (scriptPubKey txout)).1
    (StakeInputAge nTime (CoinBlockTime (Some w) c.1) (GetTxTime c.1)) nHeight.

Fixpoint explain_loop (w : CWallet) (nTime nHeight : Z) (coins : list COutput) (report : StakeSkipReport)
    : outcome StakeSkipReport :=
  match coins with
  | [] => Ret report
  | o :: coins' =>
      txout ← coin_txout (out_ref o);
      let value := nValue txout in
      if ((value <? 1) || (value >? MAX_MONEY))%bool then explain_loop w nTime nHeight coins' report
      else explain_loop w nTime nHeight coins' (report_Add report (classify_coin w nTime nHeight (out_ref o) txout) value)
  end.

(** [CStakeWallet::ExplainExcludedCoins] *)
Definition ExplainExcludedCoins (wallet : option CWallet) (nTime nHeight : Z) (coins : option (list COutput))
    : outcome StakeSkipReport :=
  match wallet with
  | None => Ret empty_report
  | Some w =>
      report ← explain_loop w nTime nHeight (default (AvailableCoins w 1 MAX_MONEY) coins) empty_report;
      Ret (report_Add report Immature (m_mine_immature w))
  end.

(** The loop of [SelectCoinsForStaking]: [setCoinsRet] and [nValueRet] *)
Fixpoint select_loop (w : CWallet) (nTargetValue nTime nHeight : Z) (coins : list COutput) (setCoins : list coin_ref)
    (nValueRet : Z) : outcome (list coin_ref * Z) :=
  match coins with
  | [] => Ret (setCoins, nValueRet)
  | o :: coins' =>
      txout ← coin_txout (out_ref o);
      let inputValue := nValue txout in
      let continue := select_loop w nTargetValue nTime nHeight coins' setCoins nValueRet in
      if ((inputValue <? (stakeValueRange params).1) || (inputValue >? (stakeValueRange params).2))%bool then continue
      else if negb (fSpendable o) then continue
      else if nValueRet >=? nTargetValue then Ret (setCoins, nValueRet)
      else if bool_decide (classify_coin w nTime nHeight (out_ref o) txout <> Eligible) then continue
      else if inputValue >=? nTargetValue then Ret (set_insert (out_ref o) setCoins, nValueRet + inputValue)
      else if inputValue <? nTargetValue + CENT
      then select_loop w nTargetValue nTime nHeight coins' (set_insert (out_ref o) setCoins) (nValueRet + inputValue)
      else continue
  end.

(** [CStakeWallet::SelectCoinsForStaking]: the result, the coins and their value *)
Definition SelectCoinsForStaking (wallet : option CWallet) (nTargetValue nTime nHeight : Z) (coins : option (list COutput))
    : outcome (bool * list coin_ref * Z) :=
  match wallet with
  | None => Ret (false, [], 0)
  | Some w =>
      '(s, v) ← select_loop w nTargetValue nTime nHeight
        (default (AvailableCoins w (stakeValueRange params).1 (stakeValueRange params).2) coins) [] 0;
      Ret (true, s, v)
  end.

Fixpoint weight_loop (setCoins : list coin_ref) (nWeight : Z) : outcome Z :=
  match setCoins with
  | [] => Ret nWeight
  | c :: cs => txout ← coin_txout c; weight_loop cs (u64 (nWeight + nValue txout))
  end.

(** [CStakeWallet::GetStakeWeight] *)
Definition GetStakeWeight (wallet : option CWallet) (nTime nHeight : Z) (coins : option (list COutput)) : outcome Z :=
  match wallet with
  | None => Ret 0
  | Some w =>
      let nBalance := m_mine_trusted w in
      if nBalance <=? nReserveBalance w then Ret 0
      else
        '(ok, setCoins, _) ← SelectCoinsForStaking wallet (nBalance - nReserveBalance w) nTime nHeight coins;
        if negb ok then Ret 0
        else if bool_decide (setCoins = []) then Ret 0
        else weight_loop setCoins 0
  end.

Fixpoint count_spendable (coins : list COutput) (n : Z) : outcome Z :=
  match coins with
  | [] => Ret n
  | o :: coins' =>
      txout ← coin_txout (out_ref o);
      count_spendable coins'
        (if (fSpendable o && (nValue txout >=? 1) && (nValue txout <=? MAX_MONEY))%bool then n + 1 else n)
  end.

(** [CStakeWallet::GetStakingInfo] *)
Definition GetStakingInfo (wallet : option CWallet) (nTime nHeight : Z) : outcome StakeWalletInfo :=
  match wallet with
  | None => Ret (mkInfo 0 0 empty_report)
  | Some w =>
      let coins := AvailableCoins w (Z.min 1 (stakeValueRange params).1) (Z.max MAX_MONEY (stakeValueRange params).2) in
      spendable ← count_spendable coins 0;
      weight ← GetStakeWeight wallet nTime nHeight (Some coins);
      excluded ← ExplainExcludedCoins wallet nTime nHeight (Some coins);
      Ret (mkInfo weight spendable excluded)
  end.

(** [CStakeWallet::CountSpendableOutputs] *)
Definition CountSpendableOutputs (wallet : option CWallet) : Z :=
  match wallet with
  | None => 0
  | Some w => Z.of_nat (length (List.filter fSpendable (AvailableCoins w 1 MAX_MONEY)))
  end.

(** [GetStakingSigningProvider] *)
Fixpoint provider_loop (mans : list ScriptPubKeyMan) (script : CScript) : option SigningProvider :=
  match mans with
  | [] => None
  | DescriptorScriptPubKeyMan get :: mans' =>
      match get script with
      | Some provider => Some provider
      | None => provider_loop mans' script
      end
  | LegacyScriptPubKeyMan self :: _ => Some self
  end.

Definition GetStakingSigningProvider (w : CWallet) (script : CScript) : option SigningProvider :=
  provider_loop (GetAllScriptPubKeyMans w) script.

(** [PaysToKey] *)
Definition PaysToKey (script : CScript) (pubkey : CPubKey) : outcome bool :=
  let '(type, solutions) := Solver script in
  match type with
  | PUBKEY => s ← deref (solutions !! 0%nat); Ret (pubkey_eqb (CPubKey_of s) pubkey)
  | PUBKEYHASH => s ← deref (solutions !! 0%nat); Ret (bool_decide (s = GetID pubkey))
  | _ => Ret false
  end.

(** The state of the scan of [PlanCombine]: the values and references of the
    candidates, the reasons counted, and the scripts whose key was looked up *)
Record combine_scan : Type := mkScan {
  sc_values : list Z;
  sc_refs : list coin_ref;
  sc_skipped : CombineSkips;
  sc_signing : gmap CScript bool;
}.

(** Whether the wallet holds the key of a candidate's script *)
Definition can_sign (w : CWallet) (txout : CTxOut) (type : TxoutType) (solution : list Z) : bool :=
  let id := if bool_decide (type = PUBKEY) then GetID (CPubKey_of solution) else solution in
  match GetStakingSigningProvider w (scriptPubKey txout) with
  | Some provider => bool_decide (is_Some (GetKey provider id))
  | None => false
  end.

Definition combine_step (w : CWallet) (kernel_outpoint : COutPoint) (kernel_key : CPubKey)
    (target allowance rest_allowance : Z) (out : COutput) (s : combine_scan) : outcome combine_scan :=
  if (negb (fSpendable out) || bool_decide (coin_outpoint (out_ref out) = kernel_outpoint))%bool then Ret s
  else if GetDepthInMainChain w (out_tx out) - 1 <? COINBASE_MATURITY + 1 then Ret s
  else
    txout ← coin_txout (out_ref out);
    let value := nValue txout in
    if ((value <=? 0) || (value >? (stakeValueRange params).2) ||
        (value =? regularMnCollateral params) || (value =? evoMnCollateral params))%bool then Ret s
    else
      let stakes := value >=? (stakeValueRange params).1 in
      if (stakes && (value >? target))%bool then Ret s
      else
        let '(type, solutions) := Solver (scriptPubKey txout) in
        if bool_decide (type <> PUBKEY /\ type <> PUBKEYHASH) then Ret s
        else
          pays ← (if m_stake_combine_wallet w then Ret true else PaysToKey (scriptPubKey txout) kernel_key);
          if negb pays then Ret s
          else if ((value >? allowance) || (stakes && (value >? rest_allowance)))%bool
          then Ret (mkScan (sc_values s) (sc_refs s) (skips_add (sc_skipped s) (mkSkips 1 0 0 0)) (sc_signing s))
          else
            signing ← (match sc_signing s !! scriptPubKey txout with
                       | Some _ => Ret (sc_signing s)
                       | None =>
                           solution ← deref (solutions !! 0%nat);
                           Ret (<[scriptPubKey txout := can_sign w txout type solution]> (sc_signing s))
                       end);
            if default false (signing !! scriptPubKey txout)
            then Ret (mkScan (sc_values s ++ [value]) (sc_refs s ++ [out_ref out]) (sc_skipped s) signing)
            else Ret (mkScan (sc_values s) (sc_refs s) (skips_add (sc_skipped s) (mkSkips 0 0 0 1)) signing).

Fixpoint combine_loop (w : CWallet) (kernel_outpoint : COutPoint) (kernel_key : CPubKey)
    (target allowance rest_allowance : Z) (coins : list COutput) (s : combine_scan) : outcome combine_scan :=
  match coins with
  | [] => Ret s
  | out :: coins' =>
      s' ← combine_step w kernel_outpoint kernel_key target allowance rest_allowance out s;
      combine_loop w kernel_outpoint kernel_key target allowance rest_allowance coins' s'
  end.

(** [CStakeWallet::PlanCombine]: the plan and the references it indexes *)
Definition PlanCombine (w : CWallet) (kernel_outpoint : COutPoint) (kernel_key : CPubKey)
    (kernel_value reward target : Z) (max_extra : nat) (allowance rest_allowance : Z)
    : outcome (CoinstakePlan * list coin_ref) :=
  s ← combine_loop w kernel_outpoint kernel_key target allowance rest_allowance (AvailableCoins w 1 MAX_MONEY)
        (mkScan [] [] no_skips ∅);
  Ret (add_skips (PlanCoinstake params kernel_value reward (sc_values s) target max_extra allowance rest_allowance)
         (sc_skipped s), sc_refs s).

(** ** Building the coinstake *)

(** The end of the search over the selected coins *)
Inductive kernel_search : Type :=
| SearchStopped
| SearchEnded
| KernelFound (coin : coin_ref) (out : CTxOut) (key : CKey) (script : CScript).

(** The key of a winning coin and the script its outputs pay to; [None] is a
    coin that ends the search, [Some None] one the search passes over. *)
Definition kernel_key (w : CWallet) (out : CTxOut) : outcome (option (option (CKey * CScript))) :=
  let '(type, solutions) := Solver (scriptPubKey out) in
  match GetStakingSigningProvider w (scriptPubKey out) with
  | None => Ret None
  | Some provider =>
      match type with
      | PUBKEYHASH =>
          s ← deref (solutions !! 0%nat);
          match GetKey provider s with
          | None => Ret None
          | Some key => Ret (Some (Some (key, script_push (ToByteVector (GetPubKey key)) ++ [OP_CHECKSIG])))
          end
      | PUBKEY =>
          s ← deref (solutions !! 0%nat);
          match GetKey provider (Hash160 s) with
          | None => Ret None
          | Some key =>
              if pubkey_eqb (GetPubKey key) (CPubKey_of s) then Ret (Some (Some (key, scriptPubKey out))) else Ret None
          end
      | _ => Ret (Some None)
      end
  end.

Section create.

Context (Hash : list Z -> uint256).

(** [stop k] is the value of [fStopMinerProc] at the [k]th coin. *)
Fixpoint search_loop (w : CWallet) (chain_state : ChainState) (pindexPrev : CBlockIndex) (nBits nTime : Z)
    (stop : nat -> bool) (k : nat) (coins : list coin_ref) : outcome kernel_search :=
  match coins with
  | [] => Ret SearchEnded
  | pcoin :: coins' =>
      if stop k then Ret SearchStopped
      else
        '(won, _) ← CheckKernel Hash chain_state params pindexPrev nBits nTime (coin_outpoint pcoin);
        if negb won then search_loop w chain_state pindexPrev nBits nTime stop (S k) coins'
        else
          out ← coin_txout pcoin;
          r ← kernel_key w out;
          match r with
          | None => Ret SearchEnded
          | Some None => search_loop w chain_state pindexPrev nBits nTime stop (S k) coins'
          | Some (Some (key, script)) => Ret (KernelFound pcoin out key script)
          end
  end.

Definition with_scriptSig (i : CTxIn) (s : CScript) : CTxIn := mkTxIn (prevout i) s (nSequence i).
Definition with_vin (tx : CTransaction) (l : list CTxIn) : CTransaction :=
  mkTx l (vout tx) (tx_nVersion tx) (nType tx) (nLockTime tx) (vExtraPayload tx).
Definition with_vout (tx : CTransaction) (l : list CTxOut) : CTransaction :=
  mkTx (vin tx) l (tx_nVersion tx) (nType tx) (nLockTime tx) (vExtraPayload tx).

(** [CTxIn(hashPrevTx, nOut)] *)
Definition spend (c : coin_ref) : CTxIn := mkTxIn (coin_outpoint c) [] SEQUENCE_FINAL.

(** Sign the inputs from the [i]th on; the flag is [signed_all]. *)
Fixpoint sign_loop (w : CWallet) (prevs : list coin_ref) (i : nat) (tx : CTransaction) : outcome (bool * CTransaction) :=
  match prevs with
  | [] => Ret (true, tx)
  | c :: prevs' =>
      previous ← coin_txout c;
      input ← deref (vin tx !! i);
      match GetStakingSigningProvider w (scriptPubKey previous) ≫=
            (fun provider => ProduceSignature provider tx i (nValue previous) (scriptPubKey previous)) with
      | None => Ret (false, tx)
      | Some sig => sign_loop w prevs' (S i) (with_vin tx (<[i := with_scriptSig input sig]> (vin tx)))
      end
  end.

(** The coinstake of a plan, unsigned *)
Definition plan_tx (tx : CTransaction) (kernel : coin_ref) (extra : list coin_ref) (script : CScript) (values : list Z)
    : CTransaction :=
  mkTx (spend kernel :: map spend extra) (mkTxOut 0 [] :: map (fun v => mkTxOut v script) values)
    (tx_nVersion tx) (nType tx) (nLockTime tx) (vExtraPayload tx).

(** The attempts from the [attempt]th on, [left] of them *)
Fixpoint attempt_loop (w : CWallet) (kernel : coin_ref) (script : CScript) (kernel_value reward target : Z)
    (refs : list coin_ref) (max_coinstake_bytes : Z) (left : nat) (attempt : Z) (plan : CoinstakePlan) (tx : CTransaction)
    : outcome (StakeAttempt * CTransaction) :=
  match left with
  | O => Ret (BlockFound, tx)
  | S left' =>
      if bool_decide (output_values plan = []) then Ret (Error, tx)
      else
        extra ← deref (mapM (fun i => refs !! i) (extra_inputs plan));
        '(signed_all, tx) ← sign_loop w (kernel :: extra) 0 (plan_tx tx kernel extra script (output_values plan));
        let bytes := tx_size tx in
        if (signed_all && (bytes <? Z.quot MaxBlockSize 5) && (bytes <=? max_coinstake_bytes))%bool
        then Ret (BlockFound, tx)
        else if negb (bool_decide (extra_inputs plan = []))
        then attempt_loop w kernel script kernel_value reward target refs max_coinstake_bytes left' (attempt + 1)
               (PlanCoinstake params kernel_value reward [] target 0 0 0) tx
        else if (negb signed_all || (attempt =? 2))%bool then Ret (Error, tx)
        else attempt_loop w kernel script kernel_value reward target refs max_coinstake_bytes left' (attempt + 1)
               (mkPlan (extra_inputs plan)
                  (SplitStakeCredit params (kernel_value + reward) (Z.quot (stakeValueRange params).2 2) 0)
                  (extra_resting_value plan) (skipped plan)) tx
  end.

(** The inputs a coinstake of at most that many bytes has room for beside its kernel *)
Definition room_for_extra (max_coinstake_bytes : Z) : nat :=
  let fixed := COINSTAKE_FIXED_BYTES + COINSTAKE_INPUT_BYTES + (MAX_STAKE_SPLIT_OUTPUTS + 3) * COINSTAKE_OUTPUT_BYTES in
  Z.to_nat (if max_coinstake_bytes >? fixed
            then Z.min (MAX_STAKE_COMBINE_INPUTS - 1) (Z.quot (max_coinstake_bytes - fixed) COINSTAKE_INPUT_BYTES) else 0).

(** The plan of a win and the references it indexes *)
Definition plan_win (wallet : option CWallet) (w : CWallet) (kernel : coin_ref) (key : CKey) (kernel_value reward target : Z)
    (nTime nBlockHeight nBalance max_coinstake_bytes : Z) : outcome (CoinstakePlan * list coin_ref) :=
  if m_stake_combine w then
    info ← GetStakingInfo wallet nTime nBlockHeight;
    let rest_allowance := CombineRestAllowance (i64 (weight info))
      (immature (excluded info) + too_young (excluded info)) kernel_value in
    PlanCombine w (coin_outpoint kernel) (GetPubKey key) kernel_value reward target (room_for_extra max_coinstake_bytes)
      (nBalance - nReserveBalance w - kernel_value) rest_allowance
  else Ret (mkPlan [] (SplitStakeCredit params (kernel_value + reward) target 0) 0 no_skips, []).

(** [CStakeWallet::CreateCoinStake]: the result, [txNew] and the key, if it was
    found.  [iteration] is the order in which the set of selected coins is
    walked, which depends on the addresses of the wallet's entries. *)
Definition CreateCoinStake (wallet : option CWallet) (chain_state : ChainState) (pindexPrev : uint256)
    (nBits nTime nBlockHeight : Z) (iteration : list coin_ref -> list coin_ref) (stop : nat -> bool)
    (txNew : CTransaction) (max_coinstake_bytes : Z) : outcome (StakeAttempt * CTransaction * option CKey) :=
  match wallet with
  | None => Ret (Error, txNew, None)
  | Some w =>
      network_weight ← deref (GetPoSKernelPS (m_block_index chain_state) params pindexPrev);
      prev ← deref (m_block_index chain_state !! pindexPrev);
      let target := StakeTargetSize params network_weight (m_stake_target w) in
      nBalance ← GetAvailableBalance w;
      if nBalance <=? nReserveBalance w then Ret (NoEligibleCoins, txNew, None)
      else
        let txNew := with_vout (with_vin txNew []) [mkTxOut 0 []] in
        '(ok, setCoins, _) ← SelectCoinsForStaking wallet (nBalance - nReserveBalance w) nTime nBlockHeight None;
        if negb ok then Ret (NoEligibleCoins, txNew, None)
        else if bool_decide (setCoins = []) then Ret (NoEligibleCoins, txNew, None)
        else
          r ← search_loop w chain_state prev nBits nTime stop 0 (iteration setCoins);
          match r with
          | SearchStopped => Ret (Stopped, txNew, None)
          | SearchEnded => Ret (NoKernelFound, txNew, None)
          | KernelFound kernel out key script =>
              let nCredit := nValue out in
              let txNew := with_vout (with_vin txNew [spend kernel]) [mkTxOut 0 []; mkTxOut 0 script] in
              if ((nCredit =? 0) || (nCredit >? nBalance - nReserveBalance w))%bool then Ret (NoKernelFound, txNew, Some key)
              else
                let reward := GetProofOfStakeReward in
                if (negb (MoneyRange reward) || (nCredit >? MAX_MONEY - reward))%bool then Ret (Error, txNew, Some key)
                else
                  '(plan, refs) ← plan_win wallet w kernel key nCredit reward target nTime nBlockHeight nBalance max_coinstake_bytes;
                  '(result, tx) ← attempt_loop w kernel script nCredit reward target refs max_coinstake_bytes 3 0 plan txNew;
                  Ret (result, tx, Some key)
          end
  end.

End create.

End wallet.

(** ** Facts about the loops *)

Lemma mbind_Ret {A B} (m : outcome A) (f : A -> outcome B) b : m ≫= f = Ret b -> exists a, m = Ret a /\ f a = Ret b.
Proof. destruct m as [a|]; [by exists a|done]. Qed.

Lemma deref_Ret {A} (o : option A) a : deref o = Ret a -> o = Some a.
Proof. destruct o; cbn; intros; congruence. Qed.

(** Take apart a computation that returned. *)
Ltac ret_inv H :=
  let a := fresh "a" in let Ha := fresh "Hret" in
  apply mbind_Ret in H as (a & Ha & H).

Section facts.

Context `{KeyStore} (params : ConsensusParams).

Lemma set_insert_elem c d s : d ∈ set_insert c s -> d = c \/ d ∈ s.
Proof. unfold set_insert. case_match; [by right|]. rewrite elem_of_app, list_elem_of_singleton. naive_solver. Qed.

(** A coin the selection may return *)
Definition selectable (w : CWallet) (nTime nHeight : Z) (coins : list COutput) (c : coin_ref) : Prop :=
  exists o txout, o ∈ coins /\ out_ref o = c /\ fSpendable o = true /\ coin_txout c = Ret txout /\
    classify_coin params w nTime nHeight c txout = Eligible.

Lemma select_loop_selectable w target nTime nHeight : forall coins set v set' v',
  select_loop params w target nTime nHeight coins set v = Ret (set', v') ->
  forall c, c ∈ set' -> c ∈ set \/ selectable w nTime nHeight coins c.
Proof.
  induction coins as [|o coins IH]; intros set v set' v' Hsel c Hc.
  { cbn in Hsel. left. congruence. }
  assert (Hskip : forall s : list coin_ref, c ∈ s \/ selectable w nTime nHeight coins c -> c ∈ s \/ selectable w nTime nHeight (o :: coins) c).
  { intros s [?|(o' & t & Ho & ?)]; [by left|right]. exists o', t. split; [by right|done]. }
  cbn [select_loop] in Hsel. ret_inv Hsel.
  destruct (_ || _)%bool; [eauto|]. destruct (fSpendable o) eqn:Hsp; cbn [negb] in Hsel; [|eauto].
  destruct (_ >=? _); [left; congruence|].
  destruct (bool_decide _) eqn:Hcl; [eauto|]. apply bool_decide_eq_false, dec_stable in Hcl.
  assert (Hnew : selectable w nTime nHeight (o :: coins) (out_ref o)).
  { exists o, a. split; [by left|done]. }
  destruct (_ >=? _).
  { injection Hsel as <- <-. apply set_insert_elem in Hc as [->|?]; [by right|by left]. }
  destruct (_ <? _); [|eauto].
  destruct (Hskip _ (IH _ _ _ _ Hsel c Hc)) as [Hin|?]; [|by right].
  apply set_insert_elem in Hin as [->|?]; [by right|by left].
Qed.

(** An output that may be combined with a kernel that stakes with [key]: it is
    spendable and mature, is no collateral and not too large to stake, if it
    stakes already it is no larger than the size aimed at, and it pays a key,
    that of the kernel unless the whole wallet is combined. *)
Definition combinable (w : CWallet) (key : CPubKey) (target : Z) (coins : list COutput) (c : coin_ref) : Prop :=
  exists o txout, o ∈ coins /\ out_ref o = c /\ fSpendable o = true /\ coin_txout c = Ret txout /\
    COINBASE_MATURITY + 1 <= GetDepthInMainChain w (out_tx o) - 1 /\
    0 < nValue txout <= (stakeValueRange params).2 /\
    nValue txout <> regularMnCollateral params /\ nValue txout <> evoMnCollateral params /\
    ((stakeValueRange params).1 <= nValue txout -> nValue txout <= target) /\
    ((Solver (scriptPubKey txout)).1 = PUBKEY \/ (Solver (scriptPubKey txout)).1 = PUBKEYHASH) /\
    (m_stake_combine_wallet w = true \/ PaysToKey (scriptPubKey txout) key = Ret true).

Lemma combinable_more w key target coins o c : combinable w key target coins c -> combinable w key target (coins ++ [o]) c.
Proof. intros (o' & t & Ho & Hrest). exists o', t. split; [|done]. apply elem_of_app. by left. Qed.

(** What the scan for outputs to combine collects: candidates with their values,
    outputs of the wallet other than the kernel, in the order listed *)
Definition scan_ok (w : CWallet) (kernel : COutPoint) (key : CPubKey) (target : Z) (coins : list COutput) (s : combine_scan) : Prop :=
  sc_refs s `sublist_of` map out_ref coins /\
  Forall (combinable w key target coins) (sc_refs s) /\
  Forall (fun c => coin_outpoint c <> kernel) (sc_refs s) /\
  Forall2 (fun v c => exists out, coin_txout c = Ret out /\ nValue out = v) (sc_values s) (sc_refs s).

Lemma scan_ok_skip w kernel key target coins o s : scan_ok w kernel key target coins s -> scan_ok w kernel key target (coins ++ [o]) s.
Proof.
  intros (Hsub & Hcomb & Hrest). split; [rewrite map_app; by apply sublist_inserts_r|]. split; [|done].
  eapply Forall_impl; [exact Hcomb|]. intros c. apply combinable_more.
Qed.

Lemma combine_step_ok w kernel key target allow rest coins o s s' : scan_ok w kernel key target coins s ->
  combine_step params w kernel key target allow rest o s = Ret s' -> scan_ok w kernel key target (coins ++ [o]) s'.
Proof.
  intros Hok Hs. pose proof (scan_ok_skip w kernel key target coins o s Hok) as Hskip. unfold combine_step in Hs.
  destruct (_ || bool_decide _)%bool eqn:Hk; [congruence|]. apply orb_false_iff in Hk as [Hsp Hk].
  apply bool_decide_eq_false in Hk. apply negb_false_iff in Hsp.
  destruct (_ <? _) eqn:Hdepth; [congruence|]. ret_inv Hs. destruct (_ || _)%bool eqn:Hval; [congruence|]. rewrite !orb_false_iff in Hval.
  destruct (_ && _)%bool eqn:Htgt; [congruence|]. destruct (Solver _) as [type sols] eqn:Hsol.
  destruct (bool_decide _) eqn:Htype; [congruence|]. apply bool_decide_eq_false in Htype.
  ret_inv Hs. destruct a0; cbn [negb] in Hs; [|congruence].
  destruct (_ || _)%bool; [injection Hs as <-; exact Hskip|]. ret_inv Hs.
  destruct (default _ _); injection Hs as <-; [|exact Hskip].
  destruct Hskip as (_ & Hcomb & _). destruct Hok as (Hsub & _ & Hne & Hv). split_and!; cbn [sc_refs sc_values].
  - rewrite map_app. by apply sublist_app.
  - apply Forall_app. split; [exact Hcomb|]. constructor; [|constructor]. exists o, a. bool_hyps.
    split_and!; try done; try lia.
    + apply elem_of_app. right. by apply list_elem_of_singleton.
    + rewrite Hsol. cbn [fst]. destruct type; try (by left); try (by right); by destruct Htype.
    + destruct (m_stake_combine_wallet w); [by left|by right].
  - apply Forall_app. by repeat constructor.
  - apply Forall2_app; [done|]. repeat constructor. by exists a.
Qed.

Lemma combine_loop_ok w kernel key target allow rest : forall coins done s s', scan_ok w kernel key target done s ->
  combine_loop params w kernel key target allow rest coins s = Ret s' -> scan_ok w kernel key target (done ++ coins) s'.
Proof.
  induction coins as [|o coins IH]; intros done s s' Hok Hl; cbn [combine_loop] in Hl.
  - rewrite app_nil_r. congruence.
  - ret_inv Hl. rewrite cons_middle, app_assoc. eapply IH; [|exact Hl]. by eapply combine_step_ok.
Qed.


(** ** Signing *)

(** The transaction without its input scripts *)
Definition unsigned (tx : CTransaction) : CTransaction :=
  with_vin tx (map (fun i => with_scriptSig i []) (vin tx)).

Lemma unsigned_sign tx i input sig : vin tx !! i = Some input ->
  unsigned (with_vin tx (<[i := with_scriptSig input sig]> (vin tx))) = unsigned tx.
Proof.
  intros Hi. unfold unsigned, with_vin. cbn [vin vout tx_nVersion nType nLockTime vExtraPayload]. f_equal.
  change (map ?f ?l) with (f <$> l). rewrite list_fmap_insert. apply list_insert_id.
  rewrite list_lookup_fmap, Hi. done.
Qed.

(** The script of input [i] was produced for the coin [c] and this transaction,
    whatever input scripts it had at the time. *)
Definition input_signed (w : CWallet) (tx : CTransaction) (i : nat) (c : coin_ref) : Prop :=
  exists out provider tx' input, coin_txout c = Ret out /\
    GetStakingSigningProvider w (scriptPubKey out) = Some provider /\ unsigned tx' = unsigned tx /\
    vin tx !! i = Some input /\
    ProduceSignature provider tx' i (nValue out) (scriptPubKey out) = Some (scriptSig input).

Lemma sign_loop_spec w : forall prevs i tx b tx', sign_loop w prevs i tx = Ret (b, tx') ->
  unsigned tx' = unsigned tx /\ (forall j, (j < i)%nat -> vin tx' !! j = vin tx !! j) /\
  (b = true -> forall j c, prevs !! j = Some c -> input_signed w tx' (i + j) c).
Proof.
  induction prevs as [|c prevs IH]; intros i tx b tx' Hs; cbn [sign_loop] in Hs.
  { injection Hs as <- <-. split_and!; [done|done|]. intros _ j c' Hj. by rewrite lookup_nil in Hj. }
  ret_inv Hs. ret_inv Hs. apply deref_Ret in Hret0 as Hin.
  destruct (GetStakingSigningProvider _ _) as [provider|] eqn:Hp; cbn [mbind option_bind] in Hs.
  2: { injection Hs as <- <-. split_and!; done. }
  destruct (ProduceSignature _ _ _ _ _) as [sig|] eqn:Hsig.
  2: { injection Hs as <- <-. split_and!; done. }
  destruct (IH _ _ _ _ Hs) as (Hun & Hlow & Hall). rewrite (unsigned_sign _ _ _ _ Hin) in Hun. split_and!.
  - done.
  - intros j Hj. rewrite Hlow by lia. cbn [with_vin vin]. by rewrite list_lookup_insert_ne by lia.
  - intros Hb [|j] c' Hj; cbn in Hj.
    + injection Hj as <-. exists a, provider, tx, (with_scriptSig a0 sig). rewrite Nat.add_0_r. split_and!; try done.
      rewrite Hlow by lia. cbn [with_vin vin]. apply list_lookup_insert_eq. by eapply lookup_lt_Some.
    + replace (i + S j)%nat with (S i + j)%nat by lia. by apply Hall.
Qed.

(** ** The attempts *)

Definition held_values (cs : list coin_ref) (vs : list Z) : Prop :=
  Forall2 (fun c v => exists out, coin_txout c = Ret out /\ nValue out = v) cs vs.

(** A finished coinstake: its shape, its signatures, its amounts and its size *)
Record coinstake_ok (w : CWallet) (kernel : coin_ref) (kernel_value budget : Z) (script : CScript)
    (max_bytes : Z) (extra : list coin_ref) (extra_values values : list Z) (tx : CTransaction) : Prop := {
  co_shape : unsigned tx = plan_tx tx kernel extra script values;
  co_signed : forall j c, (kernel :: extra) !! j = Some c -> input_signed w tx j c;
  co_extra_values : held_values extra extra_values;
  co_outputs : values <> [];
  co_layout : layout_of params
    (kernel_value + GetProofOfStakeReward + sum_of (fun v => v) extra_values) values;
  co_budget : kernel_value + sum_of (fun v => v) extra_values <= budget;
  co_count : (length extra <= 19)%nat;
  co_size : tx_size tx <= max_bytes /\ tx_size tx < MaxBlockSize / 5;
}.

(** What the attempts need of a plan over the candidates [cands] *)
Definition plan_fits (kernel_value budget : Z) (cands : list Z) (p : CoinstakePlan) : Prop :=
  output_values p <> [] ->
  layout_of params (kernel_value + GetProofOfStakeReward + sum_of (value_of cands) (extra_inputs p)) (output_values p) /\
  kernel_value + sum_of (value_of cands) (extra_inputs p) <= budget /\ (length (extra_inputs p) <= 19)%nat /\
  NoDup (extra_inputs p).

Lemma kernel_plan_fits kernel_value budget cands p : extra_inputs p = [] -> kernel_value <= budget ->
  (output_values p <> [] -> layout_of params (kernel_value + GetProofOfStakeReward) (output_values p)) ->
  plan_fits kernel_value budget cands p.
Proof.
  intros He Hb Hl Hne. rewrite He, sum_of_nil, !Z.add_0_r. split_and!; [by apply Hl|done|cbn; lia|constructor].
Qed.

Lemma PlanCoinstake_alone kernel reward target :
  extra_inputs (PlanCoinstake params kernel reward [] target 0 0 0) = [].
Proof. unfold PlanCoinstake. by repeat case_match. Qed.

(** The values of the references a plan picks *)
Lemma picked_values cands refs : held_values refs cands -> forall idx extra,
  mapM (fun i => refs !! i) idx = Some extra ->
  exists vs, held_values extra vs /\ sum_of (fun v => v) vs = sum_of (value_of cands) idx.
Proof.
  intros Href idx extra Hm. apply mapM_Some in Hm.
  induction Hm as [|i c idx extra Hi _ (vs & Hvs & Hsum)]; [exists []; by split; [constructor|]|].
  destruct (Forall2_lookup_l _ _ _ _ _ Href Hi) as (v & Hv & Hout).
  exists (v :: vs). split; [by constructor|]. rewrite !sum_of_cons, Hsum. f_equal. unfold value_of.
  symmetry. by apply list_lookup_total_correct.
Qed.


(** A coinstake the attempts report as found went through their checks: the
    loop never runs out with a transaction it did not check. *)
Lemma attempt_loop_sound w kernel script kernel_value target refs max_bytes cands budget : held_values refs cands ->
  kernel_value <= budget -> forall left attempt plan tx tx',
  (0 < left)%nat -> Z.of_nat left + attempt = 3 -> extra_inputs plan = [] \/ attempt = 0 ->
  plan_fits kernel_value budget cands plan ->
  attempt_loop params w kernel script kernel_value GetProofOfStakeReward target refs max_bytes left attempt plan tx
    = Ret (BlockFound, tx') ->
  exists idx extra extra_values values, mapM (fun i => refs !! i) idx = Some extra /\ NoDup idx /\
    coinstake_ok w kernel kernel_value budget script max_bytes extra extra_values values tx'.
Proof.
  intros Href Hkb. induction left as [|left IH]; intros attempt plan tx tx' Hpos Hleft Hatt Hfit Hl; [lia|].
  cbn [attempt_loop] in Hl. destruct (bool_decide _) eqn:Hne; [done|]. apply bool_decide_eq_false in Hne.
  ret_inv Hl. apply deref_Ret in Hret as Hextra. ret_inv Hl. destruct a0 as [all tx1].
  destruct (sign_loop_spec w _ _ _ _ _ Hret0) as (Hun & _ & Hsig).
  destruct (_ && _ && _)%bool eqn:Hfits.
  - injection Hl as <-. bool_hyps. subst all. destruct (Hfit Hne) as (Hlay & Hbud & Hcnt & Hnd).
    destruct (picked_values cands refs Href _ _ Hextra) as (vs & Hvs & Hsum).
    exists (extra_inputs plan), a, vs, (output_values plan). split_and!; try done.
    split; try done.
    + rewrite Hun. unfold unsigned, with_vin, plan_tx. cbn [vin vout tx_nVersion nType nLockTime vExtraPayload map].
      assert (unsigned tx1 = unsigned (plan_tx tx kernel a script (output_values plan))) as He by done.
      unfold unsigned, with_vin, plan_tx in He. cbn [vin vout tx_nVersion nType nLockTime vExtraPayload] in He.
      injection He as _ _ -> -> -> ->. rewrite map_map. done.
    + intros j c Hj. by apply (Hsig eq_refl j c).
    + by rewrite Hsum.
    + by rewrite Hsum.
    + apply mapM_Some, Forall2_length in Hextra. lia.
  - destruct (bool_decide (extra_inputs plan = [])) eqn:Hex; cbn [negb] in Hl.
    + apply bool_decide_eq_true in Hex.
      destruct (negb all || (attempt =? 2))%bool eqn:Hend; [done|]. apply orb_false_iff in Hend as [_ H2].
      apply Z.eqb_neq in H2. match type of Hl with attempt_loop _ _ _ _ _ _ _ _ _ _ _ ?p _ = _ =>
        apply (IH (attempt + 1) p _ _ ltac:(lia) ltac:(lia) (or_introl Hex)) in Hl end; [done|].
      apply kernel_plan_fits; [done|done|]. cbn [output_values]. intros Hn. by eapply SplitStakeCredit_layout.
    + apply bool_decide_eq_false in Hex. destruct Hatt as [?|Hatt]; [done|].
      apply (IH (attempt + 1) _ _ _ ltac:(lia) ltac:(lia) (or_introl (PlanCoinstake_alone _ _ _))) in Hl; [done|].
      apply kernel_plan_fits; [apply PlanCoinstake_alone|done|]. intros Hn.
      pose proof (po_layout _ _ _ _ _ _ _ _ (PlanCoinstake_ok params _ _ _ _ _ _ _ Hn)) as Hlay.
      rewrite PlanCoinstake_alone, sum_of_nil, Z.add_0_r in Hlay. done.
Qed.

(** The plan of a win fits the attempts and spends distinct outputs of the wallet. *)
Lemma plan_win_fits wallet w kernel key kernel_value target nTime nHeight nBalance max_bytes plan refs :
  kernel_value <= nBalance - nReserveBalance w ->
  plan_win params wallet w kernel key kernel_value GetProofOfStakeReward target nTime nHeight nBalance max_bytes
    = Ret (plan, refs) ->
  exists cands, held_values refs cands /\ plan_fits kernel_value (nBalance - nReserveBalance w) cands plan /\
    refs `sublist_of` map out_ref (AvailableCoins w 1 MAX_MONEY) /\
    (refs <> [] -> m_stake_combine w = true) /\
    Forall (combinable w (GetPubKey key) target (AvailableCoins w 1 MAX_MONEY)) refs /\
    Forall (fun c => coin_outpoint c <> coin_outpoint kernel) refs.
Proof.
  intros Hk Hp. unfold plan_win in Hp. destruct (m_stake_combine w) eqn:Hon.
  - ret_inv Hp. unfold PlanCombine in Hp. ret_inv Hp. injection Hp as <- <-.
    apply (combine_loop_ok w _ _ _ _ _ _ []) in Hret0 as (Hsub & Hcomb & Hne & Hv).
    2: { split_and!; [constructor|constructor|constructor|constructor]. }
    exists (sc_values a0). split; [by apply Forall2_flip in Hv|]. split; [|by split_and!].
    unfold plan_fits. cbn [add_skips output_values extra_inputs]. intros Hn.
    destruct (PlanCoinstake_ok _ _ _ _ _ _ _ _ Hn). split_and!; [done|lia|lia|done].
  - injection Hp as <- <-. exists []. split_and!; [constructor| |apply sublist_nil_l|done|constructor|constructor].
    apply kernel_plan_fits; [done|done|]. intros Hn. by eapply SplitStakeCredit_layout.
Qed.

Lemma search_loop_found Hash w cs prev nBits nTime stop kernel out key script : forall coins k,
  search_loop params Hash w cs prev nBits nTime stop k coins = Ret (KernelFound kernel out key script) ->
  kernel ∈ coins /\ coin_txout kernel = Ret out /\ kernel_key w out = Ret (Some (Some (key, script))) /\
  exists bt, CheckKernel Hash cs params prev nBits nTime (coin_outpoint kernel) = Ret (true, bt).
Proof.
  induction coins as [|c coins IH]; intros k Hs; cbn [search_loop] in Hs; [done|].
  assert (Hrec : search_loop params Hash w cs prev nBits nTime stop (S k) coins = Ret (KernelFound kernel out key script) ->
    kernel ∈ c :: coins /\ coin_txout kernel = Ret out /\ kernel_key w out = Ret (Some (Some (key, script))) /\
    exists bt, CheckKernel Hash cs params prev nBits nTime (coin_outpoint kernel) = Ret (true, bt)).
  { intros Hr. destruct (IH _ Hr) as (? & ?). split; [by right|done]. }
  destruct (stop k); [done|]. ret_inv Hs. destruct a as [won bt]. destruct won; cbn [negb] in Hs; [|by apply Hrec].
  ret_inv Hs. ret_inv Hs. destruct a0 as [[[key' script']|]|]; [|by apply Hrec|done].
  injection Hs as -> -> -> ->. split_and!; [by left|done|done|by exists bt].
Qed.

(** What holds of the candidates holds of those picked. *)
Lemma picked_all {A} (P : A -> Prop) (refs : list A) idx extra : Forall P refs -> mapM (fun i => refs !! i) idx = Some extra -> Forall P extra.
Proof.
  intros HP Hm. apply mapM_Some in Hm. apply Forall_lookup_2. intros j c Hj.
  destruct (Forall2_lookup_r _ _ _ _ _ Hm Hj) as (i & _ & Hi). exact (Forall_lookup_1 _ _ _ _ HP Hi).
Qed.

(** Distinct references stay distinct outpoints once picked by distinct indices. *)
Lemma picked_outpoints (coins : list COutput) refs idx extra kernel :
  NoDup (map (fun o => coin_outpoint (out_ref o)) coins) -> refs `sublist_of` map out_ref coins ->
  Forall (fun c => coin_outpoint c <> kernel) refs -> NoDup idx -> mapM (fun i => refs !! i) idx = Some extra ->
  NoDup (kernel :: map coin_outpoint extra).
Proof.
  intros Hnd Hsub Hne Hidx Hm. apply mapM_Some in Hm.
  assert (Hrefs : NoDup (map coin_outpoint refs)).
  { apply (sublist_NoDup _ (map coin_outpoint (map out_ref coins))); [by rewrite map_map|by apply fmap_sublist]. }
  assert (Hin : forall c, c ∈ extra -> exists i, i ∈ idx /\ refs !! i = Some c).
  { intros c [j Hj]%list_elem_of_lookup. destruct (Forall2_lookup_r _ _ _ _ _ Hm Hj) as (i & Hi & ?).
    exists i. split; [by eapply list_elem_of_lookup_2|done]. }
  constructor.
  - intros (c & -> & Hc)%list_elem_of_fmap. destruct (Hin c Hc) as (i & _ & Hi).
    rewrite Forall_lookup in Hne. by apply (Hne i c Hi).
  - clear Hin. induction Hm as [|i c idx extra Hi Hm IH]; [constructor|]. apply NoDup_cons in Hidx as [Hni Hidx].
    cbn [map]. constructor; [|by apply IH]. intros (d & Hd & Hdin)%list_elem_of_fmap.
    apply list_elem_of_lookup in Hdin as [j Hj]. destruct (Forall2_lookup_r _ _ _ _ _ Hm Hj) as (i' & Hi' & Hd').
    apply Hni. enough (i = i') by (subst; by eapply list_elem_of_lookup_2).
    eapply NoDup_lookup; [exact Hrefs| |]; rewrite list_lookup_fmap; [by rewrite Hi|by rewrite Hd', Hd].
Qed.

End facts.

(** ** Properties *)

(** C5: a coinstake [CreateCoinStake] reports as found is one to publish.  Its
    first input is a coin of the wallet that the rules admit and whose kernel
    wins at the searched time, and its outputs after the empty first one pay the
    script of that coin's key, which is the key returned; its other inputs, only
    there when combining is on, are at most nineteen distinct outputs of the
    wallet, each spendable, mature, no collateral, not too large to stake, no
    larger than the size aimed at if it stakes already, and paying the same key
    unless the whole wallet is combined; the amounts of the outputs all may
    stake again and sum to the inputs and the reward exactly; the inputs leave
    the reserve untouched; every input was signed for this transaction; and it
    fits the block.  In particular the three attempts never end with a
    transaction that was not checked.  The wallet lists no output twice, and the
    order of the selected coins is any that adds none. *)
Theorem CreateCoinStake_sound `{KeyStore} Hash params wallet cs pindexPrev nBits nTime nBlockHeight iteration stop
    txNew max_bytes tx key :
  (forall l c, c ∈ iteration l -> c ∈ l) ->
  (forall w, wallet = Some w -> NoDup (map (fun o => coin_outpoint (out_ref o)) (AvailableCoins w 1 MAX_MONEY))) ->
  CreateCoinStake params Hash wallet cs pindexPrev nBits nTime nBlockHeight iteration stop txNew max_bytes
    = Ret (BlockFound, tx, key) ->
  exists w prev nBalance network_weight kernel out k script extra extra_values values,
    wallet = Some w /\ m_block_index cs !! pindexPrev = Some prev /\ GetAvailableBalance w = Ret nBalance /\
    GetPoSKernelPS (m_block_index cs) params pindexPrev = Some network_weight /\
    (exists bt, CheckKernel Hash cs params prev nBits nTime (coin_outpoint kernel) = Ret (true, bt)) /\
    coin_txout kernel = Ret out /\ key = Some k /\ kernel_key w out = Ret (Some (Some (k, script))) /\
    selectable params w nTime nBlockHeight
      (AvailableCoins w (stakeValueRange params).1 (stakeValueRange params).2) kernel /\
    (extra <> [] -> m_stake_combine w = true) /\
    Forall (combinable params w (GetPubKey k) (StakeTargetSize params network_weight (m_stake_target w))
              (AvailableCoins w 1 MAX_MONEY)) extra /\
    NoDup (coin_outpoint kernel :: map coin_outpoint extra) /\
    coinstake_ok params w kernel (nValue out) (nBalance - nReserveBalance w) script max_bytes extra extra_values values tx.
Proof.
  intros Hit Hnd Hc. unfold CreateCoinStake in Hc. destruct wallet as [w|]; [|done]. specialize (Hnd w eq_refl).
  ret_inv Hc. apply deref_Ret in Hret. ret_inv Hc. apply deref_Ret in Hret0 as Hprev. ret_inv Hc.
  destruct (_ <=? _); [done|]. ret_inv Hc. destruct a2 as [[ok set] v]. destruct (negb ok); [done|].
  destruct (bool_decide _); [done|]. ret_inv Hc. destruct a2 as [| |kernel out key' script]; [done|done|].
  destruct (search_loop_found _ _ _ _ _ _ _ _ _ _ _ _ _ _ Hret3) as (Hin & Hout & Hkey & Hwon).
  destruct (_ || _)%bool eqn:Hcr; [done|]. bool_hyps. destruct (_ || _)%bool; [done|].
  ret_inv Hc. destruct a2 as [plan refs]. ret_inv Hc. destruct a2 as [result tx'].
  injection Hc as -> -> <-.
  destruct (plan_win_fits params _ _ _ _ _ _ _ _ _ _ _ _ ltac:(eassumption) Hret4) as (cands & Href & Hfit & Hsub & Hon & Hcomb & Hne).
  apply (attempt_loop_sound params w kernel script (nValue out) _ refs max_bytes cands (a1 - nReserveBalance w)) in Hret5
    as (idx & extra & vs & values & Hm & Hidx & Hok); [|done|done|lia|lia|by right|done].
  cbn [SelectCoinsForStaking default] in Hret2. apply mbind_Ret in Hret2 as ([s' v'] & Hsel & Hret2). injection Hret2 as <- -> ->.
  exists w, a0, a1, a, kernel, out, key', script, extra, vs, values. split_and!; try done.
  - destruct (select_loop_selectable params w _ _ _ _ _ _ _ _ Hsel kernel (Hit _ _ Hin)) as [Hnil|?]; [|done].
    by apply not_elem_of_nil in Hnil.
  - intros Hx. apply Hon. intros ->. apply mapM_Some in Hm. by destruct Hm.
  - by eapply picked_all.
  - by eapply picked_outpoints.
Qed.

(** A wallet with a kernel and two small outputs, whose one key opens every script *)
#[local] Instance demo_keys : KeyStore := {|
  CKey := unit; CPubKey := list Z; SigningProvider := unit;
  GetPubKey := fun _ => [0x51]; CPubKey_of := fun b => b; pubkey_eqb := fun a b => bool_decide (a = b);
  ToByteVector := fun b => b; GetID := fun b => b; Hash160 := fun b => b;
  GetKey := fun _ _ => Some tt; Solver := fun s => (PUBKEY, [s]);
  ProduceSignature := fun _ _ i _ _ => Some [Z.of_nat i; 7] |}.

Definition demo_funding : CWalletTx :=
  mkWalletTx (demo_hash 9) [mkTxOut (5000 * COIN) [0x51]; mkTxOut (20000 * COIN) [0x51]; mkTxOut (3 * COIN) [0x51]]
    CONFIRMED 2 (demo_hash 3) 0 1020.
Definition demo_wallet : CWallet :=
  mkWallet _ (fun lo hi => List.filter (fun o => match wtx_vout (out_tx o) !! out_i o with
                                               | Some t => (lo <=? nValue t) && (nValue t <=? hi) | None => false end)
                           [mkOutput demo_funding 0 true; mkOutput demo_funding 1 true; mkOutput demo_funding 2 true])
    (25003 * COIN) (100000 * COIN) (10 * COIN) 5000 (fun h => if bool_decide (h = demo_hash 3) then Some 1020 else None)
    0 true true [DescriptorScriptPubKeyMan (fun _ => None); LegacyScriptPubKeyMan tt].
Definition demo_chain : ChainState :=
  mkChainState (<[demo_hash 8 := demo_prev]> demo_index) (m_chain demo_stake_state) (CoinsTip demo_stake_state).

Lemma CreateCoinStake_sound_witness :
  exists tx, CreateCoinStake (demo_params 0) (fun _ => uint256_of_Z (2^250)) (Some demo_wallet) demo_chain (demo_hash 8)
    0x1d0fffff 2000016 5001 (fun l => l) (fun _ => false) (mkTx [] [] 2 0 0 []) 2000 = Ret (BlockFound, tx, Some tt) /\
  length (vin tx) = 2%nat /\ vout tx = [mkTxOut 0 []; mkTxOut (20503 * COIN) [0x51]] /\
  exists w prev nBalance network_weight kernel out k script extra extra_values values,
    Some demo_wallet = Some w /\ m_block_index demo_chain !! demo_hash 8 = Some prev /\ GetAvailableBalance w = Ret nBalance /\
    GetPoSKernelPS (m_block_index demo_chain) (demo_params 0) (demo_hash 8) = Some network_weight /\
    (exists bt, CheckKernel (fun _ => uint256_of_Z (2^250)) demo_chain (demo_params 0) prev 0x1d0fffff 2000016
       (coin_outpoint kernel) = Ret (true, bt)) /\
    coin_txout kernel = Ret out /\ Some tt = Some k /\ kernel_key w out = Ret (Some (Some (k, script))) /\
    selectable (demo_params 0) w 2000016 5001
      (AvailableCoins w (stakeValueRange (demo_params 0)).1 (stakeValueRange (demo_params 0)).2) kernel /\
    (extra <> [] -> m_stake_combine w = true) /\
    Forall (combinable (demo_params 0) w (GetPubKey k) (StakeTargetSize (demo_params 0) network_weight (m_stake_target w))
              (AvailableCoins w 1 MAX_MONEY)) extra /\
    NoDup (coin_outpoint kernel :: map coin_outpoint extra) /\
    coinstake_ok (demo_params 0) w kernel (nValue out) (nBalance - nReserveBalance w) script 2000 extra extra_values values tx.
Proof.
  eexists. split; [vm_compute; reflexivity|]. split; [reflexivity|]. split; [reflexivity|].
  apply (CreateCoinStake_sound (fun _ => uint256_of_Z (2^250)) (demo_params 0) (Some demo_wallet) demo_chain (demo_hash 8)
    0x1d0fffff 2000016 5001 (fun l => l) (fun _ => false) (mkTx [] [] 2 0 0 []) 2000 _ (Some tt)).
  - done.
  - intros w [= <-]. apply (bool_decide_unpack _). vm_compute. exact I.
  - vm_compute. reflexivity.
Defined.

(** The consensus error a coin's exclusion corresponds to; collateral amounts
    and BLS addresses are excluded by the wallet only. *)
Definition consensus_error (e : StakeEligibility) : option PosError :=
  match e with
  | Immature => Some bad_stake_depth
  | BelowMin | AboveMax => Some bad_stake_amount
  | TooYoung | TooOld => Some bad_stake_age
  | Eligible | BLSAddress | Collateral => None
  end.

(** The wallet and the chain agree on which coins may stake.  For a
    confirmed coin whose depth and block time the wallet reads from the same
    chain, the classification names the error with which [CheckProofOfStake]
    would reject a coinstake spending it, and a coin classified as eligible is
    refused for its signature or its kernel hash only. *)
Theorem classify_matches_consensus `{KeyStore} Hash VerifyScript params w c out cs view prev from coin tx txin rest time nBits h0 t0 :
  conf_status c.1 = CONFIRMED -> conf_block_height c.1 = coin_nHeight coin -> GetLastBlockHeight w = nHeight prev ->
  IsNull (conf_hashBlock c.1) = false -> findBlock w (conf_hashBlock c.1) = Some (nTime from) -> 0 < nTime from ->
  vin tx = txin :: rest -> IsCoinStake tx = true -> view !! prevout txin = Some coin -> IsSpent coin = false ->
  coin_out coin = out ->
  chain_at (m_chain cs) (coin_nHeight coin) ≫= (m_block_index cs !!.) = Some from ->
  (forall e, consensus_error (classify_coin params w time (nHeight prev + 1) c out) = Some e ->
     CheckProofOfStake Hash VerifyScript cs view params prev tx time nBits h0 t0 = Ret (Reject e, h0, t0)) /\
  (classify_coin params w time (nHeight prev + 1) c out = Eligible ->
     forall e h t, CheckProofOfStake Hash VerifyScript cs view params prev tx time nBits h0 t0 = Ret (Reject e, h, t) ->
     e = bad_stake_signature \/ e = bad_stake_kernel).
Proof.
  intros Hst Hh Hlast Hnull Hfind Hpos Hvin Hcs Hview Hspent Hout Hfrom.
  unfold classify_coin, GetDepthInMainChain, CoinBlockTime. rewrite Hst, Hnull, Hfind. cbn [default bool_decide].
  unfold CheckProofOfStake. rewrite Hvin, Hcs, Hview, Hspent, Hfrom. cbn [negb]. subst out.
  rewrite (bool_decide_false (CONFIRMED <> CONFIRMED)) by (intros Hne; by apply Hne).
  unfold ClassifyForStaking, StakeInputAge, GetBlockTime, id. rewrite Hh, Hlast, (proj2 (Z.gtb_lt (nTime from) 0)) by done.
  replace ((nHeight prev - coin_nHeight coin + 1) * 1 - 1) with (nHeight prev - coin_nHeight coin) by lia.
  rewrite (Z.gtb_ltb (COINBASE_MATURITY + 1)).
  destruct (_ <? COINBASE_MATURITY + 1); [by split; [intros e [= <-]|]|].
  destruct (bool_decide (_ = BLSPUBKEY)); [done|].
  destruct (_ <? (stakeValueRange params).1); [by split; [intros e [= <-]|]|].
  destruct (_ >? (stakeValueRange params).2); [by split; [intros e [= <-]|]|]. cbn [orb].
  destruct (_ || _)%bool; [done|].
  destruct (_ <? (stakeAgeRange params).1); [by split; [intros e [= <-]|]|]. cbn [orb].
  destruct (_ && _)%bool; [by split; [intros e [= <-]|]|]. split; [done|]. intros _ e h t.
  destruct (negb _); [intros [= <- _ _]; by left|]. destruct (CheckStakeKernelHash _ _ _ _ _ _ _ _ _ _) as [[[ok h'] t']|]; [|done].
  cbn [mbind outcome_bind]. destruct ok; [done|]. intros [= <- _ _]. by right.
Qed.

Lemma classify_matches_consensus_witness :
  CheckProofOfStake (fun _ => uint256_zero) (fun _ _ _ _ => true) demo_stake_state (CoinsTip demo_stake_state) (demo_params 0)
    demo_prev demo_coinstake 1030 0x1d0fffff uint256_zero uint256_zero = Ret (Reject bad_stake_age, uint256_zero, uint256_zero) /\
  classify_coin (demo_params 0) demo_wallet 1030 5001 (demo_funding, 1%nat) (mkTxOut (20000 * COIN) [0x51]) = TooYoung.
Proof.
  split; [|vm_compute; reflexivity].
  apply (classify_matches_consensus (fun _ => uint256_zero) (fun _ _ _ _ => true) (demo_params 0) demo_wallet (demo_funding, 1%nat)
    (mkTxOut (20000 * COIN) [0x51]) demo_stake_state (CoinsTip demo_stake_state) demo_prev
    (demo_entry (Some 2) (Some 1) 2 0 0x1e0fffff 1020) (mkCoin (mkTxOut (20000 * COIN) [0x51]) false 2 false)
    demo_coinstake (mkTxIn (mkOutPoint (demo_hash 9) 1) [] 0xffffffff) []); vm_compute; reflexivity.
Defined.
