(* ===== verification/DoubleSign.v ===== *)
(** * DoubleSign: noticing double-signed stakes (src/src/pos/doublesign.{h,cpp})

    The monitor keeps, per height and kernel, the blocks the kernel's owner
    signed, and counts a pair once it holds two of them.  Script matching,
    point decompression and the key hash are arguments of the model. *)

From Stdlib Require Import ZArith Lia.
From stdpp Require Import base list numbers option gmap fin_maps sorting.
From S2P Require Import Prelude Arith256 Uint256 Transaction Standard Chain StakePolicy.

Definition WINDOW : Z := 100.
Definition MAX_KERNELS : Z := 10000.
Definition MAX_BLOCKS_PER_KERNEL : nat := 4.

(** [StakeDoubleSignMonitor::Event], [Seen], [Slot] *)
Record Event : Type := mkEvent {
  ev_height : Z;
  ev_kernel : COutPoint;
  ev_first : uint256;
  ev_second : uint256;
}.

Record Seen : Type := mkSeen {
  seen_hash : uint256;
  seen_signer : CScript;
}.

#[export] Instance Seen_inhabited : Inhabited Seen := populate (mkSeen uint256_zero []).

Record Slot : Type := mkSlot {
  sl_owner : CScript;
  sl_blocks : list Seen;
  sl_counted : bool;
}.

(** [StakeDoubleSignMonitor]: the slots by height and kernel, the count and the
    last event.  The source's ordered map compares heights first. *)
Record Monitor : Type := mkMonitor {
  m_slots : gmap (Z * COutPoint) Slot;
  m_count : Z;
  m_last : option Event;
}.

Definition new_monitor : Monitor := mkMonitor ∅ 0 None.

(** [Holds] *)
Definition Holds (blocks : list Seen) (hash : uint256) : bool :=
  existsb (fun seen => bool_decide (seen_hash seen = hash)) blocks.

Section monitor.

Context (Solver : CScript -> TxoutType * list (list Z)).
(** [CPubKey::Decompress]: the uncompressed encoding of a key, if the bytes are one *)
Context (Decompress : list Z -> option (list Z)).
(** [CPubKey::GetID] *)
Context (Hash160 : list Z -> list Z).

(** [KeyPoint] *)
Definition KeyPoint (bytes : list Z) : option (list Z) := Decompress bytes.

(** [PaysKeyHash]; the point is an uncompressed key of 65 bytes. *)
Definition PaysKeyHash (point : list Z) (id : list Z) : bool :=
  if bool_decide (Hash160 point = id) then true
  else
    let odd := Z.land (point !!! 64%nat) 1 in
    let hybrid := <[0%nat := Z.lor 6 odd]> point in
    if bool_decide (Hash160 hybrid = id) then true
    else bool_decide (Hash160 (take 33 (<[0%nat := Z.lor 2 odd]> hybrid)) = id).

(** [StakeDoubleSignMonitor::SignerOwnsKernel] *)
Definition SignerOwnsKernel (signer kernel_script : CScript) : bool :=
  match Solver signer with
  | (PUBKEY, bytes :: _) =>
      match KeyPoint bytes with
      | None => false
      | Some key =>
          match Solver kernel_script with
          | (PUBKEY, k :: _) => bool_decide (KeyPoint k = Some key)
          | (PUBKEYHASH, k :: _) => PaysKeyHash key k
          | _ => false
          end
      end
  | _ => false
  end.

(** [StakeDoubleSignMonitor::Observe].  Erasing the first entries while their
    height is below the floor erases exactly those. *)
Definition Observe (m : Monitor) (tip_height height : Z) (hash : uint256) (kernel : COutPoint) (signer : CScript)
    (kernel_script : option CScript) : bool * Monitor :=
  let floor := tip_height - WINDOW in
  let slots := filter (fun kv : (Z * COutPoint) * Slot => floor <= kv.1.1) (m_slots m) in
  let m := mkMonitor slots (m_count m) (m_last m) in
  if height <? floor then (false, m)
  else
    let key := (height, kernel) in
    match (match slots !! key with Some slot => Some (sl_owner slot) | None => kernel_script end) with
    | None => (false, m)
    | Some owner =>
        if negb (SignerOwnsKernel signer owner) then (false, m)
        else
          match (match slots !! key with
                 | Some slot => Some slot
                 | None => if Z.of_nat (size slots) >=? MAX_KERNELS then None else Some (mkSlot owner [] false)
                 end) with
          | None => (false, m)
          | Some slot =>
              let put slot' := mkMonitor (<[key := slot']> slots) (m_count m) (m_last m) in
              if Holds (sl_blocks slot) hash then (false, put slot)
              else
                let blocks := if (length (sl_blocks slot) <? MAX_BLOCKS_PER_KERNEL)%nat
                              then sl_blocks slot ++ [mkSeen hash signer] else sl_blocks slot in
                if (length blocks <? 2)%nat then (false, put (mkSlot (sl_owner slot) blocks (sl_counted slot)))
                else if sl_counted slot then (false, put (mkSlot (sl_owner slot) blocks true))
                else
                  (true, mkMonitor (<[key := mkSlot (sl_owner slot) blocks true]> slots) (u64 (m_count m + 1))
                           (Some (mkEvent height kernel (seen_hash (blocks !!! 0%nat)) (seen_hash (blocks !!! 1%nat)))))
          end
    end.

(** [ObserveStakeDoubleSign]: [read_kernel] may throw, and nothing leaves here. *)
Definition ObserveStakeDoubleSign (m : Monitor) (vtx : list CTransaction) (height : Z) (hash : uint256) (tip_height : Z)
    (read_kernel : COutPoint -> outcome (option CScript)) : Monitor :=
  match vtx with
  | _ :: coinstake :: _ =>
      if negb (IsCoinStake coinstake) then m
      else
        match vin coinstake, vout coinstake with
        | txin :: _, _ :: out :: _ =>
            match read_kernel (prevout txin) with
            | Ret script => (Observe m tip_height height hash (prevout txin) (scriptPubKey out) script).2
            | Abort => m
            end
        | _, _ => m
        end
  | _ => m
  end.

(** ** Histories *)

(** One call of [Observe] *)
Record obs : Type := mkObs {
  ob_tip : Z;
  ob_height : Z;
  ob_hash : uint256;
  ob_kernel : COutPoint;
  ob_signer : CScript;
  ob_script : option CScript;
}.

Definition observe (m : Monitor) (o : obs) : bool * Monitor :=
  Observe m (ob_tip o) (ob_height o) (ob_hash o) (ob_kernel o) (ob_signer o) (ob_script o).

(** The state after a history, the latest call first, and how many calls
    returned true *)
Fixpoint state_after (tr : list obs) : Monitor :=
  match tr with
  | [] => new_monitor
  | o :: tr' => (observe (state_after tr') o).2
  end.

Fixpoint reported (tr : list obs) : Z :=
  match tr with
  | [] => 0
  | o :: tr' => reported tr' + (if (observe (state_after tr') o).1 then 1 else 0)
  end.

(** In the history, the block [hash] at [height] on [kernel] was signed by the
    owner of the script [owner]. *)
Definition owner_signed (tr : list obs) (height : Z) (kernel : COutPoint) (owner : CScript) (hash : uint256) : Prop :=
  exists o, o ∈ tr /\ ob_height o = height /\ ob_kernel o = kernel /\ ob_hash o = hash /\
    SignerOwnsKernel (ob_signer o) owner = true.

(** The script was read for the kernel. *)
Definition was_read (tr : list obs) (kernel : COutPoint) (owner : CScript) : Prop :=
  exists o, o ∈ tr /\ ob_kernel o = kernel /\ ob_script o = Some owner.

(** A double signature is in the history. *)
Definition double_signed (tr : list obs) (height : Z) (kernel : COutPoint) (h1 h2 : uint256) : Prop :=
  h1 <> h2 /\ exists owner, was_read tr kernel owner /\ owner_signed tr height kernel owner h1 /\
    owner_signed tr height kernel owner h2.

Record slot_ok (tr : list obs) (key : Z * COutPoint) (s : Slot) : Prop := {
  so_distinct : NoDup (map seen_hash (sl_blocks s));
  so_bound : (1 <= length (sl_blocks s) <= MAX_BLOCKS_PER_KERNEL)%nat;
  so_counted : sl_counted s = (2 <=? length (sl_blocks s))%nat;
  so_owner : was_read tr key.2 (sl_owner s);
  so_signed : forall b, b ∈ sl_blocks s -> owner_signed tr key.1 key.2 (sl_owner s) (seen_hash b);
}.

Record monitor_ok (tr : list obs) (m : Monitor) : Prop := {
  mo_slots : forall key s, m_slots m !! key = Some s -> slot_ok tr key s;
  mo_size : Z.of_nat (size (m_slots m)) <= MAX_KERNELS;
  mo_last : forall e, m_last m = Some e -> double_signed tr (ev_height e) (ev_kernel e) (ev_first e) (ev_second e);
}.

(** ** One observation *)

(** The blocks of a slot after a block its owner signed *)
Definition blocks_with (slot : Slot) (hash : uint256) (signer : CScript) : list Seen :=
  if Holds (sl_blocks slot) hash then sl_blocks slot
  else if (length (sl_blocks slot) <? MAX_BLOCKS_PER_KERNEL)%nat then sl_blocks slot ++ [mkSeen hash signer]
  else sl_blocks slot.

Definition kept_slots (m : Monitor) (tip_height : Z) : gmap (Z * COutPoint) Slot :=
  filter (fun kv : (Z * COutPoint) * Slot => tip_height - WINDOW <= kv.1.1) (m_slots m).

(** The slot an observation works on: the one held, or a new one for the script read *)
Definition slot_for (m : Monitor) (o : obs) (slot : Slot) : Prop :=
  kept_slots m (ob_tip o) !! (ob_height o, ob_kernel o) = Some slot \/
  (kept_slots m (ob_tip o) !! (ob_height o, ob_kernel o) = None /\ slot = mkSlot (sl_owner slot) [] false /\
   ob_script o = Some (sl_owner slot) /\ Z.of_nat (size (kept_slots m (ob_tip o))) < MAX_KERNELS).

Definition tracks (m : Monitor) (o : obs) (slot : Slot) : Prop :=
  ob_tip o - WINDOW <= ob_height o /\ SignerOwnsKernel (ob_signer o) (sl_owner slot) = true /\ slot_for m o slot.

(** An observation is dropped, or it updates one slot; it reports when the slot
    comes to hold two blocks. *)
Lemma observe_cases m o : (forall k s, m_slots m !! k = Some s -> sl_counted s = (2 <=? length (sl_blocks s))%nat) ->
  (observe m o = (false, mkMonitor (kept_slots m (ob_tip o)) (m_count m) (m_last m)) /\ ~ (exists slot, tracks m o slot)) \/
  (exists slot, tracks m o slot /\
    let blocks := blocks_with slot (ob_hash o) (ob_signer o) in
    let new := (2 <=? length blocks)%nat && negb (sl_counted slot) in
    observe m o = (new, mkMonitor
      (<[(ob_height o, ob_kernel o) := mkSlot (sl_owner slot) blocks (2 <=? length blocks)%nat]> (kept_slots m (ob_tip o)))
      (if new then u64 (m_count m + 1) else m_count m)
      (if new then Some (mkEvent (ob_height o) (ob_kernel o) (seen_hash (blocks !!! 0%nat)) (seen_hash (blocks !!! 1%nat)))
       else m_last m))).
Proof.
  intros Hcounted. unfold tracks, slot_for, observe, Observe. fold (kept_slots m (ob_tip o)). cbn [m_count m_last].
  set (slots := kept_slots m (ob_tip o)).
  destruct (Z.ltb_spec (ob_height o) (ob_tip o - WINDOW)) as [Hlow|Hlow]; [left; split; [done|]; intros (? & ? & _); lia|].
  assert (Hupd : forall slot, sl_counted slot = (2 <=? length (sl_blocks slot))%nat ->
    let blocks := blocks_with slot (ob_hash o) (ob_signer o) in
    let new := (2 <=? length blocks)%nat && negb (sl_counted slot) in
    (let put slot' := mkMonitor (<[(ob_height o, ob_kernel o) := slot']> slots) (m_count m) (m_last m) in
     if Holds (sl_blocks slot) (ob_hash o) then (false, put slot)
     else
       let blocks := if (length (sl_blocks slot) <? MAX_BLOCKS_PER_KERNEL)%nat
                     then sl_blocks slot ++ [mkSeen (ob_hash o) (ob_signer o)] else sl_blocks slot in
       if (length blocks <? 2)%nat then (false, put (mkSlot (sl_owner slot) blocks (sl_counted slot)))
       else if sl_counted slot then (false, put (mkSlot (sl_owner slot) blocks true))
       else (true, mkMonitor (<[(ob_height o, ob_kernel o) := mkSlot (sl_owner slot) blocks true]> slots) (u64 (m_count m + 1))
              (Some (mkEvent (ob_height o) (ob_kernel o) (seen_hash (blocks !!! 0%nat)) (seen_hash (blocks !!! 1%nat)))))) =
    (new, mkMonitor (<[(ob_height o, ob_kernel o) := mkSlot (sl_owner slot) blocks (2 <=? length blocks)%nat]> slots)
      (if new then u64 (m_count m + 1) else m_count m)
      (if new then Some (mkEvent (ob_height o) (ob_kernel o) (seen_hash (blocks !!! 0%nat)) (seen_hash (blocks !!! 1%nat)))
       else m_last m))).
  { intros [owner bl cnt] Hc. cbn [sl_owner sl_blocks sl_counted] in *. unfold blocks_with. cbn [sl_blocks].
    destruct (Holds bl (ob_hash o)).
    - rewrite Hc. by rewrite andb_negb_r.
    - cbv zeta. set (bl' := if (length bl <? _)%nat then _ else _).
      assert (length bl <= length bl')%nat by (unfold bl'; case_match; rewrite ?length_app; lia).
      destruct (Nat.ltb_spec (length bl') 2).
      + rewrite (proj2 (Nat.leb_gt 2 (length bl'))) by lia. rewrite Hc, (proj2 (Nat.leb_gt 2 (length bl))) by lia. done.
      + rewrite (proj2 (Nat.leb_le 2 (length bl'))) by lia. by destruct cnt. }
  destruct (slots !! (ob_height o, ob_kernel o)) as [slot|] eqn:Hslot.
  - destruct (SignerOwnsKernel (ob_signer o) (sl_owner slot)) eqn:Hown; cbn [negb].
    + right. exists slot. split; [split_and!; [lia|done|by left]|]. apply Hupd.
      apply (Hcounted (ob_height o, ob_kernel o)). unfold slots, kept_slots in Hslot. by apply map_lookup_filter_Some in Hslot as [? _].
    + left. split; [done|]. intros (s & _ & Hs & [[= ->]|[? _]]); congruence.
  - destruct (ob_script o) as [owner|] eqn:Hscript; [|left; split; [done|]; by intros (s & _ & _ & [?|(_ & _ & ? & _)])].
    destruct (SignerOwnsKernel (ob_signer o) owner) eqn:Hown; cbn [negb].
    2: { left. split; [done|]. intros (s & _ & Hs & [?|(_ & _ & [= ->] & _)]); congruence. }
    rewrite Z.geb_leb. destruct (Z.leb_spec MAX_KERNELS (Z.of_nat (size slots))).
    { left. split; [done|]. intros (s & _ & _ & [?|(_ & _ & _ & ?)]); [done|lia]. }
    right. exists (mkSlot owner [] false). split; [split_and!; [lia|done|by right]|]. by apply Hupd.
Qed.

(** ** Soundness *)

Lemma owner_signed_cons o tr h k w hash : owner_signed tr h k w hash -> owner_signed (o :: tr) h k w hash.
Proof. intros (o' & ? & ?). exists o'. split; [by right|done]. Qed.

Lemma was_read_cons o tr k w : was_read tr k w -> was_read (o :: tr) k w.
Proof. intros (o' & ? & ?). exists o'. split; [by right|done]. Qed.

Lemma double_signed_cons o tr h k a b : double_signed tr h k a b -> double_signed (o :: tr) h k a b.
Proof.
  intros (Hne & w & ? & ? & ?). split; [done|]. exists w.
  split_and!; [by apply was_read_cons|by apply owner_signed_cons|by apply owner_signed_cons].
Qed.

Lemma slot_ok_cons o tr key s : slot_ok tr key s -> slot_ok (o :: tr) key s.
Proof. intros []. split; [done|done|done|by apply was_read_cons|]. intros b Hb. by apply owner_signed_cons, so_signed0. Qed.

Lemma Holds_spec bl hash : Holds bl hash = true <-> hash ∈ map seen_hash bl.
Proof.
  unfold Holds. rewrite existsb_exists. setoid_rewrite <- list_elem_of_In. setoid_rewrite bool_decide_eq_true.
  change (map seen_hash bl) with (seen_hash <$> bl). rewrite list_elem_of_fmap. naive_solver.
Qed.

Lemma kept_subset m tip : kept_slots m tip ⊆ m_slots m.
Proof. apply map_filter_subseteq. Qed.

Lemma kept_lookup m tip key s : m_slots m !! key = Some s -> tip - WINDOW <= key.1 -> kept_slots m tip !! key = Some s.
Proof. intros Hs Hk. by apply map_lookup_filter_Some. Qed.

(** The slot an observation works on keeps its invariant. *)
Lemma slot_ok_step tr m o slot : (forall key s, m_slots m !! key = Some s -> slot_ok tr key s) -> tracks m o slot ->
  let blocks := blocks_with slot (ob_hash o) (ob_signer o) in
  slot_ok (o :: tr) (ob_height o, ob_kernel o) (mkSlot (sl_owner slot) blocks (2 <=? length blocks)%nat) /\
  (sl_counted slot = (2 <=? length (sl_blocks slot))%nat).
Proof.
  intros Hok (Hlow & Hown & Hslot) blocks.
  assert (Hhere : owner_signed (o :: tr) (ob_height o) (ob_kernel o) (sl_owner slot) (ob_hash o)).
  { exists o. split; [by left|done]. }
  assert (Hold : NoDup (map seen_hash (sl_blocks slot)) /\ (length (sl_blocks slot) <= MAX_BLOCKS_PER_KERNEL)%nat /\
    was_read (o :: tr) (ob_kernel o) (sl_owner slot) /\ sl_counted slot = (2 <=? length (sl_blocks slot))%nat /\
    forall b, b ∈ sl_blocks slot -> owner_signed (o :: tr) (ob_height o) (ob_kernel o) (sl_owner slot) (seen_hash b)).
  { destruct Hslot as [Hs|(_ & -> & Hread & _)]; cbn [sl_owner sl_blocks sl_counted] in *.
    - destruct (slot_ok_cons o _ _ _ (Hok _ _ (lookup_weaken _ _ _ _ Hs (kept_subset m _)))) as [? [? ?] ? ? Hb].
      split_and!; done.
    - split_and!; [constructor|cbn; lia| |done|by intros b ?%not_elem_of_nil].
      exists o. split; [by left|done]. }
  destruct Hold as (Hnd & Hlen & Hread & Hcnt & Hsig). split; [|done].
  unfold blocks, blocks_with. destruct (Holds (sl_blocks slot) (ob_hash o)) eqn:Hh.
  - split; cbn [sl_blocks sl_owner sl_counted fst snd]; try done. split; [|done].
    apply Holds_spec in Hh. destruct (sl_blocks slot); [by apply not_elem_of_nil in Hh|cbn; lia].
  - destruct (Nat.ltb_spec (length (sl_blocks slot)) MAX_BLOCKS_PER_KERNEL) as [Hroom|Hfull].
    + split; cbn [sl_blocks sl_owner sl_counted fst snd]; try done.
      * rewrite map_app. apply NoDup_app. split_and!; [done| |by apply NoDup_singleton].
        intros x Hx ->%list_elem_of_singleton. apply Holds_spec in Hx. cbn in Hx. congruence.
      * rewrite length_app. cbn [length]. unfold MAX_BLOCKS_PER_KERNEL in *. lia.
      * intros b [?| ->%list_elem_of_singleton]%elem_of_app; [by apply Hsig|done].
    + split; cbn [sl_blocks sl_owner sl_counted fst snd]; try done. unfold MAX_BLOCKS_PER_KERNEL in *. lia.
Qed.

Lemma two_blocks l : NoDup (map seen_hash l) -> (2 <= length l)%nat ->
  (l !!! 0%nat) ∈ l /\ (l !!! 1%nat) ∈ l /\ seen_hash (l !!! 0%nat) <> seen_hash (l !!! 1%nat).
Proof.
  destruct l as [|a [|b l]]; cbn [length map]; [lia|lia|]. intros [Hn _]%NoDup_cons _.
  split_and!; cbn; [by left|by right; left|]. intros He. apply Hn. rewrite He. by left.
Qed.

Lemma observe_ok tr m o : monitor_ok tr m -> monitor_ok (o :: tr) (observe m o).2.
Proof.
  intros [Hslots Hsize Hlast].
  assert (Hkept : forall key s, kept_slots m (ob_tip o) !! key = Some s -> slot_ok (o :: tr) key s).
  { intros key s Hs. apply slot_ok_cons, Hslots. by eapply lookup_weaken, kept_subset. }
  assert (Hsz : Z.of_nat (size (kept_slots m (ob_tip o))) <= MAX_KERNELS).
  { pose proof (map_subseteq_size _ _ (kept_subset m (ob_tip o))). lia. }
  destruct (observe_cases m o) as [[-> _]|(slot & Ht & Hobs)]; [intros; by destruct (Hslots k s)| |].
  - split; cbn [snd m_slots m_last]; [done|done|]. intros e He. by apply double_signed_cons, Hlast.
  - destruct (slot_ok_step tr m o slot Hslots Ht) as [Hok Hcnt]. cbv zeta in Hobs. rewrite Hobs.
    cbn [snd]. split; cbn [m_slots m_last].
    + intros key s Hs. apply lookup_insert_Some in Hs as [[<- <-]|[_ Hs]]; [exact Hok|by apply Hkept].
    + destruct Ht as (_ & _ & [Hs|(Hnone & _ & _ & Hroom)]).
      * rewrite map_size_insert_Some by done. done.
      * rewrite map_size_insert_None by done. lia.
    + intros e He. destruct (_ && _)%bool eqn:Hnew; [|by apply double_signed_cons, Hlast].
      apply andb_true_iff in Hnew as [Hlen _]. apply Nat.leb_le in Hlen. injection He as <-.
      cbn [ev_height ev_kernel ev_first ev_second]. destruct Hok as [Hnd _ _ Hread Hsig]. cbn [sl_blocks sl_owner fst snd] in *.
      destruct (two_blocks _ Hnd Hlen) as (H0 & H1 & Hne). split; [done|]. exists (sl_owner slot).
      split_and!; [done|by apply Hsig|by apply Hsig].
Qed.

Lemma state_ok tr : monitor_ok tr (state_after tr).
Proof.
  induction tr as [|o tr IH]; [|by apply observe_ok].
  cbn [state_after]. split; unfold new_monitor; cbn [m_slots m_last]; [|rewrite map_size_empty; unfold MAX_KERNELS; lia|done].
  intros key s Hs. by rewrite lookup_empty in Hs.
Qed.

(** ** Reports of one pair *)

Definition obs_key (o : obs) : Z * COutPoint := (ob_height o, ob_kernel o).

(** How many calls for the pair returned true *)
Fixpoint reports_of (tr : list obs) (key : Z * COutPoint) : Z :=
  match tr with
  | [] => 0
  | o :: tr' =>
      reports_of tr' key +
      (if ((observe (state_after tr') o).1 && bool_decide (obs_key o = key))%bool then 1 else 0)
  end.

Lemma reports_of_nonneg tr key : 0 <= reports_of tr key.
Proof. induction tr; cbn; [lia|]. case_match; lia. Qed.

(** [observe_cases] at a reachable state *)
Lemma observe_after tr o :
  (observe (state_after tr) o =
     (false, mkMonitor (kept_slots (state_after tr) (ob_tip o)) (m_count (state_after tr)) (m_last (state_after tr))) /\
   ~ (exists slot, tracks (state_after tr) o slot)) \/
  (exists slot, tracks (state_after tr) o slot /\
    sl_counted slot = (2 <=? length (sl_blocks slot))%nat /\
    let blocks := blocks_with slot (ob_hash o) (ob_signer o) in
    let new := (2 <=? length blocks)%nat && negb (sl_counted slot) in
    (observe (state_after tr) o).1 = new /\
    m_slots (observe (state_after tr) o).2 =
      <[obs_key o := mkSlot (sl_owner slot) blocks (2 <=? length blocks)%nat]> (kept_slots (state_after tr) (ob_tip o))).
Proof.
  destruct (state_ok tr) as [Hslots _ _].
  destruct (observe_cases (state_after tr) o) as [?|(slot & Ht & Hobs)]; [intros; by destruct (Hslots k s)|by left|right].
  destruct (slot_ok_step tr _ o slot Hslots Ht) as [_ Hcnt].
  exists slot. cbv zeta in *. rewrite Hobs. done.
Qed.

(** A counted slot was reported. *)
Lemma counted_reported tr : forall key s, m_slots (state_after tr) !! key = Some s -> sl_counted s = true ->
  1 <= reports_of tr key.
Proof.
  induction tr as [|o tr IH]; intros key s Hs Hc; [cbn [state_after] in Hs; unfold new_monitor in Hs; cbn [m_slots] in Hs; by rewrite lookup_empty in Hs|].
  cbn [state_after reports_of] in *.
  destruct (observe_after tr o) as [[Hobs _]|(slot & (_ & _ & Hslot) & Hcnt & Hnew & Hm)].
  { rewrite Hobs in *. cbn [snd m_slots fst andb] in *. pose proof (IH key s). rewrite Z.add_0_r. apply (IH key s); [|done].
    by eapply lookup_weaken, kept_subset. }
  rewrite Hm in Hs. rewrite Hnew. apply lookup_insert_Some in Hs as [[Hk <-]|[Hk Hs]].
  - cbn [sl_counted] in Hc. rewrite Hc, (bool_decide_true (obs_key o = key)) by done. cbn [andb].
    destruct (sl_counted slot) eqn:Hold; cbn [negb andb].
    + rewrite Z.add_0_r. apply (IH key slot); [|done]. destruct Hslot as [Hs|(_ & He & _)]; [|by rewrite He in Hold].
      rewrite <- Hk. by eapply lookup_weaken, kept_subset.
    + pose proof (reports_of_nonneg tr key). lia.
  - rewrite (bool_decide_false (obs_key o = key)), andb_false_r, Z.add_0_r by done. apply (IH key s); [|done].
    by eapply lookup_weaken, kept_subset.
Qed.

(** While the tip does not go back, a pair is reported at most once. *)
Lemma reported_once tr : StronglySorted (fun o o' => ob_tip o' <= ob_tip o) tr -> forall key,
  reports_of tr key = 0 \/ (reports_of tr key = 1 /\
    ((exists s, m_slots (state_after tr) !! key = Some s /\ sl_counted s = true) \/
     exists o, o ∈ tr /\ key.1 < ob_tip o - WINDOW)).
Proof.
  induction 1 as [|o tr Hs IH Htips]; intros key; [by left|]. cbn [reports_of state_after].
  assert (Hpast : (exists o', o' ∈ tr /\ key.1 < ob_tip o' - WINDOW) -> key.1 < ob_tip o - WINDOW).
  { intros (o' & Ho' & ?). rewrite Forall_forall in Htips. pose proof (Htips o' Ho'). lia. }
  assert (Hout : key.1 < ob_tip o - WINDOW -> exists o', o' ∈ o :: tr /\ key.1 < ob_tip o' - WINDOW).
  { intros ?. exists o. split; [by left|done]. }
  assert (Hkeep : forall s, m_slots (state_after tr) !! key = Some s -> sl_counted s = true ->
    (kept_slots (state_after tr) (ob_tip o) !! key = Some s) \/ key.1 < ob_tip o - WINDOW).
  { intros s Hk Hc. destruct (Z.le_gt_cases (ob_tip o - WINDOW) key.1); [left; by apply kept_lookup|by right]. }
  destruct (observe_after tr o) as [[Hobs _]|(slot & (Hlow & _ & Hslot) & Hcnt & Hnew & Hm)].
  - rewrite Hobs. cbn [fst snd andb m_slots]. rewrite Z.add_0_r.
    destruct (IH key) as [?|[Hone [(s & Hk & Hc)|Hp]]]; [by left|right|right; split; [done|right; auto]].
    split; [done|]. destruct (Hkeep s Hk Hc); [left; by exists s|right; auto].
  - rewrite Hnew, Hm. destruct (decide (obs_key o = key)) as [Hk|Hk].
    + rewrite (bool_decide_true (obs_key o = key)), andb_true_r, Hk, lookup_insert_eq by done.
      destruct (IH key) as [Hz|[Hone Hwhy]].
      * rewrite Hz. destruct (_ && _)%bool eqn:Hn; [|by left]. right. split; [done|]. left. eexists. split; [done|].
        cbn [sl_counted]. by apply andb_true_iff in Hn as [].
      * assert (Hcs : sl_counted slot = true).
        { destruct Hwhy as [(s & Hks & Hc)|Hp].
          - destruct (Hkeep s Hks Hc) as [Hkept|?]; [|subst key; cbn [obs_key fst] in *; lia].
            destruct Hslot as [Hsl|(Hsl & _)]; rewrite <- Hk in Hkept; unfold obs_key in Hkept; congruence.
          - apply Hpast in Hp. subst key. cbn [obs_key fst] in *. lia. }
        rewrite Hcs. cbn [negb]. rewrite andb_false_r, Z.add_0_r. right. split; [done|]. left. eexists. split; [done|].
        cbn [sl_counted]. rewrite Hcnt in Hcs. apply Nat.leb_le in Hcs. apply Nat.leb_le.
        unfold blocks_with. repeat case_match; rewrite ?length_app; lia.
    + rewrite (bool_decide_false (obs_key o = key)), andb_false_r, Z.add_0_r, lookup_insert_ne by done.
      destruct (IH key) as [?|[Hone [(s & Hks & Hc)|Hp]]]; [by left|right|right; split; [done|right; auto]].
      split; [done|]. destruct (Hkeep s Hks Hc); [left; by exists s|right; auto].
Qed.

Lemma count_reported tr : m_count (state_after tr) = u64 (reported tr).
Proof.
  induction tr as [|o tr IH]; [done|]. cbn [state_after reported].
  destruct (state_ok tr) as [Hslots _ _].
  destruct (observe_cases (state_after tr) o) as [[-> _]|(slot & _ & Hobs)]; [intros; by destruct (Hslots k s)| |].
  - cbn [fst snd m_count]. by rewrite Z.add_0_r.
  - cbv zeta in Hobs. rewrite Hobs. cbn [fst snd m_count]. destruct (_ && _)%bool; [|by rewrite Z.add_0_r].
    rewrite IH. unfold u64. by rewrite Z.add_mod_idemp_l.
Qed.

(** ** Completeness *)

Lemma size_bound tr : (size (m_slots (state_after tr)) <= length tr)%nat.
Proof.
  induction tr as [|o tr IH]; [cbn [state_after]; unfold new_monitor; cbn [m_slots]; by rewrite map_size_empty|].
  cbn [state_after length]. pose proof (map_subseteq_size _ _ (kept_subset (state_after tr) (ob_tip o))).
  destruct (observe_after tr o) as [[-> _]|(slot & (_ & _ & [Hs|(Hs & _)]) & _ & _ & ->)]; cbn [snd m_slots]; [lia| |].
  - unfold obs_key. rewrite map_size_insert_Some by done. lia.
  - unfold obs_key. rewrite map_size_insert_None by done. lia.
Qed.

(** The slot of the pair holds the block, or two others already. *)
Definition holding (m : Monitor) (key : Z * COutPoint) (hash : uint256) : Prop :=
  exists s, m_slots m !! key = Some s /\ (hash ∈ map seen_hash (sl_blocks s) \/ (2 <= length (sl_blocks s))%nat).

Lemma blocks_with_grows slot hash signer :
  sl_blocks slot `prefix_of` blocks_with slot hash signer /\
  (hash ∈ map seen_hash (blocks_with slot hash signer) \/ (2 <= length (blocks_with slot hash signer))%nat).
Proof.
  unfold blocks_with. destruct (Holds _ _) eqn:Hh; [split; [done|left; by apply Holds_spec]|].
  destruct (Nat.ltb_spec (length (sl_blocks slot)) MAX_BLOCKS_PER_KERNEL) as [?|Hfull].
  - split; [by apply prefix_app_r|]. left. rewrite map_app. apply elem_of_app. right. by left.
  - split; [done|]. right. unfold MAX_BLOCKS_PER_KERNEL in *. lia.
Qed.

Lemma holding_prefix (l l' : list Seen) hash : l `prefix_of` l' ->
  hash ∈ map seen_hash l \/ (2 <= length l)%nat -> hash ∈ map seen_hash l' \/ (2 <= length l')%nat.
Proof.
  intros [k ->] [Hin|Hlen]; [left|right; rewrite length_app; lia]. rewrite map_app. apply elem_of_app. by left.
Qed.

(** Within the window a slot stays. *)
Lemma holding_step tr o key hash : ob_tip o - WINDOW <= key.1 -> holding (state_after tr) key hash ->
  holding (state_after (o :: tr)) key hash.
Proof.
  intros Hwin (s & Hs & Hh). pose proof (kept_lookup _ _ _ _ Hs Hwin) as Hk. cbn [state_after]. unfold holding.
  destruct (observe_after tr o) as [[-> _]|(slot & (_ & _ & Hslot) & _ & _ & ->)]; [by exists s|].
  destruct (decide (obs_key o = key)) as [<-|Hne]; [|exists s; by rewrite lookup_insert_ne by done].
  rewrite lookup_insert_eq. eexists. split; [done|]. cbn [sl_blocks].
  destruct (blocks_with_grows slot (ob_hash o) (ob_signer o)) as [Hpre _].
  eapply holding_prefix; [exact Hpre|]. destruct Hslot as [Hsl|(Hsl & _)]; unfold obs_key in *; congruence.
Qed.

(** A block its owner signed is held, if there is room. *)
Lemma holding_new tr o script : (Z.of_nat (length tr) < MAX_KERNELS) -> ob_tip o - WINDOW <= ob_height o ->
  SignerOwnsKernel (ob_signer o) script = true ->
  (forall w, was_read tr (ob_kernel o) w -> w = script) ->
  ob_script o = Some script \/ (exists hash, holding (state_after tr) (obs_key o) hash) ->
  holding (state_after (o :: tr)) (obs_key o) (ob_hash o).
Proof.
  intros Hroom Hwin Hown Hread Hsrc. cbn [state_after]. unfold holding.
  destruct (observe_after tr o) as [[_ Hno]|(slot & _ & _ & _ & ->)].
  - exfalso. apply Hno. destruct (state_ok tr) as [Hslots _ _].
    destruct (kept_slots (state_after tr) (ob_tip o) !! obs_key o) as [s|] eqn:Hs.
    + exists s. assert (sl_owner s = script) as Hsc.
      { apply Hread. apply (so_owner tr (obs_key o) s), Hslots. by eapply lookup_weaken, kept_subset. }
      split_and!; [done|by rewrite Hsc|by left].
    + exists (mkSlot script [] false). destruct Hsrc as [Hsc|(h & s & Hs' & _)].
      * split_and!; [done|done|]. right. split_and!; [done|done|done|].
        pose proof (map_subseteq_size _ _ (kept_subset (state_after tr) (ob_tip o))). pose proof (size_bound tr). lia.
      * exfalso. apply (kept_lookup _ (ob_tip o)) in Hs'; [congruence|done].
  - rewrite lookup_insert_eq. eexists. split; [done|]. cbn [sl_blocks]. apply blocks_with_grows.
Qed.

Lemma reports_of_app tr tr' key : reports_of tr' key <= reports_of (tr ++ tr') key.
Proof. induction tr as [|o tr IH]; cbn [app reports_of]; [lia|]. case_match; lia. Qed.

Lemma two_holdings_reported tr key h1 h2 : h1 <> h2 -> holding (state_after tr) key h1 -> holding (state_after tr) key h2 ->
  1 <= reports_of tr key.
Proof.
  intros Hne (s & Hs & H1) (s' & Hs' & H2). simplify_eq.
  apply (counted_reported tr key s Hs). destruct (state_ok tr) as [Hslots _ _].
  rewrite (so_counted _ _ _ (Hslots key s Hs)). apply Nat.leb_le.
  destruct H1 as [H1|?]; [|done]. destruct H2 as [H2|?]; [|done].
  destruct (sl_blocks s) as [|a [|b l]]; [by apply not_elem_of_nil in H1| |cbn; lia].
  cbn [map] in H1, H2. apply list_elem_of_singleton in H1, H2. congruence.
Qed.

End monitor.

(** ** Properties *)

(** C9: the double-sign monitor never reports what did not happen.  After any
    history of observations it holds at most 10000 pairs; the count is the
    number of calls that returned true; the last event names two different
    blocks at one height on one kernel that were both observed and both signed
    by the owner of the script read for that kernel; and while the tip does
    not go back, a pair of height and kernel is reported at most once. *)
Theorem monitor_sound Solver Decompress Hash160 tr :
  let m := state_after Solver Decompress Hash160 tr in
  Z.of_nat (size (m_slots m)) <= MAX_KERNELS /\
  m_count m = u64 (reported Solver Decompress Hash160 tr) /\
  (forall e, m_last m = Some e ->
     double_signed Solver Decompress Hash160 tr (ev_height e) (ev_kernel e) (ev_first e) (ev_second e)) /\
  (StronglySorted (fun o o' => ob_tip o' <= ob_tip o) tr ->
     forall key, reports_of Solver Decompress Hash160 tr key <= 1).
Proof.
  intros m. destruct (state_ok Solver Decompress Hash160 tr) as [_ Hsize Hlast]. split_and!; [done| |done|].
  - apply count_reported.
  - intros Hs key. destruct (reported_once Solver Decompress Hash160 tr Hs key) as [|[]]; lia.
Qed.

(** C10: the monitor reports every double signature in its reach.  If two
    different blocks at one height on one kernel, both signed by the owner of
    the kernel's script, are observed, the script being readable at the first,
    and the height stays within the window of the tip from the first to the
    second, then the pair has been reported, whatever else was observed before,
    between or after, as long as fewer than 10000 observations came before. *)
Theorem monitor_complete Solver Decompress Hash160 (t3 t2 t1 : list obs) (o1 o2 : obs) (script : CScript) :
  ob_height o1 = ob_height o2 -> ob_kernel o1 = ob_kernel o2 -> ob_hash o1 <> ob_hash o2 ->
  SignerOwnsKernel Solver Decompress Hash160 (ob_signer o1) script = true ->
  SignerOwnsKernel Solver Decompress Hash160 (ob_signer o2) script = true ->
  ob_script o1 = Some script ->
  (forall w, was_read (t2 ++ o1 :: t1) (ob_kernel o1) w -> w = script) ->
  (forall o, o ∈ o2 :: t2 ++ [o1] -> ob_tip o - WINDOW <= ob_height o1) ->
  Z.of_nat (length (t2 ++ o1 :: t1)) < MAX_KERNELS ->
  1 <= reports_of Solver Decompress Hash160 (t3 ++ o2 :: t2 ++ o1 :: t1) (ob_height o1, ob_kernel o1).
Proof.
  intros Hh Hk Hne Hs1 Hs2 Hsc Hread Hwin Hroom. rewrite length_app in Hroom. cbn [length] in Hroom.
  assert (H1 : holding (state_after Solver Decompress Hash160 (t2 ++ o1 :: t1)) (obs_key o1) (ob_hash o1)).
  { assert (Hw : forall o, o ∈ t2 -> ob_tip o - WINDOW <= ob_height o1).
    { intros o Ho. apply Hwin. right. apply elem_of_app. by left. }
    assert (Hr : forall w, was_read t1 (ob_kernel o1) w -> w = script).
    { intros w (o & Ho & ?). apply Hread. exists o. split; [|done]. apply elem_of_app. right. by right. }
    assert (ob_tip o1 - WINDOW <= ob_height o1) as Hw1.
    { apply Hwin. right. apply elem_of_app. right. by left. }
    clear Hwin Hread. induction t2 as [|o t2 IH].
    - cbn [app]. eapply holding_new; [lia|done|done|done|by left].
    - apply holding_step; [apply Hw; by left|]. apply IH; [cbn [length] in *; lia|].
      intros o' Ho'. apply Hw. by right. }
  etransitivity; [|apply reports_of_app].
  replace (ob_height o1, ob_kernel o1) with (obs_key o1) by done.
  assert (Hk2 : obs_key o2 = obs_key o1) by (unfold obs_key; congruence).
  apply (two_holdings_reported _ _ _ _ _ (ob_hash o1) (ob_hash o2)); [done| |].
  - apply holding_step; [|done]. cbn [obs_key fst]. apply Hwin. by left.
  - rewrite <- Hk2. eapply holding_new; [rewrite length_app; cbn [length]; lia|rewrite <- Hh; apply Hwin; by left|exact Hs2|
      rewrite <- Hk; exact Hread|]. right. exists (ob_hash o1). by rewrite Hk2.
Qed.

Definition demo_obs (tip : Z) (hash : uint256) : obs :=
  mkObs tip 100 hash (mkOutPoint (demo_hash 9) 1) [2] (Some [2]).

Lemma monitor_complete_witness :
  1 <= reports_of (fun s => (PUBKEY, [s])) (fun b => Some b) (fun b => b)
    ([] ++ demo_obs 130 (demo_hash 2) :: [demo_obs 120 (demo_hash 1)] ++ demo_obs 110 (demo_hash 1) :: [])
    (100, mkOutPoint (demo_hash 9) 1).
Proof.
  apply (monitor_complete (fun s => (PUBKEY, [s])) (fun b => Some b) (fun b => b) [] [demo_obs 120 (demo_hash 1)] []
    (demo_obs 110 (demo_hash 1)) (demo_obs 130 (demo_hash 2)) [2]); try reflexivity.
  - vm_compute. discriminate.
  - intros w (o & Ho & _ & Hw). cbn [app] in Ho.
    apply elem_of_cons in Ho as [->|Ho]; [cbn in Hw; congruence|]. apply list_elem_of_singleton in Ho as ->. cbn in Hw. congruence.
  - intros o Ho. cbn [app] in Ho. unfold WINDOW.
    repeat (apply elem_of_cons in Ho as [->|Ho]; [cbn; lia|]). by apply not_elem_of_nil in Ho.
Defined.
