(* ===== verification/AcceptBlock.v ===== *)
(** * AcceptBlock: a block reaches the node (src/src/validation.cpp)

    [AcceptBlock] and [ProcessNewBlock], the handlers of a received block, composed of
    the rules of headers and blocks, the linking of received data and the choice of
    the chain. What connecting a block answers is left open: [ConnectBlock] can refuse
    a block that it accepted before, or end with an error. In every state reached, the
    active chain consists of blocks that were connected, and it is the best one there
    is if no answer was taken back and nothing failed.
    Left out: the early end of [ActivateBestChain] at a shutdown, flushing, and the
    checks of [CheckBlockIndex]. *)

From Stdlib Require Import ZArith Lia.
From stdpp Require Import base list numbers option gmap.
From S2P Require Import Prelude Arith256 Uint256 Serialize Transaction Script Interpreter Sha256 Standard Merkle Compact Chain ActiveChain VersionBits Params Pow Kernel BlockStorage HeaderCheck ChainSelect BestChain ReceiveBlock TxCheck BlockCheck DoubleSign.

Definition MIN_BLOCKS_TO_KEEP : Z := 288.

Section node_state.

Context `{BlockConnector}.

(** The chain and the double-sign monitor, the state that a block changes *)
Record Node : Type := mkNode {
  chainstate : CChainState;
  g_monitor : Monitor;
}.

End node_state.

(** What [AcceptBlock] returns and sets: its result, the validation state, whether the
    block is new, the block with its flags *)
Record acceptance : Type := mkAcceptance {
  acc_ok : bool;
  acc_state : block_verdict;
  acc_new : bool;
  acc_block : CBlock;
}.

Section handlers.

Context `{BlockConnector} (addr : uint256 -> Z) `{Crypto}.
Context (GetHash : CBlockHeader -> uint256) (Hash : list Z -> uint256) (ways : d64_ways) (rules : ChainRules).
(** The key operations of the monitor *)
Context (Decompress : list Z -> option (list Z)) (KeyHash : list Z -> list Z).

(** What the node reads besides its state: settings, the clock, the best ChainLock, the
    coins, and the position at which the block is written, if it could be *)
Record environment : Type := mkEnvironment {
  fCheckpointsEnabled : bool;
  HasConflictingChainLock : Z -> uint256 -> bool;
  nAdjustedTime : Z;
  nMinimumChainWork : list Z;
  read_kernel : COutPoint -> outcome (option CScript);
  SaveBlockToDisk : CBlock -> option (Z * Z);
}.

(** An unrequested block above the last proof-of-work block that would be dropped below
    is dropped before its header is indexed. *)
Definition drop_early (env : environment) (s : CChainState) (block : CBlock) : outcome bool :=
  match tip s, block_index s !! GetHash (blk_header block), block_index s !! hashPrevBlock (blk_header block) with
  | Some t, None, Some prev =>
      if nHeight prev + 1 >? lastPowBlock (consensus rules) then
        proof ← GetBlockProof (block_index_of (blk_header block));
        let work := bu_add (nChainWork prev) proof in
        tb ← deref (block_index s !! t);
        Ret (bu_lt work (nChainWork tb) || (nHeight prev + 1 >? chain_Height (m_chain s) + MIN_BLOCKS_TO_KEEP) || bu_lt work (nMinimumChainWork env))%bool
      else Ret false
  | _, _, _ => Ret false
  end.

(** Whether a block with an accepted header is left without being stored: it is there,
    or was not asked for and would not help *)
Definition not_processed (env : environment) (s : CChainState) (b : CBlockIndex) (fRequested : bool) : outcome bool :=
  if has_flag b BLOCK_HAVE_DATA then Ret true
  else if fRequested then Ret false
  else
    fHasMoreOrSameWork ← match tip s with
                         | None => Ret true
                         | Some t => tb ← deref (block_index s !! t); Ret (bu_ge (nChainWork b) (nChainWork tb))
                         end;
    let fTooFarAhead := nHeight b >? chain_Height (m_chain s) + MIN_BLOCKS_TO_KEEP in
    Ret (negb (nTx b =? 0) || negb fHasMoreOrSameWork || fTooFarAhead || bu_lt (nChainWork b) (nMinimumChainWork env))%bool.

(** [CheckBlock] and then [ContextualCheckBlock] *)
Definition check_both (s : CChainState) (b : CBlockIndex) (block : CBlock) : outcome (block_verdict * CBlock) :=
  '(v, block) ← CheckBlock GetHash ways rules block true true true;
  match v with
  | Reject e => Ret (Reject e, block)
  | Accept => v ← ContextualCheckBlock rules (block_index s) block (pprev b); Ret (v, block)
  end.

(** [CChainState::AcceptBlock] *)
Definition AcceptBlock (env : environment) (n : Node) (block : CBlock) (fRequested : bool) : outcome (acceptance * Node) :=
  let s := chainstate n in
  dropped ← (if fRequested then Ret false else drop_early env s block);
  if (dropped : bool) then Ret (mkAcceptance true Accept false block, n)
  else
    '(v, pindex, m) ← AcceptBlockHeader GetHash Hash rules (fCheckpointsEnabled env) (HasConflictingChainLock env) (nAdjustedTime env) (m_chainman s) (blk_header block) false;
    let s := set_chainman s m in
    match v with
    | Reject (result, r) => Ret (mkAcceptance false (invalid result (header_reason r)) false block, mkNode s (g_monitor n))
    | Accept =>
        pindex ← deref pindex;
        b ← deref (block_index s !! pindex);
        left ← not_processed env s b fRequested;
        if (left : bool) then Ret (mkAcceptance true Accept false block, mkNode s (g_monitor n))
        else
          '(v, block) ← check_both s b block;
          match v with
          | Reject (result, r) =>
              let s := if bool_decide (result = BLOCK_MUTATED) then s else put true s pindex (add_flag b BLOCK_FAILED_VALID) in
              Ret (mkAcceptance false (Reject (result, r)) false block, mkNode s (g_monitor n))
          | Accept =>
              let m := ObserveStakeDoubleSign Solver Decompress KeyHash (g_monitor n) (vtx block) (nHeight b) pindex (chain_Height (m_chain s)) (read_kernel env) in
              match SaveBlockToDisk env block with
              | None => Ret (mkAcceptance false Accept true block, mkNode s m)
              | Some (file, pos) =>
                  s ← ReceivedBlockTransactions addr s (length (vtx block)) pindex file pos;
                  Ret (mkAcceptance true Accept true block, mkNode s m)
              end
          end
    end.

(** [ChainstateManager::ProcessNewBlock] *)
Definition ProcessNewBlock (env : environment) (n : Node) (block : CBlock) (force_processing : bool) : outcome (bool * Node) :=
  '(v, block) ← CheckBlock GetHash ways rules block true true true;
  match v with
  | Reject _ => Ret (false, n)
  | Accept =>
      '(a, n) ← AcceptBlock env n block force_processing;
      if negb (acc_ok a) then Ret (false, n)
      else
        '(ok, s) ← ActivateBestChain addr (chainstate n);
        Ret (ok, mkNode s (g_monitor n))
  end.

(** [AddGenesisBlock] on an empty state, and the first [ActivateBestChain] *)
Definition start_state (w : World) : CChainState := mkChainState (mkManager empty_manager []) None [] ∅ [] 1 w [].
Definition AddGenesisBlock (w : World) (block : CBlock) (file pos : Z) : outcome CChainState :=
  bm ← AddToBlockIndex Hash empty_manager (blk_header block) (GetHash (blk_header block)) BLOCK_VALID_TREE;
  ReceivedBlockTransactions addr (set_chainman (start_state w) (mkManager bm [])) (length (vtx block)) (GetHash (blk_header block)) file pos.
Definition start_node (w : World) (block : CBlock) (file pos : Z) : outcome (bool * Node) :=
  s ← AddGenesisBlock w block file pos;
  '(ok, s) ← ActivateBestChain addr s;
  Ret (ok, mkNode s new_monitor).

End handlers.

(** ** What accepting a header does *)

(** The results of [AcceptBlockHeader] with the state each leaves *)
Inductive header_result (GetHash : CBlockHeader -> uint256) (Hash : list Z -> uint256) (rules : ChainRules) (m : ChainstateManager) (block : CBlockHeader) :
  header_verdict -> option uint256 -> ChainstateManager -> Prop :=
| hr_refused e p : header_result GetHash Hash rules m block (Reject e) p m
| hr_known b : bm_index (m_blockman m) !! GetHash block = Some b -> flagged b = false \/ GetHash block = hashGenesisBlock rules ->
    header_result GetHash Hash rules m block Accept (Some (GetHash block)) m
| hr_marked e bm : failed_loop (m_failed_blocks m) (m_blockman m) (hashPrevBlock block) = Ret (Some bm) ->
    header_result GetHash Hash rules m block (Reject e) None (mkManager bm (m_failed_blocks m))
| hr_added v p st bm : bm_index (m_blockman m) !! GetHash block = None -> is_Some (bm_index (m_blockman m) !! hashPrevBlock block) ->
    (v = Accept /\ p = Some (GetHash block) /\ st = BLOCK_VALID_TREE) \/ (v <> Accept /\ st = BLOCK_CONFLICT_CHAINLOCK) ->
    AddToBlockIndex Hash (m_blockman m) block (GetHash block) st = Ret bm -> header_result GetHash Hash rules m block v p (mkManager bm (m_failed_blocks m)).

Lemma AcceptBlockHeader_result GetHash Hash rules cp lock now m block only v p m' : is_Some (bm_index (m_blockman m) !! hashGenesisBlock rules) ->
  AcceptBlockHeader GetHash Hash rules cp lock now m block only = Ret (v, p, m') -> header_result GetHash Hash rules m block v p m'.
Proof.
  intros [g Hg]. assert (mkManager (m_blockman m) (m_failed_blocks m) = m) as Eta by (by destruct m). unfold AcceptBlockHeader. case_bool_decide as Hgen.
  { rewrite Hgen, AddToBlockIndex_known by eauto. cbn [mbind outcome_bind]. intros [= <- <- <-]. rewrite Eta, <- Hgen. apply (hr_known _ _ _ _ _ g); [by rewrite Hgen|by right]. }
  destruct (bm_index (m_blockman m) !! GetHash block) as [b|] eqn:Hb.
  { destruct (negb _) eqn:E1; [intros [= <- <- <-]; constructor|]. destruct (negb (Z.land _ BLOCK_CONFLICT_CHAINLOCK =? 0)) eqn:E2; [intros [= <- <- <-]; constructor|].
    intros [= <- <- <-]. apply (hr_known _ _ _ _ _ b Hb). left. unfold flagged, has_flag. by rewrite E1, E2. }
  unfold check_new_header. destruct (bm_index (m_blockman m) !! hashPrevBlock block) as [pb|] eqn:Hp; [|intros [= <- <- <-]; constructor].
  destruct (CheckBlockHeader _ _ _ _) as [|e]; [|intros [= <- <- <-]; constructor]. destruct (negb _); [intros [= <- <- <-]; constructor|].
  destruct (negb _); [intros [= <- <- <-]; constructor|]. destruct (ContextualCheckBlockHeader _ _ _ _ _ _) as [[|e]|]; [|intros [= <- <- <-]; constructor|done].
  cbn [mbind outcome_bind]. destruct (IsValid _ _) as [valid|]; [|done]. cbn [mbind outcome_bind].
  destruct (if negb valid then _ else _) as [[bm|]|] eqn:Hm; [| |done]; cbn [mbind outcome_bind].
  { destruct valid; [done|]. intros [= <- <- <-]. by constructor. }
  destruct (lock _ _); cbn [mbind outcome_bind].
  - destruct only; cbn [negb mbind outcome_bind]; [intros [= <- <- <-]; rewrite Eta; constructor|].
    destruct (AddToBlockIndex _ _ _ _ _) as [bm|] eqn:Ha; [|done]. cbn [mbind outcome_bind]. intros [= <- <- <-].
    by apply (hr_added _ _ _ _ _ _ _ BLOCK_CONFLICT_CHAINLOCK bm); [..|right|].
  - destruct (AddToBlockIndex _ _ _ _ _) as [bm|] eqn:Ha; [|done]. cbn [mbind outcome_bind]. intros [= <- <- <-].
    by apply (hr_added _ _ _ _ _ _ _ BLOCK_VALID_TREE bm); [..|left|].
Qed.

(** A new entry has no data. *)
Lemma AddToBlockIndex_fresh Hash bm block hash st bm' : hash <> hashPrevBlock block -> st = BLOCK_VALID_TREE \/ st = BLOCK_CONFLICT_CHAINLOCK ->
  AddToBlockIndex Hash bm block hash st = Ret bm' -> bm_index bm !! hash = None ->
  exists b, bm_index bm' = <[hash := b]> (bm_index bm) /\ nTx b = 0 /\ nChainTx b = 0 /\ nStatus b = Z.lor BLOCK_VALID_TREE st.
Proof.
  intros Hne Hst Hadd Hnew. unfold AddToBlockIndex in Hadd. destruct (negb _); [done|]. rewrite Hnew in Hadd.
  destruct (link_entry Hash (bm_index bm) block hash) as [b|] eqn:Hl; [|done]. cbn [mbind outcome_bind] in Hadd.
  assert (nTx b = 0 /\ nChainTx b = 0 /\ nStatus b = 0) as (T1 & T2 & T3).
  { unfold link_entry in Hl. rewrite lookup_insert_ne in Hl by done. destruct (bm_index bm !! hashPrevBlock block) as [p|]; [|by injection Hl as <-].
    destruct (BuildSkip _ _ _) as [sk|]; [|done]. cbn [mbind outcome_bind] in Hl. by injection Hl as <-. }
  destruct (finish_entry _ b st) as [b'|] eqn:Hf; [|done]. cbn [mbind outcome_bind] in Hadd. injection Hadd as <-. exists b'. split; [done|].
  unfold finish_entry in Hf. destruct (GetBlockProof b) as [w|]; [|done]. cbn [mbind outcome_bind] in Hf. rewrite T3 in Hf.
  destruct Hst as [-> | ->]; cbn [mbind outcome_bind] in Hf; injection Hf as <-; by split_and!.
Qed.

(** ** Marks and new entries keep the invariant *)

Section changes.

Context `{BlockConnector} (addr : uint256 -> Z) `{!Inj (=) (=) addr}.

(** The walk of [AcceptBlockHeader] marks descendants of a failed block. *)
Lemma mark_loop_settles fuel : forall s h f fb bm', mark_loop fuel (m_blockman (m_chainman s)) h f = Ret bm' -> is_ancestor (block_index s) h f ->
  block_index s !! f = Some fb -> flagged fb = true -> settles s (set_chainman s (mkManager bm' (m_failed_blocks (m_chainman s)))).
Proof.
  induction fuel as [|fuel IH]; intros s h f fb bm'; cbn [mark_loop]; (case_bool_decide as E; [intros [= <-] _ _ _; by destruct s as [[] ? ? ? ? ? ? ?]; apply settles_refl|]); [done|].
  fold (block_index s). destruct (block_index s !! h) as [b|] eqn:Hb; [|done]. cbn [deref mbind outcome_bind]. destruct (pprev b) as [p|] eqn:Hp; [|done]. cbn [deref mbind outcome_bind].
  intros Hrun Ha Hf Hfl. set (bm1 := mkBlockManager _ _ _ _) in Hrun. set (s1 := set_chainman s (mkManager bm1 (m_failed_blocks (m_chainman s)))).
  assert (verdict_flag BLOCK_FAILED_CHILD) as Hflag by (right; by left).
  assert (settles s s1) as Hs by (apply (settles_flag s s1 h b f fb BLOCK_FAILED_CHILD); try done; cbn; set_solver).
  destruct (is_ancestor_step _ h b f Hb Ha) as [->|(q & Hq & Hqa)]; [done|]. replace q with p in Hqa by congruence.
  destruct (proj1 (st_evolves _ _ Hs) f fb Hf) as (fb' & Hf' & S). destruct (evolves_extends _ _ (st_evolves _ _ Hs)) as [Hx _].
  apply (settles_trans s s1); [done|]. apply (IH s1 p f fb' bm' Hrun); [by apply (ext_is_ancestor (block_index s))|done|by apply (flagged_step fb)].
Qed.

Lemma failed_loop_settles failed : forall s p bm', tree_wf (block_index s) -> failed_loop failed (m_blockman (m_chainman s)) p = Ret (Some bm') ->
  settles s (set_chainman s (mkManager bm' (m_failed_blocks (m_chainman s)))).
Proof.
  induction failed as [|f failed IH]; intros s p bm' Hwf; [done|]. cbn [failed_loop]. fold (block_index s).
  destruct (block_index s !! f) as [fb|] eqn:Hf; [|done]. cbn [deref mbind outcome_bind].
  destruct (GetAncestor _ _ _) as [a|] eqn:Ha; [|done]. cbn [mbind outcome_bind]. case_bool_decide as E; [subst a|by apply IH].
  destruct (Z.eqb_spec (Z.land (nStatus fb) BLOCK_FAILED_VALID) 0) as [|Hst]; [done|].
  destruct (block_index s !! p) as [pb|] eqn:Hp; [|done]. cbn [deref mbind outcome_bind]. destruct (mark_loop _ _ _ _) as [x|] eqn:Em; [|done]. cbn [mbind outcome_bind].
  intros [= <-]. apply (mark_loop_settles _ s p f fb x Em); [|done|].
  - rewrite (GetAncestor_walk _ Hwf p pb _ Hp) in Ha. destruct (_ && _)%bool; [|done]. injection Ha as Ha. by eexists.
  - unfold flagged. assert (has_flag fb BLOCK_FAILED_MASK = true) as ->; [|done]. unfold has_flag. destruct (Z.eqb_spec (Z.land (nStatus fb) BLOCK_FAILED_MASK) 0) as [E0|]; [|done].
    destruct Hst. change BLOCK_FAILED_VALID with (Z.land BLOCK_FAILED_MASK BLOCK_FAILED_VALID). by rewrite Z.land_assoc, E0.
Qed.

(** The tip is as good as it was when no block becomes usable or stops being usable. *)
Lemma settles_best s s' : settles s s' -> at_best addr s -> at_best addr s'.
Proof.
  intros Hs. pose proof (st_evolves _ _ Hs) as He. unfold at_best, tip. rewrite (st_chain _ _ Hs), (st_log _ _ Hs). intros Hb Hst. specialize (Hb Hst). destruct (chain_Tip _) as [t|].
  - destruct Hb as [U M]. split; [by apply Hs|]. intros h Hh. apply (le_tip_evolves addr (block_index s)); [done|]. by apply M, (evolves_usable _ (block_index s')).
  - intros h Hh. apply (Hb h). by apply (evolves_usable _ (block_index s')).
Qed.

Lemma evolves_txs bi bi' : evolves bi bi' -> index_txs bi' = index_txs bi.
Proof.
  intros He. apply index_txs_same; [by apply evolves_dom|]. intros h. unfold tx_at. destruct (bi' !! h) as [x'|] eqn:Hx'.
  - by destruct (evolves_back _ _ _ _ He Hx') as (x & -> & []).
  - destruct (bi !! h) as [x|] eqn:Hx; [|done]. destruct (proj1 He h x Hx) as (? & ? & _). congruence.
Qed.

(** A new entry without data *)
Section fresh.

Context (bi : gmap uint256 CBlockIndex) (Hwf : tree_wf bi) (hash : uint256) (Hnew : bi !! hash = None) (b : CBlockIndex) (Hdata : has_flag b BLOCK_HAVE_DATA = false).

#[local] Notation bi' := (<[hash := b]> bi).

Lemma fresh_all_along P h : is_Some (bi !! h) -> all_along P bi' h <-> all_along P bi h.
Proof.
  intros Hk. split.
  - intros Ha. revert Hk. induction Ha as [h x Hx Hp Px|h x p Hx Hp Px _ IH]; intros [y Hy]; rewrite lookup_insert_ne in Hx by congruence.
    + by apply (aa_root _ _ h x).
    + apply (aa_step _ _ h x p); try done. apply IH. destruct (pprev_height bi Hwf h x p Hx Hp) as (pb & Hpb & _). eauto.
  - apply all_along_mono; [by apply extends_insert|]. intros x c c' Hc Hc' Hx _. rewrite lookup_insert_ne in Hc' by congruence.
    destruct (all_along_here _ _ _ Hx) as (d & Hd & Pd). congruence.
Qed.

Lemma fresh_usable h : usable bi' h <-> usable bi h.
Proof.
  split; intros Hu.
  - apply fresh_all_along; [|done]. destruct (all_along_here _ _ _ Hu) as (x & Hx & Hok). apply lookup_insert_Some in Hx as [[<- <-]|[_ Hx]]; [|eauto].
    unfold block_ok in Hok. by rewrite Hdata in Hok.
  - apply fresh_all_along; [by eapply all_along_known|done].
Qed.

Lemma fresh_good log h : good log bi' h <-> good log bi h.
Proof.
  unfold good. rewrite fresh_usable. split; intros [Hu Hv]; (split; [done|]); apply fresh_all_along; try done; by eapply all_along_known.
Qed.

Lemma fresh_le_tip h t : is_Some (bi !! h) -> is_Some (bi !! t) -> le_tip addr bi' h t <-> le_tip addr bi h t.
Proof. intros [x Hx] [y Hy]. unfold le_tip. by rewrite worse_insert by congruence. Qed.

Lemma fresh_links u : nTx b = 0 -> nChainTx b = 0 -> BLOCK_VALID_TREE <= Z.land (nStatus b) BLOCK_VALID_MASK -> index_wf bi' -> links_inv bi u -> links_inv bi' u.
Proof.
  intros T1 T2 Hlv Hi [L1 L2 L3 L4 L5 L6 L7]. assert (HaveTxsDownloaded b = false) as Hno by (unfold HaveTxsDownloaded; by rewrite T2).
  assert (forall h c p, bi !! h = Some c -> pprev c = Some p -> hash <> p) as Hnp.
  { intros h c p Hc Hp <-. destruct (pprev_height bi Hwf h c hash Hc Hp) as (x & Hx & _). congruence. }
  split; try done.
  - intros h c [[<- <-]|[_ Hc]]%lookup_insert_Some; [done|by apply (L2 h)].
  - intros h c [[<- <-]|[_ Hc]]%lookup_insert_Some; [|by apply (L3 h)]. rewrite Hdata, T1, T2. done.
  - intros h c [[<- <-]|[_ Hc]]%lookup_insert_Some Ht; [congruence|]. destruct (L4 h c Hc Ht) as (D & C & P). split; [done|]. split.
    + rewrite C. f_equal. unfold txs_before. destruct (pprev c) as [p|] eqn:Hp; [|done]. cbn. by rewrite lookup_insert_ne by (by apply (Hnp h c)).
    + intros p pb Hp. rewrite lookup_insert_ne by (by apply (Hnp h c)). by apply P.
  - intros h c [[<- <-]|[_ Hc]]%lookup_insert_Some Hd Ht; [congruence|]. destruct (L5 h c Hc Hd Ht) as (p & pb & Hp & Hpb & Hw). exists p, pb.
    by rewrite lookup_insert_ne by (by apply (Hnp h c)).
  - intros p h Hu. destruct (L6 p h Hu) as (c & pb & Hc & Hp & Hd & Ht & Hpb & Hpt). exists c, pb. by rewrite !lookup_insert_ne by congruence.
Qed.

Lemma fresh_flags log : flags_sound log bi -> flags_sound log bi'.
Proof.
  intros Hs h c [[<- <-]|[_ Hc]]%lookup_insert_Some Hf.
  - exists hash, b. rewrite lookup_insert_eq. split; [apply is_ancestor_refl|]. split; [done|by right].
  - destruct (Hs h c Hc Hf) as (q & qb & Ha & Hq & Hr). exists q, qb. rewrite lookup_insert_ne by congruence.
    split; [|done]. apply (ext_is_ancestor bi); [by apply extends_insert|done].
Qed.

Lemma fresh_txs : nTx b = 0 -> index_txs bi' = index_txs bi.
Proof.
  intros T. unfold index_txs. rewrite dom_insert_L, (sum_of_perm _ _ _ (elements_union_singleton (dom bi) hash ltac:(by apply not_elem_of_dom))), sum_of_cons.
  unfold tx_at at 1. rewrite lookup_insert_eq, T, Z.add_0_l. assert (forall l, hash ∉ l -> sum_of (tx_at bi') l = sum_of (tx_at bi) l) as Hl.
  { induction l as [|y l IH]; intros Hn; [done|]. rewrite !sum_of_cons, IH by set_solver. f_equal. unfold tx_at. by rewrite lookup_insert_ne by set_solver. }
  apply Hl. rewrite elem_of_elements. by apply not_elem_of_dom.
Qed.

Lemma fresh_best t : best_usable addr bi t -> best_usable addr bi' t.
Proof.
  intros [U M]. split; [by apply fresh_usable|]. intros h Hh%fresh_usable. apply fresh_le_tip; [by eapply all_along_known|by eapply all_along_known|auto].
Qed.

End fresh.

(** The state with a new entry *)
Lemma fresh_inv s r m b hash : chain_inv addr s r -> above_tip addr s -> block_index s !! hash = None -> bm_index (m_blockman m) = <[hash := b]> (block_index s) ->
  has_flag b BLOCK_HAVE_DATA = false -> nTx b = 0 -> nChainTx b = 0 -> BLOCK_VALID_TREE <= Z.land (nStatus b) BLOCK_VALID_MASK ->
  manager_wf (m_blockman m) -> m_failed_blocks m = m_failed_blocks (m_chainman s) -> work_grows (bm_index (m_blockman m)) ->
  chain_inv addr (set_chainman s m) r /\ above_tip addr (set_chainman s m).
Proof.
  intros Hi Hab Hnew Em Hd T1 T2 Hlv [Hwf' Hbest] Ef Hg. pose proof (inv_tree addr _ _ Hi) as Hwf. destruct Hi as [C1 C2 C3 C4 C5 C6 C7 C8 C9].
  assert (block_index (set_chainman s m) = <[hash := b]> (block_index s)) as E by exact Em.
  assert (forall c, c ∈ setBlockIndexCandidates s -> hash <> c) as Hnc by (intros c Hc <-; destruct (C3 hash Hc) as (x & Hx & _); congruence).
  split; [split; rewrite ?E|].
  - apply (fresh_links _ Hwf hash Hnew b Hd); try done. by rewrite <- E.
  - apply (chain_wf_ext (block_index s)); [by apply extends_insert|done].
  - intros c Hc. destruct (C3 c Hc) as (x & Hx & Ht). exists x. by rewrite lookup_insert_ne by congruence.
  - intros t Ht. destruct (C4 t Ht) as [G Hr]. split; [by apply fresh_good|done].
  - intros Hst r0 Hr. destruct (C5 Hst r0 Hr) as [Hc G]. split; [done|by apply fresh_good].
  - intros Hst h Hu%fresh_usable; [|done..]. destruct (C6 Hst h Hu) as [|(r0 & Hr & Hw)]; [by left|right]. exists r0. split; [done|].
    apply all_along_known in Hu as [x Hx]. rewrite worse_insert; [done|congruence|]. apply Hnc. by apply (C5 Hst).
  - intros h Hh. rewrite <- E. by apply Hbest.
  - change (m_failed_blocks (m_chainman (set_chainman s m))) with (m_failed_blocks m). rewrite Ef. eapply List.Forall_impl; [|exact C8].
    intros f (x & Hx & Hf). exists x. by rewrite lookup_insert_ne by congruence.
  - by rewrite <- Em.
  - intros t c Ht Hc. change (tip s = Some t) in Ht. rewrite E. destruct (C4 t Ht) as [[U _] _]. apply all_along_known in U as [x Hx].
    rewrite worse_insert; [by apply (Hab t c)|by apply Hnc|congruence].
Qed.

End changes.

(** ** [CheckBlock] returns *)

(** A block that was checked before has valid contents. *)
Definition checked_ok (block : CBlock) : Prop := fChecked block = true -> contents_ok block.

Lemma CheckBlock_returns `{Crypto} GetHash ways rules block : checked_ok block ->
  exists v b', CheckBlock GetHash ways rules block true true true = Ret (v, b') /\ blk_header b' = blk_header block /\ vtx b' = vtx block /\
    (v = Accept -> contents_ok b') /\ checked_ok b'.
Proof.
  intros Hc. unfold CheckBlock. destruct (fChecked block) eqn:Ef; [exists Accept, block; split_and!; auto|]. cbn [andb].
  assert (forall e : BlockValidationResult * BlockReason, exists v b', @Ret (block_verdict * CBlock) (Reject e, block) = Ret (v, b') /\ blk_header b' = blk_header block /\ vtx b' = vtx block /\
    (v = Accept -> contents_ok b') /\ checked_ok b') as Hrej by (intros e; exists (Reject e), block; split_and!; done).
  destruct (CheckBlockHeader _ _ _ _) as [|[result r]]; [|apply Hrej].
  destruct (CheckBlockSignature_cases GetHash block) as (sg & Hsg & _).
  assert (exists signed, (if block_IsProofOfStake (vtx block) then CheckBlockSignature GetHash block else Ret true) = Ret signed) as [signed ->] by (destruct (block_IsProofOfStake _); eauto).
  cbn [mbind outcome_bind]. destruct signed; cbn [negb]; [|apply Hrej].
  assert (exists v b1, CheckMerkleRoot ways block = (v, b1) /\ blk_header b1 = blk_header block /\ vtx b1 = vtx block /\ fChecked b1 = false) as (v & b1 & -> & E1 & E2 & E3).
  { unfold CheckMerkleRoot. destruct (m_checked_merkle_root block); [by eexists _, _|]. destruct (BlockMerkleRoot _ _) as [root mutated]. destruct (negb _); [by eexists _, _|].
    destruct mutated; by eexists _, _. }
  destruct v as [|e]; [|exists (Reject e), b1; split_and!; try done; unfold checked_ok; congruence].
  destruct (check_contents_exact b1 true) as (v & b' & -> & Hv & Hacc & Hrefuse). exists v, b'. split; [done|]. destruct v as [|e].
  - rewrite (Hacc eq_refl). pose proof (proj1 Hv eq_refl) as Hok. split_and!; try done; intros _; by apply with_root_contents.
  - destruct (Hrefuse ltac:(done)) as [-> _]. split_and!; try done. unfold checked_ok. congruence.
Qed.

Lemma contents_inputs block : contents_ok block -> vtx block <> [] /\ forall coinbase others, vtx block = coinbase :: others -> vin coinbase <> [].
Proof.
  intros [(cb & others & E & Hcb & _) _ _ _]. split; [congruence|]. intros c o E'. replace c with cb by congruence. unfold IsCoinBase in Hcb. by destruct (vin cb).
Qed.

(** ** The invariant of a node *)

Section node.

Context `{BlockConnector} (addr : uint256 -> Z) `{!Inj (=) (=) addr} `{Crypto}.
Context (GetHash : CBlockHeader -> uint256) (Hash : list Z -> uint256) (ways : d64_ways) (rules : ChainRules).
Context (Decompress : list Z -> option (list Z)) (KeyHash : list Z -> list Z) (genesis : CBlock).

(** What the node is run with: the genesis block is not refused; the parameters are in
    range. *)
Record setting : Prop := {
  se_connects : never_refused (hashGenesisBlock rules);
  se_params : params_ok (consensus rules);
  se_csv : 0 < CSVHeight rules;
  se_hash : GetHash (blk_header genesis) = hashGenesisBlock rules;
  se_prev : hashGenesisBlock rules <> hashPrevBlock (blk_header genesis);
  se_bits : is_u32 (hdr_nBits (blk_header genesis));
  se_vtx : 0 < Z.of_nat (length (vtx genesis)) < 2^32;
}.

Context (Hset : setting).

(** The genesis block has its data. *)
Definition genesis_stored (bi : gmap uint256 CBlockIndex) : Prop :=
  forall g, bi !! hashGenesisBlock rules = Some g -> pprev g = None /\ has_flag g BLOCK_HAVE_DATA = true.

(** Between the arrival of data and the choice of the chain *)
Record stored_inv (s : CChainState) : Prop := {
  si_node : node_wf GetHash rules (m_chainman s);
  si_chain : exists r, chain_inv addr s r;
  si_above : above_tip addr s;
  si_flags : flags_sound (connect_log s) (block_index s);
  si_answers : Forall answered (connect_log s);
  si_genesis : genesis_stored (block_index s);
}.
(** At rest *)
Record node_inv (s : CChainState) : Prop := {
  ni_stored : stored_inv s;
  ni_best : ~ had_error (connect_log s) -> at_best addr s;
}.

Lemma stored_tree s : stored_inv s -> tree_wf (block_index s).
Proof. intros [_ [r Hi] _ _ _ _]. by apply (inv_tree addr s r). Qed.

Lemma same_headers_node s s' r : node_wf GetHash rules (m_chainman s) -> extends (block_index s) (block_index s') -> extends (block_index s') (block_index s) ->
  chain_inv addr s' r -> node_wf GetHash rules (m_chainman s').
Proof. intros Hn X1 X2 Hi. apply (node_wf_other _ _ (m_chainman s)); [done|]. split_and!; [done|done|apply (ci_best _ _ _ Hi)|apply (ci_failed _ _ _ Hi)]. Qed.

Lemma rules_roots m : node_wf GetHash rules m -> roots_never_refused (bm_index (m_blockman m)).
Proof. intros Hn x b Hb Hp. pose proof (nw_rules _ _ _ Hn x b Hb) as Hr. rewrite Hp in Hr. rewrite Hr. apply (se_connects Hset). Qed.

Lemma genesis_evolves bi bi' : evolves bi bi' -> genesis_stored bi -> genesis_stored bi'.
Proof.
  intros He Hg g' Hg'. destruct (evolves_back _ _ _ _ He Hg') as (g & Hgb & S). destruct (Hg g Hgb) as [E1 E2].
  by rewrite (sh_pprev _ _ (es_header _ _ S)), (es_data _ _ S).
Qed.

(** Moving the tip *)
Lemma advances_stored s s' r : advances s s' -> chain_inv addr s' r -> above_tip addr s' -> stored_inv s -> stored_inv s'.
Proof.
  intros Ha Hi Hab [Hn _ _ Hf Hw Hg]. pose proof (ad_evolves _ _ Ha) as He. destruct (evolves_extends _ _ He) as [X1 X2]. split.
  - by apply (same_headers_node s s' r).
  - by exists r.
  - done.
  - by apply (ad_flags _ _ Ha).
  - destruct (ad_log _ _ Ha) as (l & -> & Hl). by apply Forall_app.
  - by apply (genesis_evolves (block_index s)).
Qed.

Lemma activates s : stored_inv s -> exists ok s', ActivateBestChain addr s = Ret (ok, s') /\ node_inv s' /\ if (ok : bool) then at_best addr s' else had_error (connect_log s').
Proof.
  intros Hs. pose proof Hs as [Hn [r Hi] Hab _ _ _]. destruct (ActivateBestChain_spec addr s r Hi Hab (rules_roots _ Hn)) as (ok & s' & r' & Hrun & Hi' & Hab' & Ha & Hend).
  exists ok, s'. split; [done|]. split; [|done]. split; [by apply (advances_stored s s' r')|]. intros Hno. by destruct ok.
Qed.

Lemma settles_node s s' : settles s s' -> node_inv s -> node_inv s'.
Proof.
  intros Hse [Hs Hb]. pose proof Hs as [_ [r Hi] Hab _ _ _]. split.
  - apply (advances_stored s s' r); [by apply settles_advances|by apply (settles_inv addr s)|by apply (settles_above addr s)|done].
  - rewrite (st_log _ _ Hse). intros Hno. apply (settles_best addr s s' Hse). auto.
Qed.

(** The world changes. *)
Lemma world_node s w : node_inv s -> node_inv (set_world s w).
Proof. apply settles_node. split; try done. apply evolves_refl. Qed.

(** The genesis block is never marked. *)
Lemma genesis_ok s g : stored_inv s -> block_index s !! hashGenesisBlock rules = Some g -> flagged g = false /\ ~ refused (connect_log s) (hashGenesisBlock rules).
Proof.
  intros Hs Hg. assert (~ refused (connect_log s) (hashGenesisBlock rules)) as Hnr.
  { intros [result Hin]. pose proof (proj1 (Forall_forall _ _) (si_answers _ Hs) _ Hin) as Ha. destruct (Ha ltac:(done)) as (w & b & E). by apply (se_connects Hset w b result). }
  split; [|done]. destruct (si_genesis _ Hs g Hg) as [Hp Hd].
  destruct (flagged g) eqn:Hf; [|done]. destruct (si_flags _ Hs _ g Hg Hf) as (q & qb & Ha & Hq & Hr).
  destruct (is_ancestor_step _ _ g q Hg Ha) as [->|(x & Hx & _)]; [|congruence]. replace qb with g in Hr by congruence. destruct Hr as [|[? _]]; [done|congruence].
Qed.

(** ** Headers *)

Lemma header_extends cp lock now s block only v p m' : node_wf GetHash rules (m_chainman s) ->
  AcceptBlockHeader GetHash Hash rules cp lock now (m_chainman s) block only = Ret (v, p, m') -> extends (block_index s) (bm_index (m_blockman m')).
Proof.
  intros Hn Hrun. destruct (AcceptBlockHeader_result _ _ _ _ _ _ _ _ _ _ _ _ (nw_genesis _ _ _ Hn) Hrun) as [e p'|b Hk Hfl|e bm Hloop|v' p' st bm Hnew Hprev Hv Hadd].
  - apply extends_refl.
  - apply extends_refl.
  - pose proof (failed_loop_settles addr _ s _ _ (proj1 (proj1 (nw_manager _ _ _ Hn))) Hloop) as Hse. apply (evolves_extends _ _ (st_evolves _ _ Hse)).
  - assert (GetHash block <> hashPrevBlock block) as Hne by (intros E; rewrite E in Hnew; destruct Hprev; congruence).
    assert (st = BLOCK_VALID_TREE \/ st = BLOCK_CONFLICT_CHAINLOCK) as Hst by naive_solver.
    destruct (AddToBlockIndex_fresh Hash _ _ _ _ _ Hne Hst Hadd Hnew) as (b & Eb & _). cbn [m_blockman]. rewrite Eb. by apply extends_insert.
Qed.

Lemma header_node cp lock now s block only v p m' : node_inv s -> is_u32 (hdr_nBits block) ->
  AcceptBlockHeader GetHash Hash rules cp lock now (m_chainman s) block only = Ret (v, p, m') -> work_grows (bm_index (m_blockman m')) ->
  let s' := set_chainman s m' in
  node_inv s' /\ index_txs (block_index s') = index_txs (block_index s) /\
  (v = Accept -> exists h b, p = Some h /\ block_index s' !! h = Some b /\ flagged b = false).
Proof.
  intros Hs Hbits Hrun Hgrow s'. pose proof Hs as [[Hn [r Hi] Hab Hf Hw Hg] Hb]. destruct (AcceptBlockHeader_wf _ _ _ _ _ _ _ _ _ _ _ _ Hn Hbits Hrun) as [Hn' _].
  assert (set_chainman s (m_chainman s) = s) as Eta by (by destruct s).
  destruct (AcceptBlockHeader_result _ _ _ _ _ _ _ _ _ _ _ _ (nw_genesis _ _ _ Hn) Hrun) as [e p'|b Hk Hfl|e bm Hloop|v' p' st bm Hnew Hprev Hv Hadd]; unfold s'.
  - by rewrite Eta.
  - rewrite Eta. split_and!; try done. intros _. exists (GetHash block), b. split_and!; try done. destruct Hfl as [|E]; [done|]. apply (genesis_ok s b (ni_stored _ Hs)). by rewrite <- E.
  - pose proof (failed_loop_settles addr _ s _ _ (inv_tree addr _ _ Hi) Hloop) as Hse. split; [by apply (settles_node s)|]. split; [|done].
    by apply evolves_txs, Hse.
  - assert (GetHash block <> hashPrevBlock block) as Hne by (intros E; rewrite E in Hnew; destruct Hprev; congruence).
    assert (st = BLOCK_VALID_TREE \/ st = BLOCK_CONFLICT_CHAINLOCK) as Hst by naive_solver.
    destruct (AddToBlockIndex_fresh Hash _ _ _ _ _ Hne Hst Hadd Hnew) as (b & Eb & T1 & T2 & T3). fold (block_index s) in Hnew, Eb.
    assert (has_flag b BLOCK_HAVE_DATA = false /\ BLOCK_VALID_TREE <= Z.land (nStatus b) BLOCK_VALID_MASK) as [Hd Hlv] by (unfold has_flag; rewrite T3; by destruct Hst as [-> | ->]).
    pose proof (inv_tree addr _ _ Hi) as Hwf. assert (block_index s' = <[GetHash block := b]> (block_index s)) as Es by exact Eb.
    destruct (fresh_inv addr s r (mkManager bm (m_failed_blocks (m_chainman s))) b (GetHash block) Hi Hab Hnew Eb Hd T1 T2 Hlv (nw_manager _ _ _ Hn') eq_refl Hgrow) as [Hi' Hab'].
    split; [split; [split|]|].
    + exact Hn'.
    + by exists r.
    + done.
    + fold s'. rewrite Es. by apply fresh_flags.
    + done.
    + fold s'. rewrite Es. intros g [[Eg _]|[_ Hgg]]%lookup_insert_Some; [|by apply Hg]. destruct (nw_genesis _ _ _ Hn) as [x Hx]. unfold block_index in Hnew. congruence.
    + fold s'. intros Hno Hst'. change (connect_log s') with (connect_log s) in *. specialize (Hb Hno Hst'). change (tip s') with (tip s). rewrite Es.
      destruct (tip s) as [t|]; [by apply fresh_best|]. intros h Hh%fresh_usable; [by apply (Hb h)|done..].
    + fold s'. rewrite Es. split; [by apply (fresh_txs addr)|]. intros Ha. exists (GetHash block), b. destruct Hv as [(-> & -> & ->)|[]]; [|done].
      rewrite lookup_insert_eq. split_and!; try done. unfold flagged, has_flag. by rewrite T3.
Qed.

(** A list of headers *)
Lemma headers_return cp lock now headers : forall m p0, node_wf GetHash rules m -> Forall (fun h => is_u32 (hdr_nBits h)) headers ->
  exists r, ProcessNewBlockHeaders GetHash Hash rules cp lock now m headers p0 = Ret r.
Proof.
  induction headers as [|h headers IH]; intros m p0 Hn Hb; cbn [ProcessNewBlockHeaders]; [eauto|]. apply Forall_cons_1 in Hb as [Hh Hb].
  destruct (AcceptBlockHeader_total GetHash Hash rules cp lock now _ h true Hn (se_params Hset) Hh) as [[[v p] m'] Hrun]. rewrite Hrun. cbn [mbind outcome_bind].
  destruct (AcceptBlockHeader_wf _ _ _ _ _ _ _ _ _ _ _ _ Hn Hh Hrun) as [Hn' _]. destruct v as [|e]; [by apply IH|eauto].
Qed.

Lemma headers_extend cp lock now headers : forall s p0 v p m', node_wf GetHash rules (m_chainman s) -> Forall (fun h => is_u32 (hdr_nBits h)) headers ->
  ProcessNewBlockHeaders GetHash Hash rules cp lock now (m_chainman s) headers p0 = Ret (v, p, m') -> extends (block_index s) (bm_index (m_blockman m')).
Proof.
  induction headers as [|h headers IH]; intros s p0 v p m' Hn Hb; cbn [ProcessNewBlockHeaders]; [intros [= <- <- <-]; apply extends_refl|].
  apply Forall_cons_1 in Hb as [Hh Hb]. destruct (AcceptBlockHeader _ _ _ _ _ _ _ _ _) as [[[v1 p1] m1]|] eqn:Hrun; [|done]. cbn [mbind outcome_bind].
  pose proof (header_extends _ _ _ s h true v1 p1 m1 Hn Hrun) as X1. destruct v1 as [|e]; [|by intros [= <- <- <-]].
  intros Hrest. destruct (AcceptBlockHeader_wf _ _ _ _ _ _ _ _ _ _ _ _ Hn Hh Hrun) as [Hn1 _].
  apply (extends_trans _ (bm_index (m_blockman m1))); [done|]. by apply (IH (set_chainman s m1) p1 v p m').
Qed.

Lemma headers_node cp lock now headers : forall s p0 v p m', node_inv s -> Forall (fun h => is_u32 (hdr_nBits h)) headers ->
  ProcessNewBlockHeaders GetHash Hash rules cp lock now (m_chainman s) headers p0 = Ret (v, p, m') -> work_grows (bm_index (m_blockman m')) ->
  node_inv (set_chainman s m').
Proof.
  induction headers as [|h headers IH]; intros s p0 v p m' Hs Hb; cbn [ProcessNewBlockHeaders].
  { intros [= <- <- <-] _. by destruct s. }
  apply Forall_cons_1 in Hb as [Hh Hb]. pose proof (si_node _ (ni_stored _ Hs)) as Hn.
  destruct (AcceptBlockHeader _ _ _ _ _ _ _ _ _) as [[[v1 p1] m1]|] eqn:Hrun; [|done]. cbn [mbind outcome_bind].
  destruct v1 as [|e]; [|intros [= <- <- <-] Hg; by destruct (header_node _ _ _ s h true _ _ _ Hs Hh Hrun Hg)].
  intros Hrest Hg. pose proof (AcceptBlockHeader_wf _ _ _ _ _ _ _ _ _ _ _ _ Hn Hh Hrun) as [Hn1 _].
  assert (extends (bm_index (m_blockman m1)) (bm_index (m_blockman m'))) as X2 by (by apply (headers_extend cp lock now headers (set_chainman s m1) p1 v p m')).
  destruct (header_node _ _ _ s h true _ _ _ Hs Hh Hrun (work_grows_back _ _ X2 Hg)) as [Hs1 _].
  by apply (IH (set_chainman s m1) p1 v p m').
Qed.

(** ** Blocks *)

Lemma tip_known s t : node_inv s -> tip s = Some t -> exists tb, block_index s !! t = Some tb.
Proof. intros [[_ [r Hi] _ _ _ _] _] Ht. destruct (ci_tip _ _ _ Hi t Ht) as [G _]. by apply (all_along_known _ _ _ (proj1 G)). Qed.

Lemma drop_early_returns env s block : node_inv s -> is_u32 (hdr_nBits (blk_header block)) -> exists r, drop_early GetHash rules env s block = Ret r.
Proof.
  intros Hs Hb. unfold drop_early. destruct (tip s) as [t|] eqn:Ht; [|eauto]. destruct (tip_known s t Hs Ht) as [tb Htb]. destruct (block_index s !! GetHash _); [eauto|].
  destruct (block_index s !! hashPrevBlock _) as [prev|]; [|eauto]. destruct (_ >? _); [|eauto].
  destruct (GetBlockProof_spec (block_index_of (blk_header block)) Hb) as (w & -> & _). cbn [mbind outcome_bind]. rewrite Htb. cbn [deref mbind outcome_bind]. eauto.
Qed.

Lemma not_processed_returns env s b force : node_inv s -> exists r, not_processed env s b force = Ret r /\ (has_flag b BLOCK_HAVE_DATA = true -> r = true).
Proof.
  intros Hs. unfold not_processed. destruct (has_flag b BLOCK_HAVE_DATA); [eauto|]. destruct force; [eauto|].
  destruct (tip s) as [t|] eqn:Ht; [|eexists; by split]. destruct (tip_known s t Hs Ht) as [tb Htb]. rewrite Htb. cbn [deref mbind outcome_bind]. eexists. by split.
Qed.

Lemma check_both_returns s x b block : node_inv s -> block_index s !! x = Some b -> checked_ok block ->
  exists v block', check_both GetHash ways rules s b block = Ret (v, block') /\ vtx block' = vtx block /\ (v = Accept -> vtx block <> []).
Proof.
  intros Hs Hb Hc. unfold check_both. destruct (CheckBlock_returns GetHash ways rules block Hc) as (v & b' & -> & _ & Ev & Hok & _). cbn [mbind outcome_bind].
  destruct v as [|e]; [|by eexists _, _]. destruct (contents_inputs b' (Hok eq_refl)) as [Hne Hin].
  destruct (ContextualCheckBlock_spec rules (block_index s) b' (pprev b)) as (v & -> & _); [|apply (se_csv Hset)|done|].
  - intros p Hp. destruct (pprev_height _ (stored_tree _ (ni_stored _ Hs)) x b p Hb Hp) as (pb & Hpb & _). eauto.
  - cbn [mbind outcome_bind]. eexists _, _. split; [reflexivity|]. split; [done|]. by rewrite <- Ev.
Qed.

(** A block refused after its header is marked; it has no data. *)
Lemma refused_node s x b : node_inv s -> block_index s !! x = Some b -> has_flag b BLOCK_HAVE_DATA = false ->
  node_inv (put true s x (add_flag b BLOCK_FAILED_VALID)).
Proof.
  intros Hs Hb Hd. set (b' := add_flag b BLOCK_FAILED_VALID). assert (verdict_flag BLOCK_FAILED_VALID) as Hf by (by left).
  pose proof (entry_step_flag b _ Hf) as S. fold b' in S. apply (settles_node s); [|done].
  pose proof (evolves_insert (block_index s) x b _ Hb S) as He. split; try done.
  - intros h. apply all_along_mono; [apply (evolves_extends _ _ He)|]. intros y c c' Hc Hc' Hy _. destruct (all_along_here _ _ _ Hy) as (z & Hz & Hok).
    change (<[x := b']> (block_index s) !! y = Some c') in Hc'. apply lookup_insert_Some in Hc' as [[<- _]|[_ Hc']]; [|congruence]. replace z with b in Hok by congruence.
    unfold block_ok in Hok. by rewrite Hd in Hok.
  - intros Hfl. apply (flags_sound_insert _ _ x b); [done|done|intros Hx; right|done]. exists x, b'. rewrite lookup_insert_eq. split; [apply is_ancestor_refl|].
    split; [done|]. right. by rewrite (es_data _ _ S).
Qed.

(** Data that arrives *)
Lemma relinked_stored s s' r : relinked s s' -> chain_inv addr s' r -> above_tip addr s' -> node_wf GetHash rules (m_chainman s) -> flags_sound (connect_log s) (block_index s) ->
  Forall answered (connect_log s) -> genesis_stored (block_index s') -> stored_inv s'.
Proof.
  intros [X1 X2 Ec Eb Ef Hk Hm El] Hi Hab Hn Hf Hw Hg. split; rewrite ?El; try done.
  - by apply (same_headers_node s s' r).
  - by exists r.
  - by apply (same_marks_sound _ (block_index s)).
Qed.

Lemma genesis_relinked s s' : relinked s s' -> genesis_stored (block_index s) -> genesis_stored (block_index s').
Proof.
  intros [X1 X2 _ _ _ _ Hm _] Hg g' Hg'. destruct (X2 _ g' Hg') as (g & Hgb & S). destruct (Hg g Hgb) as [E1 E2]. destruct (Hm _ g g' Hgb Hg') as (_ & _ & Hkeep).
  split; [|auto]. by rewrite <- (sh_pprev _ _ S).
Qed.

Lemma received_node s x b ntx file pos : node_inv s -> block_index s !! x = Some b -> has_flag b BLOCK_HAVE_DATA = false -> flagged b = false ->
  (0 < ntx)%nat -> index_txs (block_index s) + Z.of_nat ntx < 2^32 ->
  exists s', ReceivedBlockTransactions addr s ntx x file pos = Ret s' /\ stored_inv s'.
Proof.
  intros [[Hn [r Hi] Hab Hf Hw Hg] _] Hb Hd Hfl Hntx Hsum. destruct (ReceivedBlockTransactions_spec addr s r x b ntx file pos Hi Hab Hb Hd Hfl Hntx Hsum) as (s' & Hrun & Hi' & Hab' & Hrl & _).
  exists s'. split; [done|]. apply (relinked_stored s s' r); try done. by apply (genesis_relinked s).
Qed.

(** Accepting the header leaves an index in which work accumulates. *)
Definition header_adds_work (env : environment) (s : CChainState) (block : CBlockHeader) : Prop := forall v p m,
  AcceptBlockHeader GetHash Hash rules (fCheckpointsEnabled env) (HasConflictingChainLock env) (nAdjustedTime env) (m_chainman s) block false = Ret (v, p, m) ->
  work_grows (bm_index (m_blockman m)).

Lemma accept_node env n block force : let s := chainstate n in node_inv s -> is_u32 (hdr_nBits (blk_header block)) -> checked_ok block ->
  index_txs (block_index s) + Z.of_nat (length (vtx block)) < 2^32 -> header_adds_work env s (blk_header block) ->
  exists a n', AcceptBlock addr GetHash Hash ways rules Decompress KeyHash env n block force = Ret (a, n') /\
    stored_inv (chainstate n') /\ (acc_ok a = false -> node_inv (chainstate n')).
Proof.
  intros s Hs Hbits Hc Hsum Hgrow. unfold AcceptBlock. fold s.
  assert (exists d, (if force then Ret false else drop_early GetHash rules env s block) = Ret d) as [d ->].
  { destruct force; [eauto|]. by apply drop_early_returns. }
  cbn [mbind outcome_bind].
  assert (forall a n', node_inv (chainstate n') -> exists a' n'', @Ret (acceptance * Node) (a, n') = Ret (a', n'') /\ stored_inv (chainstate n'') /\
    (acc_ok a' = false -> node_inv (chainstate n''))) as Hkeep.
  { intros a n' Hn'. exists a, n'. split_and!; try done. apply Hn'. }
  destruct d; [by apply Hkeep|].
  destruct (AcceptBlockHeader_total GetHash Hash rules (fCheckpointsEnabled env) (HasConflictingChainLock env) (nAdjustedTime env) _ (blk_header block) false
    (si_node _ (ni_stored _ Hs)) (se_params Hset) Hbits) as [[[v p] m] Hrun]. rewrite Hrun. cbn [mbind outcome_bind].
  destruct (header_node _ _ _ s _ _ v p m Hs Hbits Hrun (Hgrow _ _ _ Hrun)) as (Hs1 & Etx & Hacc). set (s1 := set_chainman s m) in *.
  destruct v as [|[result r]]; [|by apply Hkeep]. destruct (Hacc eq_refl) as (x & b & -> & Hb & Hfl). cbn [deref mbind outcome_bind]. rewrite Hb. cbn [deref mbind outcome_bind].
  destruct (not_processed_returns env s1 b force Hs1) as (l & -> & Hl). cbn [mbind outcome_bind]. destruct l; [by apply Hkeep|].
  assert (has_flag b BLOCK_HAVE_DATA = false) as Hd by (destruct (has_flag b BLOCK_HAVE_DATA); [by specialize (Hl eq_refl)|done]).
  destruct (check_both_returns s1 x b block Hs1 Hb Hc) as (v & block' & -> & Ev & Hne). cbn [mbind outcome_bind]. destruct v as [|[result r]].
  - destruct (SaveBlockToDisk env block') as [[file pos]|]; [|by apply Hkeep].
    destruct (received_node s1 x b (length (vtx block')) file pos Hs1 Hb Hd Hfl) as (s2 & -> & Hs2); [rewrite Ev; specialize (Hne eq_refl); destruct (vtx block); [done|cbn; lia]|rewrite Ev, Etx; lia|].
    cbn [mbind outcome_bind]. eexists _, _. split; [reflexivity|]. done.
  - apply Hkeep. cbn [chainstate]. case_bool_decide; [done|]. by apply refused_node.
Qed.

Lemma process_node env n block force : let s := chainstate n in node_inv s -> is_u32 (hdr_nBits (blk_header block)) -> checked_ok block ->
  index_txs (block_index s) + Z.of_nat (length (vtx block)) < 2^32 -> header_adds_work env s (blk_header block) ->
  exists ok n', ProcessNewBlock addr GetHash Hash ways rules Decompress KeyHash env n block force = Ret (ok, n') /\ node_inv (chainstate n') /\
    (ok = true -> at_best addr (chainstate n')).
Proof.
  intros s Hs Hbits Hc Hsum Hgrow. unfold ProcessNewBlock. destruct (CheckBlock_returns GetHash ways rules block Hc) as (v & b' & -> & Eh & Ev & _ & Hc'). cbn [mbind outcome_bind].
  destruct v as [|e]; [|by eexists _, _].
  destruct (accept_node env n b' force Hs) as (a & n' & -> & Hst & Hno); [by rewrite Eh|done|by rewrite Ev|by rewrite Eh|]. cbn [mbind outcome_bind].
  destruct (acc_ok a); cbn [negb]; [|exists false, n'; split_and!; [done|auto|done]]. destruct (activates _ Hst) as (ok & s' & -> & Hs' & Hend). cbn [mbind outcome_bind].
  eexists _, _. split; [reflexivity|]. split; [done|]. by intros ->.
Qed.

(** ** The start *)

Lemma start_inv w : chain_inv addr (start_state w) None.
Proof.
  assert (forall h, block_index (start_state w) !! h = None) as He by (intros; apply lookup_empty).
  assert (forall P h, ~ all_along P (block_index (start_state w)) h) as Hno.
  { intros P h Ha. apply all_along_known in Ha as [x Hx]. by rewrite He in Hx. }
  split; try done.
  - split; try (intros h b Hb; by rewrite He in Hb); [|by intros ? ? ?%not_elem_of_nil|constructor]. split; intros h b Hb; by rewrite He in Hb.
  - intros i Hi. cbn in Hi. lia.
  - intros _ h Hu. by destruct (Hno _ _ Hu).
Qed.

(** An index with one entry *)
Lemma only_entry bi x b : tree_wf bi -> bi !! x = Some b -> (forall h, is_Some (bi !! h) -> h = x) -> pprev b = None /\ index_txs bi = nTx b.
Proof.
  intros Hwf Hb Ho. split.
  - destruct (pprev b) as [p|] eqn:Hp; [|done]. destruct (pprev_height bi Hwf x b p Hb Hp) as (pb & Hpb & Hh). rewrite (Ho p ltac:(eauto)) in Hpb.
    replace pb with b in Hh by congruence. lia.
  - assert (dom bi = {[x]}) as Ed by (apply set_eq; intros h; rewrite elem_of_dom, elem_of_singleton; split; [apply Ho|intros ->; eauto]).
    unfold index_txs. rewrite Ed, elements_singleton, sum_of_cons, sum_of_nil. unfold tx_at. rewrite Hb. lia.
Qed.

Lemma start_node_returns w file pos : exists ok n, start_node addr GetHash Hash w genesis file pos = Ret (ok, n) /\ node_inv (chainstate n) /\
  if (ok : bool) then at_best addr (chainstate n) else had_error (connect_log (chainstate n)).
Proof.
  unfold start_node, AddGenesisBlock. pose proof Hset as [Hcon _ _ Eh Hne Hbits [Htx0 Htx1]]. rewrite Eh.
  assert (manager_wf empty_manager) as Hm by (apply (reachable_wf Hash); constructor).
  destruct (AddToBlockIndex_total Hash empty_manager (blk_header genesis) (hashGenesisBlock rules) BLOCK_VALID_TREE Hm Hne Hbits) as [bm Hadd]; [by left|]. rewrite Hadd. cbn [mbind outcome_bind].
  pose proof (node_reachable_wf GetHash Hash rules (blk_header genesis) _ Hne Hbits (nr_genesis _ _ _ _ bm Hadd)) as Hn.
  destruct (AddToBlockIndex_fresh Hash _ _ _ _ _ Hne (or_introl eq_refl) Hadd eq_refl) as (b & Eb & T1 & T2 & T3).
  set (s := set_chainman (start_state w) (mkManager bm [])).
  assert (block_index s = <[hashGenesisBlock rules := b]> ∅) as Es by exact Eb.
  assert (has_flag b BLOCK_HAVE_DATA = false /\ flagged b = false) as [Hd Hfl] by (unfold flagged, has_flag; by rewrite T3).
  assert (block_index s !! hashGenesisBlock rules = Some b) as Hb by (by rewrite Es, lookup_insert_eq).
  assert (forall h, is_Some (block_index s !! h) -> h = hashGenesisBlock rules) as Honly0.
  { intros h [y Hy]. rewrite Es in Hy. apply lookup_insert_Some in Hy as [[<- _]|[_ Hy]]; [done|by rewrite lookup_empty in Hy]. }
  assert (work_grows (block_index s)) as Hgrow.
  { intros h c p pc Hc Hp _. rewrite (Honly0 h ltac:(eauto)), Hb in Hc. injection Hc as <-.
    destruct (only_entry _ _ b (proj1 (proj1 (nw_manager _ _ _ Hn))) Hb Honly0) as [Hbp _]. congruence. }
  destruct (fresh_inv addr (start_state w) None (mkManager bm []) b (hashGenesisBlock rules) (start_inv w)) as [Hi Hab]; try done; [by rewrite T3|apply Hn|]. fold s in Hi, Hab.
  assert (index_txs (block_index s) = 0) as E0.
  { rewrite Es. rewrite (fresh_txs addr); [done|apply Hm|apply lookup_empty|done..]. }
  destruct (ReceivedBlockTransactions_spec addr s None (hashGenesisBlock rules) b (length (vtx genesis)) file pos Hi Hab Hb Hd Hfl) as (s1 & -> & Hi1 & Hab1 & Hrl & Etx); [lia|lia|].
  cbn [mbind outcome_bind]. pose proof Hrl as [X1 X2 _ _ _ _ _ _].
  assert (forall h, is_Some (block_index s1 !! h) -> h = hashGenesisBlock rules) as Honly by (intros h Hh; apply Honly0; by apply (extends_Some (block_index s1))).
  assert (stored_inv s1) as Hs1.
  { apply (relinked_stored s s1 None); try done.
    - rewrite Es. intros h c [[<- <-]|[_ Hc]]%lookup_insert_Some Hx; [congruence|by rewrite lookup_empty in Hc].
    - intros g Hg. destruct (only_entry _ _ g (inv_tree addr _ _ Hi1) Hg Honly) as [Hgp Hgt]. split; [done|]. apply (li_tx _ _ (ci_links _ _ _ Hi1) _ g Hg). lia. }
  destruct (activates s1 Hs1) as (ok & s2 & -> & Hs2 & Hend). cbn [mbind outcome_bind]. by eexists _, _.
Qed.

(** ** The states of a node *)

(** From the start, headers and blocks arrive in any order, with any settings, clock,
    ChainLocks and files, and the world that connecting blocks reads changes in any way;
    work accumulates, and the transactions in the index number less than 2^32. *)
Inductive node_runs : Node -> Prop :=
| run_start w file pos ok n : start_node addr GetHash Hash w genesis file pos = Ret (ok, n) -> node_runs n
| run_world n w : node_runs n -> node_runs (mkNode (set_world (chainstate n) w) (g_monitor n))
| run_headers n fCheckpointsEnabled HasConflictingChainLock nAdjustedTime headers v p m : node_runs n -> Forall (fun h => is_u32 (hdr_nBits h)) headers ->
    ProcessNewBlockHeaders GetHash Hash rules fCheckpointsEnabled HasConflictingChainLock nAdjustedTime (m_chainman (chainstate n)) headers None = Ret (v, p, m) ->
    work_grows (bm_index (m_blockman m)) -> node_runs (mkNode (set_chainman (chainstate n) m) (g_monitor n))
| run_block n env block force_processing ok n' : node_runs n -> fChecked block = false -> is_u32 (hdr_nBits (blk_header block)) ->
    index_txs (block_index (chainstate n)) + Z.of_nat (length (vtx block)) < 2^32 -> header_adds_work env (chainstate n) (blk_header block) ->
    ProcessNewBlock addr GetHash Hash ways rules Decompress KeyHash env n block force_processing = Ret (ok, n') -> node_runs n'.

Lemma fresh_block_ok block : fChecked block = false -> checked_ok block.
Proof. unfold checked_ok. congruence. Qed.

Lemma node_runs_inv n : node_runs n -> node_inv (chainstate n).
Proof.
  induction 1 as [w file pos ok n Hrun|n w _ IH|n cp lock now headers v p m _ IH Hb Hrun Hg|n env block force ok n' _ IH Hc Hb Hsum Hg Hrun].
  - destruct (start_node_returns w file pos) as (ok' & n' & E & Hn & _). congruence.
  - by apply world_node.
  - by apply (headers_node cp lock now headers _ None v p m).
  - destruct (process_node env n block force IH Hb (fresh_block_ok _ Hc) Hsum Hg) as (ok' & x & E & Hn & _). congruence.
Qed.

(** A chain that is all there, and no block of which was refused *)
Definition complete (log : list (uint256 * connect_verdict)) (bi : gmap uint256 CBlockIndex) : uint256 -> Prop :=
  all_along (fun x b => has_flag b BLOCK_HAVE_DATA = true /\ ~ refused log x) bi.

(** Sound marks leave complete chains alone. *)
Lemma complete_usable log bi h : flags_sound log bi -> complete log bi h -> usable bi h.
Proof.
  intros Hs. apply all_along_mono; [apply extends_refl|]. intros x b b' Hb Hb' Hx _. replace b' with b by congruence. clear b' Hb'.
  destruct (all_along_here _ _ _ Hx) as (y & Hy & Hd & _). replace y with b in Hd by congruence. rewrite block_ok_flagged, Hd.
  destruct (flagged b) eqn:Hf; [|done]. destruct (Hs x b Hb Hf) as (q & qb & Ha & Hq & Hr).
  destruct (all_along_here _ _ _ (all_along_ancestor _ _ _ _ Hx Ha)) as (z & Hz & Hzd & Hzv). replace z with qb in Hzd by congruence. destruct Hr as [|[? _]]; [done|congruence].
Qed.

Lemma good_complete log bi h : stable log -> good log bi h -> complete log bi h.
Proof.
  intros Hst [Hu Hv]. revert Hu Hv. induction 1 as [h b Hb Hp Hok|h b p Hb Hp Hok _ IH]; intros Hv; destruct (all_along_here _ _ _ Hv) as (y & Hy & Hyv);
    unfold block_ok in Hok; apply andb_prop in Hok as [[Hd _]%andb_prop _].
  - apply (aa_root _ _ h b); [done|done|]. split; [done|by apply Hst].
  - apply (aa_step _ _ h b p); [done|done|split; [done|by apply Hst]|]. apply IH. by apply (all_along_prev _ _ h b p).
Qed.

(** The tip leads a complete chain, and of all complete chains none has more work, nor
    the same work and an earlier arrival. *)
Definition best_tip (s : CChainState) : Prop := let bi := block_index s in let log := connect_log s in
  exists t tb, tip s = Some t /\ bi !! t = Some tb /\ complete log bi t /\
    forall h hb, complete log bi h -> bi !! h = Some hb -> val (nChainWork hb) < val (nChainWork tb) \/
      (val (nChainWork hb) = val (nChainWork tb) /\ nSequenceId tb <= nSequenceId hb).

Lemma at_best_tip s : stored_inv s -> at_best addr s -> stable (connect_log s) -> best_tip s.
Proof.
  intros Hs Hb Hst. specialize (Hb Hst). pose proof Hs as [Hn [r Hi] _ Hf _ Hg]. destruct (nw_genesis _ _ _ Hn) as [g Hgb]. destruct (Hg g Hgb) as [Hp Hd].
  assert (usable (block_index s) (hashGenesisBlock rules)) as Hug.
  { apply (complete_usable (connect_log s)); [done|]. apply (aa_root _ _ _ g); [done|done|]. split; [done|]. apply (genesis_ok s g Hs Hgb). }
  destruct (tip s) as [t|] eqn:Ht; [|by destruct (Hb _ Hug)]. destruct Hb as [U M]. destruct (all_along_known _ _ _ U) as [tb Htb].
  exists t, tb. split; [done|]. split; [done|]. split; [apply good_complete; [done|]; by apply (ci_tip _ _ _ Hi t Ht)|].
  intros h hb Hc Hh. destruct (M h (complete_usable _ _ _ Hf Hc)) as [->|Hw]; [replace hb with tb by congruence; right; split; [done|lia]|].
  apply (worse_spec addr _ (inv_works addr _ _ Hi) h hb t tb Hh Htb) in Hw. lia.
Qed.

End node.

(** ** Properties *)

(** C1: the active chain of a node is the best one it could have, as far as the answers of
    connecting blocks allow. The node starts and then receives headers and blocks in any
    order; the rules that connect and disconnect blocks, and the world they read, are left
    open and can change at any time. In every state reached:
    - the active chain consists of blocks whose data is there, that carry no mark and were
      connected, and the answers on record were given by the rules;
    - a block is marked as failed or conflicting only if it, or an ancestor, was refused by
      the rules, or is marked and never had its data stored;
    - if no block was both connected and refused, and nothing failed, then of all chains
      that are all there and of which no block was refused, none has more work than the
      active chain, nor the same work and an earlier arrival. A ChainLock or an InstantSend
      lock that arrives can make the rules refuse a block that was connected before.
    The node starts, and neither [ProcessNewBlockHeaders] nor [ProcessNewBlock] fails one of
    the modelled assertions or fails to return, reorganisations, invalid blocks and failures
    included; when [ProcessNewBlock] returns true and no block was both connected and
    refused, the chain is the best even if there were failures before. This is under the conditions
    that the rules never refuse the genesis block, that each entry of the index has more
    work than its parent (the target required is not zero and the sum does not wrap around
    at 2^256), and that the index holds fewer than 2^32 transactions. Calls are atomic. The
    assertions inside the rules and in [CheckBlockIndex] are not modelled, nor is marking
    blocks by hand or on a new ChainLock. *)
Theorem active_chain_is_best `{BlockConnector} (addr : uint256 -> Z) `{!Inj (=) (=) addr} `{Crypto} (GetHash : CBlockHeader -> uint256) (Hash : list Z -> uint256)
    (ways : d64_ways) (rules : ChainRules) (Decompress : list Z -> option (list Z)) (KeyHash : list Z -> list Z) (genesis : CBlock) (n : Node) :
  setting GetHash rules genesis -> node_runs addr GetHash Hash ways rules Decompress KeyHash genesis n ->
  let s := chainstate n in let bi := block_index s in let log := connect_log s in
  chain_wf bi (m_chain s) /\ (forall t, tip s = Some t -> good log bi t) /\
  (forall h v, (h, v) ∈ log -> v <> SystemError -> exists w b, (ConnectRules w h b).1.1 = v) /\
  (forall h b, bi !! h = Some b -> flagged b = true -> faulty log bi h) /\
  (stable log -> ~ had_error log -> best_tip s) /\
  (forall w file pos, exists ok n0, start_node addr GetHash Hash w genesis file pos = Ret (ok, n0) /\
     if (ok : bool) then stable (connect_log (chainstate n0)) -> best_tip (chainstate n0) else had_error (connect_log (chainstate n0))) /\
  (forall fCheckpointsEnabled HasConflictingChainLock nAdjustedTime headers, Forall (fun h => is_u32 (hdr_nBits h)) headers ->
     exists r, ProcessNewBlockHeaders GetHash Hash rules fCheckpointsEnabled HasConflictingChainLock nAdjustedTime (m_chainman s) headers None = Ret r) /\
  (forall env block force_processing, fChecked block = false -> is_u32 (hdr_nBits (blk_header block)) ->
     index_txs bi + Z.of_nat (length (vtx block)) < 2^32 -> header_adds_work GetHash Hash rules env s (blk_header block) ->
     exists ok n', ProcessNewBlock addr GetHash Hash ways rules Decompress KeyHash env n block force_processing = Ret (ok, n') /\
       (ok = true -> stable (connect_log (chainstate n')) -> best_tip (chainstate n'))).
Proof.
  intros Hset Hr s bi log. pose proof (node_runs_inv addr GetHash Hash ways rules Decompress KeyHash genesis Hset n Hr) as Hs. fold s in Hs.
  pose proof Hs as [Hst Hb]. pose proof Hst as [Hn [r Hi] _ Hf Hw _]. pose proof (at_best_tip addr GetHash rules genesis Hset) as Hbest.
  split; [apply Hi|]. split; [intros t Ht; by apply (ci_tip _ _ _ Hi t Ht)|]. split; [intros h v Hin; apply (proj1 (Forall_forall _ _) Hw _ Hin)|]. split; [done|].
  split; [intros Hstab Hno; apply Hbest; auto|]. split; [|split].
  - intros w file pos. destruct (start_node_returns addr GetHash Hash rules genesis Hset w file pos) as (ok & n0 & -> & Hn0 & Hend). exists ok, n0. split; [done|].
    destruct ok; [|done]. apply Hbest; [apply Hn0|done].
  - intros cp lock now headers Hbits. by apply (headers_return GetHash Hash rules genesis Hset cp lock now headers _ None Hn).
  - intros env block force Hc Hbits Hsum Hg.
    destruct (process_node addr GetHash Hash ways rules Decompress KeyHash genesis Hset env n block force Hs Hbits (fresh_block_ok _ Hc) Hsum Hg) as (ok & n' & -> & Hn' & Hok).
    exists ok, n'. split; [done|]. intros ->. apply Hbest; [apply Hn'|auto].
Qed.

(** A node that starts and receives a block. The world counts the blocks connected; one
    block is always refused. *)
Definition demo_addr (h : uint256) : Z := Z.pos (countable.encode h).
#[export] Instance demo_addr_inj : Inj (=) (=) demo_addr.
Proof. intros a b [= E]. by apply (inj countable.encode). Qed.
Definition demo_connector : BlockConnector :=
  {| World := nat;
     ConnectRules := fun w h b => (if bool_decide (h = demo_hash 3) then Invalid BLOCK_CONSENSUS else Connected, mkWrites None (Some (0, 0)) (Some 8) true, S w);
     DisconnectBlock := fun w _ => (true, w) |}.
Definition demo_genesis_block : CBlock := mkBlock demo_genesis (take 1 demo_vtx) [] false false.
Definition demo_env : environment := mkEnvironment true (fun _ _ => false) 5000 bu_zero (fun _ => Ret None) (fun _ => Some (0, 8)).
#[local] Notation demo_start := (@start_node demo_connector demo_addr demo_GetHash (fun _ => uint256_zero) 0%nat demo_genesis_block 0 8).
#[local] Notation demo_header n :=
  (AcceptBlockHeader demo_GetHash (fun _ => uint256_zero) demo_rules (fCheckpointsEnabled demo_env) (HasConflictingChainLock demo_env) (nAdjustedTime demo_env)
    (m_chainman (@chainstate demo_connector n)) (blk_header demo_block) false).
#[local] Notation demo_process n :=
  (@ProcessNewBlock demo_connector demo_addr demo_crypto demo_GetHash (fun _ => uint256_zero) portable_ways demo_rules (fun _ => None) (fun k => k) demo_env n demo_block true).

Lemma demo_setting : @setting demo_connector demo_GetHash demo_rules demo_genesis_block.
Proof.
  split; try done.
  split; [done|done|apply (bool_decide_unpack _); vm_compute; exact I|apply (bool_decide_unpack _); vm_compute; exact I].
Qed.

(** Checks of a state by evaluation *)
Definition work_grows_b (bi : gmap uint256 CBlockIndex) : bool :=
  forallb (fun e => match pprev e.2 ≫= (bi !!.) with Some pb => val (nChainWork pb) <? val (nChainWork e.2) | None => true end) (map_to_list bi).
Lemma work_grows_b_spec bi : work_grows_b bi = true -> work_grows bi.
Proof.
  intros Hb h b p pb Hh Hp Hpb. apply elem_of_map_to_list, list_elem_of_In in Hh. pose proof (proj1 (forallb_forall _ _) Hb _ Hh) as E. cbn in E. rewrite Hp in E. cbn in E.
  rewrite Hpb in E. by apply Z.ltb_lt.
Qed.

Definition all_connected (log : list (uint256 * connect_verdict)) : bool := forallb (fun e => match e.2 with Connected => true | _ => false end) log.
Lemma all_connected_spec log : all_connected log = true -> stable log /\ ~ had_error log.
Proof.
  intros Hl. assert (forall h v, (h, v) ∈ log -> v = Connected) as Hc.
  { intros h v Hin%list_elem_of_In. pose proof (proj1 (forallb_forall _ _) Hl _ Hin) as E. cbn in E. by destruct v. }
  split; [intros h _ [r Hr]; by apply Hc in Hr|intros [h Hh]; by apply Hc in Hh].
Qed.

Section demo.

Context `{BlockConnector}.

Definition succeeded (o : outcome (bool * Node)) : option Node := match o with Ret (true, n) => Some n | _ => None end.
Definition demo_result (n0 n : Node) (header : outcome (header_verdict * option uint256 * ChainstateManager)) : bool :=
  (index_txs (block_index (chainstate n0)) + Z.of_nat (length (vtx demo_block)) <? 2^32) && bool_decide (tip (chainstate n) = Some (demo_hash 2)) &&
  all_connected (connect_log (chainstate n)) && match header with Ret (_, _, m) => work_grows_b (bm_index (m_blockman m)) | Abort => true end.
Definition demo_runs (start : outcome (bool * Node)) (process : Node -> outcome (bool * Node)) (header : Node -> outcome (header_verdict * option uint256 * ChainstateManager)) : bool :=
  match succeeded start with
  | Some n0 => match succeeded (process n0) with Some n => demo_result n0 n (header n0) | None => false end
  | None => false
  end.

Lemma succeeded_spec o n : succeeded o = Some n -> o = Ret (true, n).
Proof. destruct o as [[[] x]|]; try done. by intros [= ->]. Qed.

Lemma demo_runs_spec start process header : demo_runs start process header = true -> exists n0 n, start = Ret (true, n0) /\ process n0 = Ret (true, n) /\
  index_txs (block_index (chainstate n0)) + Z.of_nat (length (vtx demo_block)) < 2^32 /\ tip (chainstate n) = Some (demo_hash 2) /\
  stable (connect_log (chainstate n)) /\ ~ had_error (connect_log (chainstate n)) /\ forall v p m, header n0 = Ret (v, p, m) -> work_grows (bm_index (m_blockman m)).
Proof.
  unfold demo_runs. destruct (succeeded start) as [n0|] eqn:E0; [|done]. destruct (succeeded (process n0)) as [n|] eqn:E; [|done].
  intros [[[Hs%Z.ltb_lt Ht%bool_decide_eq_true]%andb_prop Hl%all_connected_spec]%andb_prop Hg]%andb_prop. exists n0, n. apply succeeded_spec in E0, E. destruct Hl.
  split_and!; try done. intros v p m Hh. rewrite Hh in Hg. by apply work_grows_b_spec.
Qed.

End demo.

Lemma demo_states : exists n0 n, demo_start = Ret (true, n0) /\ demo_process n0 = Ret (true, n) /\
  index_txs (block_index (chainstate n0)) + Z.of_nat (length (vtx demo_block)) < 2^32 /\ tip (chainstate n) = Some (demo_hash 2) /\
  stable (connect_log (chainstate n)) /\ ~ had_error (connect_log (chainstate n)) /\ forall v p m, demo_header n0 = Ret (v, p, m) -> work_grows (bm_index (m_blockman m)).
Proof. apply (@demo_runs_spec demo_connector demo_start (fun n => demo_process n) (fun n => demo_header n)). vm_compute. reflexivity. Qed.

Lemma active_chain_is_best_witness :
  exists n0 n, demo_start = Ret (true, n0) /\ demo_process n0 = Ret (true, n) /\ tip (chainstate n) = Some (demo_hash 2) /\ best_tip (chainstate n).
Proof.
  destruct demo_states as (n0 & n & E0 & E & Hsum & Hrun & Hst & Hno & Hg).
  pose proof (@run_start demo_connector demo_addr demo_crypto demo_GetHash (fun _ => uint256_zero) portable_ways demo_rules (fun _ => None) (fun k => k) demo_genesis_block 0%nat 0 8 true n0 E0) as R0.
  assert (is_u32 (hdr_nBits (blk_header demo_block))) as Hu by (unfold is_u32; cbn; lia).
  pose proof (@run_block demo_connector demo_addr demo_crypto demo_GetHash (fun _ => uint256_zero) portable_ways demo_rules (fun _ => None) (fun k => k) demo_genesis_block n0 demo_env demo_block true true n
    R0 eq_refl Hu Hsum Hg E) as R.
  destruct (@active_chain_is_best demo_connector demo_addr demo_addr_inj demo_crypto demo_GetHash (fun _ => uint256_zero) portable_ways demo_rules (fun _ => None) (fun k => k) demo_genesis_block n
    demo_setting R) as (_ & _ & _ & _ & Hbest & _).
  exists n0, n. split; [exact E0|]. split; [exact E|]. split; [exact Hrun|]. exact (Hbest Hst Hno).
Defined.
