(* ===== verification/MnList.v ===== *)
(** * MnList: the deterministic masternode list
      (src/src/evo/deterministicmns.{h,cpp}, src/src/evo/dmnstate.h)

    The list maps registration hashes to masternodes, internal ids to
    registration hashes, and the hashes of unique properties (collateral,
    address, owner key, operator key) to the masternode that holds them with a
    reference count.  A thrown exception is [Abort]; the source rolls its
    property map back before it throws.

    Values of unique properties are their serializations; an address or an
    operator key that was never set is [None].  The hash of a serialized
    property is the argument [SerializeHash]. *)

From Stdlib Require Import ZArith Lia.
From stdpp Require Import base list numbers option gmap gmultiset fin_maps sorting.
From S2P Require Import Prelude Arith256 Uint256 Transaction.

(** [CDeterministicMNState] *)
Record CDeterministicMNState : Type := mkState {
  nPoSeBanHeight : Z;
  st_nVersion : Z;
  nRegisteredHeight : Z;
  nLastPaidHeight : Z;
  nConsecutivePayments : Z;
  nPoSePenalty : Z;
  nPoSeRevivedHeight : Z;
  nRevocationReason : Z;
  confirmedHash : uint256;
  confirmedHashWithProRegTxHash : uint256;
  keyIDOwner : list Z;
  pubKeyOperator : option (list Z);
  keyIDVoting : list Z;
  addr : option (list Z);
  scriptPayout : CScript;
  scriptOperatorPayout : CScript;
  platformNodeID : list Z;
  platformP2PPort : Z;
  platformHTTPPort : Z;
  computeDescriptor : list Z;
  nMissedEpochs : Z;
  nLastServiceEpoch : Z;
  fRewardSuspended : bool;
  nDSLBanHeight : Z;
}.

Definition set_pose (s : CDeterministicMNState) (ban penalty revived : Z) : CDeterministicMNState :=
  mkState ban (st_nVersion s) (nRegisteredHeight s) (nLastPaidHeight s) (nConsecutivePayments s) penalty revived
    (nRevocationReason s) (confirmedHash s) (confirmedHashWithProRegTxHash s) (keyIDOwner s) (pubKeyOperator s)
    (keyIDVoting s) (addr s) (scriptPayout s) (scriptOperatorPayout s) (platformNodeID s) (platformP2PPort s)
    (platformHTTPPort s) (computeDescriptor s) (nMissedEpochs s) (nLastServiceEpoch s) (fRewardSuspended s)
    (nDSLBanHeight s).

Definition set_service (s : CDeterministicMNState) (missed last : Z) (suspended : bool) (ban : Z) : CDeterministicMNState :=
  mkState (nPoSeBanHeight s) (st_nVersion s) (nRegisteredHeight s) (nLastPaidHeight s) (nConsecutivePayments s)
    (nPoSePenalty s) (nPoSeRevivedHeight s) (nRevocationReason s) (confirmedHash s) (confirmedHashWithProRegTxHash s)
    (keyIDOwner s) (pubKeyOperator s) (keyIDVoting s) (addr s) (scriptPayout s) (scriptOperatorPayout s)
    (platformNodeID s) (platformP2PPort s) (platformHTTPPort s) (computeDescriptor s) missed last suspended ban.

(** [CDeterministicMNState::IsBanned], [BanIfNotBanned], [Revive] *)
Definition IsBanned (s : CDeterministicMNState) : bool :=
  (negb (nPoSeBanHeight s =? -1) || negb (nDSLBanHeight s =? -1))%bool.
Definition BanIfNotBanned (s : CDeterministicMNState) (height : Z) : CDeterministicMNState :=
  if negb (IsBanned s) then set_pose s height (nPoSePenalty s) (nPoSeRevivedHeight s) else s.
Definition Revive (s : CDeterministicMNState) (nRevivedHeight : Z) : CDeterministicMNState :=
  set_pose s (-1) 0 nRevivedHeight.

(** [CDeterministicMN] *)
Record CDeterministicMN : Type := mkMN {
  internalId : Z;
  proTxHash : uint256;
  collateralOutpoint : COutPoint;
  nOperatorReward : Z;
  mn_nType : Z;
  pdmnState : CDeterministicMNState;
}.

Definition with_state (d : CDeterministicMN) (s : CDeterministicMNState) : CDeterministicMN :=
  mkMN (internalId d) (proTxHash d) (collateralOutpoint d) (nOperatorReward d) (mn_nType d) s.

(** [CDeterministicMNList] *)
Record CDeterministicMNList : Type := mkList {
  ml_blockHash : uint256;
  ml_nHeight : Z;
  nTotalRegisteredCount : Z;
  mnMap : gmap uint256 CDeterministicMN;
  mnInternalIdMap : gmap Z uint256;
  mnUniquePropertyMap : gmap uint256 (uint256 * Z);
}.

Definition with_maps (l : CDeterministicMNList) (mns : gmap uint256 CDeterministicMN) (ids : gmap Z uint256)
    (uniq : gmap uint256 (uint256 * Z)) : CDeterministicMNList :=
  mkList (ml_blockHash l) (ml_nHeight l) (nTotalRegisteredCount l) mns ids uniq.

(** A unique property, by its type *)
Inductive UniqueProperty : Type :=
| UCollateral (o : COutPoint)
| UAddr (a : option (list Z))
| UKeyID (k : list Z)
| UOperatorKey (k : option (list Z)).

#[export] Instance UniqueProperty_eq_dec : EqDecision UniqueProperty.
Proof. solve_decision. Defined.

(** [v == nullValue] *)
Definition is_null (v : UniqueProperty) : bool :=
  match v with
  | UCollateral o => outpoint_IsNull o
  | UAddr a => bool_decide (a = None)
  | UKeyID k => forallb (fun b => b =? 0) k
  | UOperatorKey k => bool_decide (k = None)
  end.

(** [GetMN], [GetMNByInternalId], [IsMNValid], [ForEachMN] (the list of the
    masternodes visited; the map's iteration order is unspecified) *)
Definition GetMN (l : CDeterministicMNList) (h : uint256) : option CDeterministicMN := mnMap l !! h.
Definition GetMNByInternalId (l : CDeterministicMNList) (id : Z) : option CDeterministicMN :=
  mnInternalIdMap l !! id ≫= GetMN l.
Definition IsMNValid (d : CDeterministicMN) : bool := negb (IsBanned (pdmnState d)).
Definition ForEachMN (l : CDeterministicMNList) (onlyValid : bool) : list CDeterministicMN :=
  List.filter (fun d => (negb onlyValid || IsMNValid d)%bool) (map snd (map_to_list (mnMap l))).
Definition GetAllMNsCount (l : CDeterministicMNList) : Z := Z.of_nat (size (mnMap l)).

Section mnlist.

Context (SerializeHash : UniqueProperty -> uint256).

(** [AddUniqueProperty], [DeleteUniqueProperty], [UpdateUniqueProperty] on the
    property map; [None] is the result false. *)
Definition AddUniqueProperty (m : gmap uint256 (uint256 * Z)) (p : uint256) (v : UniqueProperty)
    : option (gmap uint256 (uint256 * Z)) :=
  if is_null v then None
  else
    let hash := SerializeHash v in
    match m !! hash with
    | Some (owner, count) =>
        if bool_decide (owner <> p) then None else Some (<[hash := (p, u32 (count + 1))]> m)
    | None => Some (<[hash := (p, 1)]> m)
    end.

Definition DeleteUniqueProperty (m : gmap uint256 (uint256 * Z)) (p : uint256) (v : UniqueProperty)
    : option (gmap uint256 (uint256 * Z)) :=
  if is_null v then None
  else
    let hash := SerializeHash v in
    match m !! hash with
    | None => None
    | Some (owner, count) =>
        if bool_decide (owner <> p) then None
        else if count =? 1 then Some (delete hash m)
        else Some (<[hash := (p, u32 (count - 1))]> m)
    end.

(** Operator keys are compared by the hash of their encoding. *)
Definition same_property (old new : UniqueProperty) : bool :=
  match old, new with
  | UOperatorKey _, UOperatorKey _ => bool_decide (SerializeHash old = SerializeHash new)
  | _, _ => bool_decide (old = new)
  end.

Definition UpdateUniqueProperty (m : gmap uint256 (uint256 * Z)) (p : uint256) (old new : UniqueProperty)
    : option (gmap uint256 (uint256 * Z)) :=
  if same_property old new then Some m
  else
    m ← (if negb (is_null old) then DeleteUniqueProperty m p old else Some m);
    if negb (is_null new) then AddUniqueProperty m p new else Some m.

(** Skip an optional property that was never set. *)
Definition unless_null (f : gmap uint256 (uint256 * Z) -> uint256 -> UniqueProperty -> option (gmap uint256 (uint256 * Z)))
    (m : gmap uint256 (uint256 * Z)) (p : uint256) (v : UniqueProperty) : option (gmap uint256 (uint256 * Z)) :=
  if is_null v then Some m else f m p v.

(** [CDeterministicMNList::AddMN] *)
Definition AddMN (l : CDeterministicMNList) (dmn : CDeterministicMN) (fBumpTotalCount : bool) : outcome CDeterministicMNList :=
  let p := proTxHash dmn in
  let st := pdmnState dmn in
  if bool_decide (is_Some (mnMap l !! p)) then Abort
  else if internalId dmn =? 2^64 - 1 then Abort
  else if bool_decide (is_Some (mnInternalIdMap l !! internalId dmn)) then Abort
  else
    m ← deref (AddUniqueProperty (mnUniquePropertyMap l) p (UCollateral (collateralOutpoint dmn)));
    m ← deref (unless_null AddUniqueProperty m p (UAddr (addr st)));
    m ← deref (AddUniqueProperty m p (UKeyID (keyIDOwner st)));
    m ← deref (unless_null AddUniqueProperty m p (UOperatorKey (pubKeyOperator st)));
    let l := with_maps l (<[p := dmn]> (mnMap l)) (<[internalId dmn := p]> (mnInternalIdMap l)) m in
    Ret (if fBumpTotalCount
         then mkList (ml_blockHash l) (ml_nHeight l) (u32 (Z.max (u64 (internalId dmn + 1)) (nTotalRegisteredCount l)))
                (mnMap l) (mnInternalIdMap l) (mnUniquePropertyMap l)
         else l).

(** [CDeterministicMNList::UpdateMN], given the old entry *)
Definition UpdateMN_entry (l : CDeterministicMNList) (old : CDeterministicMN) (st : CDeterministicMNState)
    : outcome CDeterministicMNList :=
  let p := proTxHash old in
  let ost := pdmnState old in
  m ← deref (UpdateUniqueProperty (mnUniquePropertyMap l) p (UAddr (addr ost)) (UAddr (addr st)));
  m ← deref (UpdateUniqueProperty m p (UKeyID (keyIDOwner ost)) (UKeyID (keyIDOwner st)));
  m ← deref (UpdateUniqueProperty m p (UOperatorKey (pubKeyOperator ost)) (UOperatorKey (pubKeyOperator st)));
  Ret (with_maps l (<[p := with_state old st]> (mnMap l)) (mnInternalIdMap l) m).

(** [CDeterministicMNList::UpdateMN], by registration hash *)
Definition UpdateMN (l : CDeterministicMNList) (h : uint256) (st : CDeterministicMNState) : outcome CDeterministicMNList :=
  old ← deref (mnMap l !! h);
  UpdateMN_entry l old st.

(** [CDeterministicMNList::RemoveMN] *)
Definition RemoveMN (l : CDeterministicMNList) (h : uint256) : outcome CDeterministicMNList :=
  dmn ← deref (GetMN l h);
  let p := proTxHash dmn in
  let st := pdmnState dmn in
  m ← deref (DeleteUniqueProperty (mnUniquePropertyMap l) p (UCollateral (collateralOutpoint dmn)));
  m ← deref (unless_null DeleteUniqueProperty m p (UAddr (addr st)));
  m ← deref (DeleteUniqueProperty m p (UKeyID (keyIDOwner st)));
  m ← deref (unless_null DeleteUniqueProperty m p (UOperatorKey (pubKeyOperator st)));
  Ret (with_maps l (delete h (mnMap l)) (delete (internalId dmn) (mnInternalIdMap l)) m).

(** [CalcMaxPoSePenalty], [CalcPenalty] *)
Definition CalcMaxPoSePenalty (l : CDeterministicMNList) : Z := Z.max 100 (i32 (GetAllMNsCount l)).
Definition CalcPenalty (l : CDeterministicMNList) (percent : Z) : outcome Z :=
  if percent <=? 0 then Abort else Ret (Z.quot (CalcMaxPoSePenalty l * percent) 100).

(** [CDeterministicMNList::PoSePunish] *)
Definition PoSePunish (l : CDeterministicMNList) (h : uint256) (penalty : Z) : outcome CDeterministicMNList :=
  if penalty <=? 0 then Abort
  else
    dmn ← deref (GetMN l h);
    let maxPenalty := CalcMaxPoSePenalty l in
    let st := pdmnState dmn in
    let st := set_pose st (nPoSeBanHeight st) (Z.min maxPenalty (nPoSePenalty st + penalty)) (nPoSeRevivedHeight st) in
    let st := if ((nPoSePenalty st >=? maxPenalty) && negb (IsBanned st))%bool then BanIfNotBanned st (ml_nHeight l) else st in
    UpdateMN l h st.

(** [CDeterministicMNList::PoSeDecrease] *)
Definition PoSeDecrease (l : CDeterministicMNList) (dmn : CDeterministicMN) : outcome CDeterministicMNList :=
  let st := pdmnState dmn in
  if negb ((nPoSePenalty st >? 0) && negb (IsBanned st))%bool then Abort
  else UpdateMN_entry l dmn (set_pose st (nPoSeBanHeight st) (nPoSePenalty st - 1) (nPoSeRevivedHeight st)).

(** [CDeterministicMNList::DecreaseScores] *)
Fixpoint decrease_loop (l : CDeterministicMNList) (toDecrease : list CDeterministicMN) : outcome CDeterministicMNList :=
  match toDecrease with
  | [] => Ret l
  | dmn :: rest => l ← PoSeDecrease l dmn; decrease_loop l rest
  end.

Definition DecreaseScores (l : CDeterministicMNList) : outcome CDeterministicMNList :=
  decrease_loop l (List.filter (fun d => nPoSePenalty (pdmnState d) >? 0) (ForEachMN l true)).

(** ** The property map as a multiset per masternode *)

(** [m] records exactly the property hashes in [held], which masternodes do not
    share, with their multiplicities. *)
Definition records (m : gmap uint256 (uint256 * Z)) (held : uint256 -> gmultiset uint256) : Prop :=
  forall h p n, m !! h = Some (p, n) <-> h ∈ held p /\ n = Z.of_nat (multiplicity h (held p)).

Definition upd (held : uint256 -> gmultiset uint256) (p : uint256) (x : gmultiset uint256) : uint256 -> gmultiset uint256 :=
  fun q => if decide (q = p) then x else held q.

Lemma upd_eq held p x : upd held p x p = x.
Proof. unfold upd. by case_decide. Qed.
Lemma upd_ne held p x q : q <> p -> upd held p x q = held q.
Proof. unfold upd. by case_decide. Qed.

Lemma records_ext m held held' : (forall p, held p = held' p) -> records m held -> records m held'.
Proof. intros He Hr h p n. rewrite <- He. apply Hr. Qed.

Lemma records_none m held h p : records m held -> m !! h = None -> h ∉ held p.
Proof. intros Hr Hn Hin. assert (m !! h = Some (p, Z.of_nat (multiplicity h (held p)))) by (by apply Hr). congruence. Qed.

Lemma records_unique m held h p q : records m held -> h ∈ held p -> h ∈ held q -> p = q.
Proof.
  intros Hr Hp Hq. assert (m !! h = Some (p, Z.of_nat (multiplicity h (held p)))) by (by apply Hr).
  assert (m !! h = Some (q, Z.of_nat (multiplicity h (held q)))) by (by apply Hr). congruence.
Qed.

(** Setting the entry of one hash to what [p] comes to hold *)
Lemma records_set m held p h x : records m held -> (forall q, h ∈ held q -> q = p) ->
  (forall h', h' <> h -> multiplicity h' x = multiplicity h' (held p)) ->
  records (match multiplicity h x with O => delete h m | n => <[h := (p, Z.of_nat n)]> m end) (upd held p x).
Proof.
  intros Hr Honly Hx h' q n.
  destruct (decide (h' = h)) as [->|Hne].
  - destruct (multiplicity h x) as [|k] eqn:Hm.
    + rewrite lookup_delete_eq. split; [done|]. intros [Hin _]. exfalso. destruct (decide (q = p)) as [->|Hq].
      * rewrite upd_eq in Hin. rewrite elem_of_multiplicity, Hm in Hin. lia.
      * rewrite upd_ne in Hin by done. by apply Hq, Honly.
    + rewrite lookup_insert_eq. split.
      * intros [= <- <-]. rewrite upd_eq, elem_of_multiplicity, Hm. split; [lia|done].
      * intros [Hin ->]. destruct (decide (q = p)) as [->|Hq]; [by rewrite upd_eq, Hm|].
        rewrite upd_ne in Hin by done. exfalso. by apply Hq, Honly.
  - replace (_ !! h') with (m !! h') by (by case_match; rewrite ?lookup_delete_ne, ?lookup_insert_ne).
    rewrite (Hr h' q n). destruct (decide (q = p)) as [->|Hq]; [|by rewrite upd_ne].
    by rewrite upd_eq, !elem_of_multiplicity, Hx.
Qed.

Lemma multiplicity_size (h : uint256) (x : gmultiset uint256) : (multiplicity h x <= size x)%nat.
Proof.
  induction x as [|y x IH] using gmultiset_ind.
  - rewrite multiplicity_empty. lia.
  - rewrite multiplicity_disj_union, gmultiset_size_disj_union, gmultiset_size_singleton, multiplicity_singleton.
    case_decide; lia.
Qed.

Lemma AddUniqueProperty_spec m held p v : records m held -> Z.of_nat (size (held p)) < 2^32 - 1 ->
  (is_null v = false /\ (forall q, SerializeHash v ∈ held q -> q = p) <-> is_Some (AddUniqueProperty m p v)) /\
  (forall m', AddUniqueProperty m p v = Some m' -> records m' (upd held p ({[+ SerializeHash v +]} ⊎ held p))).
Proof.
  intros Hr Hsize. unfold AddUniqueProperty. destruct (is_null v); [split; [|done]; split; [by intros [? _]|by intros [? ?]]|].
  set (h := SerializeHash v). set (x := {[+ h +]} ⊎ held p).
  assert (Hx : multiplicity h x = S (multiplicity h (held p))).
  { unfold x. rewrite multiplicity_disj_union, multiplicity_singleton_eq. lia. }
  assert (Hother : forall h', h' <> h -> multiplicity h' x = multiplicity h' (held p)).
  { intros h' Hne. unfold x. rewrite multiplicity_disj_union, multiplicity_singleton_ne; done. }
  assert (Hset : (forall q, h ∈ held q -> q = p) -> records (<[h := (p, Z.of_nat (S (multiplicity h (held p))))]> m) (upd held p x)).
  { intros Honly. pose proof (records_set m held p h x Hr Honly Hother) as Hs. by rewrite Hx in Hs. }
  destruct (m !! h) as [[owner count]|] eqn:Hm.
  - apply Hr in Hm as [Hin ->].
    destruct (bool_decide _) eqn:Hown; [apply bool_decide_eq_true in Hown|apply bool_decide_eq_false, dec_stable in Hown as ->].
    + split; [|done]. split; [|by intros [? ?]]. intros [_ Honly]. by apply Honly in Hin.
    + assert (Honly : forall q, h ∈ held q -> q = p) by (intros q Hq; by eapply records_unique).
      split; [split; [done|]; intros _; done|]. intros m' [= <-].
      replace (u32 _) with (Z.of_nat (S (multiplicity h (held p)))); [by apply Hset|].
      unfold u32. rewrite Z.mod_small; [lia|].
      pose proof (multiplicity_size h (held p)). lia.
  - assert (Hno : forall q, h ∉ held q) by (intros q; by eapply records_none).
    assert (Hz : multiplicity h (held p) = O).
    { pose proof (Hno p) as Hn. rewrite elem_of_multiplicity in Hn. lia. }
    split; [split; [done|]; intros _; split; [done|]; intros q Hq; by destruct (Hno q)|].
    intros m' [= <-]. rewrite Hz in Hset. apply Hset. intros q Hq. by destruct (Hno q).
Qed.

Lemma DeleteUniqueProperty_spec m held p v : records m held -> Z.of_nat (size (held p)) < 2^32 - 1 ->
  is_null v = false -> SerializeHash v ∈ held p ->
  exists m', DeleteUniqueProperty m p v = Some m' /\ records m' (upd held p (held p ∖ {[+ SerializeHash v +]})).
Proof.
  intros Hr Hsize Hnull Hin. unfold DeleteUniqueProperty. rewrite Hnull.
  set (h := SerializeHash v) in *. set (x := held p ∖ {[+ h +]}).
  assert (Hx : multiplicity h x = (multiplicity h (held p) - 1)%nat).
  { unfold x. rewrite multiplicity_difference, multiplicity_singleton_eq. done. }
  assert (Hother : forall h', h' <> h -> multiplicity h' x = multiplicity h' (held p)).
  { intros h' Hne. unfold x. rewrite multiplicity_difference, multiplicity_singleton_ne by done. lia. }
  assert (Honly : forall q, h ∈ held q -> q = p) by (intros q Hq; by eapply records_unique).
  pose proof (records_set m held p h x Hr Honly Hother) as Hs. rewrite Hx in Hs.
  assert (Hm : m !! h = Some (p, Z.of_nat (multiplicity h (held p)))) by (by apply Hr). rewrite Hm.
  rewrite bool_decide_false by (intros Hne; by apply Hne).
  rewrite elem_of_multiplicity in Hin. pose proof (multiplicity_size h (held p)).
  destruct (Z.eqb_spec (Z.of_nat (multiplicity h (held p))) 1) as [He|He]; eexists; (split; [done|]).
  - by replace (multiplicity h (held p) - 1)%nat with O in Hs by lia.
  - destruct (multiplicity h (held p)) as [|[|k]]; [lia|lia|]. cbn [Nat.sub] in Hs.
    replace (u32 _) with (Z.of_nat (S k)); [done|]. unfold u32. rewrite Z.mod_small; lia.
Qed.

(** ** The invariant of the list *)

(** The hash of a property that is set *)
Definition prop_hash (v : UniqueProperty) : gmultiset uint256 := if is_null v then ∅ else {[+ SerializeHash v +]}.

Definition state_props (st : CDeterministicMNState) : gmultiset uint256 :=
  prop_hash (UAddr (addr st)) ⊎ prop_hash (UKeyID (keyIDOwner st)) ⊎ prop_hash (UOperatorKey (pubKeyOperator st)).

Definition props (d : CDeterministicMN) : gmultiset uint256 :=
  prop_hash (UCollateral (collateralOutpoint d)) ⊎ state_props (pdmnState d).

Definition held_by (mns : gmap uint256 CDeterministicMN) (p : uint256) : gmultiset uint256 :=
  match mns !! p with Some d => props d | None => ∅ end.

Record list_wf (l : CDeterministicMNList) : Prop := {
  lw_hash : forall p d, mnMap l !! p = Some d -> proTxHash d = p;
  lw_ids : forall id p, mnInternalIdMap l !! id = Some p <-> exists d, mnMap l !! p = Some d /\ internalId d = id;
  lw_props : records (mnUniquePropertyMap l) (held_by (mnMap l));
  lw_set : forall p d, mnMap l !! p = Some d ->
    is_null (UCollateral (collateralOutpoint d)) = false /\ is_null (UKeyID (keyIDOwner (pdmnState d))) = false;
}.

Lemma prop_hash_size v : (size (prop_hash v) <= 1)%nat.
Proof. unfold prop_hash. case_match; rewrite ?gmultiset_size_empty, ?gmultiset_size_singleton; lia. Qed.

Lemma props_size d : (size (props d) <= 4)%nat.
Proof.
  unfold props, state_props. rewrite !gmultiset_size_disj_union.
  pose proof (prop_hash_size (UCollateral (collateralOutpoint d))).
  pose proof (prop_hash_size (UAddr (addr (pdmnState d)))).
  pose proof (prop_hash_size (UKeyID (keyIDOwner (pdmnState d)))).
  pose proof (prop_hash_size (UOperatorKey (pubKeyOperator (pdmnState d)))). lia.
Qed.

Lemma held_by_size mns p : (size (held_by mns p) <= 4)%nat.
Proof. unfold held_by. case_match; [apply props_size|]. rewrite gmultiset_size_empty. lia. Qed.

(** ** Steps on the property map *)

Definition small (x : gmultiset uint256) : Prop := Z.of_nat (size x) < 2^32 - 1.

Lemma upd_upd held p x y q : upd (upd held p x) p y q = upd held p y q.
Proof. unfold upd. by case_decide. Qed.

Lemma upd_id held p q : upd held p (held p) q = held q.
Proof. unfold upd. case_decide; by subst. Qed.

Lemma add_step m held p v x m' : records m (upd held p x) -> small x ->
  unless_null AddUniqueProperty m p v = Some m' -> records m' (upd held p (prop_hash v ⊎ x)).
Proof.
  intros Hr Hs. unfold unless_null, prop_hash. destruct (is_null v) eqn:Hv.
  - intros [= <-]. eapply records_ext; [|exact Hr]. intros q. by rewrite (left_id_L ∅ (⊎) x).
  - intros Ha. pose proof (AddUniqueProperty_spec m (upd held p x) p v Hr) as Hspec. rewrite upd_eq in Hspec.
    eapply records_ext; [|by eapply Hspec]. intros q. apply upd_upd.
Qed.

Lemma add_nonnull m p v m' : AddUniqueProperty m p v = Some m' -> unless_null AddUniqueProperty m p v = Some m' /\ is_null v = false.
Proof. unfold unless_null, AddUniqueProperty. by destruct (is_null v). Qed.

Lemma delete_step m held p v x : records m (upd held p (prop_hash v ⊎ x)) -> small (prop_hash v ⊎ x) ->
  exists m', unless_null DeleteUniqueProperty m p v = Some m' /\ records m' (upd held p x).
Proof.
  intros Hr Hs. unfold unless_null, prop_hash in *. destruct (is_null v) eqn:Hv.
  - exists m. split; [done|]. eapply records_ext; [|exact Hr]. intros q. by rewrite (left_id_L ∅ (⊎) x).
  - destruct (DeleteUniqueProperty_spec m _ p v Hr) as (m' & Hd & Hr'); [by rewrite upd_eq|done|rewrite upd_eq; multiset_solver|].
    exists m'. split; [done|]. eapply records_ext; [|exact Hr']. intros q. rewrite upd_upd, upd_eq.
    f_equal. multiset_solver.
Qed.

Lemma delete_nonnull m p v : is_null v = false -> unless_null DeleteUniqueProperty m p v = DeleteUniqueProperty m p v.
Proof. unfold unless_null. by intros ->. Qed.

(** A set operator key and an unset one do not hash alike. *)
Definition key_hash_ok : Prop :=
  forall k, SerializeHash (UOperatorKey (Some k)) <> SerializeHash (UOperatorKey None).

Lemma same_property_hash old new : key_hash_ok -> same_property old new = true -> prop_hash old = prop_hash new.
Proof.
  intros Hk Hsame. unfold prop_hash. destruct old as [| | |ko], new as [| | |kn]; cbn [same_property] in Hsame;
    apply bool_decide_eq_true in Hsame; try (by simplify_eq).
  destruct ko, kn; cbn [is_null]; rewrite ?bool_decide_true, ?bool_decide_false by done; rewrite ?Hsame; try done.
  - by destruct (Hk l).
  - by destruct (Hk l).
Qed.

Lemma update_step m held p old new x m' : key_hash_ok -> records m (upd held p (prop_hash old ⊎ x)) -> small (prop_hash old ⊎ x) ->
  UpdateUniqueProperty m p old new = Some m' -> records m' (upd held p (prop_hash new ⊎ x)).
Proof.
  intros Hk Hr Hs. unfold UpdateUniqueProperty. destruct (same_property old new) eqn:Hsame.
  - intros [= <-]. by rewrite <- (same_property_hash _ _ Hk Hsame).
  - destruct (delete_step m held p old x Hr Hs) as (m1 & Hd & Hr1).
    replace (if negb (is_null old) then DeleteUniqueProperty m p old else Some m) with (Some m1)
      by (rewrite <- Hd; unfold unless_null; by destruct (is_null old)).
    cbn [mbind option_bind]. intros Ha. apply (add_step m1 held p new x); [done| |].
    + unfold small in *. rewrite gmultiset_size_disj_union in Hs. lia.
    + rewrite <- Ha. unfold unless_null. by destruct (is_null new).
Qed.

Lemma small_le x n : (size x <= n)%nat -> (n <= 100)%nat -> small x.
Proof. unfold small. lia. Qed.

Lemma prop_hashes_small vs : (length vs <= 10)%nat -> small (foldr (fun v x => prop_hash v ⊎ x) ∅ vs).
Proof.
  intros Hl. apply (small_le _ (length vs)); [|lia]. clear Hl. induction vs as [|v vs IH]; cbn [foldr length].
  - by rewrite gmultiset_size_empty.
  - rewrite gmultiset_size_disj_union. pose proof (prop_hash_size v). lia.
Qed.

(** ** The operations keep the invariant *)

Lemma AddMN_wf l d b l' : list_wf l -> AddMN l d b = Ret l' ->
  list_wf l' /\ mnMap l' = <[proTxHash d := d]> (mnMap l) /\ mnMap l !! proTxHash d = None.
Proof.
  intros [Hh Hi Hp Hset] Ha. unfold AddMN in Ha. set (p := proTxHash d) in *.
  destruct (bool_decide _) eqn:Hfresh; [done|]. apply bool_decide_eq_false in Hfresh. apply eq_None_not_Some in Hfresh.
  destruct (_ =? 2^64 - 1); [done|].
  destruct (bool_decide _) eqn:Hid; [done|]. apply bool_decide_eq_false in Hid. apply eq_None_not_Some in Hid.
  destruct (AddUniqueProperty _ p (UCollateral _)) as [m1|] eqn:H1; [|done]. cbn [deref mbind outcome_bind] in Ha.
  destruct (unless_null _ m1 p (UAddr _)) as [m2|] eqn:H2; [|done]. cbn [deref mbind outcome_bind] in Ha.
  destruct (AddUniqueProperty m2 p (UKeyID _)) as [m3|] eqn:H3; [|done]. cbn [deref mbind outcome_bind] in Ha.
  destruct (unless_null _ m3 p (UOperatorKey _)) as [m4|] eqn:H4; [|done]. cbn [deref mbind outcome_bind] in Ha.
  apply add_nonnull in H1 as [H1 Hn1]. apply add_nonnull in H3 as [H3 Hn3].
  assert (Hmaps : mnMap l' = <[p := d]> (mnMap l) /\ mnInternalIdMap l' = <[internalId d := p]> (mnInternalIdMap l) /\
    mnUniquePropertyMap l' = m4) by (destruct b; injection Ha as <-; done).
  destruct Hmaps as (Em & Ei & Eu). split; [|done].
  assert (Hr4 : records m4 (upd (held_by (mnMap l)) p
    (prop_hash (UOperatorKey (pubKeyOperator (pdmnState d))) ⊎ (prop_hash (UKeyID (keyIDOwner (pdmnState d))) ⊎
     (prop_hash (UAddr (addr (pdmnState d))) ⊎ (prop_hash (UCollateral (collateralOutpoint d)) ⊎ ∅)))))).
  { pose proof (prop_hashes_small []). pose proof (prop_hashes_small [UCollateral (collateralOutpoint d)]).
    pose proof (prop_hashes_small [UAddr (addr (pdmnState d)); UCollateral (collateralOutpoint d)]).
    pose proof (prop_hashes_small [UKeyID (keyIDOwner (pdmnState d)); UAddr (addr (pdmnState d)); UCollateral (collateralOutpoint d)]).
    cbn [length foldr] in *.
    eapply add_step; [|auto with lia|exact H4]. eapply add_step; [|auto with lia|exact H3].
    eapply add_step; [|auto with lia|exact H2]. eapply add_step; [|auto with lia|exact H1].
    eapply records_ext; [|exact Hp]. intros q. unfold upd. case_decide; [subst|done]. unfold held_by. by rewrite Hfresh. }
  split; rewrite ?Em, ?Ei, ?Eu.
  - intros q e He. apply lookup_insert_Some in He as [[<- <-]|[_ He]]; [done|by apply Hh].
  - intros id q. rewrite lookup_insert_Some. split.
    + intros [[<- <-]|[Hne Hq]]; [exists d; by rewrite lookup_insert_eq|].
      apply Hi in Hq as (e & He & <-). exists e. rewrite lookup_insert_ne by congruence. done.
    + intros (e & He & <-). apply lookup_insert_Some in He as [[<- <-]|[Hne He]]; [by left|right].
      assert (mnInternalIdMap l !! internalId e = Some q) as Hq by (apply Hi; eauto). split; [congruence|done].
  - eapply records_ext; [|exact Hr4]. intros q. unfold upd, held_by. case_decide as Hq.
    + subst q. rewrite lookup_insert_eq. unfold props, state_props. multiset_solver.
    + by rewrite lookup_insert_ne by done.
  - intros q e He. apply lookup_insert_Some in He as [[<- <-]|[_ He]]; [done|by apply (Hset q)].
Qed.

(** Replacing the state of an entry of the list *)
Lemma UpdateMN_entry_wf l d st l' : key_hash_ok -> list_wf l -> mnMap l !! proTxHash d = Some d ->
  is_null (UKeyID (keyIDOwner st)) = false -> UpdateMN_entry l d st = Ret l' ->
  list_wf l' /\ mnMap l' = <[proTxHash d := with_state d st]> (mnMap l) /\ mnInternalIdMap l' = mnInternalIdMap l /\
  ml_nHeight l' = ml_nHeight l.
Proof.
  intros Hk [Hh Hi Hp Hset] Hd Hnull Hu. unfold UpdateMN_entry in Hu. set (p := proTxHash d) in *.
  set (col := prop_hash (UCollateral (collateralOutpoint d))).
  set (oa := prop_hash (UAddr (addr (pdmnState d)))). set (oo := prop_hash (UKeyID (keyIDOwner (pdmnState d)))).
  set (ok := prop_hash (UOperatorKey (pubKeyOperator (pdmnState d)))).
  set (na := prop_hash (UAddr (addr st))). set (no := prop_hash (UKeyID (keyIDOwner st))).
  set (nk := prop_hash (UOperatorKey (pubKeyOperator st))).
  assert (Hsm : forall a b c, small (prop_hash a ⊎ (prop_hash b ⊎ (prop_hash c ⊎ (col ⊎ ∅))))).
  { intros a b c. apply (prop_hashes_small [a; b; c; UCollateral (collateralOutpoint d)]). cbn. lia. }
  destruct (UpdateUniqueProperty _ p (UAddr _) _) as [m1|] eqn:H1; [|done]. cbn [deref mbind outcome_bind] in Hu.
  destruct (UpdateUniqueProperty m1 p (UKeyID _) _) as [m2|] eqn:H2; [|done]. cbn [deref mbind outcome_bind] in Hu.
  destruct (UpdateUniqueProperty m2 p (UOperatorKey _) _) as [m3|] eqn:H3; [|done]. cbn [deref mbind outcome_bind] in Hu.
  injection Hu as <-. cbn [with_maps mnMap mnInternalIdMap ml_nHeight]. split; [|done].
  assert (Hr3 : records m3 (upd (held_by (mnMap l)) p (nk ⊎ (na ⊎ (no ⊎ (col ⊎ ∅)))))).
  { apply (update_step m2 _ p (UOperatorKey (pubKeyOperator (pdmnState d))) _ _ _ Hk); [|apply Hsm|exact H3]. fold ok.
    replace (ok ⊎ (na ⊎ (no ⊎ (col ⊎ ∅)))) with (no ⊎ (na ⊎ (ok ⊎ (col ⊎ ∅)))) by multiset_solver.
    apply (update_step m1 _ p (UKeyID (keyIDOwner (pdmnState d))) _ _ _ Hk); [|apply Hsm|exact H2]. fold oo.
    replace (oo ⊎ (na ⊎ (ok ⊎ (col ⊎ ∅)))) with (na ⊎ (oo ⊎ (ok ⊎ (col ⊎ ∅)))) by multiset_solver.
    apply (update_step (mnUniquePropertyMap l) _ p (UAddr (addr (pdmnState d))) _ _ _ Hk); [|apply Hsm|exact H1]. fold oa.
    eapply records_ext; [|exact Hp]. intros q. unfold upd. case_decide; [subst q|done]. unfold held_by. rewrite Hd.
    unfold props, state_props. fold col oa oo ok. multiset_solver. }
  split; cbn [with_maps mnMap mnInternalIdMap mnUniquePropertyMap].
  - intros q e He. apply lookup_insert_Some in He as [[<- <-]|[_ He]]; [done|by apply Hh].
  - intros id q. rewrite (Hi id q). split; intros (e & He & <-).
    + destruct (decide (q = p)) as [->|Hne]; [|exists e; by rewrite lookup_insert_ne].
      exists (with_state d st). rewrite lookup_insert_eq. split; [done|]. cbn. congruence.
    + apply lookup_insert_Some in He as [[<- <-]|[_ He]]; [by exists d|by exists e].
  - eapply records_ext; [|exact Hr3]. intros q. unfold upd, held_by. case_decide as Hq.
    + subst q. rewrite lookup_insert_eq. unfold props, state_props. cbn [with_state collateralOutpoint pdmnState].
      fold col na no nk. multiset_solver.
    + by rewrite lookup_insert_ne by done.
  - intros q e He. apply lookup_insert_Some in He as [[<- <-]|[_ He]]; [|by apply (Hset q)].
    cbn [with_state collateralOutpoint pdmnState]. split; [by apply (Hset p d)|done].
Qed.

(** An update that leaves the unique properties alone always succeeds. *)
Lemma UpdateMN_entry_same l d st : addr st = addr (pdmnState d) -> keyIDOwner st = keyIDOwner (pdmnState d) ->
  pubKeyOperator st = pubKeyOperator (pdmnState d) ->
  UpdateMN_entry l d st =
    Ret (with_maps l (<[proTxHash d := with_state d st]> (mnMap l)) (mnInternalIdMap l) (mnUniquePropertyMap l)).
Proof.
  intros Ha Ho Hk. unfold UpdateMN_entry. rewrite Ha, Ho, Hk.
  assert (forall v, same_property v v = true) as Hs by (intros []; cbn; by apply bool_decide_eq_true).
  unfold UpdateUniqueProperty. rewrite !Hs. done.
Qed.

Lemma RemoveMN_wf l h d : list_wf l -> mnMap l !! h = Some d ->
  exists l', RemoveMN l h = Ret l' /\ list_wf l' /\ mnMap l' = delete h (mnMap l).
Proof.
  intros [Hh Hi Hp Hset] Hd. pose proof (Hh h d Hd) as Hph. destruct (Hset h d Hd) as [Hn1 Hn3].
  set (col := UCollateral (collateralOutpoint d)) in *. set (a := UAddr (addr (pdmnState d))).
  set (o := UKeyID (keyIDOwner (pdmnState d))) in *. set (k := UOperatorKey (pubKeyOperator (pdmnState d))).
  assert (Hr0 : records (mnUniquePropertyMap l) (upd (held_by (mnMap l)) h
    (prop_hash col ⊎ (prop_hash a ⊎ (prop_hash o ⊎ (prop_hash k ⊎ ∅)))))).
  { eapply records_ext; [|exact Hp]. intros q. unfold upd. case_decide; [subst q|done]. unfold held_by. rewrite Hd.
    unfold props, state_props. fold col a o k. multiset_solver. }
  destruct (delete_step _ _ _ _ _ Hr0 (prop_hashes_small [col; a; o; k] ltac:(cbn; lia))) as (m1 & H1 & Hr1).
  destruct (delete_step _ _ _ _ _ Hr1 (prop_hashes_small [a; o; k] ltac:(cbn; lia))) as (m2 & H2 & Hr2).
  destruct (delete_step _ _ _ _ _ Hr2 (prop_hashes_small [o; k] ltac:(cbn; lia))) as (m3 & H3 & Hr3).
  destruct (delete_step _ _ _ _ _ Hr3 (prop_hashes_small [k] ltac:(cbn; lia))) as (m4 & H4 & Hr4).
  rewrite delete_nonnull in H1, H3 by done.
  exists (with_maps l (delete h (mnMap l)) (delete (internalId d) (mnInternalIdMap l)) m4). split_and!.
  - unfold RemoveMN, GetMN. rewrite Hd. cbn [deref mbind outcome_bind]. rewrite Hph. fold col a o k.
    rewrite H1. cbn [deref mbind outcome_bind]. rewrite H2. cbn [deref mbind outcome_bind].
    rewrite H3. cbn [deref mbind outcome_bind]. rewrite H4. done.
  - split; cbn [with_maps mnMap mnInternalIdMap mnUniquePropertyMap].
    + intros q e He. apply lookup_delete_Some in He as [_ He]. by apply Hh.
    + intros id q. rewrite lookup_delete_Some, (Hi id q). split.
      * intros [Hne (e & He & <-)]. exists e. split; [|done]. apply lookup_delete_Some. split; [congruence|done].
      * intros (e & He & <-). apply lookup_delete_Some in He as [Hne He]. split; [|by exists e].
        intros Heq. apply Hne. assert (mnInternalIdMap l !! internalId e = Some q) by (apply Hi; eauto).
        assert (mnInternalIdMap l !! internalId d = Some h) by (apply Hi; eauto). congruence.
    + eapply records_ext; [|exact Hr4]. intros q. unfold upd, held_by. case_decide as Hq.
      * subst q. by rewrite lookup_delete_eq.
      * by rewrite lookup_delete_ne by done.
    + intros q e He. apply lookup_delete_Some in He as [_ He]. by apply (Hset q).
  - done.
Qed.

(** ** Reachable lists *)

Definition empty_list (hash : uint256) (height : Z) : CDeterministicMNList := mkList hash height 0 ∅ ∅ ∅.

(** The lists the operations build; an update keeps an owner key. *)
Inductive list_reachable : CDeterministicMNList -> Prop :=
| lr_empty hash height : list_reachable (empty_list hash height)
| lr_add l d b l' : list_reachable l -> AddMN l d b = Ret l' -> list_reachable l'
| lr_update l h st l' : list_reachable l -> is_null (UKeyID (keyIDOwner st)) = false -> UpdateMN l h st = Ret l' ->
    list_reachable l'
| lr_remove l h l' : list_reachable l -> RemoveMN l h = Ret l' -> list_reachable l'.

Lemma empty_list_wf hash height : list_wf (empty_list hash height).
Proof.
  split; cbn [empty_list mnMap mnInternalIdMap mnUniquePropertyMap].
  - intros p d. by rewrite lookup_empty.
  - intros id p. rewrite lookup_empty. split; [done|]. intros (d & Hd & _). by rewrite lookup_empty in Hd.
  - intros h p n. rewrite lookup_empty. split; [done|]. unfold held_by. rewrite lookup_empty. intros [? _]. multiset_solver.
  - intros p d. by rewrite lookup_empty.
Qed.

Lemma mnlist_reachable_wf l : key_hash_ok -> list_reachable l -> list_wf l.
Proof.
  intros Hk. induction 1 as [hash height|l d b l' _ IH Ha|l h st l' _ IH Hn Hu|l h l' _ IH Hr].
  - apply empty_list_wf.
  - by destruct (AddMN_wf l d b l' IH Ha).
  - unfold UpdateMN in Hu. destruct (mnMap l !! h) as [d|] eqn:Hd; [|done]. cbn [deref mbind outcome_bind] in Hu.
    pose proof (lw_hash l IH h d Hd). eapply UpdateMN_entry_wf; [done|done| |done|exact Hu]. congruence.
  - assert (exists d, mnMap l !! h = Some d) as [d Hd].
    { unfold RemoveMN, GetMN in Hr. destruct (mnMap l !! h) as [d|]; [by exists d|done]. }
    destruct (RemoveMN_wf l h d IH Hd) as (l'' & Hr' & ? & _). congruence.
Qed.

(** [GetUniquePropertyMN] *)
Definition GetUniquePropertyMN (l : CDeterministicMNList) (v : UniqueProperty) : option CDeterministicMN :=
  match mnUniquePropertyMap l !! SerializeHash v with
  | None => None
  | Some (p, _) => GetMN l p
  end.

(** The unique properties of a masternode *)
Definition properties (d : CDeterministicMN) : list UniqueProperty :=
  [UCollateral (collateralOutpoint d); UAddr (addr (pdmnState d)); UKeyID (keyIDOwner (pdmnState d));
   UOperatorKey (pubKeyOperator (pdmnState d))].

Lemma in_props d v : v ∈ properties d -> is_null v = false -> SerializeHash v ∈ props d.
Proof.
  unfold properties, props, state_props. intros Hv Hn.
  assert (SerializeHash v ∈ prop_hash v) by (unfold prop_hash; rewrite Hn; multiset_solver).
  repeat (apply elem_of_cons in Hv as [<-|Hv]; [multiset_solver|]). by apply not_elem_of_nil in Hv.
Qed.

(** The masternode [d] can be added: its hash and id are new, it has a
    collateral and an owner key, and no masternode of the list holds any of its
    properties. *)
Definition addable (l : CDeterministicMNList) (d : CDeterministicMN) : Prop :=
  mnMap l !! proTxHash d = None /\ mnInternalIdMap l !! internalId d = None /\ internalId d <> 2^64 - 1 /\
  is_null (UCollateral (collateralOutpoint d)) = false /\ is_null (UKeyID (keyIDOwner (pdmnState d))) = false /\
  (forall v q, v ∈ properties d -> is_null v = false -> SerializeHash v ∉ held_by (mnMap l) q).

(** One more property of a masternode that is being added *)
Lemma add_more l d m x v : mnMap l !! proTxHash d = None ->
  (forall q, is_null v = false -> SerializeHash v ∉ held_by (mnMap l) q) -> small x ->
  records m (upd (held_by (mnMap l)) (proTxHash d) x) ->
  exists m', unless_null AddUniqueProperty m (proTxHash d) v = Some m' /\
    records m' (upd (held_by (mnMap l)) (proTxHash d) (prop_hash v ⊎ x)).
Proof.
  intros Hf Hno Hs Hr.
  assert (is_Some (unless_null AddUniqueProperty m (proTxHash d) v)) as [m' Hm'].
  { unfold unless_null. destruct (is_null v) eqn:Hv; [done|].
    pose proof (AddUniqueProperty_spec m _ (proTxHash d) v Hr) as Hspec. rewrite upd_eq in Hspec.
    apply (proj1 (Hspec Hs)). split; [done|]. intros q. unfold upd. case_decide as Hq; [done|].
    intros Hin. by destruct (Hno q eq_refl). }
  exists m'. split; [done|]. by eapply add_step.
Qed.

Lemma AddMN_total l d b : list_wf l -> addable l d -> exists l', AddMN l d b = Ret l'.
Proof.
  intros [_ _ Hp _] (Hf & Hid & Hmax & Hn1 & Hn3 & Hno). unfold AddMN.
  rewrite bool_decide_false by (rewrite Hf; by intros []). apply Z.eqb_neq in Hmax as ->.
  rewrite bool_decide_false by (rewrite Hid; by intros []).
  assert (Hr0 : records (mnUniquePropertyMap l) (upd (held_by (mnMap l)) (proTxHash d) ∅)).
  { eapply records_ext; [|exact Hp]. intros q. unfold upd. case_decide; [subst q|done]. unfold held_by. by rewrite Hf. }
  assert (Hv : forall v, v ∈ properties d -> forall q, is_null v = false -> SerializeHash v ∉ held_by (mnMap l) q) by eauto.
  unfold properties in Hv.
  destruct (add_more l d _ ∅ (UCollateral (collateralOutpoint d)) Hf ltac:(intros q; apply Hv; set_solver)
    (prop_hashes_small [] ltac:(cbn; lia)) Hr0) as (m1 & H1 & Hr1).
  destruct (add_more l d m1 _ (UAddr (addr (pdmnState d))) Hf ltac:(intros q; apply Hv; set_solver)
    (prop_hashes_small [UCollateral (collateralOutpoint d)] ltac:(cbn; lia)) Hr1) as (m2 & H2 & Hr2).
  destruct (add_more l d m2 _ (UKeyID (keyIDOwner (pdmnState d))) Hf ltac:(intros q; apply Hv; set_solver)
    (prop_hashes_small [UAddr (addr (pdmnState d)); UCollateral (collateralOutpoint d)] ltac:(cbn; lia)) Hr2)
    as (m3 & H3 & Hr3).
  destruct (add_more l d m3 _ (UOperatorKey (pubKeyOperator (pdmnState d))) Hf ltac:(intros q; apply Hv; set_solver)
    (prop_hashes_small [UKeyID (keyIDOwner (pdmnState d)); UAddr (addr (pdmnState d)); UCollateral (collateralOutpoint d)]
       ltac:(cbn; lia)) Hr3) as (m4 & H4 & _).
  unfold unless_null in H1, H3. rewrite Hn1 in H1. rewrite Hn3 in H3.
  rewrite H1. cbn [deref mbind outcome_bind]. rewrite H2. cbn [deref mbind outcome_bind].
  rewrite H3. cbn [deref mbind outcome_bind]. rewrite H4. cbn [deref mbind outcome_bind]. by eexists.
Qed.

(** ** Penalties *)

Lemma ForEachMN_spec l onlyValid d : list_wf l ->
  d ∈ ForEachMN l onlyValid <-> mnMap l !! proTxHash d = Some d /\ (onlyValid = true -> IsMNValid d = true).
Proof.
  intros Hwf. unfold ForEachMN. rewrite list_elem_of_In, filter_In, <- list_elem_of_In.
  change (map snd ?x) with (snd <$> x). rewrite list_elem_of_fmap. split.
  - intros [((p & e) & -> & He) Hv]. apply elem_of_map_to_list in He. cbn [snd] in *.
    rewrite (lw_hash l Hwf p e He). split; [done|]. intros ->. done.
  - intros [Hd Hv]. split; [exists (proTxHash d, d); split; [done|by apply elem_of_map_to_list]|].
    destruct onlyValid; [|done]. cbn. auto.
Qed.

Lemma ForEachMN_NoDup l onlyValid : list_wf l -> NoDup (map proTxHash (ForEachMN l onlyValid)).
Proof.
  intros Hwf. unfold ForEachMN. assert (NoDup (map proTxHash (map snd (map_to_list (mnMap l))))) as Hnd.
  { replace (map proTxHash (map snd (map_to_list (mnMap l)))) with (map fst (map_to_list (mnMap l))).
    - apply NoDup_fst_map_to_list.
    - rewrite map_map. apply map_ext_in. intros [p e] Hin. apply list_elem_of_In, elem_of_map_to_list in Hin.
      cbn. symmetry. by apply (lw_hash l Hwf). }
  by apply NoDup_map_filter.
Qed.

(** The entry after [DecreaseScores] *)
Definition decreased (d : CDeterministicMN) : CDeterministicMN :=
  let st := pdmnState d in
  if (IsMNValid d && (nPoSePenalty st >? 0))%bool
  then with_state d (set_pose st (nPoSeBanHeight st) (nPoSePenalty st - 1) (nPoSeRevivedHeight st)) else d.

Lemma decrease_loop_spec : forall todo l,
  NoDup (map proTxHash todo) -> (forall d, d ∈ todo -> IsMNValid d = true /\ nPoSePenalty (pdmnState d) > 0) ->
  exists l', decrease_loop l todo = Ret l' /\ mnInternalIdMap l' = mnInternalIdMap l /\
    mnUniquePropertyMap l' = mnUniquePropertyMap l /\ ml_nHeight l' = ml_nHeight l /\
    (forall d, d ∈ todo -> mnMap l' !! proTxHash d = Some (decreased d)) /\
    (forall p, p ∉ map proTxHash todo -> mnMap l' !! p = mnMap l !! p).
Proof.
  induction todo as [|d todo IH]; intros l Hnd Hpre; cbn [decrease_loop].
  { exists l. split_and!; try done. by intros d ?%not_elem_of_nil. }
  apply NoDup_cons in Hnd as [Hn Hnd]. destruct (Hpre d ltac:(by left)) as [Hv Hpos].
  assert (PoSeDecrease l d = Ret (with_maps l (<[proTxHash d := decreased d]> (mnMap l)) (mnInternalIdMap l) (mnUniquePropertyMap l))) as ->.
  { unfold PoSeDecrease, decreased. unfold IsMNValid in *. rewrite Hv. rewrite (proj2 (Z.gtb_lt _ 0)) by lia. cbn [andb negb].
    by rewrite UpdateMN_entry_same. }
  cbn [mbind outcome_bind].
  destruct (IH (with_maps l (<[proTxHash d := decreased d]> (mnMap l)) (mnInternalIdMap l) (mnUniquePropertyMap l)) Hnd)
    as (l' & Hl & Hi & Hu & Hhe & Hin & Hout); [intros e He; apply Hpre; by right|].
  exists l'. split_and!; try done.
  - intros e [->|He]%elem_of_cons; [|by apply Hin]. rewrite Hout by done. cbn [with_maps mnMap]. by rewrite lookup_insert_eq.
  - intros q Hq. cbn [map] in Hq. apply not_elem_of_cons in Hq as [Hne Hq]. rewrite Hout by done.
    cbn [with_maps mnMap]. by rewrite lookup_insert_ne by done.
Qed.

Lemma DecreaseScores_spec l : list_wf l ->
  exists l', DecreaseScores l = Ret l' /\ forall p, mnMap l' !! p = decreased <$> (mnMap l !! p).
Proof.
  intros Hwf. unfold DecreaseScores. set (pos := fun d : CDeterministicMN => nPoSePenalty (pdmnState d) >? 0). set (todo := List.filter pos (ForEachMN l true)).
  assert (Htodo : forall d, d ∈ todo <-> d ∈ ForEachMN l true /\ nPoSePenalty (pdmnState d) > 0).
  { intros d. unfold todo. rewrite list_elem_of_In, filter_In, <- list_elem_of_In. unfold pos. rewrite Z.gtb_lt. by rewrite Z.gt_lt_iff. }
  destruct (decrease_loop_spec todo l) as (l' & Hl & _ & _ & _ & Hin & Hout).
  - by apply NoDup_map_filter, ForEachMN_NoDup.
  - intros d [Hd Hp]%Htodo. apply ForEachMN_spec in Hd as [_ Hv]; [|done]. auto.
  - exists l'. split; [done|]. intros p. destruct (mnMap l !! p) as [d|] eqn:Hd; cbn [fmap option_fmap option_map].
    + pose proof (lw_hash l Hwf p d Hd) as Hph. destruct (IsMNValid d && (nPoSePenalty (pdmnState d) >? 0))%bool eqn:Hc.
      * rewrite <- Hph. apply Hin, Htodo. bool_hyps. split; [|lia]. apply ForEachMN_spec; [done|]. split; [congruence|done].
      * rewrite Hout, Hd; [unfold decreased; by rewrite Hc|].
        intros (e & He & Hie)%list_elem_of_fmap. apply Htodo in Hie as [Hfe Hpe].
        apply ForEachMN_spec in Hfe as [Hfe Hve]; [|done]. assert (e = d) as -> by congruence.
        rewrite (Hve eq_refl), (proj2 (Z.gtb_lt _ 0)) in Hc by lia. done.
    + rewrite Hout, Hd; [done|]. intros (e & He & Hie)%list_elem_of_fmap. apply Htodo in Hie as [Hfe _].
      apply ForEachMN_spec in Hfe as [Hfe _]; [|done]. congruence.
Qed.

End mnlist.

(** ** Properties *)

(** C14: in every masternode list that additions, updates and removals build,
    internal ids and unique properties lead to exactly the masternode that has
    them, no two masternodes share the hash of a collateral, address, owner or
    operator key, removing a masternode of the list never throws, and adding
    one never throws when its hash, id and properties are new.  The updates are
    to states that have an owner key, and operator keys that are set are assumed
    not to hash like an unset one. *)
Theorem reachable_list_correct (SerializeHash : UniqueProperty -> uint256) (l : CDeterministicMNList) :
  key_hash_ok SerializeHash -> list_reachable SerializeHash l ->
  (forall id d, GetMNByInternalId l id = Some d <-> mnMap l !! proTxHash d = Some d /\ internalId d = id) /\
  (forall p d v, mnMap l !! p = Some d -> v ∈ properties d -> is_null v = false ->
     GetUniquePropertyMN SerializeHash l v = Some d) /\
  (forall p q d e h, mnMap l !! p = Some d -> mnMap l !! q = Some e ->
     h ∈ props SerializeHash d -> h ∈ props SerializeHash e -> p = q) /\
  (forall p d, mnMap l !! p = Some d -> exists l', RemoveMN SerializeHash l p = Ret l' /\ mnMap l' = delete p (mnMap l)) /\
  (forall d b, addable SerializeHash l d ->
     exists l', AddMN SerializeHash l d b = Ret l' /\ mnMap l' = <[proTxHash d := d]> (mnMap l)).
Proof.
  intros Hk Hreach. pose proof (mnlist_reachable_wf SerializeHash l Hk Hreach) as Hwf. pose proof Hwf as [Hh Hi Hp Hset].
  split_and!.
  - intros id d. unfold GetMNByInternalId, GetMN. split.
    + intros (p & Hid & Hd)%bind_Some. apply Hi in Hid as (e & He & <-). rewrite Hd in He. injection He as <-.
      by rewrite (Hh p d Hd).
    + intros [Hd <-]. apply bind_Some. exists (proTxHash d). split; [apply Hi; eauto|done].
  - intros p d v Hd Hv Hn. unfold GetUniquePropertyMN.
    assert (SerializeHash v ∈ held_by SerializeHash (mnMap l) p) as Hin by (unfold held_by; rewrite Hd; by apply in_props).
    assert (mnUniquePropertyMap l !! SerializeHash v =
      Some (p, Z.of_nat (multiplicity (SerializeHash v) (held_by SerializeHash (mnMap l) p)))) as -> by (by apply Hp).
    exact Hd.
  - intros p q d e h Hd He Hpd Hqe. eapply records_unique; [exact Hp| |]; unfold held_by; [by rewrite Hd|by rewrite He].
  - intros p d Hd. destruct (RemoveMN_wf SerializeHash l p d Hwf Hd) as (l' & ? & _ & ?). eauto.
  - intros d b Ha. destruct (AddMN_total SerializeHash l d b Hwf Ha) as [l' Hl].
    destruct (AddMN_wf SerializeHash l d b l' Hwf Hl) as (_ & ? & _). eauto.
Qed.

Definition demo_state (owner : list Z) (key : option (list Z)) (ad : option (list Z)) : CDeterministicMNState :=
  mkState (-1) 2 10 0 0 0 (-1) 0 (repeat 7 32) (repeat 8 32) owner key [5] ad [] [] [] 0 0 [] 0 0 false (-1).
Definition demo_mn (id : Z) : CDeterministicMN :=
  mkMN id (repeat id 32) (mkOutPoint (repeat id 32) 0) 0 0 (demo_state [id; 1] (Some [id; 2]) (Some [id; 3])).

(** An injective stand-in for the hash of a property *)
Definition demo_prop_hash (v : UniqueProperty) : uint256 :=
  match v with
  | UCollateral o => 1 :: op_n o :: op_hash o
  | UAddr a => 2 :: from_option (cons 1) [0] a
  | UKeyID k => 3 :: k
  | UOperatorKey k => 4 :: from_option (cons 1) [0] k
  end.

Definition demo_add (l : CDeterministicMNList) (id : Z) : CDeterministicMNList :=
  match AddMN demo_prop_hash l (demo_mn id) true with Ret l' => l' | Abort => l end.
Definition demo_list : CDeterministicMNList := demo_add (demo_add (empty_list uint256_zero 5) 1) 2.

Lemma demo_list_reachable : list_reachable demo_prop_hash demo_list.
Proof.
  apply (lr_add demo_prop_hash (demo_add (empty_list uint256_zero 5) 1) (demo_mn 2) true); [|vm_compute; reflexivity].
  apply (lr_add demo_prop_hash (empty_list uint256_zero 5) (demo_mn 1) true); [|vm_compute; reflexivity].
  apply lr_empty.
Qed.

Lemma reachable_list_correct_witness :
  GetUniquePropertyMN demo_prop_hash demo_list (UAddr (Some [1; 3])) = Some (demo_mn 1) /\
  exists l, RemoveMN demo_prop_hash demo_list (repeat 1 32) = Ret l /\ mnMap l = delete (repeat 1 32) (mnMap demo_list).
Proof.
  destruct (reachable_list_correct demo_prop_hash demo_list ltac:(intros k; discriminate) demo_list_reachable)
    as (_ & Hprop & _ & Hrem & _).
  assert (Hd : mnMap demo_list !! repeat 1 32 = Some (demo_mn 1)) by (vm_compute; reflexivity).
  split; [|exact (Hrem _ _ Hd)].
  apply (Hprop (repeat 1 32)); [exact Hd|right; left|reflexivity].
Defined.

(** In a reachable masternode list, [DecreaseScores] always returns: every
    masternode that is not banned and has a positive penalty loses one point of
    it and every other masternode is unchanged. *)
Theorem DecreaseScores_exact (SerializeHash : UniqueProperty -> uint256) (l : CDeterministicMNList) :
  key_hash_ok SerializeHash -> list_reachable SerializeHash l ->
  exists l', DecreaseScores SerializeHash l = Ret l' /\ forall p, mnMap l' !! p = decreased <$> (mnMap l !! p).
Proof. intros Hk Hr. apply DecreaseScores_spec. by eapply mnlist_reachable_wf. Qed.

Lemma DecreaseScores_exact_witness :
  exists l', DecreaseScores demo_prop_hash demo_list = Ret l' /\
    forall p, mnMap l' !! p = decreased <$> (mnMap demo_list !! p).
Proof. apply (DecreaseScores_exact demo_prop_hash); [intros k; discriminate|exact demo_list_reachable]. Defined.
