(* ===== verification/Service.v ===== *)
(** * Service: service commitments of the sentinel layer
      (src/src/evo/pose_service.{h,cpp}, src/src/evo/pose_service_sentinels.{h,cpp},
       CDeterministicMNList::ApplyServiceCommitment)

    Each epoch, every masternode is watched by sentinels the epoch selects; the
    reports of the sentinels are aggregated into a commitment, and the
    commitment moves the service counters, suspensions and bans of the list.
    Hash functions and signature verification are arguments. *)

From Stdlib Require Import ZArith Lia.
From stdpp Require Import base list numbers option gmap fin_maps sorting.
From S2P Require Import Prelude Arith256 Uint256 Serialize Transaction MnList.

(** The parameters of the layer, of [Consensus::Params] *)
Record DSLParams : Type := mkDSL {
  nDSLActivationHeight : Z;
  nDSLEnforcementHeight : Z;
  nDSLEpochInterval : Z;
  nDSLCommitmentV2Height : Z;
  nDSLSuspendEpochs : Z;
  nDSLBanEpochs : Z;
  nDSLMassOutagePct : Z;
  nDSLSentinelCount : Z;
  nDSLSentinelAgree : Z;
}.

(** The defaults; the layer is dormant until its heights are set. *)
Definition default_dsl : DSLParams := mkDSL INT_MAX INT_MAX 24 0 4 5 15 7 5.

(** [CPoSeServiceCommitment] *)
Record CPoSeServiceCommitment : Type := mkCommitment {
  sc_nVersion : Z;
  sc_nEpoch : Z;
  sc_epochBlockHash : uint256;
  sc_llmqType : Z;
  sc_quorumHash : uint256;
  missed : list bool;
  observed : list bool;
  quorumSig : list Z;
}.

Definition LEGACY_VERSION : Z := 1.
Definition OBSERVED_VERSION : Z := 2.

(** [CountMissed], [IsObserved], [CountUnobserved] *)
Definition CountMissed (c : CPoSeServiceCommitment) : Z := i32 (Z.of_nat (length (List.filter (fun b => b) (missed c)))).
Definition IsObserved (c : CPoSeServiceCommitment) (i : nat) : bool :=
  ((sc_nVersion c <? OBSERVED_VERSION) || default false (observed c !! i))%bool.
Definition CountUnobserved (c : CPoSeServiceCommitment) : Z :=
  if sc_nVersion c <? OBSERVED_VERSION then 0 else i32 (Z.of_nat (length (List.filter negb (observed c)))).

(** [RequiredServiceCommitmentVersion] *)
Definition RequiredServiceCommitmentVersion (params : DSLParams) (height : Z) : Z :=
  if height >=? nDSLCommitmentV2Height params then OBSERVED_VERSION else LEGACY_VERSION.

Inductive DslError : Type :=
| bad_dsl_bitfield_size
| bad_dsl_missed_unobserved.

(** [CheckServiceCommitmentBitfields] *)
Definition CheckServiceCommitmentBitfields (c : CPoSeServiceCommitment) : verdict DslError :=
  if sc_nVersion c <? OBSERVED_VERSION then Accept
  else if negb (length (observed c) =? length (missed c))%nat then Reject bad_dsl_bitfield_size
  else if existsb (fun '(m, o) => (m && negb o)%bool) (combine (missed c) (observed c))
  then Reject bad_dsl_missed_unobserved
  else Accept.

(** [ServiceStatus] *)
Definition STATUS_UNKNOWN : Z := 0.
Definition STATUS_ONLINE : Z := 1.
Definition STATUS_MISSED : Z := 2.

(** [CPoSeServiceReport] *)
Record CPoSeServiceReport : Type := mkServiceReport {
  rp_nEpoch : Z;
  rp_target : uint256;
  rp_sentinel : uint256;
  rp_status : Z;
  rp_sig : list Z;
}.

(** The canonical order of a list: its registration hashes, sorted *)
Definition canonical_order (l : CDeterministicMNList) : list uint256 :=
  sort_by blob_lt (map proTxHash (ForEachMN l false)).

Section service.

Context (Hash SHA256 : list Z -> uint256).
(** [CPoSeServiceReport::VerifySig] with an operator key and an epoch base *)
Context (VerifySig : CPoSeServiceReport -> option (list Z) -> uint256 -> bool).

(** [CDeterministicMNList::CalculateScores] *)
Definition CalculateScores (l : CDeterministicMNList) (modifier : uint256) : list (list Z * CDeterministicMN) :=
  map (fun d => (UintToArith256 (SHA256 (confirmedHashWithProRegTxHash (pdmnState d) ++ modifier)), d))
    (List.filter (fun d => negb (IsNull (confirmedHash (pdmnState d)))) (ForEachMN l true)).

(** The comparator of [CalcSentinelsForMN] *)
Definition by_score (a b : list Z * CDeterministicMN) : bool :=
  if negb (bool_decide (a.1 = b.1)) then bu_lt a.1 b.1 else blob_lt (proTxHash a.2) (proTxHash b.2).

(** The loop over the sorted head *)
Fixpoint sentinel_loop (target : uint256) (count : Z) (head : list uint256) (out : list uint256) : list uint256 :=
  match head with
  | [] => out
  | h :: head' =>
      if bool_decide (h = target) then sentinel_loop target count head' out
      else
        let out := out ++ [h] in
        if Z.of_nat (length out) =? count then out else sentinel_loop target count head' out
  end.

(** [CalcSentinelsForMN]; [partial_sort] puts the head of the sorted
    scores in front, and only the head is read. *)
Definition CalcSentinelsForMN (l : CDeterministicMNList) (target epochBlockHash : uint256) (count : Z) : list uint256 :=
  let modifier := Hash (target ++ epochBlockHash) in
  let scores := CalculateScores l modifier in
  let head := Z.to_nat (Z.min (u64 (count + 1)) (Z.of_nat (length scores))) in
  sentinel_loop target count (map (fun s => proTxHash s.2) (take head (sort_by by_score scores))) [].

(** [GetProbeTargetsForSentinel]; the order of the targets is that of the map. *)
Definition GetProbeTargetsForSentinel (l : CDeterministicMNList) (sentinel epochBlockHash : uint256) (count : Z) : list uint256 :=
  map proTxHash (List.filter (fun d =>
    (negb (bool_decide (proTxHash d = sentinel)) &&
     bool_decide (sentinel ∈ CalcSentinelsForMN l (proTxHash d) epochBlockHash count))%bool) (ForEachMN l false)).

(** The loop over the reports about one target: the numbers of MISSED and
    ONLINE votes *)
Fixpoint tally (l : CDeterministicMNList) (epochBlockHash : uint256) (assigned : list uint256)
    (reports : list CPoSeServiceReport) (counted : list uint256) (missedCount onlineCount : Z) : Z * Z :=
  match reports with
  | [] => (missedCount, onlineCount)
  | r :: rs =>
      if negb (bool_decide (rp_sentinel r ∈ assigned)) then tally l epochBlockHash assigned rs counted missedCount onlineCount
      else if bool_decide (rp_sentinel r ∈ counted) then tally l epochBlockHash assigned rs counted missedCount onlineCount
      else
        let counted := rp_sentinel r :: counted in
        match GetMN l (rp_sentinel r) with
        | None => tally l epochBlockHash assigned rs counted missedCount onlineCount
        | Some sdmn =>
            if negb (VerifySig r (pubKeyOperator (pdmnState sdmn)) epochBlockHash)
            then tally l epochBlockHash assigned rs counted missedCount onlineCount
            else if rp_status r =? STATUS_MISSED
            then tally l epochBlockHash assigned rs counted (missedCount + 1) onlineCount
            else if rp_status r =? STATUS_ONLINE
            then tally l epochBlockHash assigned rs counted missedCount (onlineCount + 1)
            else tally l epochBlockHash assigned rs counted missedCount onlineCount
        end
  end.

(** The two verdicts on one target *)
Definition target_verdict (l : CDeterministicMNList) (params : DSLParams) (nEpoch : Z) (epochBlockHash : uint256)
    (reports : list CPoSeServiceReport) (target : uint256) : bool * bool :=
  let assigned := CalcSentinelsForMN l target epochBlockHash (u64 (nDSLSentinelCount params)) in
  let byTarget := List.filter (fun r => ((rp_nEpoch r =? nEpoch) && bool_decide (rp_target r = target))%bool) reports in
  let '(m, o) := tally l epochBlockHash assigned byTarget [] 0 0 in
  let verdictMissed := i32 m >=? nDSLSentinelAgree params in
  (verdictMissed, (negb verdictMissed && (i32 o >=? nDSLSentinelAgree params))%bool).

(** The height of the block that closes the epoch, capped to an [int] *)
Definition boundaryHeight (params : DSLParams) (nEpoch : Z) : Z :=
  if nDSLEpochInterval params >? 0 then Z.min ((nEpoch + 1) * nDSLEpochInterval params) INT_MAX else INT_MAX.

(** [BuildServiceCommitment] *)
Definition BuildServiceCommitment (nEpoch : Z) (epochBlockHash : uint256) (llmqType : Z) (quorumHash : uint256)
    (reports : list CPoSeServiceReport) (l : CDeterministicMNList) (params : DSLParams) : CPoSeServiceCommitment :=
  let version := RequiredServiceCommitmentVersion params (boundaryHeight params nEpoch) in
  let verdicts := map (target_verdict l params nEpoch epochBlockHash reports) (canonical_order l) in
  mkCommitment version nEpoch epochBlockHash llmqType quorumHash (map fst verdicts)
    (if version >=? OBSERVED_VERSION then map (fun v => (fst v || snd v)%bool) verdicts else []) [].

(** ** Applying a commitment *)

(** The state of one masternode after the epoch *)
Definition service_state (c : CPoSeServiceCommitment) (params : DSLParams) (nHeight : Z) (massOutage : bool) (i : nat)
    (st : CDeterministicMNState) : CDeterministicMNState :=
  let enforce := nHeight >=? nDSLEnforcementHeight params in
  let last := sc_nEpoch c in
  if massOutage then set_service st (nMissedEpochs st) last (fRewardSuspended st) (nDSLBanHeight st)
  else if negb (IsObserved c i) then set_service st (nMissedEpochs st) last (fRewardSuspended st) (nDSLBanHeight st)
  else if negb (default false (missed c !! i)) then
    set_service st 0 last (if enforce then false else fRewardSuspended st)
      (if (enforce && negb (nDSLBanHeight st =? -1))%bool then -1 else nDSLBanHeight st)
  else
    let n := u32 (nMissedEpochs st + 1) in
    set_service st n last
      (if (enforce && (i32 n >=? nDSLSuspendEpochs params))%bool then true else fRewardSuspended st)
      (if (enforce && (i32 n >=? nDSLBanEpochs params) && (nDSLBanHeight st =? -1))%bool then nHeight else nDSLBanHeight st).

Context (SerializeHash : UniqueProperty -> uint256).

(** The loop over the canonical order, from index [i] *)
Fixpoint apply_loop (c : CPoSeServiceCommitment) (params : DSLParams) (nHeight : Z) (massOutage : bool)
    (order : list uint256) (i : nat) (l : CDeterministicMNList) : outcome CDeterministicMNList :=
  match order with
  | [] => Ret l
  | h :: order' =>
      l' ← (match GetMN l h with
            | None => Ret l
            | Some dmn => UpdateMN SerializeHash l h (service_state c params nHeight massOutage i (pdmnState dmn))
            end);
      apply_loop c params nHeight massOutage order' (S i) l'
  end.

(** [massOutage] *)
Definition mass_outage (c : CPoSeServiceCommitment) (params : DSLParams) (size : nat) : bool :=
  ((0 <? size)%nat && (u64 (u64 (CountMissed c) * 100) >=? u64 (Z.of_nat size * u64 (nDSLMassOutagePct params))))%bool.

(** [CDeterministicMNList::ApplyServiceCommitment] *)
Definition ApplyServiceCommitment (l : CDeterministicMNList) (c : CPoSeServiceCommitment) (epochBaseList : CDeterministicMNList)
    (nHeight : Z) (params : DSLParams) : outcome CDeterministicMNList :=
  let order := canonical_order epochBaseList in
  if negb (length order =? length (missed c))%nat then Ret l
  else if ((sc_nVersion c >=? OBSERVED_VERSION) && negb (length (observed c) =? length order)%nat)%bool then Ret l
  else apply_loop c params nHeight (mass_outage c params (length order)) order 0 l.

End service.

Lemma i32_small z : is_i32 z -> i32 z = z.
Proof. unfold is_i32, i32. intros. rewrite Z.mod_small; lia. Qed.

(** ** Sentinel selection *)

Definition differs (target h : uint256) : bool := negb (bool_decide (h = target)).

(** A removal of one element that occurs at most once *)
Lemma filter_differs_length target l : NoDup l -> (length l <= S (length (List.filter (differs target) l)))%nat.
Proof.
  induction l as [|x l IH]; intros Hnd; [cbn; lia|]. apply NoDup_cons in Hnd as [Hx Hnd].
  cbn [List.filter]. unfold differs at 1. case_bool_decide as E; cbn [negb length]; [|specialize (IH Hnd); lia].
  subst. rewrite forallb_filter_id; [lia|]. apply forallb_forall. intros y Hy. unfold differs.
  rewrite bool_decide_eq_false_2; [done|]. intros ->. apply Hx. by apply list_elem_of_In.
Qed.

(** The first [n] elements other than [target] are among the first [n + 1]. *)
Lemma take_filter_differs target n l : NoDup l ->
  take n (List.filter (differs target) (take (S n) l)) = take n (List.filter (differs target) l).
Proof.
  intros Hnd. rewrite <- (take_drop (S n) l) at 2. rewrite List.filter_app.
  destruct (decide (length l <= S n)%nat) as [Hle|Hgt].
  { rewrite (drop_ge l) by done. cbn [List.filter]. by rewrite app_nil_r. }
  rewrite take_app_le; [done|].
  rewrite <- (take_drop (S n) l) in Hnd. apply NoDup_app in Hnd as (Hnd & _ & _).
  pose proof (filter_differs_length target _ Hnd) as H. rewrite length_take in H. lia.
Qed.

Lemma sentinel_loop_eq target count : forall head out, Z.of_nat (length out) < count ->
  sentinel_loop target count head out = out ++ take (Z.to_nat count - length out) (List.filter (differs target) head).
Proof.
  induction head as [|h head IH]; intros out Hlt; cbn [sentinel_loop List.filter].
  { by rewrite take_nil, app_nil_r. }
  unfold differs at 1. case_bool_decide as E; cbn [negb]; [by apply IH|].
  rewrite length_app. cbn [length]. destruct (Z.eqb_spec (Z.of_nat (length out + 1)) count) as [Hc|Hc].
  - replace (Z.to_nat count - length out)%nat with 1%nat by lia. cbn [take]. done.
  - rewrite IH by (rewrite length_app; cbn [length]; lia). rewrite length_app, <- app_assoc. cbn [length app]. f_equal.
    replace (Z.to_nat count - length out)%nat with (S (Z.to_nat count - (length out + 1)))%nat by lia. done.
Qed.

Section sentinels.

Context (Hash SHA256 : list Z -> uint256) (SerializeHash : UniqueProperty -> uint256).
Context (HSHA : forall x, blob_wf (SHA256 x)).

(** The registration hashes of a list are 32-byte values. *)
Definition hashes_wf (l : CDeterministicMNList) : Prop := forall h d, mnMap l !! h = Some d -> blob_wf h.

(** Masternodes that may be sentinels: not banned and confirmed *)
Definition eligible (l : CDeterministicMNList) (d : CDeterministicMN) : Prop :=
  mnMap l !! proTxHash d = Some d /\ IsBanned (pdmnState d) = false /\ IsNull (confirmedHash (pdmnState d)) = false.

Definition score_of (modifier : uint256) (d : CDeterministicMN) : list Z :=
  UintToArith256 (SHA256 (confirmedHashWithProRegTxHash (pdmnState d) ++ modifier)).

Lemma CalculateScores_spec l modifier s : list_wf SerializeHash l ->
  s ∈ CalculateScores SHA256 l modifier <-> eligible l s.2 /\ s.1 = score_of modifier s.2.
Proof.
  intros Hwf. unfold CalculateScores. change (map ?f ?x) with (f <$> x). rewrite list_elem_of_fmap.
  setoid_rewrite list_elem_of_In. setoid_rewrite filter_In. setoid_rewrite <- list_elem_of_In.
  setoid_rewrite (ForEachMN_spec SerializeHash l true _ Hwf). unfold eligible, IsMNValid, score_of. split.
  - intros (d & -> & (Hd & Hv) & Hc). cbn [fst snd]. specialize (Hv eq_refl). bool_hyps. done.
  - intros ((Hd & Hb & Hc) & Hs). exists s.2. destruct s as [x d]. cbn [fst snd] in *. subst x.
    rewrite Hb, Hc. done.
Qed.

Lemma CalculateScores_NoDup l modifier : list_wf SerializeHash l ->
  NoDup (map (fun s => proTxHash s.2) (CalculateScores SHA256 l modifier)).
Proof.
  intros Hwf. unfold CalculateScores. rewrite map_map. cbn [snd].
  by apply NoDup_map_filter, (ForEachMN_NoDup SerializeHash).
Qed.

(** Rank of a candidate: its score, then its registration hash *)
Definition rank (s : list Z * CDeterministicMN) : Z := val s.1 * 2^256 + be_val (proTxHash s.2).

Lemma rank_hash s t : blob_wf (proTxHash s.2) -> blob_wf (proTxHash t.2) -> rank s = rank t -> proTxHash s.2 = proTxHash t.2.
Proof.
  intros Hs Ht E. unfold rank in E. pose proof (be_val_lt _ Hs) as Bs. pose proof (be_val_lt _ Ht) as Bt.
  apply be_val_inj; [done|done|]. lia.
Qed.

Lemma by_score_keyed l modifier : list_wf SerializeHash l -> hashes_wf l ->
  keyed by_score rank (CalculateScores SHA256 l modifier).
Proof.
  intros Hwf Hh a b Ha Hb. apply CalculateScores_spec in Ha as [(Hda & _) Ea]; [|done].
  apply CalculateScores_spec in Hb as [(Hdb & _) Eb]; [|done].
  apply Hh in Hda, Hdb. pose proof (be_val_lt _ Hda) as Ba. pose proof (be_val_lt _ Hdb) as Bb.
  assert (bu_wf a.1 /\ bu_wf b.1) as [Wa Wb].
  { rewrite Ea, Eb. split; apply UintToArith256_spec; apply HSHA. }
  unfold by_score, rank. case_bool_decide as E; cbn [negb].
  - rewrite blob_lt_be by done. rewrite E. destruct (Z.ltb_spec (be_val (proTxHash a.2)) (be_val (proTxHash b.2))); symmetry.
    + apply Z.ltb_lt. lia.
    + apply Z.ltb_ge. lia.
  - assert (val a.1 <> val b.1) as Hne by (intros ?; by apply E, val_inj). rewrite bu_lt_spec by done.
    destruct (Z.ltb_spec (val a.1) (val b.1)); symmetry; [apply Z.ltb_lt|apply Z.ltb_ge]; nia.
Qed.

Definition sorted_scores (l : CDeterministicMNList) (target epochBlockHash : uint256) : list (list Z * CDeterministicMN) :=
  sort_by by_score (CalculateScores SHA256 l (Hash (target ++ epochBlockHash))).

(** The partial sort and the early exit compute the first [count] candidates of
    the whole order, the target left out. *)
Lemma CalcSentinelsForMN_eq l target epochBlockHash count : list_wf SerializeHash l -> 0 < count < 2^64 - 1 ->
  CalcSentinelsForMN Hash SHA256 l target epochBlockHash count =
    take (Z.to_nat count) (List.filter (differs target) (map (fun s => proTxHash s.2) (sorted_scores l target epochBlockHash))).
Proof.
  intros Hwf Hc. unfold CalcSentinelsForMN. cbv zeta. fold (sorted_scores l target epochBlockHash).
  set (scores := CalculateScores SHA256 l (Hash (target ++ epochBlockHash))).
  assert (Hp : sorted_scores l target epochBlockHash ≡ₚ scores) by apply sort_by_perm.
  set (sorted := sorted_scores l target epochBlockHash) in *.
  unfold u64. rewrite (Z.mod_small (count + 1)) by lia.
  rewrite sentinel_loop_eq by (cbn; lia). cbn [app length]. rewrite Nat.sub_0_r.
  replace (take (Z.to_nat (Z.min (count + 1) (Z.of_nat (length scores)))) sorted) with (take (S (Z.to_nat count)) sorted).
  2:{ rewrite <- Hp. destruct (decide (length sorted <= S (Z.to_nat count))%nat).
      - rewrite !take_ge by lia. done.
      - f_equal. lia. }
  change (map ?f (take ?n ?x)) with (f <$> take n x). rewrite fmap_take. apply take_filter_differs.
  change (NoDup (map (fun s => proTxHash s.2) sorted)). rewrite Hp. by apply CalculateScores_NoDup.
Qed.

End sentinels.

(** ** Aggregation of the reports *)

Section aggregation.

Context (VerifySig : CPoSeServiceReport -> option (list Z) -> uint256 -> bool).

(** The vote of a sentinel: the status in its first report, when its key is
    known and its signature verifies *)
Definition vote (l : CDeterministicMNList) (epochBlockHash : uint256) (reports : list CPoSeServiceReport) (s : uint256) : option Z :=
  r ← List.find (fun r => bool_decide (rp_sentinel r = s)) reports;
  d ← GetMN l s;
  if VerifySig r (pubKeyOperator (pdmnState d)) epochBlockHash then Some (rp_status r) else None.

(** How many of [sentinels] vote [status] *)
Definition votes (l : CDeterministicMNList) (epochBlockHash : uint256) (reports : list CPoSeServiceReport) (status : Z)
    (sentinels : list uint256) : Z :=
  Z.of_nat (length (filter (fun s => vote l epochBlockHash reports s = Some status) sentinels)).

Lemma vote_cons_ne l ebh r rs s : s <> rp_sentinel r -> vote l ebh (r :: rs) s = vote l ebh rs s.
Proof. intros Hne. unfold vote. cbn [List.find]. by rewrite bool_decide_eq_false_2. Qed.

Lemma vote_cons_eq l ebh r rs : vote l ebh (r :: rs) (rp_sentinel r) =
  d ← GetMN l (rp_sentinel r); if VerifySig r (pubKeyOperator (pdmnState d)) ebh then Some (rp_status r) else None.
Proof. unfold vote. cbn [List.find]. by rewrite bool_decide_eq_true_2. Qed.

Lemma votes_cons_ne l ebh r rs status ss : rp_sentinel r ∉ ss -> votes l ebh (r :: rs) status ss = votes l ebh rs status ss.
Proof.
  intros Hni. unfold votes. do 2 f_equal. induction ss as [|s ss IH]; [done|].
  apply not_elem_of_cons in Hni as [Hne Hni]. rewrite !filter_cons, vote_cons_ne by done. by rewrite IH.
Qed.

Lemma votes_split l ebh r rs status ss counted : NoDup ss -> rp_sentinel r ∈ ss -> rp_sentinel r ∉ counted ->
  votes l ebh (r :: rs) status (filter (.∉ counted) ss) =
    (if decide (vote l ebh (r :: rs) (rp_sentinel r) = Some status) then 1 else 0) +
    votes l ebh rs status (filter (.∉ rp_sentinel r :: counted) ss).
Proof.
  intros Hnd Hin Hnc.
  assert (filter (.∉ counted) ss ≡ₚ rp_sentinel r :: filter (.∉ rp_sentinel r :: counted) ss) as Hp.
  { apply NoDup_Permutation; [by apply NoDup_filter|constructor; [rewrite list_elem_of_filter; set_solver|by apply NoDup_filter]|].
    intros x. rewrite elem_of_cons, !list_elem_of_filter, not_elem_of_cons. destruct (decide (x = rp_sentinel r)); naive_solver. }
  rewrite <- (votes_cons_ne l ebh r rs) by (rewrite list_elem_of_filter; set_solver).
  unfold votes. rewrite Hp, filter_cons. case_decide; cbn [length]; lia.
Qed.

(** The loop counts every assigned sentinel once, by its vote. *)
Lemma tally_spec l ebh assigned : NoDup assigned -> forall rs counted m o,
  tally VerifySig l ebh assigned rs counted m o =
    (m + votes l ebh rs STATUS_MISSED (filter (.∉ counted) assigned),
     o + votes l ebh rs STATUS_ONLINE (filter (.∉ counted) assigned)).
Proof.
  intros Hnd. induction rs as [|r rs IH]; intros counted m o; cbn [tally].
  { assert (forall st ss, votes l ebh [] st ss = 0) as E.
    { intros st ss. unfold votes. induction ss as [|s ss IHs]; [done|]. rewrite filter_cons, decide_False by done. done. }
    rewrite !E. f_equal; lia. }
  case_bool_decide as Ha; cbn [negb].
  2:{ rewrite IH, !votes_cons_ne by (rewrite list_elem_of_filter; tauto). done. }
  case_bool_decide as Hc.
  { rewrite IH, !votes_cons_ne by (rewrite list_elem_of_filter; tauto). done. }
  rewrite !votes_split, !vote_cons_eq by done.
  destruct (GetMN l (rp_sentinel r)) as [d|]; cbn [mbind option_bind]; [|rewrite IH; f_equal; repeat case_decide; try done; lia].
  destruct (VerifySig r (pubKeyOperator (pdmnState d)) ebh); cbn [negb]; [|rewrite IH; f_equal; repeat case_decide; try done; lia].
  unfold STATUS_MISSED, STATUS_ONLINE in *.
  destruct (Z.eqb_spec (rp_status r) 2) as [E|E]; [|destruct (Z.eqb_spec (rp_status r) 1) as [E'|E']];
    rewrite IH; f_equal; repeat case_decide; simplify_eq; try congruence; lia.
Qed.

Lemma votes_le l ebh rs status ss : 0 <= votes l ebh rs status ss <= Z.of_nat (length ss).
Proof. unfold votes. pose proof (length_filter (fun s => vote l ebh rs s = Some status) ss). lia. Qed.

End aggregation.

(** ** The effect of a commitment on the list *)

Section applying.

Context (SerializeHash : UniqueProperty -> uint256).

Lemma canonical_order_spec l h : list_wf SerializeHash l -> h ∈ canonical_order l <-> is_Some (mnMap l !! h).
Proof.
  intros Hwf. unfold canonical_order. rewrite sort_by_perm. change (map ?f ?x) with (f <$> x). rewrite list_elem_of_fmap.
  setoid_rewrite (ForEachMN_spec SerializeHash l false _ Hwf). split.
  - intros (d & -> & Hd & _). by exists d.
  - intros [d Hd]. exists d. rewrite (lw_hash _ l Hwf h d Hd). done.
Qed.

Lemma canonical_order_NoDup l : list_wf SerializeHash l -> NoDup (canonical_order l).
Proof. intros Hwf. unfold canonical_order. rewrite sort_by_perm. by apply (ForEachMN_NoDup SerializeHash). Qed.

Lemma canonical_order_length l : list_wf SerializeHash l -> length (canonical_order l) = size (mnMap l).
Proof.
  intros Hwf. unfold canonical_order. rewrite sort_by_perm, length_map. unfold ForEachMN. cbn [negb orb].
  rewrite forallb_filter_id by (by apply forallb_forall). rewrite length_map. by rewrite length_map_to_list.
Qed.

Definition self_keyed (l : CDeterministicMNList) : Prop := forall h d, mnMap l !! h = Some d -> proTxHash d = h.

Lemma service_UpdateMN l h d c params nHeight mo i : mnMap l !! h = Some d -> self_keyed l ->
  let st := service_state c params nHeight mo i (pdmnState d) in
  UpdateMN SerializeHash l h st =
    Ret (with_maps l (<[h := with_state d st]> (mnMap l)) (mnInternalIdMap l) (mnUniquePropertyMap l)).
Proof.
  intros Hd Hk. cbv zeta. unfold UpdateMN. rewrite Hd. cbn [deref mbind outcome_bind].
  rewrite UpdateMN_entry_same by (unfold service_state; repeat case_match; done). by rewrite (Hk h d Hd).
Qed.

Lemma apply_loop_spec c params nHeight mo : forall order i l, NoDup order -> self_keyed l ->
  exists l', apply_loop SerializeHash c params nHeight mo order i l = Ret l' /\ mnInternalIdMap l' = mnInternalIdMap l /\
    mnUniquePropertyMap l' = mnUniquePropertyMap l /\
    (forall k h, order !! k = Some h -> mnMap l' !! h =
       (fun d => with_state d (service_state c params nHeight mo (i + k) (pdmnState d))) <$> (mnMap l !! h)) /\
    (forall h, h ∉ order -> mnMap l' !! h = mnMap l !! h).
Proof.
  induction order as [|h order IH]; intros i l Hnd Hk; cbn [apply_loop].
  { exists l. split_and!; try done. }
  apply NoDup_cons in Hnd as [Hh Hnd]. unfold GetMN. destruct (mnMap l !! h) as [d|] eqn:Hd; cycle 1.
  { cbn [mbind outcome_bind]. destruct (IH (S i) l Hnd Hk) as (l' & E & Hi & Hu & Hin & Hout). exists l'. split_and!; try done.
    - intros [|k] g Hg; cbn in Hg; [injection Hg as <-; rewrite Hout, Hd by done; done|].
      rewrite (Hin k g Hg). by rewrite Nat.add_succ_r.
    - intros g [_ Hg]%not_elem_of_cons. by apply Hout. }
  rewrite (service_UpdateMN l h d) by done. cbn [mbind outcome_bind].
  match goal with |- context [apply_loop _ _ _ _ _ _ _ ?x] => set (l1 := x) end.
  assert (self_keyed l1) as Hk1.
  { intros g e. cbn. rewrite lookup_insert_Some. intros [[<- <-]|[_ He]]; [cbn; by apply Hk|by apply Hk]. }
  destruct (IH (S i) l1 Hnd Hk1) as (l' & E & Hi & Hu & Hin & Hout). exists l'. split_and!; try done.
  - intros [|k] g Hg; cbn in Hg.
    + injection Hg as <-. rewrite Hout by done. cbn [l1 with_maps mnMap]. rewrite lookup_insert_eq, Hd. cbn. by rewrite Nat.add_0_r.
    + rewrite (Hin k g Hg). cbn [l1 with_maps mnMap]. rewrite lookup_insert_ne, Nat.add_succ_r; [done|].
      intros ->. apply Hh. by eapply list_elem_of_lookup_2.
  - intros g [Hne Hg]%not_elem_of_cons. rewrite Hout by done. cbn [l1 with_maps mnMap]. by rewrite lookup_insert_ne by done.
Qed.

End applying.

(** ** Properties *)

Lemma CalcSentinelsForMN_NoDup Hash SHA256 SerializeHash l target ebh count : list_wf SerializeHash l -> 0 < count < 2^64 - 1 ->
  NoDup (CalcSentinelsForMN Hash SHA256 l target ebh count) /\
  Z.of_nat (length (CalcSentinelsForMN Hash SHA256 l target ebh count)) <= count.
Proof.
  intros Hwf Hc. rewrite (CalcSentinelsForMN_eq _ _ SerializeHash) by done. split; [|rewrite length_take; lia].
  apply NoDup_take. rewrite filter_map. apply NoDup_map_filter. unfold sorted_scores. rewrite sort_by_perm.
  by apply (CalculateScores_NoDup SHA256 SerializeHash).
Qed.

Lemma filter_not_nil (l : list uint256) : filter (.∉ []) l = l.
Proof. induction l as [|x l IH]; [done|]. rewrite filter_cons, decide_True by apply not_elem_of_nil. by rewrite IH. Qed.

Lemma target_verdict_spec Hash SHA256 VerifySig SerializeHash l params nEpoch ebh reports target :
  list_wf SerializeHash l -> 0 < nDSLSentinelCount params <= INT_MAX ->
  let assigned := CalcSentinelsForMN Hash SHA256 l target ebh (nDSLSentinelCount params) in
  let about := List.filter (fun r => ((rp_nEpoch r =? nEpoch) && bool_decide (rp_target r = target))%bool) reports in
  let votes_for status := votes VerifySig l ebh about status assigned in
  let m := votes_for STATUS_MISSED >=? nDSLSentinelAgree params in
  target_verdict Hash SHA256 VerifySig l params nEpoch ebh reports target =
    (m, negb m && (votes_for STATUS_ONLINE >=? nDSLSentinelAgree params))%bool.
Proof.
  intros Hwf Hc. unfold INT_MAX in Hc. cbv zeta. unfold target_verdict.
  assert (u64 (nDSLSentinelCount params) = nDSLSentinelCount params) as -> by (unfold u64; apply Z.mod_small; lia).
  destruct (CalcSentinelsForMN_NoDup Hash SHA256 SerializeHash l target ebh (nDSLSentinelCount params) Hwf ltac:(lia)) as [Hnd Hlen].
  set (assigned := CalcSentinelsForMN _ _ _ _ _ _) in *. set (about := List.filter _ reports).
  rewrite tally_spec by done. rewrite filter_not_nil.
  pose proof (votes_le VerifySig l ebh about STATUS_MISSED assigned). pose proof (votes_le VerifySig l ebh about STATUS_ONLINE assigned).
  rewrite !Z.add_0_l. by rewrite !i32_small by (unfold is_i32; lia).
Qed.

Lemma Build_bitfields Hash SHA256 VerifySig nEpoch ebh ty qh reports l params :
  CheckServiceCommitmentBitfields (BuildServiceCommitment Hash SHA256 VerifySig nEpoch ebh ty qh reports l params) = Accept.
Proof.
  unfold CheckServiceCommitmentBitfields, BuildServiceCommitment. cbn [sc_nVersion missed observed].
  set (version := RequiredServiceCommitmentVersion _ _). set (vs := map _ (canonical_order l)).
  destruct (Z.ltb_spec version OBSERVED_VERSION); [done|]. rewrite (proj2 (Z.geb_le _ _)) by lia.
  rewrite !length_map, Nat.eqb_refl. cbn [negb]. clearbody vs.
  induction vs as [|[[] o] vs IH]; [done|exact IH|exact IH].
Qed.

(** C13: for a positive [count] the sentinels of a target are the first [count] masternodes, in the order
    of their scores and then of their registration hashes, among those that are
    confirmed, not banned and not the target itself: the partial sort of
    [count + 1] scores selects what sorting all of them would, no sentinel is
    selected twice, as many are selected as there are candidates up to [count],
    and a selected sentinel precedes every candidate that is left out. *)
Theorem CalcSentinelsForMN_correct (Hash SHA256 : list Z -> uint256) (SerializeHash : UniqueProperty -> uint256)
    (l : CDeterministicMNList) (target epochBlockHash : uint256) (count : Z) :
  (forall x, blob_wf (SHA256 x)) -> list_wf SerializeHash l -> hashes_wf l -> 0 < count < 2^64 - 1 ->
  let modifier := Hash (target ++ epochBlockHash) in
  let out := CalcSentinelsForMN Hash SHA256 l target epochBlockHash count in
  let candidate d := eligible l d /\ proTxHash d <> target in
  out = take (Z.to_nat count) (List.filter (differs target)
          (map (fun s => proTxHash s.2) (sort_by by_score (CalculateScores SHA256 l modifier)))) /\
  NoDup out /\
  (forall h, h ∈ out -> exists d, candidate d /\ proTxHash d = h) /\
  (Z.of_nat (length out) < count -> forall d, candidate d -> proTxHash d ∈ out) /\
  Z.of_nat (length out) <= count /\
  (forall d e, candidate d -> candidate e -> proTxHash d ∈ out -> proTxHash e ∉ out ->
     by_score (score_of SHA256 modifier d, d) (score_of SHA256 modifier e, e) = true).
Proof.
  intros HSHA Hwf Hh Hc. cbv zeta. set (modifier := Hash (target ++ epochBlockHash)).
  destruct (CalcSentinelsForMN_NoDup Hash SHA256 SerializeHash l target epochBlockHash count Hwf Hc) as [Hnd Hlen].
  pose proof (CalcSentinelsForMN_eq Hash SHA256 SerializeHash l target epochBlockHash count Hwf Hc) as E.
  set (out := CalcSentinelsForMN _ _ _ _ _ _) in *. unfold sorted_scores in E. fold modifier in E.
  split; [exact E|]. split; [exact Hnd|]. rewrite filter_map in E.
  set (ranked := List.filter _ _) in E. change (map ?f ?x) with (f <$> x) in E. rewrite <- fmap_take in E.
  assert (Hranked : forall s, s ∈ ranked <-> (eligible l s.2 /\ proTxHash s.2 <> target) /\ s.1 = score_of SHA256 modifier s.2).
  { intros s. unfold ranked. rewrite list_elem_of_In, filter_In, <- list_elem_of_In, sort_by_perm.
    rewrite (CalculateScores_spec SHA256 SerializeHash) by done. unfold differs. rewrite negb_true_iff, bool_decide_eq_false. tauto. }
  assert (Hdrop : forall d, eligible l d -> proTxHash d <> target -> proTxHash d ∉ out ->
    (score_of SHA256 modifier d, d) ∈ drop (Z.to_nat count) ranked).
  { intros d Hd Hne Hno. assert ((score_of SHA256 modifier d, d) ∈ ranked) as Hin by (by apply Hranked).
    rewrite <- (take_drop (Z.to_nat count) ranked), elem_of_app in Hin. destruct Hin as [Hin|]; [|done].
    destruct Hno. rewrite E. apply list_elem_of_fmap. by exists (score_of SHA256 modifier d, d). }
  split_and!; [| |exact Hlen|].
  - intros h. rewrite E. intros (s & -> & Hs)%list_elem_of_fmap. apply elem_of_take_1 in Hs. apply Hranked in Hs as [Hs _]. by exists s.2.
  - intros Hlt d [Hd Hne]. destruct (decide (proTxHash d ∈ out)) as [|Hno]; [done|]. pose proof (Hdrop d Hd Hne Hno) as Hin.
    rewrite E, length_fmap, length_take in Hlt. rewrite drop_ge in Hin by lia. by apply not_elem_of_nil in Hin.
  - intros d e [Hd Hned] [He Hnee] Hid Hoe. pose proof (Hdrop e He Hnee Hoe) as Hie.
    assert ((score_of SHA256 modifier d, d) ∈ take (Z.to_nat count) ranked) as Hit.
    { rewrite E in Hid. apply list_elem_of_fmap in Hid as ([x d'] & Hdd & Hin). pose proof (elem_of_take_1 _ _ _ Hin) as Hin'.
      apply Hranked in Hin' as [[(Hd' & _) _] Hx]. cbn [fst snd] in *. destruct Hd as (Hd & _). rewrite Hdd in Hd.
      assert (d' = d) as -> by congruence. by subst x. }
    rewrite (by_score_keyed SHA256 SerializeHash HSHA l modifier Hwf Hh) by (by apply (CalculateScores_spec SHA256 SerializeHash)).
    assert (rank (score_of SHA256 modifier d, d) <> rank (score_of SHA256 modifier e, e)) as Hne.
    { intros Hr%rank_hash; [cbn [snd] in Hr; congruence|eapply Hh, Hd|eapply Hh, He]. }
    assert (rank (score_of SHA256 modifier d, d) <= rank (score_of SHA256 modifier e, e)) as Hle; [|apply Z.ltb_lt; lia].
    apply (StronglySorted_split (fun a b => rank a <= rank b) (Z.to_nat count) ranked); [|done|done].
    apply StronglySorted_List_filter, sort_by_sorted. by apply (by_score_keyed SHA256 SerializeHash).
Qed.

Definition demo_sha (x : list Z) : uint256 := repeat 3 32.

Lemma demo_list_wf : list_wf demo_prop_hash demo_list.
Proof. apply mnlist_reachable_wf; [intros k; discriminate|exact demo_list_reachable]. Qed.

Lemma demo_list_map : mnMap demo_list = <[repeat 2 32 := demo_mn 2]> (<[repeat 1 32 := demo_mn 1]> ∅).
Proof. vm_compute. reflexivity. Qed.

Lemma repeat_blob_wf x : 0 <= x < 256 -> blob_wf (repeat x 32).
Proof. intros Hx. split; [apply repeat_length|]. apply List.Forall_forall. by intros y ->%repeat_spec. Qed.

Lemma demo_hashes_wf : hashes_wf demo_list.
Proof.
  intros h d. rewrite demo_list_map, !lookup_insert_Some. intros [[<- _]|[_ [[<- _]|[_ []%lookup_empty_Some]]]];
    by apply repeat_blob_wf.
Qed.

Lemma CalcSentinelsForMN_correct_witness :
  repeat 2 32 ∈ CalcSentinelsForMN demo_sha demo_sha demo_list (repeat 1 32) (repeat 6 32) 7 /\
  CalcSentinelsForMN demo_sha demo_sha demo_list (repeat 1 32) (repeat 6 32) 7 = [repeat 2 32].
Proof.
  destruct (CalcSentinelsForMN_correct demo_sha demo_sha demo_prop_hash demo_list (repeat 1 32) (repeat 6 32) 7
    ltac:(intros x; apply repeat_blob_wf; lia) demo_list_wf demo_hashes_wf ltac:(lia)) as (_ & _ & _ & Hall & _).
  split; [|vm_compute; reflexivity].
  apply (Hall ltac:(vm_compute; reflexivity) (demo_mn 2)).
  split; [split; [vm_compute; reflexivity|split; vm_compute; reflexivity]|discriminate].
Defined.

(** C12: the commitment built from the reports of an epoch has one bit per
    masternode of the epoch base, in the order of the registration hashes, has
    the version its boundary height requires and always passes the bitfield rule
    of block validation. A masternode is marked missed exactly when at least
    [nDSLSentinelAgree] of its assigned sentinels vote MISSED, and observed when
    that many vote one way; the vote of a sentinel is its first report about the
    masternode in that epoch, and counts only if its signature verifies. *)
Theorem BuildServiceCommitment_correct (Hash SHA256 : list Z -> uint256)
    (VerifySig : CPoSeServiceReport -> option (list Z) -> uint256 -> bool) (SerializeHash : UniqueProperty -> uint256)
    (nEpoch : Z) (epochBlockHash : uint256) (llmqType : Z) (quorumHash : uint256) (reports : list CPoSeServiceReport)
    (l : CDeterministicMNList) (params : DSLParams) :
  list_wf SerializeHash l -> 0 < nDSLSentinelCount params <= INT_MAX ->
  let c := BuildServiceCommitment Hash SHA256 VerifySig nEpoch epochBlockHash llmqType quorumHash reports l params in
  length (missed c) = size (mnMap l) /\
  CheckServiceCommitmentBitfields c = Accept /\
  (0 < nDSLEpochInterval params -> (nEpoch + 1) * nDSLEpochInterval params <= INT_MAX ->
     sc_nVersion c = RequiredServiceCommitmentVersion params ((nEpoch + 1) * nDSLEpochInterval params)) /\
  (forall i target, canonical_order l !! i = Some target ->
     let assigned := CalcSentinelsForMN Hash SHA256 l target epochBlockHash (nDSLSentinelCount params) in
     let about := List.filter (fun r => ((rp_nEpoch r =? nEpoch) && bool_decide (rp_target r = target))%bool) reports in
     let votes_for status := votes VerifySig l epochBlockHash about status assigned in
     (missed c !! i = Some true <-> nDSLSentinelAgree params <= votes_for STATUS_MISSED) /\
     (IsObserved c i = true <-> sc_nVersion c < OBSERVED_VERSION \/
        nDSLSentinelAgree params <= votes_for STATUS_MISSED \/ nDSLSentinelAgree params <= votes_for STATUS_ONLINE)).
Proof.
  intros Hwf Hcount. cbv zeta.
  set (verdict_of := target_verdict Hash SHA256 VerifySig l params nEpoch epochBlockHash reports).
  assert (Hv : forall target, let assigned := CalcSentinelsForMN Hash SHA256 l target epochBlockHash (nDSLSentinelCount params) in
     let about := List.filter (fun r => ((rp_nEpoch r =? nEpoch) && bool_decide (rp_target r = target))%bool) reports in
     let votes_for status := votes VerifySig l epochBlockHash about status assigned in
     let m := votes_for STATUS_MISSED >=? nDSLSentinelAgree params in
     verdict_of target = (m, negb m && (votes_for STATUS_ONLINE >=? nDSLSentinelAgree params))%bool)
    by (intros target; by apply (target_verdict_spec Hash SHA256 VerifySig SerializeHash)).
  split_and!.
  - unfold BuildServiceCommitment. cbn [missed]. rewrite !length_map. by apply (canonical_order_length SerializeHash).
  - apply Build_bitfields.
  - intros Hi Hm. unfold BuildServiceCommitment. cbn [sc_nVersion]. unfold boundaryHeight.
    rewrite (proj2 (Z.gtb_lt _ 0)) by lia. by rewrite Z.min_l.
  - intros i target Hi. specialize (Hv target). cbv zeta in Hv. unfold IsObserved, BuildServiceCommitment. cbn [missed observed sc_nVersion].
    set (version := RequiredServiceCommitmentVersion _ _). fold verdict_of.
    change (map ?f (map ?g ?x)) with (f <$> (g <$> x)). rewrite !list_lookup_fmap, Hi. cbn [fmap option_fmap option_map].
    rewrite Hv. cbn [fst snd]. split.
    + rewrite <- Z.geb_le. split; congruence.
    + rewrite orb_true_iff, Z.ltb_lt. destruct (Z.geb_spec version OBSERVED_VERSION).
      * rewrite !list_lookup_fmap, Hi. cbn. rewrite Hv. cbn [fst snd]. rewrite <- !Z.geb_le.
        destruct (_ >=? _), (_ >=? _); cbn; intuition (congruence || lia).
      * cbn. intuition (congruence || lia).
Qed.

(** Two reports of the second masternode about the first, in one epoch *)
Definition demo_dsl : DSLParams := mkDSL 100 100 24 0 4 5 100 7 1.
Definition demo_reports : list CPoSeServiceReport :=
  [mkServiceReport 9 (repeat 1 32) (repeat 2 32) STATUS_MISSED [1]; mkServiceReport 9 (repeat 1 32) (repeat 2 32) STATUS_ONLINE [1]].
Definition demo_verify (r : CPoSeServiceReport) (k : option (list Z)) (h : uint256) : bool := bool_decide (rp_sig r = [1]).

Lemma BuildServiceCommitment_correct_witness :
  let c := BuildServiceCommitment demo_sha demo_sha demo_verify 9 (repeat 6 32) 1 uint256_zero demo_reports demo_list demo_dsl in
  missed c !! 0%nat = Some true /\ missed c = [true; false] /\ observed c = [true; false] /\ sc_nVersion c = 2.
Proof.
  destruct (BuildServiceCommitment_correct demo_sha demo_sha demo_verify demo_prop_hash 9 (repeat 6 32) 1 uint256_zero
    demo_reports demo_list demo_dsl demo_list_wf ltac:(cbn; unfold INT_MAX; lia)) as (_ & _ & _ & Hbits).
  cbv zeta. split; [|vm_compute; auto].
  apply (Hbits 0%nat (repeat 1 32) ltac:(vm_compute; reflexivity)). vm_compute. discriminate.
Defined.

(** *** What a commitment does to one masternode *)

(** The verdict a commitment carries on an index: missed, online or none *)
Definition verdict_on (c : CPoSeServiceCommitment) (i : nat) : option bool := if IsObserved c i then missed c !! i else None.

(** The service rule: an epoch without a verdict, or with too many missed
    masternodes, only records that it passed; an online verdict resets the
    counter and, under enforcement, lifts the suspension and the service ban; a
    missed verdict advances the counter and, under enforcement, suspends and bans
    at the thresholds. The fields of the other ban domain never change. *)
Inductive service_step (params : DSLParams) (nEpoch nHeight : Z) (outage : Prop)
    : option bool -> CDeterministicMNState -> CDeterministicMNState -> Prop :=
| step_neutral v st : outage \/ v = None ->
    service_step params nEpoch nHeight outage v st
      (set_service st (nMissedEpochs st) nEpoch (fRewardSuspended st) (nDSLBanHeight st))
| step_online_watch st : ~ outage -> nHeight < nDSLEnforcementHeight params ->
    service_step params nEpoch nHeight outage (Some false) st
      (set_service st 0 nEpoch (fRewardSuspended st) (nDSLBanHeight st))
| step_online st : ~ outage -> nDSLEnforcementHeight params <= nHeight ->
    service_step params nEpoch nHeight outage (Some false) st (set_service st 0 nEpoch false (-1))
| step_missed_watch st : ~ outage -> nHeight < nDSLEnforcementHeight params ->
    service_step params nEpoch nHeight outage (Some true) st
      (set_service st (nMissedEpochs st + 1) nEpoch (fRewardSuspended st) (nDSLBanHeight st))
| step_missed st suspended ban : ~ outage -> nDSLEnforcementHeight params <= nHeight ->
    (suspended = true <-> fRewardSuspended st = true \/ nDSLSuspendEpochs params <= nMissedEpochs st + 1) ->
    (nDSLBanHeight st <> -1 \/ nMissedEpochs st + 1 < nDSLBanEpochs params -> ban = nDSLBanHeight st) ->
    (nDSLBanHeight st = -1 -> nDSLBanEpochs params <= nMissedEpochs st + 1 -> ban = nHeight) ->
    service_step params nEpoch nHeight outage (Some true) st
      (set_service st (nMissedEpochs st + 1) nEpoch suspended ban).

(** The mass-outage guard over unbounded integers *)
Definition outage_rule (c : CPoSeServiceCommitment) (params : DSLParams) (size : nat) : Prop :=
  (0 < size)%nat /\ nDSLMassOutagePct params * Z.of_nat size <= 100 * Z.of_nat (length (List.filter (fun b => b) (missed c))).

Lemma mass_outage_spec c params size : length (missed c) = size -> Z.of_nat size <= INT_MAX ->
  0 <= nDSLMassOutagePct params <= INT_MAX -> mass_outage c params size = true <-> outage_rule c params size.
Proof.
  intros Hl Hs Hp. unfold mass_outage, outage_rule, CountMissed, INT_MAX in *.
  assert (length (List.filter (fun b : bool => b) (missed c)) <= length (missed c))%nat as Hle by apply filter_length_le.
  rewrite i32_small by (unfold is_i32; lia). unfold u64.
  set (n := Z.of_nat (length (List.filter _ _))) in *. assert (0 <= n <= Z.of_nat size) by lia.
  rewrite !(Z.mod_small n), !(Z.mod_small (nDSLMassOutagePct params)), !Z.mod_small by nia.
  rewrite andb_true_iff, Nat.ltb_lt, Z.geb_le. split; intros [? ?]; split; lia.
Qed.

Lemma service_state_step c params nHeight i st size b :
  length (missed c) = size -> missed c !! i = Some b -> Z.of_nat size <= INT_MAX -> 0 <= nDSLMassOutagePct params <= INT_MAX ->
  0 <= nMissedEpochs st < INT_MAX ->
  service_step params (sc_nEpoch c) nHeight (outage_rule c params size) (verdict_on c i) st
    (service_state c params nHeight (mass_outage c params size) i st).
Proof.
  intros Hl Hi Hs Hp Hn. pose proof (mass_outage_spec c params size Hl Hs Hp) as Ho. unfold INT_MAX in *.
  unfold service_state, verdict_on. destruct (mass_outage c params size).
  { apply step_neutral. left. by apply Ho. }
  assert (~ outage_rule c params size) as Hno by (intros ?%Ho; done).
  destruct (IsObserved c i); cbn [negb]; [|apply step_neutral; by right]. rewrite Hi. cbn [default].
  assert (u32 (nMissedEpochs st + 1) = nMissedEpochs st + 1) as -> by (unfold u32; apply Z.mod_small; lia).
  rewrite i32_small by (unfold is_i32; lia).
  destruct b; cbn [negb from_option]; destruct (Z.geb_spec nHeight (nDSLEnforcementHeight params)); cbn [andb].
  - apply step_missed; [done|lia| | |].
    + destruct (Z.geb_spec (nMissedEpochs st + 1) (nDSLSuspendEpochs params)); intuition lia.
    + intros Hx. rewrite (proj2 (andb_false_iff _ _)); [done|].
      destruct (Z.geb_spec (nMissedEpochs st + 1) (nDSLBanEpochs params)), (Z.eqb_spec (nDSLBanHeight st) (-1)); auto. lia.
    + intros -> Hb. by rewrite (proj2 (Z.geb_le _ _)) by lia.
  - by apply step_missed_watch.
  - replace (if negb _ then _ else _) with (-1); [apply step_online; [done|lia]|].
    destruct (Z.eqb_spec (nDSLBanHeight st) (-1)); cbn; lia.
  - by apply step_online_watch.
Qed.

Lemma bitfields_observed c : CheckServiceCommitmentBitfields c = Accept ->
  ((sc_nVersion c >=? OBSERVED_VERSION) && negb (length (observed c) =? length (missed c))%nat)%bool = false.
Proof.
  unfold CheckServiceCommitmentBitfields. rewrite Z.geb_leb. destruct (Z.ltb_spec (sc_nVersion c) OBSERVED_VERSION).
  - rewrite (proj2 (Z.leb_gt _ _)) by lia. done.
  - destruct (length (observed c) =? length (missed c))%nat; [intros _; by rewrite andb_false_r|done].
Qed.

(** Commitments that fit the epoch base, and counters that have not saturated *)
Record applicable (l : CDeterministicMNList) (c : CPoSeServiceCommitment) (base : CDeterministicMNList) (params : DSLParams) : Prop := {
  ap_size : length (missed c) = size (mnMap base);
  ap_bits : CheckServiceCommitmentBitfields c = Accept;
  ap_int : Z.of_nat (size (mnMap base)) <= INT_MAX;
  ap_pct : 0 <= nDSLMassOutagePct params <= INT_MAX;
  ap_missed : forall h d, mnMap l !! h = Some d -> 0 <= nMissedEpochs (pdmnState d) < INT_MAX;
}.

Lemma ApplyServiceCommitment_spec SerializeHash l c base nHeight params :
  list_wf SerializeHash l -> list_wf SerializeHash base -> applicable l c base params ->
  exists l', ApplyServiceCommitment SerializeHash l c base nHeight params = Ret l' /\
    mnInternalIdMap l' = mnInternalIdMap l /\ mnUniquePropertyMap l' = mnUniquePropertyMap l /\
    (forall h, mnMap base !! h = None -> mnMap l' !! h = mnMap l !! h) /\
    (forall h, mnMap l !! h = None -> mnMap l' !! h = None) /\
    (forall i h d, canonical_order base !! i = Some h -> mnMap l !! h = Some d ->
       exists st', mnMap l' !! h = Some (with_state d st') /\
         service_step params (sc_nEpoch c) nHeight (outage_rule c params (size (mnMap base))) (verdict_on c i) (pdmnState d) st').
Proof.
  intros Hwf Hwb [Hsz Hbits Hint Hpct Hmiss]. unfold ApplyServiceCommitment.
  pose proof (canonical_order_length SerializeHash base Hwb) as Hlen. rewrite Hlen, Hsz, Nat.eqb_refl. cbn [negb].
  rewrite <- Hsz, bitfields_observed, Hsz by done.
  destruct (apply_loop_spec SerializeHash c params nHeight (mass_outage c params (size (mnMap base))) (canonical_order base) 0 l
    (canonical_order_NoDup SerializeHash base Hwb) (lw_hash SerializeHash l Hwf)) as (l' & E & Hi & Hu & Hin & Hout).
  exists l'. split_and!; try done.
  - intros h Hh. apply Hout. rewrite (canonical_order_spec SerializeHash) by done. rewrite Hh. by intros [? ?].
  - intros h Hh. destruct (decide (h ∈ canonical_order base)) as [[k Hk]%list_elem_of_lookup|Hno].
    + rewrite (Hin k h Hk), Hh. done.
    + by rewrite Hout.
  - intros i h d Ho Hd. rewrite (Hin i h Ho), Hd. cbn [fmap option_fmap option_map]. eexists. split; [reflexivity|].
    assert (i < length (missed c))%nat as Hlt by (rewrite Hsz, <- Hlen; by eapply lookup_lt_Some).
    apply lookup_lt_is_Some in Hlt as [b Hb]. eapply service_state_step; eauto.
Qed.

(** C11: applying a commitment that passed validation always returns, and does
    exactly what the service rule says to each masternode of the epoch base that
    is still registered, at its index of the canonical order; a masternode that
    was not in the base, every identifier and every unique property stay as they
    were, and nothing of the other ban domain is touched. *)
Theorem ApplyServiceCommitment_refines (SerializeHash : UniqueProperty -> uint256) (l : CDeterministicMNList)
    (c : CPoSeServiceCommitment) (base : CDeterministicMNList) (nHeight : Z) (params : DSLParams) :
  list_wf SerializeHash l -> list_wf SerializeHash base -> applicable l c base params ->
  exists l', ApplyServiceCommitment SerializeHash l c base nHeight params = Ret l' /\
    mnInternalIdMap l' = mnInternalIdMap l /\ mnUniquePropertyMap l' = mnUniquePropertyMap l /\
    (forall h, mnMap base !! h = None -> mnMap l' !! h = mnMap l !! h) /\
    (forall h, mnMap l !! h = None -> mnMap l' !! h = None) /\
    (forall i h d, canonical_order base !! i = Some h -> mnMap l !! h = Some d ->
       exists st', mnMap l' !! h = Some (with_state d st') /\
         service_step params (sc_nEpoch c) nHeight (outage_rule c params (size (mnMap base))) (verdict_on c i) (pdmnState d) st' /\
         nPoSeBanHeight st' = nPoSeBanHeight (pdmnState d) /\ nPoSePenalty st' = nPoSePenalty (pdmnState d) /\
         nPoSeRevivedHeight st' = nPoSeRevivedHeight (pdmnState d)).
Proof.
  intros Hwf Hwb Hap. destruct (ApplyServiceCommitment_spec SerializeHash l c base nHeight params Hwf Hwb Hap)
    as (l' & E & Hi & Hu & Hb & Hn & Hin).
  exists l'. split_and!; try done. intros i h d Ho Hd. destruct (Hin i h d Ho Hd) as (st' & Hl & Hs).
  exists st'. split_and!; [done|done|by inversion Hs..].
Qed.

(** The second masternode of the demo list missed an epoch. *)
Definition demo_commitment : CPoSeServiceCommitment :=
  mkCommitment 2 9 (repeat 6 32) 1 uint256_zero [false; true] [true; true] [].

Lemma demo_applicable : applicable demo_list demo_commitment demo_list demo_dsl.
Proof.
  constructor; [vm_compute; reflexivity|vm_compute; reflexivity|vm_compute; discriminate|cbn; unfold INT_MAX; lia|].
  intros h d. rewrite demo_list_map, !lookup_insert_Some. unfold INT_MAX.
  intros [[_ <-]|[_ [[_ <-]|[_ []%lookup_empty_Some]]]]; cbn; lia.
Qed.

Lemma ApplyServiceCommitment_refines_witness :
  exists l' st', ApplyServiceCommitment demo_prop_hash demo_list demo_commitment demo_list 240 demo_dsl = Ret l' /\
    mnMap l' !! repeat 2 32 = Some (with_state (demo_mn 2) st') /\
    service_step demo_dsl 9 240 (outage_rule demo_commitment demo_dsl 2) (Some true) (pdmnState (demo_mn 2)) st'.
Proof.
  destruct (ApplyServiceCommitment_refines demo_prop_hash demo_list demo_commitment demo_list 240 demo_dsl
    demo_list_wf demo_list_wf demo_applicable) as (l' & E & _ & _ & _ & _ & Hin).
  destruct (Hin 1%nat (repeat 2 32) (demo_mn 2) ltac:(vm_compute; reflexivity) ltac:(vm_compute; reflexivity))
    as (st' & Hl & Hs & _).
  exists l', st'. split; [exact E|split; [exact Hl|exact Hs]].
Defined.

(** *** Bans are earned *)

(** The suspension and the service ban are exactly what the counter says. *)
Definition service_ok (params : DSLParams) (st : CDeterministicMNState) : Prop :=
  (fRewardSuspended st = true <-> nDSLSuspendEpochs params <= nMissedEpochs st) /\
  (nDSLBanHeight st <> -1 <-> nDSLBanEpochs params <= nMissedEpochs st).

Lemma service_step_ok params nEpoch nHeight outage v st st' :
  0 < nDSLSuspendEpochs params -> 0 < nDSLBanEpochs params -> 0 <= nHeight -> nDSLEnforcementHeight params <= nHeight ->
  service_step params nEpoch nHeight outage v st st' -> service_ok params st -> service_ok params st'.
Proof.
  intros Hs Hb Hh He Hst [Hsu Hba]. unfold service_ok.
  destruct Hst as [v st _|st _ Hlt|st _ _|st _ Hlt|st suspended ban _ _ Hsus Hkeep Hnew]; cbn; [done|lia| |lia|].
  - split; [split; [done|lia]|split; [done|lia]].
  - split; [rewrite Hsus, Hsu; lia|].
    destruct (decide (nDSLBanHeight st = -1)) as [E|E]; [|rewrite (Hkeep (or_introl E)); lia].
    destruct (decide (nDSLBanEpochs params <= nMissedEpochs st + 1)) as [F|F]; [rewrite (Hnew E F); lia|].
    rewrite Hkeep by lia. lia.
Qed.

(** Under enforcement the service ban and the reward suspension are exactly
    earned: if every masternode of the list is suspended or service-banned just
    when its consecutive missed epochs reach the threshold, the same holds after
    any commitment is applied, so a masternode is banned after an epoch just
    when it is banned in the other domain or has missed [nDSLBanEpochs] judged
    epochs in a row. *)
Theorem ApplyServiceCommitment_earned (SerializeHash : UniqueProperty -> uint256) (l : CDeterministicMNList)
    (c : CPoSeServiceCommitment) (base : CDeterministicMNList) (nHeight : Z) (params : DSLParams) (l' : CDeterministicMNList) :
  list_wf SerializeHash l -> list_wf SerializeHash base -> applicable l c base params ->
  0 < nDSLSuspendEpochs params -> 0 < nDSLBanEpochs params -> 0 <= nHeight -> nDSLEnforcementHeight params <= nHeight ->
  ApplyServiceCommitment SerializeHash l c base nHeight params = Ret l' ->
  (forall h d, mnMap l !! h = Some d -> service_ok params (pdmnState d)) ->
  forall h d, mnMap l' !! h = Some d -> service_ok params (pdmnState d) /\
    (IsBanned (pdmnState d) = true <-> nPoSeBanHeight (pdmnState d) <> -1 \/ nDSLBanEpochs params <= nMissedEpochs (pdmnState d)).
Proof.
  intros Hwf Hwb Hap Hs Hb Hh He E Hok h d Hd.
  assert (service_ok params (pdmnState d)) as Hsk.
  { destruct (ApplyServiceCommitment_spec SerializeHash l c base nHeight params Hwf Hwb Hap)
      as (l2 & E2 & _ & _ & Hout & Hnone & Hin). rewrite E in E2. injection E2 as <-.
    destruct (mnMap l !! h) as [d0|] eqn:Hd0; [|rewrite Hnone in Hd; done].
    destruct (mnMap base !! h) as [b|] eqn:Hbh; [|rewrite Hout, Hd0 in Hd by done; injection Hd as <-; eauto].
    assert (h ∈ canonical_order base) as [i Hi]%list_elem_of_lookup by (apply (canonical_order_spec SerializeHash); [done|by exists b]).
    destruct (Hin i h d0 Hi Hd0) as (st' & Hl & Hst). rewrite Hl in Hd. injection Hd as <-. cbn [with_state pdmnState].
    eapply service_step_ok; [..|exact Hst|eauto]; done. }
  split; [done|]. destruct Hsk as [_ Hban]. rewrite <- Hban. unfold IsBanned. rewrite orb_true_iff.
  rewrite !negb_true_iff, !Z.eqb_neq. done.
Qed.

Lemma demo_service_ok h d : mnMap demo_list !! h = Some d -> service_ok demo_dsl (pdmnState d).
Proof.
  rewrite demo_list_map, !lookup_insert_Some. intros [[_ <-]|[_ [[_ <-]|[_ []%lookup_empty_Some]]]]; unfold service_ok; cbn;
    split; split; (done || lia).
Qed.

Definition demo_applied : CDeterministicMNList :=
  match ApplyServiceCommitment demo_prop_hash demo_list demo_commitment demo_list 240 demo_dsl with Ret l => l | Abort => demo_list end.

(** The second masternode after its missed epoch *)
Definition demo_missed : CDeterministicMN :=
  with_state (demo_mn 2) (set_service (pdmnState (demo_mn 2)) 1 9 false (-1)).

Lemma ApplyServiceCommitment_earned_witness : mnMap demo_applied !! repeat 2 32 = Some demo_missed /\
  service_ok demo_dsl (pdmnState demo_missed) /\ IsBanned (pdmnState demo_missed) = false.
Proof.
  assert (Hd : mnMap demo_applied !! repeat 2 32 = Some demo_missed) by (vm_compute; reflexivity).
  split; [exact Hd|]. split; [|reflexivity].
  apply (ApplyServiceCommitment_earned demo_prop_hash demo_list demo_commitment demo_list 240 demo_dsl demo_applied
    demo_list_wf demo_list_wf demo_applicable ltac:(cbn; lia) ltac:(cbn; lia) ltac:(lia) ltac:(cbn; lia)
    ltac:(vm_compute; reflexivity) demo_service_ok (repeat 2 32) demo_missed Hd).
Defined.

(** *** A service ban hides the other ban *)

(** The second masternode of the demo list, service-banned since height 200 *)
Definition hidden_start : outcome CDeterministicMNList :=
  UpdateMN demo_prop_hash demo_list (repeat 2 32) (set_service (pdmnState (demo_mn 2)) 5 8 true 200).

(** Its penalty then reaches the maximum, and the next commitment sees it online. *)
Definition hidden_run : outcome CDeterministicMNList :=
  l ← hidden_start;
  l ← PoSePunish demo_prop_hash l (repeat 2 32) 100;
  ApplyServiceCommitment demo_prop_hash l
    (mkCommitment 2 9 (repeat 6 32) 1 uint256_zero [false; false] [true; true] []) demo_list 240 demo_dsl.

(** [PoSePunish] tests the union of the two ban domains, so a masternode that
    reaches the maximum penalty during a service ban gets no ban of its own, and
    the service revival leaves it valid with the maximum penalty. *)
Lemma service_ban_hides_pose_ban :
  exists l d, hidden_run = Ret l /\ GetMN l (repeat 2 32) = Some d /\
    nPoSePenalty (pdmnState d) = CalcMaxPoSePenalty l /\ IsBanned (pdmnState d) = false.
Proof.
  assert (H : match hidden_run with
    | Ret l => match GetMN l (repeat 2 32) with
               | Some d => ((nPoSePenalty (pdmnState d) =? CalcMaxPoSePenalty l) && negb (IsBanned (pdmnState d)))%bool
               | None => false end
    | Abort => false end = true) by (vm_compute; reflexivity).
  destruct hidden_run as [l|]; [|done]. destruct (GetMN l (repeat 2 32)) as [d|] eqn:Hd; [|done].
  bool_hyps. exists l, d. split_and!; done.
Qed.
